(* ===== verification/_CoqProject ===== *)
-Q . S2P
Prelude.v
Effects.v
Unicode.v
PacketReader.v
PacketWriter.v
PacketCodec.v
BlowfishTables.v
Blowfish.v
Crypt.v
Keys.v
Rsa.v
GoStd.v
Sharding.v
SessionStore.v
SessionRegistry.v
RateLimiter.v
ServerList.v
BanManager.v
GsHandlers.v
Authenticator.v
Authentications.v
Metrics.v
Queries.v
BanStore.v
Settings.v
Database.v
Credentials.v
Logger.v
Connections.v
ClientHandlers.v
Listeners.v
Timeouts.v
System.v
Goroutines.v
Safety.v
Pool.v
Gauge.v
Journey.v
Main.v
Lifecycle.v
