(* ===== verification/Prelude.v ===== *)
(** * A verification of the l2go-auth login server

    The program is a Lineage II login server.  Game clients connect, log in with
    an RSA-encrypted password, choose a game server and are handed over to it;
    game servers connect on a second port, announce themselves, report players
    and ask whether an arriving player was handed over.

    ** The parts and the files that model them

    - [Prelude]: Go integers of a fixed width as [Z] with wrap-around
      ([u8] .. [i64]), bytes and Go strings (arbitrary byte sequences), slices,
      counted loops, and outcomes: a value, an error, or a run-time panic.  [M S A]
      is code that mutates an object of type [S]; the mutations made before an
      error is returned are kept.
    - [GoStd]: [time.Time] (nanoseconds since the zero time, saturating [Sub])
      and [netip.Addr].  [Unicode]: UTF-8 and UTF-16 as [unicode/utf8],
      [unicode/utf16] and [range] over a string define them.
    - [PacketReader], [PacketWriter] (pkg/network): the packet cursor and the
      pooled writer.  A writer is its backing array and a length, so the bytes
      earlier packets left in a pooled buffer are part of the state.
      [PacketCodec] states what the two promise to each other.
    - [BlowfishTables], [Blowfish] (pkg/crypto/blowfish_cipher.go): tables, key
      schedule, block functions, in-place passes over a byte range.  [Crypt]
      (internal/crypto/crypt.go): packet encryption on the pooled writer, and the
      peer's inverse of the xor pass as its specification.
    - [Keys] (pkg/crypto/blowfish_key.go, session_key.go), [Rsa]
      (pkg/crypto/scrambled_key.go): key pools, session keys, CRT decryption,
      the scrambled modulus, round robin.
    - [Sharding]: the 64-shard maps three components share, proved once against
      the class [ShardHash] of the hash of the keys; [SessionStore]
      (internal/session), [SessionRegistry] (internal/service/session_registry.go)
      and [RateLimiter] (internal/middleware/rate_limiter.go) are its clients.
    - [ServerList], [BanManager] (internal/service): the table of game servers
      and the bans.
    - [GsHandlers] (internal/packet/gs, internal/client/gs_client.go): the
      handlers of a game server's packets, composed from the reader, the writer
      and the services above, and the opcode dispatch.
    - [Authenticator] (internal/service/authenticator.go, kicker.go): the check of
      a password, auto-creation, the kick callbacks, proved against the classes
      [Bcrypt] and [AccountStore] of the password hash and the queries; an
      instance on finite maps shows that their laws can be met.  [Authentications] has the
      same code statement by statement, for logins that run at the same time.
    - [Queries] (internal/db, schemas/l2auth.sql): the tables and the queries on them,
      against the class [Postgres] of what the database does with single values; an
      instance of [AccountStore].  [BanStore]: the goroutines of the ban manager run on
      the tables, and a restart.
    - [Settings] (config), [Database] (pkg/database): the environment variables, and the
      opening of the pool.
    - [Metrics] (internal/metrics): what the code asks of the gauge and the counters.
    - [Effects]: reading and changing the state in [M], postconditions [ends],
      invariants [keeps] and [stays], frames [frame].
    - [Credentials] (internal/packet/client/login.go): from the encrypted blocks of
      a login packet to the name and the password.
    - [Connections] (internal/client): the objects of clients and game servers, how
      packets are sent to them, and [World], the state of the whole server.
    - [ClientHandlers] (internal/packet/client): the registry, the four handlers
      and [login_step], the statements of a login goroutine; its theorems are proved
      against the class [KickerLaws] of the kick callbacks.
    - [Listeners] (internal/listener): the callbacks of gnet on both ports (opening,
      framing of the bytes, closing, ticking), the kicks and the wiring of the kick
      manager, an instance of [KickerLaws].  [Timeouts]: what the ticks leave behind.
    - [System]: the inputs of the server, [exec] and [run], and what holds of logins
      and hand-offs in every run.  [Goroutines]: a login goroutine by itself among the
      steps of a run.  [Safety]: how the keys are generated, the opening of a
      connection, the invariant of the whole state and the inputs that can make it
      panic.  [Gauge]: the gauge of connections along a run.  [Journey]: a client's way
      from the connection to a game server.
    - [Main] (cmd/main.go): from the settings to a server that accepts connections.
      [Lifecycle]: the process around it, from there to its exit: the listeners'
      [OnBoot] and [OnShutdown], the shutdown in [main], and the ban manager's
      goroutines, whose context is cancelled.  [Logger] (pkg/logger): the level of the
      log.
    - [Pool] (pkg/network/packet_writer.go with its users in internal/client and
      internal/listener): the pooled writers with their backing arrays in a memory the
      goroutines share, and the sends statement by statement.

    A state record has a field per field of the Go struct that matters; an
    operation keeps the name of its Go method and takes the state last.  What
    the code gets from outside is an argument: random bytes, the instants
    [time.Now()] yields, the object a [sync.Pool] hands out, the capacity
    [append] chooses, the answers of the database, Unicode case folding.  Methods
    that hold a lock for their whole body are atomic; where a method takes
    several locks or releases one in between ([IsBanned], the sweeps of the
    collector, of [ClearServer] and of the limiter) its sections are separate
    operations, and the theorems quantify over any interleaving of operations (a
    run is a list of them).

    Objects behind Go pointers live in heaps indexed by connection, so handlers,
    goroutines and the listeners' tables see each other's assignments.  A callback of
    gnet is one step, and so is a statement of a login goroutine, [Authenticate]
    included ([Authentications] takes it apart): anything may happen between two of them.  Within a step a send is atomic,
    with any writer from the pool; [Pool] shows that this is sound for the sends
    ([Pool.pool_isolates]) and not for the Init packet ([Pool.init_packet_overwritten]).
    Other interleavings within the callbacks of two event loops are not in the model.  An [Env] gives a step what it gets from outside
    (clock, pools, random numbers, the order in which Go walks a map, whether a write
    fails), chosen anew for every step.  The network and the metrics are logs of what
    the code asked of them.

    ** What the theorems show

    - A player gets in ([Journey.player_gets_in]): at any time in the life of a server, a
      connection that passes the checks and plays by the protocol with the password of
      an account nobody is on gets every answer, in a form it can read, and the game
      server's validation request is answered positively.
    - Wire format: readers never panic and never leave the buffer whatever the
      packet; what a sender writes the peer reads back; the string writers
      overwrite all the room they reserve.
    - Cryptography: the cipher is a permutation for every key and reproduces
      published vectors; range passes are inverse and touch only the blocks of
      the range; a peer can undo the encryption of every packet; RSA decryption
      inverts encryption and is total; the modulus survives scrambling; session
      keys and pools are exactly the entropy they were made from.
    - Sessions: a sharded map is one map; a hand-off is used at most once, in
      time, by its account and identifiers only, collector or not; an account is
      admitted once; a kick needs a recent rejection; removal is exact.
    - Abuse control: at most twice the limit per window length and no refusal
      below the limit; a ban after exactly every n-th failure in a row, for its
      duration, never for a loopback address.
    - Game servers: no packet can crash a handler, and a server changes nothing
      but what is its own.
    - Clients: a login ends, releases its worker and has the outcome its credentials
      call for ([ClientHandlers.login_outcome]), also as a goroutine of a run
      ([Goroutines.login_goroutine]); no packet of a client crashes a
      handler or a login ([client_never_panics]); the name and password typed are the
      ones decoded ([Credentials.credentials_roundtrip]); what is sent can be read
      ([Connections.send_delivers]), the first packet included, and a connection is
      refused for the right reasons only ([Safety.open_outcome]).
    - The wire: frames are handled in order and whole ([Listeners.traffic_in_order]).
    - The whole server, in any run: whoever a game server lets in has logged in on the
      connection whose identifiers are presented ([System.admission_requires_login]);
      the state stays in order and nothing but a header that is too small makes the
      server panic ([Safety.server_runs_on], [Listeners.only_short_headers_panic]).
    - The start: every setting is what its variable says or is named in the log
      ([Settings.settings_spec]); the pool that is returned answers, every other is
      closed ([Database.OpenPool_spec]); the server that [main] starts has its limits
      from the settings and its bans from the table, and runs on
      ([Main.main_runs_on]).
    - The database: the queries on the tables are a directory of the accounts by
      lower-case name ([Queries.queries_refine]); the bans survive a restart of the
      manager ([BanStore.bans_survive_restart]) and of the whole server, whatever it
      does besides ([Lifecycle.server_bans_survive_restart]).
    - The end: a shutdown comes to its end whatever becomes of the listeners
      ([Lifecycle.shutdown_terminates]).
    - Accounts: a login that succeeds has a matching password and succeeds again;
      one that fails changes no account ([Authenticator.authenticate_again],
      [authenticate_failure]); logins that overlap agree on whose account it is
      ([Authentications.concurrent_logins_agree]).

    Theorems that record defects: [Crypt.Encrypt_later_packets] (encryption appends
    uninitialised bytes of the pooled buffer and the peer can read them),
    [BanManager.IsBanned_interleaved] (the loser of a race on an expired ban is told
    that the address is banned), [Listeners.only_short_headers_panic] (a frame header
    below 2, or 3 from a game server, crashes the process),
    [Listeners.traffic_in_order] (an incomplete frame at the end of a buffer is lost),
    [System.torn_identity] (two logins on one connection can leave the name of one
    account with the id of the other), [Queries.mixed_case_locked_out] (an account
    stored under a name with capitals can never log in), [BanStore.ban_lost_to_reordering]
    (the queries of two goroutines in the wrong order lose a ban),
    [Lifecycle.ban_lost_at_shutdown] (bans imposed while the server shuts down are not
    stored), [Authentications.first_logins_collide] (two first logins under a new name
    fail one another), [Timeouts.timeout_keeps_session] and [timeout_keeps_server] (a
    client or a game server that times out stays registered), [Pool.init_packet_overwritten] (a client may be sent the Init packet of
    another connection), [Gauge.gauge_drifts]
    (a kick leaves the gauge of connections too high), [Main.unset_limits] (a limit that
    is not set locks everybody out) and [Database.connection_string_ambiguous] (the
    values of the connection string are not quoted).

    ** Bounds and fuel

    Recursion on input is structural, or on the length of the input: decoding a
    rune consumes at least a byte ([Unicode.runes_fuel_enough]), the xor pass a
    word per step ([Crypt.encXorPass_spec] gives its result with the fuel chosen).
    The loop on frames has the length of the buffer as fuel: a frame consumes at least
    its header ([Listeners.frame_loop_cut]).  A login run by itself takes thirteen steps
    at most ([ClientHandlers.login_outcome]).  An [int] is 64 bits
    wide; lengths of slices are [nat] and bounded where a conversion could wrap (a packet
    has at most 65535 bytes).

    ** What is not modelled

    PostgreSQL, its driver, bcrypt, [crypto/rsa]'s key generation, gnet and Prometheus
    are outside: what the code relies on of them is a parameter with its laws as
    hypotheses ([Postgres], [Bcrypt], [rsa_ok], the arguments of [Main.main]), each with
    an instance that meets them.  The tables execute a query at once and alone; timeouts
    of a context are failures of a query.  The log entries and the histograms
    of durations are left out, as is the metrics endpoint of [cmd/main.go].  The event
    loops are gnet's: which callback comes next is any choice, and [Engine.Stop] returns
    nil only when they have ended, or an error.  No other goroutine runs while the
    server is being constructed. *)
From stdpp Require Import base gmap list numbers strings.
From coqutil Require Import Byte Word.LittleEndianList.
From Stdlib Require Import Lia ZArith.

Declare Scope go_scope.
Delimit Scope go_scope with go.
Local Open Scope Z_scope.

(** * Go integers

    A Go integer of width [w] is a [Z]; the conversions below are Go's integer
    conversions, which keep the low bits.  [int] is 64 bits wide. *)

Definition u8 (z : Z) : Z := z mod 2 ^ 8.
Definition u16 (z : Z) : Z := z mod 2 ^ 16.
Definition u32 (z : Z) : Z := z mod 2 ^ 32.
Definition u64 (z : Z) : Z := z mod 2 ^ 64.
Definition i16 (z : Z) : Z := (z + 2 ^ 15) mod 2 ^ 16 - 2 ^ 15.
Definition i32 (z : Z) : Z := (z + 2 ^ 31) mod 2 ^ 32 - 2 ^ 31.
Definition i64 (z : Z) : Z := (z + 2 ^ 63) mod 2 ^ 64 - 2 ^ 63.

Definition is_u8 (z : Z) : Prop := 0 <= z < 2 ^ 8.
Definition is_u16 (z : Z) : Prop := 0 <= z < 2 ^ 16.
Definition is_u32 (z : Z) : Prop := 0 <= z < 2 ^ 32.
Definition is_u64 (z : Z) : Prop := 0 <= z < 2 ^ 64.
Definition is_i16 (z : Z) : Prop := - 2 ^ 15 <= z < 2 ^ 15.
Definition is_i32 (z : Z) : Prop := - 2 ^ 31 <= z < 2 ^ 31.
Definition is_i64 (z : Z) : Prop := - 2 ^ 63 <= z < 2 ^ 63.

(** Decide the bounds of a goal about wrapped integers. *)
Ltac zmod :=
  unfold u8, u16, u32, u64, i16, i32, i64, is_u8, is_u16, is_u32, is_u64,
    is_i16, is_i32, is_i64 in *;
  Z.div_mod_to_equations; lia.

Lemma u8_range z : is_u8 (u8 z).
Proof. apply Z.mod_pos_bound; lia. Qed.
Lemma u16_range z : is_u16 (u16 z).
Proof. apply Z.mod_pos_bound; lia. Qed.
Lemma u32_range z : is_u32 (u32 z).
Proof. apply Z.mod_pos_bound; lia. Qed.
Lemma u64_range z : is_u64 (u64 z).
Proof. apply Z.mod_pos_bound; lia. Qed.
Lemma i16_range z : is_i16 (i16 z).
Proof. zmod. Qed.
Lemma i32_range z : is_i32 (i32 z).
Proof. zmod. Qed.
Lemma i64_range z : is_i64 (i64 z).
Proof. zmod. Qed.

Lemma u8_small z : is_u8 z -> u8 z = z.
Proof. apply Z.mod_small. Qed.
Lemma u16_small z : is_u16 z -> u16 z = z.
Proof. apply Z.mod_small. Qed.
Lemma u32_small z : is_u32 z -> u32 z = z.
Proof. apply Z.mod_small. Qed.
Lemma u64_small z : is_u64 z -> u64 z = z.
Proof. apply Z.mod_small. Qed.
Lemma i16_small z : is_i16 z -> i16 z = z.
Proof. intros. zmod. Qed.
Lemma i32_small z : is_i32 z -> i32 z = z.
Proof. intros. zmod. Qed.
Lemma i64_small z : is_i64 z -> i64 z = z.
Proof. intros. zmod. Qed.

(** A signed integer survives the detour through the unsigned type of its
    width: this is what the signed [Write]/[Read] pairs rely on. *)
Lemma i16_u16 z : i16 (u16 z) = i16 z.
Proof. zmod. Qed.
Lemma i32_u32 z : i32 (u32 z) = i32 z.
Proof. zmod. Qed.
Lemma i64_u64 z : i64 (u64 z) = i64 z.
Proof. zmod. Qed.

Create HintDb goint.
Create Rewrite HintDb goint.
#[export] Hint Resolve u8_range u16_range u32_range u64_range i16_range i32_range
  i64_range : goint.
#[export] Hint Rewrite i16_u16 i32_u32 i64_u64 : goint.
#[export] Hint Rewrite u8_small u16_small u32_small u64_small i16_small i32_small
  i64_small using assumption : goint.

(** ** Exclusive or on words *)

(** A non-negative number is below [2 ^ n] when its bits from [n] on are 0. *)
Lemma bits_bound (n a : Z) :
  0 <= n -> 0 <= a -> (forall i, n <= i -> Z.testbit a i = false) -> 0 <= a < 2 ^ n.
Proof.
  intros Hn Ha Hb. replace a with (a mod 2 ^ n); [apply Z.mod_pos_bound; lia|].
  apply Z.bits_inj'. intros i Hi. destruct (Z.lt_ge_cases i n).
  - by rewrite Z.mod_pow2_bits_low.
  - rewrite Z.mod_pow2_bits_high by lia. by rewrite Hb.
Qed.

Lemma testbit_high (n a i : Z) : 0 <= a < 2 ^ n -> 0 <= n <= i -> Z.testbit a i = false.
Proof.
  intros Ha Hi. rewrite <- (Z.mod_small a (2 ^ n)) by done. by apply Z.mod_pow2_bits_high.
Qed.

Lemma lxor_bound (n a b : Z) :
  0 <= n -> 0 <= a < 2 ^ n -> 0 <= b < 2 ^ n -> 0 <= Z.lxor a b < 2 ^ n.
Proof.
  intros Hn Ha Hb. apply bits_bound; [done|apply Z.lxor_nonneg; lia|].
  intros i Hi. rewrite Z.lxor_spec, !(testbit_high n) by lia. done.
Qed.

Lemma lor_bound (n a b : Z) :
  0 <= n -> 0 <= a < 2 ^ n -> 0 <= b < 2 ^ n -> 0 <= Z.lor a b < 2 ^ n.
Proof.
  intros Hn Ha Hb. apply bits_bound; [done|apply Z.lor_nonneg; lia|].
  intros i Hi. rewrite Z.lor_spec, !(testbit_high n) by lia. done.
Qed.

Lemma lxor_u32 a b : is_u32 a -> is_u32 b -> is_u32 (Z.lxor a b).
Proof. apply lxor_bound; lia. Qed.

Lemma lor_u32 a b : is_u32 a -> is_u32 b -> is_u32 (Z.lor a b).
Proof. apply lor_bound; lia. Qed.

Lemma lxor_u8 a b : is_u8 a -> is_u8 b -> is_u8 (Z.lxor a b).
Proof. apply lxor_bound; lia. Qed.

(** Xor-ing the same key twice gives back the word. *)
Lemma lxor_cancel a k : Z.lxor (Z.lxor a k) k = a.
Proof. by rewrite Z.lxor_assoc, Z.lxor_nilpotent, Z.lxor_0_r. Qed.

Lemma lxor_zero_iff a b : Z.lxor a b = 0 <-> a = b.
Proof. split; [apply Z.lxor_eq | intros ->; apply Z.lxor_nilpotent]. Qed.

#[export] Hint Resolve lxor_u32 lxor_u8 lor_u32 : goint.

(** * Bytes and byte strings

    A Go [byte] is one of the 256 constructors of [byte]; a [[]byte] and a Go
    [string] are both lists of bytes (a Go string is an arbitrary byte
    sequence, not necessarily valid UTF-8). *)

#[export] Instance byte_eq_dec : EqDecision byte := Byte.byte_eq_dec.

#[export] Program Instance byte_countable : Countable byte :=
  {| encode b := encode (Byte.to_N b);
     decode p := n ← decode p; Byte.of_N n |}.
Next Obligation. intros b. cbn. rewrite decode_encode. apply Byte.of_to_N. Qed.

Abbreviation gostring := (list byte).

(** A Go string literal of ASCII characters. *)
Definition go_str (s : String.string) : gostring := String.list_byte_of_string s.

Lemma byte_unsigned_range b : is_u8 (byte.unsigned b).
Proof. apply byte.unsigned_range. Qed.

Lemma byte_unsigned_u32 b : is_u32 (byte.unsigned b).
Proof. pose proof (byte_unsigned_range b). unfold is_u8, is_u32 in *. lia. Qed.

Lemma byte_of_Z_unsigned z : is_u8 z -> byte.unsigned (byte.of_Z z) = z.
Proof. intros H. rewrite byte.unsigned_of_Z. by apply Z.mod_small. Qed.

Lemma byte_eq_iff a b : a = b <-> byte.unsigned a = byte.unsigned b.
Proof. split; [by intros -> | apply byte.unsigned_inj]. Qed.

#[export] Hint Resolve byte_unsigned_range byte_unsigned_u32 : goint.
#[export] Hint Rewrite byte.of_Z_unsigned : goint.
#[export] Hint Rewrite byte_of_Z_unsigned using assumption : goint.

(** [a ^ b] on bytes. *)
Definition byte_xor (a b : byte) : byte :=
  byte.of_Z (Z.lxor (byte.unsigned a) (byte.unsigned b)).

Lemma byte_xor_cancel a k : byte_xor (byte_xor a k) k = a.
Proof.
  unfold byte_xor. rewrite byte_of_Z_unsigned by eauto with goint.
  rewrite lxor_cancel. apply byte.of_Z_unsigned.
Qed.

(** ** [encoding/binary.LittleEndian]: [PutUintN] writes [le_split], [UintN]
    reads [le_combine]. *)

Lemma le_combine_split_small n z :
  0 <= z < 2 ^ (Z.of_nat n * 8) -> le_combine (le_split n z) = z.
Proof. intros. rewrite le_combine_split. by apply Z.mod_small. Qed.

Lemma le_u16 z : le_combine (le_split 2 z) = u16 z.
Proof. apply le_combine_split. Qed.
Lemma le_u32 z : le_combine (le_split 4 z) = u32 z.
Proof. apply le_combine_split. Qed.
Lemma le_u64 z : le_combine (le_split 8 z) = u64 z.
Proof. apply le_combine_split. Qed.

Lemma le_combine_u32 l : length l = 4%nat -> is_u32 (le_combine l).
Proof. intros H. pose proof (le_combine_bound l). rewrite H in *. assumption. Qed.

#[export] Hint Rewrite le_u16 le_u32 le_u64 length_le_split : goint.
#[export] Hint Resolve le_combine_u32 : goint.

(** * Slices *)

(** [l[a:b]] for [0 <= a <= b <= len(l)]. *)
Definition slice {A} (a b : nat) (l : list A) : list A := take (b - a) (drop a l).

(** [copy(l[off:], bs)]: the elements of [l] from [off] are overwritten. *)
Definition splice {A} (off : nat) (bs l : list A) : list A :=
  take off l ++ bs ++ drop (off + length bs) l.

Lemma length_splice {A} off (bs l : list A) :
  (off + length bs <= length l)%nat -> length (splice off bs l) = length l.
Proof.
  intros. unfold splice. rewrite !length_app, length_take, length_drop. lia.
Qed.

Lemma length_slice {A} a b (l : list A) :
  (b <= length l)%nat -> length (slice a b l) = (b - a)%nat.
Proof. intros. unfold slice. rewrite length_take, length_drop. lia. Qed.

Lemma slice_splice {A} off (bs l : list A) :
  (off + length bs <= length l)%nat ->
  slice off (off + length bs) (splice off bs l) = bs.
Proof.
  intros. unfold slice, splice. replace (off + length bs - off)%nat with (length bs) by lia.
  rewrite drop_app_ge; rewrite length_take; [|lia].
  replace (off - off `min` length l)%nat with 0%nat by lia. rewrite drop_0.
  by rewrite take_app_length.
Qed.

Lemma lookup_splice_lt {A} off (bs l : list A) i :
  (i < off)%nat -> (off <= length l)%nat -> splice off bs l !! i = l !! i.
Proof.
  intros. unfold splice. rewrite lookup_app_l by (rewrite length_take; lia).
  by apply lookup_take_lt.
Qed.

Lemma lookup_splice_ge {A} off (bs l : list A) i :
  (off + length bs <= i)%nat -> (off <= length l)%nat -> splice off bs l !! i = l !! i.
Proof.
  intros. unfold splice. rewrite lookup_app_r by (rewrite length_take; lia).
  rewrite length_take, lookup_app_r by lia. rewrite lookup_drop. f_equal. lia.
Qed.

Lemma lookup_splice_in {A} off (bs l : list A) i :
  (off <= i < off + length bs)%nat -> (off <= length l)%nat ->
  splice off bs l !! i = bs !! (i - off)%nat.
Proof.
  intros. unfold splice. rewrite lookup_app_r by (rewrite length_take; lia).
  rewrite length_take, lookup_app_l by lia. f_equal. lia.
Qed.

Lemma slice_app_mid {A} (pre mid post : list A) :
  slice (length pre) (length pre + length mid) (pre ++ mid ++ post) = mid.
Proof.
  unfold slice. rewrite drop_app_length.
  replace (length pre + length mid - length pre)%nat with (length mid) by lia.
  apply take_app_length.
Qed.

Lemma slice_app_l {A} a b (pre old : list A) :
  slice (length pre + a) (length pre + b) (pre ++ old) = slice a b old.
Proof. unfold slice. rewrite drop_app_ge by lia. f_equal; [lia | f_equal; lia]. Qed.

Lemma splice_app_l {A} (pre bs old : list A) :
  splice (length pre) bs (pre ++ old) = pre ++ splice 0 bs old.
Proof.
  unfold splice. rewrite take_app_length, drop_app_ge by lia. simpl. do 3 f_equal. lia.
Qed.

Lemma slice_drop {A} a b (l : list A) : (a <= b)%nat -> drop a l = slice a b l ++ drop b l.
Proof.
  intros H. unfold slice. rewrite <- (take_drop (b - a) (drop a l)) at 1.
  rewrite drop_drop. do 2 f_equal. lia.
Qed.

Lemma splice_nil {A} off (l : list A) : splice off [] l = l.
Proof. unfold splice. simpl. rewrite Nat.add_0_r. apply take_drop. Qed.

Lemma splice_app_r {A} (bs l r : list A) :
  length bs = length r -> splice (length l) bs (l ++ r) = l ++ bs.
Proof.
  intros H. unfold splice. rewrite take_app_length, H, <- length_app, drop_all.
  by rewrite app_nil_r.
Qed.

(** * Options *)

(** The value of an option, if it has one that passes the test. *)
Definition keep_if {A} (p : A -> bool) (o : option A) : option A :=
  match o with
  | Some a => if p a then Some a else None
  | None => None
  end.

Lemma keep_if_Some {A} (p : A -> bool) o a :
  keep_if p o = Some a <-> o = Some a /\ p a = true.
Proof.
  unfold keep_if. destruct o as [b|]; [|split; [done|by intros [? ?]]].
  destruct (p b) eqn:E; split; try done; [by intros [= ->]|by intros [? _]|].
  intros [[= ->] ?]. congruence.
Qed.

(** * Bounded loops

    [for i := 0; i < n; i++ { body }] over a state: the state after the loop. *)
Definition for_range {S : Type} (n : nat) (body : nat -> S -> S) (s : S) : S :=
  foldl (λ s i, body i s) s (seq 0 n).

Lemma for_range_S {S : Type} n (body : nat -> S -> S) s :
  for_range (1 + n) body s = body n (for_range n body s).
Proof.
  unfold for_range. replace (1 + n)%nat with (n + 1)%nat by lia.
  rewrite seq_app, foldl_app. done.
Qed.

Lemma for_range_ext {S : Type} n (f g : nat -> S -> S) s :
  (forall i s, f i s = g i s) -> for_range n f s = for_range n g s.
Proof.
  intros H. induction n as [|n IH]; [done|].
  change (for_range (1 + n) f s = for_range (1 + n) g s). by rewrite !for_range_S, IH, H.
Qed.

(** The loop rule: an invariant indexed by the loop counter. *)
Lemma for_range_ind {S : Type} (P : nat -> S -> Prop) n body s :
  P 0%nat s ->
  (forall i s, (i < n)%nat -> P i s -> P (1 + i)%nat (body i s)) ->
  P n (for_range n body s).
Proof.
  intros H0 Hstep. cut (forall m, (m <= n)%nat -> P m (for_range m body s)).
  { intros H. by apply H. }
  induction m as [|m IH]; intros Hm; [done|].
  change (P (1 + m)%nat (for_range (1 + m) body s)).
  rewrite for_range_S. apply Hstep; [lia|]. apply IH. lia.
Qed.

(** * Outcomes

    What a Go function call of the server ends with: a value, a returned
    error, or a run-time panic.  An error is its message. *)

Abbreviation error := String.string.

Inductive outcome (A : Type) : Type :=
| Val (a : A)
| Fail (e : error)
| Panic.
Arguments Val {A} a.
Arguments Fail {A} e.
Arguments Panic {A}.

Definition is_panic {A} (o : outcome A) : bool :=
  match o with Panic => true | _ => false end.

(** Code that threads a mutable object of type [S]: the object keeps the
    mutations made before an error is returned. *)
Definition M (S A : Type) : Type := S -> outcome A * S.

#[export] Instance M_ret S : MRet (M S) := λ A a s, (Val a, s).
#[export] Instance M_bind S : MBind (M S) := λ A B k m s,
  match m s with
  | (Val a, s') => k a s'
  | (Fail e, s') => (Fail e, s')
  | (Panic, s') => (Panic, s')
  end.

(** [if err := cond { return err }]. *)
Definition fail {S A} (e : error) : M S A := λ s, (Fail e, s).
Definition panic {S A} : M S A := λ s, (Panic, s).

Lemma M_bind_val {S A B} (m : M S A) (k : A -> M S B) s a s' :
  m s = (Val a, s') -> (m ≫= k) s = k a s'.
Proof. intros H. unfold mbind, M_bind. by rewrite H. Qed.

Lemma M_bind_inv {S A B} (m : M S A) (k : A -> M S B) s b s'' :
  (m ≫= k) s = (Val b, s'') -> exists a s', m s = (Val a, s') /\ k a s' = (Val b, s'').
Proof.
  unfold mbind, M_bind. destruct (m s) as [[a|e|] s'] eqn:E; intros H; naive_solver.
Qed.
