(* ===== verification/Effects.v ===== *)
(** Reasoning about code in the monad [M]: reading and changing the state, and
    a postcondition predicate with its structural rules.  [ends E m s Q] says that
    [m], run in [s], returns a value that satisfies [Q], or returns an error with
    [E] true of the state it leaves, and does not panic; [frame R m] says that
    whatever the end, the states before and after are related by [R]. *)
From stdpp Require Import base gmap list numbers strings.
From S2P Require Import Prelude.

(** Read the state, replace it, change it. *)
Definition get {S} : M S S := λ s, (Val s, s).
Definition modify {S} (f : S -> S) : M S unit := λ s, (Val tt, f s).

(** [x, err := m()], the error handled by the caller. *)
Definition try {S A} (m : M S A) : M S (error + A) := λ s,
  match m s with
  | (Val a, s') => (Val (inr a), s')
  | (Fail e, s') => (Val (inl e), s')
  | (Panic, s') => (Panic, s')
  end.

(** [return err]. *)
Definition ret_err {S} (err : option error) : M S unit :=
  match err with Some e => fail e | None => mret tt end.

(** Code on one of two objects that are threaded together. *)
Definition on_fst {S T A} (m : M S A) : M (S * T) A := λ '(s, t),
  let '(o, s') := m s in (o, (s', t)).
Definition on_snd {S T A} (m : M T A) : M (S * T) A := λ '(s, t),
  let '(o, t') := m t in (o, (s, t')).

(** [for _, x := range xs { body(i, x) }]. *)
Fixpoint for_each {S A} (body : nat -> A -> M S unit) (i : nat) (xs : list A) : M S unit :=
  match xs with
  | [] => mret tt
  | x :: xs => _ ← body i x; for_each body (1 + i) xs
  end.

(** * Postconditions *)

Definition ends {S A} (E : S -> Prop) (m : M S A) (s : S) (Q : A -> S -> Prop) : Prop :=
  match m s with
  | (Val a, s') => Q a s'
  | (Fail _, s') => E s'
  | (Panic, _) => False
  end.

#[export] Instance ends_proper {S A} (E : S -> Prop) (m : M S A) (s : S) :
  Proper (pointwise_relation A (pointwise_relation S impl) ==> impl) (ends E m s).
Proof. intros Q Q' HQ. unfold ends. destruct (m s) as [[a|e|] s']; [apply HQ|done|done]. Qed.

Section Rules.
Context {S : Type} (E : S -> Prop).

Lemma ends_mono {A} (m : M S A) s (Q Q' : A -> S -> Prop) :
  ends E m s Q -> (forall a s', Q a s' -> Q' a s') -> ends E m s Q'.
Proof. intros H HQ. revert H. by apply ends_proper. Qed.

Lemma ends_ret {A} (a : A) s (Q : A -> S -> Prop) : Q a s -> ends E (mret a) s Q.
Proof. done. Qed.

Lemma ends_fail {A} e s (Q : A -> S -> Prop) : E s -> ends E (fail e) s Q.
Proof. done. Qed.

Lemma ends_bind {A B} (m : M S A) (k : A -> M S B) s Q :
  ends E m s (λ a s', ends E (k a) s' Q) -> ends E (m ≫= k) s Q.
Proof. unfold ends, mbind, M_bind. by destruct (m s) as [[a|e|] s']. Qed.

Lemma ends_get s (Q : S -> S -> Prop) : Q s s -> ends E get s Q.
Proof. done. Qed.

Lemma ends_modify f s (Q : unit -> S -> Prop) : Q tt (f s) -> ends E (modify f) s Q.
Proof. done. Qed.

Lemma ends_ret_err err s (Q : unit -> S -> Prop) : E s -> Q tt s -> ends E (ret_err err) s Q.
Proof. by destruct err. Qed.

Lemma ends_try {A} (m : M S A) s (Q : error + A -> S -> Prop) :
  ends (λ s', forall e, Q (inl e) s') m s (λ a s', Q (inr a) s') -> ends E (try m) s Q.
Proof. unfold ends, try. destruct (m s) as [[a|e|] s']; auto. Qed.

Lemma ends_no_panic {A} (m : M S A) s Q : ends E m s Q -> is_panic (m s).1 = false.
Proof. unfold ends. by destruct (m s) as [[a|e|] s']. Qed.

Lemma ends_for_each {A} (body : nat -> A -> M S unit) (I : S -> Prop) xs i s :
  I s -> (forall i x s, x ∈ xs -> I s -> ends E (body i x) s (λ _ s', I s')) ->
  ends E (for_each body i xs) s (λ _ s', I s').
Proof.
  revert i s. induction xs as [|x xs IH]; intros i s HI Hb; [done|]. cbn [for_each].
  apply ends_bind. eapply ends_mono; [apply Hb; [by left|done]|]. intros u s' HI'.
  apply IH; [done|]. intros. apply Hb; [by right|done].
Qed.
End Rules.

(** Component-wise code. *)
Lemma ends_on_fst {S T A} (E : S * T -> Prop) (m : M S A) s t Q :
  ends (λ s', E (s', t)) m s (λ a s', Q a (s', t)) -> ends E (on_fst m) (s, t) Q.
Proof. unfold ends, on_fst. destruct (m s) as [[a|e|] s']; auto. Qed.
Lemma ends_on_snd {S T A} (E : S * T -> Prop) (m : M T A) s t Q :
  ends (λ t', E (s, t')) m t (λ a t', Q a (s, t')) -> ends E (on_snd m) (s, t) Q.
Proof. unfold ends, on_snd. destruct (m t) as [[a|e|] t']; auto. Qed.

(** * Frames: what code leaves alone, however it ends *)

Definition frame {S A} (R : S -> S -> Prop) (m : M S A) : Prop := forall s, R s (m s).2.

Create HintDb frames.

Section Frames.
Context {S : Type} (R : S -> S -> Prop) `{!PreOrder R}.

Lemma frame_ret {A} (a : A) : frame R (mret a).
Proof. intros s. reflexivity. Qed.
Lemma frame_fail {A} e : frame R (A := A) (fail e).
Proof. intros s. reflexivity. Qed.
Lemma frame_panic {A} : frame R (A := A) panic.
Proof. intros s. reflexivity. Qed.
Lemma frame_get : frame R get.
Proof. intros s. reflexivity. Qed.
Lemma frame_ret_err err : frame R (ret_err err).
Proof. destruct err; [apply frame_fail|apply frame_ret]. Qed.
Lemma frame_modify f : (forall s, R s (f s)) -> frame R (modify f).
Proof. intros H s. apply H. Qed.
Lemma frame_bind {A B} (m : M S A) (k : A -> M S B) :
  frame R m -> (forall a, frame R (k a)) -> frame R (m ≫= k).
Proof.
  intros Hm Hk s. specialize (Hm s). unfold mbind, M_bind.
  destruct (m s) as [[a|e|] s']; cbn [snd] in *; [|done|done]. etrans; [done|apply Hk].
Qed.
Lemma frame_try {A} (m : M S A) : frame R m -> frame R (try m).
Proof. intros Hm s. specialize (Hm s). unfold try. by destruct (m s) as [[a|e|] s']. Qed.
Lemma frame_for_each {A} (body : nat -> A -> M S unit) i xs :
  (forall i x, frame R (body i x)) -> frame R (for_each body i xs).
Proof.
  intros Hb. revert i. induction xs as [|x xs IH]; intros i; [apply frame_ret|].
  apply frame_bind; [apply Hb|intros _; apply IH].
Qed.
End Frames.

#[export] Hint Resolve frame_ret frame_fail frame_panic frame_get frame_ret_err frame_modify
  frame_bind frame_try frame_for_each : frames.

Lemma frame_weaken {S A} (R R' : S -> S -> Prop) (m : M S A) :
  (forall s s', R s s' -> R' s s') -> frame R m -> frame R' m.
Proof. intros HR Hm s. apply HR, Hm. Qed.
Lemma frame_on_fst {S T A} (R : S * T -> S * T -> Prop) (m : M S A) :
  (forall s s' t, R (s, t) (s', t)) -> frame R (on_fst m).
Proof. intros H [s t]. unfold on_fst. destruct (m s) as [o s']. apply H. Qed.
Lemma frame_on_snd {S T A} (R : T -> T -> Prop) (m : M T A) :
  frame R m -> frame (λ p q : S * T, R p.2 q.2) (on_snd m).
Proof. intros H [s t]. specialize (H t). unfold on_snd. by destruct (m t) as [o t']. Qed.

(** * Invariants

    [keeps I P m]: started where [I] holds, [m] does not panic, leaves [I] true
    however it ends, and a value it returns satisfies [P]. *)
Definition keeps {S A} (I : S -> Prop) (P : A -> Prop) (m : M S A) : Prop :=
  forall s, I s -> ends I m s (λ a s', I s' /\ P a).

Create HintDb keeps.

Section Keeps.
Context {S : Type} (I : S -> Prop).

Lemma keeps_ret {A} (P : A -> Prop) a : P a -> keeps I P (mret a).
Proof. by intros HP s HI. Qed.
Lemma keeps_fail {A} (P : A -> Prop) e : keeps I P (fail e).
Proof. by intros s HI. Qed.
Lemma keeps_ret_err err : keeps I (λ _, True) (ret_err err).
Proof. destruct err; [apply keeps_fail|by apply keeps_ret]. Qed.
Lemma keeps_get : keeps I I get.
Proof. by intros s HI. Qed.
Lemma keeps_modify f : (forall s, I s -> I (f s)) -> keeps I (λ _, True) (modify f).
Proof. intros Hf s HI. split; [by apply Hf|done]. Qed.
Lemma keeps_bind {A B} (P : A -> Prop) (Q : B -> Prop) (m : M S A) (k : A -> M S B) :
  keeps I P m -> (forall a, P a -> keeps I Q (k a)) -> keeps I Q (m ≫= k).
Proof.
  intros Hm Hk s HI. apply ends_bind. eapply ends_mono; [by apply Hm|]. intros a s' [HI' HP].
  by apply Hk.
Qed.
Lemma keeps_try {A} (P : A -> Prop) (m : M S A) :
  keeps I P m -> keeps I (λ x, match x with inl _ => True | inr a => P a end) (try m).
Proof.
  intros Hm s HI. apply ends_try. specialize (Hm s HI). unfold ends in *.
  destruct (m s) as [[a|e|] s']; [done|by split|done].
Qed.
Lemma keeps_for_each {A} (body : nat -> A -> M S unit) xs i :
  (forall i x, keeps I (λ _, True) (body i x)) -> keeps I (λ _, True) (for_each body i xs).
Proof.
  intros Hb. revert i. induction xs as [|x xs IH]; intros i; [by apply keeps_ret|].
  eapply keeps_bind; [apply Hb|]. intros _ _. apply IH.
Qed.
Lemma keeps_weaken {A} (P Q : A -> Prop) (m : M S A) :
  keeps I P m -> (forall a, P a -> Q a) -> keeps I Q m.
Proof. intros Hm HPQ s HI. eapply ends_mono; [by apply Hm|]. intros a s' [? ?]. auto. Qed.
End Keeps.

Lemma keeps_on_fst {S T A} (I : S -> Prop) (J : T -> Prop) (P : A -> Prop) (m : M S A) :
  keeps I P m -> keeps (λ p, I p.1 /\ J p.2) P (on_fst m).
Proof.
  intros Hm [s t] [HI HJ]. apply ends_on_fst. specialize (Hm s HI). unfold ends in *. cbn.
  destruct (m s) as [[a|e|] s']; [by destruct Hm|done|done].
Qed.
Lemma keeps_on_snd {S T A} (I : S -> Prop) (J : T -> Prop) (P : A -> Prop) (m : M T A) :
  keeps J P m -> keeps (λ p, I p.1 /\ J p.2) P (on_snd m).
Proof.
  intros Hm [s t] [HI HJ]. apply ends_on_snd. specialize (Hm t HJ). unfold ends in *. cbn.
  destruct (m t) as [[a|e|] t']; [by destruct Hm|done|done].
Qed.

#[export] Hint Resolve keeps_fail keeps_ret_err keeps_get keeps_on_fst keeps_on_snd : keeps.

(** [stays I P m]: [m] leaves [I] true however it ends, a panic included, and a
    value it returns satisfies [P]. *)
Definition stays {S A} (I : S -> Prop) (P : A -> Prop) (m : M S A) : Prop :=
  forall s, I s -> I (m s).2 /\ forall a, (m s).1 = Val a -> P a.

Section Stays.
Context {S : Type} (I : S -> Prop).

Lemma stays_ret {A} (P : A -> Prop) a : P a -> stays I P (mret a).
Proof. intros HP s HI. split; [done|]. by intros a' [= <-]. Qed.
Lemma stays_fail {A} (P : A -> Prop) e : stays I P (fail e).
Proof. by intros s HI. Qed.
Lemma stays_panic {A} (P : A -> Prop) : stays I P panic.
Proof. by intros s HI. Qed.
Lemma stays_ret_err err : stays I (λ _, True) (ret_err err).
Proof. destruct err; [apply stays_fail|by apply stays_ret]. Qed.
Lemma stays_modify f : (forall s, I s -> I (f s)) -> stays I (λ _, True) (modify f).
Proof. intros Hf s HI. split; [by apply Hf|done]. Qed.
Lemma stays_get : stays I I get.
Proof. intros s HI. split; [done|]. by intros a [= <-]. Qed.
Lemma stays_bind {A B} (P : A -> Prop) (Q : B -> Prop) (m : M S A) (k : A -> M S B) :
  stays I P m -> (forall a, P a -> stays I Q (k a)) -> stays I Q (m ≫= k).
Proof.
  intros Hm Hk s HI. destruct (Hm s HI) as [HI' HP]. unfold mbind, M_bind.
  destruct (m s) as [[a|e|] s']; cbn [fst snd] in *; [|by split|by split].
  apply Hk; auto.
Qed.
Lemma stays_try {A} (P : A -> Prop) (m : M S A) : stays I P m -> stays I (λ _, True) (try m).
Proof.
  intros Hm s HI. destruct (Hm s HI) as [HI' _]. unfold try. by destruct (m s) as [[a|e|] s'].
Qed.
Lemma stays_frame {A} (R : S -> S -> Prop) (m : M S A) :
  frame R m -> (forall s s', R s s' -> I s -> I s') -> stays I (λ _, True) m.
Proof. intros Hm HR s HI. split; [by eapply HR|done]. Qed.
End Stays.

(** The second of two objects, when the first does not matter. *)
Lemma stays_fst {S T A} (J : T -> Prop) (m : M S A) :
  stays (λ p : S * T, J p.2) (λ _, True) (on_fst m).
Proof. intros [s t] HJ. unfold on_fst. by destruct (m s) as [o s']. Qed.
Lemma stays_snd {S T A} (J : T -> Prop) (P : A -> Prop) (m : M T A) :
  stays J P m -> stays (λ p : S * T, J p.2) P (on_snd m).
Proof.
  intros Hm [s t] HJ. cbn in HJ. destruct (Hm t HJ) as [HI HP]. unfold on_snd.
  by destruct (m t) as [o t'].
Qed.
