(* ===== verification/Unicode.v ===== *)
(** The part of Go's string semantics the server uses: ranging over the runes
    of a string (UTF-8 decoding with U+FFFD for invalid bytes), the conversion
    [string([]rune)], and [unicode/utf16]. *)
From stdpp Require Import base gmap list numbers.
From coqutil Require Import Byte Word.LittleEndianList.
From Stdlib Require Import Lia ZArith.
From S2P Require Import Prelude.
Local Open Scope Z_scope.

Definition RuneError : Z := 0xFFFD.

(** A Unicode scalar value: a code point that is not a surrogate. *)
Definition is_scalar (r : Z) : Prop := 0 <= r < 0xD800 \/ 0xE000 <= r <= 0x10FFFF.

Definition within (lo hi b : Z) : bool := (lo <=? b) && (b <=? hi).

(** The lead bytes of UTF-8: sequence length and range of the second byte. *)
Definition lead (b : Z) : option (nat * Z * Z) :=
  if within 0xC2 0xDF b then Some (2%nat, 0x80, 0xBF)
  else if b =? 0xE0 then Some (3%nat, 0xA0, 0xBF)
  else if within 0xE1 0xEC b then Some (3%nat, 0x80, 0xBF)
  else if b =? 0xED then Some (3%nat, 0x80, 0x9F)
  else if within 0xEE 0xEF b then Some (3%nat, 0x80, 0xBF)
  else if b =? 0xF0 then Some (4%nat, 0x90, 0xBF)
  else if within 0xF1 0xF3 b then Some (4%nat, 0x80, 0xBF)
  else if b =? 0xF4 then Some (4%nat, 0x80, 0x8F)
  else None.

Definition cont (b : byte) : bool := within 0x80 0xBF (byte.unsigned b).
Definition low6 (b : byte) : Z := byte.unsigned b mod 64.

(** [utf8.DecodeRuneInString]: the first rune and its width; an invalid
    sequence is U+FFFD of width 1. *)
Definition decode_rune (s : gostring) : Z * nat :=
  match s with
  | [] => (RuneError, 0%nat)
  | c0 :: t =>
    let b0 := byte.unsigned c0 in
    if b0 <? 0x80 then (b0, 1%nat)
    else match lead b0, t with
    | Some (2%nat, lo, hi), c1 :: _ =>
      if within lo hi (byte.unsigned c1) then (b0 mod 32 * 64 + low6 c1, 2%nat)
      else (RuneError, 1%nat)
    | Some (3%nat, lo, hi), c1 :: c2 :: _ =>
      if within lo hi (byte.unsigned c1) && cont c2
      then (b0 mod 16 * 4096 + low6 c1 * 64 + low6 c2, 3%nat)
      else (RuneError, 1%nat)
    | Some (4%nat, lo, hi), c1 :: c2 :: c3 :: _ =>
      if within lo hi (byte.unsigned c1) && cont c2 && cont c3
      then (b0 mod 8 * 262144 + low6 c1 * 4096 + low6 c2 * 64 + low6 c3, 4%nat)
      else (RuneError, 1%nat)
    | _, _ => (RuneError, 1%nat)
    end
  end.

(** [for _, r := range s]: the runes in order.  Every step consumes at least a
    byte, so the length of [s] is fuel enough ([runes_cons]). *)
Fixpoint runes_fuel (fuel : nat) (s : gostring) : list Z :=
  match fuel, s with
  | S fuel, _ :: _ =>
    let '(r, n) := decode_rune s in r :: runes_fuel fuel (drop n s)
  | _, _ => []
  end.
Definition runes (s : gostring) : list Z := runes_fuel (length s) s.

(** [utf8.AppendRune] for a code point; anything else encodes U+FFFD. *)
Definition encode_rune (r : Z) : gostring :=
  byte.of_Z <$>
  if within 0 0x7F r then [r]
  else if within 0x80 0x7FF r then [0xC0 + r / 64; 0x80 + r mod 64]
  else if within 0x800 0xD7FF r || within 0xE000 0xFFFF r then
    [0xE0 + r / 4096; 0x80 + r / 64 mod 64; 0x80 + r mod 64]
  else if within 0x10000 0x10FFFF r then
    [0xF0 + r / 262144; 0x80 + r / 4096 mod 64; 0x80 + r / 64 mod 64; 0x80 + r mod 64]
  else [0xEF; 0xBF; 0xBD].

(** [string(rs)] for [rs []rune]. *)
Definition string_of_runes (rs : list Z) : gostring := rs ≫= encode_rune.

(** A string is valid UTF-8 when no decoding step meets an invalid sequence. *)
Fixpoint utf8_valid_fuel (fuel : nat) (s : gostring) : bool :=
  match fuel, s with
  | S fuel, _ :: _ =>
    let '(r, n) := decode_rune s in
    negb ((r =? RuneError) && (n =? 1)%nat) && utf8_valid_fuel fuel (drop n s)
  | _, _ => true
  end.
Definition utf8_valid (s : gostring) : bool := utf8_valid_fuel (length s) s.

(** ** [unicode/utf16] *)

Definition utf16_encode_rune (r : Z) : Z * Z :=
  if within 0x10000 0x10FFFF r
  then (0xD800 + (r - 0x10000) / 1024, 0xDC00 + (r - 0x10000) mod 1024)
  else (RuneError, RuneError).

Definition utf16_decode_pair (r1 r2 : Z) : Z :=
  (r1 - 0xD800) * 1024 + (r2 - 0xDC00) + 0x10000.

(** [utf16.Decode]. *)
Fixpoint utf16_decode (us : list Z) : list Z :=
  match us with
  | [] => []
  | u :: us' =>
    if negb (within 0xD800 0xDFFF u) then u :: utf16_decode us'
    else match us' with
    | u2 :: us'' =>
      if within 0xD800 0xDBFF u && within 0xDC00 0xDFFF u2
      then utf16_decode_pair u u2 :: utf16_decode us''
      else RuneError :: utf16_decode us'
    | [] => [RuneError]
    end
  end.

(** * Lemmas *)

Lemma within_spec lo hi b : within lo hi b = true <-> lo <= b <= hi.
Proof. unfold within. rewrite andb_true_iff, !Z.leb_le. lia. Qed.

Lemma within_false lo hi b : within lo hi b = false <-> ~ lo <= b <= hi.
Proof. rewrite <- within_spec. by destruct (within lo hi b). Qed.

(** Turns the range tests of the context and the goal into inequalities. *)
Ltac within_cases :=
  repeat match goal with
  | H : within _ _ _ = true |- _ => apply within_spec in H
  | H : within _ _ _ = false |- _ => apply within_false in H
  | H : (_ =? _) = true |- _ => apply Z.eqb_eq in H
  | H : (_ =? _) = false |- _ => apply Z.eqb_neq in H
  | H : (_ && _)%bool = true |- _ => apply andb_true_iff in H as [? ?]
  | H : (_ || _)%bool = true |- _ => apply orb_true_iff in H as [H|H]
  | H : (_ || _)%bool = false |- _ => apply orb_false_iff in H as [? ?]
  | |- context [within ?a ?b ?c] => destruct (within a b c) eqn:?
  | |- context [?a =? ?b] => destruct (a =? b) eqn:?
  | |- context [?a <? ?b] => destruct (Z.ltb_spec a b)
  end.

Lemma decode_rune_width s : s ≠ [] -> (1 <= (decode_rune s).2)%nat.
Proof.
  destruct s as [|c0 t]; [done|]. intros _. unfold decode_rune.
  repeat case_match; simpl; lia.
Qed.

Lemma runes_fuel_enough n m s :
  (length s <= n)%nat -> (length s <= m)%nat -> runes_fuel n s = runes_fuel m s.
Proof.
  revert m s. induction n as [|n IH]; intros m s Hn Hm.
  { destruct s; simpl in *; [by destruct m | lia]. }
  destruct m as [|m]; [destruct s; simpl in *; [done | lia]|].
  destruct s as [|c t]; [done|]. cbn [runes_fuel].
  pose proof (decode_rune_width (c :: t) ltac:(done)).
  destruct (decode_rune (c :: t)) as [r k]. cbn [snd] in *. f_equal.
  apply IH; rewrite length_drop; simpl in *; lia.
Qed.

Lemma runes_cons s r n :
  s ≠ [] -> decode_rune s = (r, n) -> runes s = r :: runes (drop n s).
Proof.
  intros Hs Hd. pose proof (decode_rune_width s Hs) as Hw. rewrite Hd in Hw. simpl in Hw.
  destruct s as [|c t]; [done|]. unfold runes at 1. cbn [length runes_fuel].
  rewrite Hd. f_equal. apply runes_fuel_enough; rewrite ?length_drop; simpl; lia.
Qed.

(** ** UTF-8 round trips *)

Lemma unsigned_of_small z : 0 <= z < 256 -> byte.unsigned (byte.of_Z z) = z.
Proof. intros. apply byte_of_Z_unsigned. unfold is_u8. lia. Qed.

(** The last six bits of a continuation byte, and the payload of a lead byte. *)
Lemma low6_cont c : 0 <= c < 64 -> low6 (byte.of_Z (0x80 + c)) = c.
Proof. intros. unfold low6. rewrite unsigned_of_small by lia. Z.div_mod_to_equations; lia. Qed.

Lemma cont_of c : 0 <= c < 64 -> cont (byte.of_Z (0x80 + c)) = true.
Proof. intros. unfold cont. rewrite unsigned_of_small by lia. apply within_spec. lia. Qed.

Ltac decode_tac :=
  intros; unfold decode_rune; rewrite ?low6_cont, ?cont_of, !unsigned_of_small by lia;
  unfold lead; within_cases; cbn [andb]; try lia; f_equal; Z.div_mod_to_equations; lia.

Lemma decode_rune_2 a b s :
  2 <= a < 32 -> 0 <= b < 64 ->
  decode_rune (byte.of_Z (0xC0 + a) :: byte.of_Z (0x80 + b) :: s) = (a * 64 + b, 2%nat).
Proof. decode_tac. Qed.

Lemma decode_rune_3 a b c s :
  0 <= a < 16 -> 0 <= b < 64 -> 0 <= c < 64 ->
  (a = 0 -> 32 <= b) -> (a = 13 -> b < 32) ->
  decode_rune (byte.of_Z (0xE0 + a) :: byte.of_Z (0x80 + b) :: byte.of_Z (0x80 + c) :: s)
  = (a * 4096 + b * 64 + c, 3%nat).
Proof. decode_tac. Qed.

Lemma decode_rune_4 a b c d s :
  0 <= a < 5 -> 0 <= b < 64 -> 0 <= c < 64 -> 0 <= d < 64 ->
  (a = 0 -> 16 <= b) -> (a = 4 -> b < 16) ->
  decode_rune (byte.of_Z (0xF0 + a) :: byte.of_Z (0x80 + b) :: byte.of_Z (0x80 + c)
               :: byte.of_Z (0x80 + d) :: s)
  = (a * 262144 + b * 4096 + c * 64 + d, 4%nat).
Proof. decode_tac. Qed.

Lemma decode_encode_rune r s :
  is_scalar r -> decode_rune (encode_rune r ++ s) = (r, length (encode_rune r)).
Proof.
  intros Hr. unfold is_scalar in Hr. unfold encode_rune. 
  destruct (within 0 0x7F r) eqn:H1; [|destruct (within 0x80 0x7FF r) eqn:H2;
    [|destruct (within 0x800 0xD7FF r || within 0xE000 0xFFFF r) eqn:H3;
      [|destruct (within 0x10000 0x10FFFF r) eqn:H4]]]; within_cases; try lia;
  cbn [fmap list_fmap app length].
  - cbn [decode_rune]. rewrite unsigned_of_small by lia. within_cases; [done | lia].
  - rewrite decode_rune_2; [f_equal|..]; Z.div_mod_to_equations; lia.
  - rewrite decode_rune_3; [f_equal|..]; Z.div_mod_to_equations; lia.
  - rewrite decode_rune_3; [f_equal|..]; Z.div_mod_to_equations; lia.
  - rewrite decode_rune_4; [f_equal|..]; Z.div_mod_to_equations; lia.
Qed.

(** What a successful decoding step says about the bytes it consumed. *)
Variant decoded : gostring -> Z -> nat -> Prop :=
| decoded_1 b s :
    0 <= byte.unsigned b < 0x80 -> decoded (b :: s) (byte.unsigned b) 1
| decoded_2 a b s :
    2 <= a < 32 -> 0 <= b < 64 ->
    decoded (byte.of_Z (0xC0 + a) :: byte.of_Z (0x80 + b) :: s) (a * 64 + b) 2
| decoded_3 a b c s :
    0 <= a < 16 -> 0 <= b < 64 -> 0 <= c < 64 ->
    (a = 0 -> 32 <= b) -> (a = 13 -> b < 32) ->
    decoded (byte.of_Z (0xE0 + a) :: byte.of_Z (0x80 + b) :: byte.of_Z (0x80 + c) :: s)
      (a * 4096 + b * 64 + c) 3
| decoded_4 a b c d s :
    0 <= a < 5 -> 0 <= b < 64 -> 0 <= c < 64 -> 0 <= d < 64 ->
    (a = 0 -> 16 <= b) -> (a = 4 -> b < 16) ->
    decoded (byte.of_Z (0xF0 + a) :: byte.of_Z (0x80 + b) :: byte.of_Z (0x80 + c)
               :: byte.of_Z (0x80 + d) :: s)
      (a * 262144 + b * 4096 + c * 64 + d) 4
| decoded_bad s : decoded s RuneError 1.

Lemma lead_inv b0 n lo hi :
  lead b0 = Some (n, lo, hi) ->
  (n = 2%nat /\ 0xC2 <= b0 <= 0xDF /\ lo = 0x80 /\ hi = 0xBF) \/
  (n = 3%nat /\ 0xE0 <= b0 <= 0xEF /\ 0x80 <= lo /\ hi <= 0xBF /\
     (b0 = 0xE0 -> lo = 0xA0) /\ (b0 = 0xED -> hi = 0x9F)) \/
  (n = 4%nat /\ 0xF0 <= b0 <= 0xF4 /\ 0x80 <= lo /\ hi <= 0xBF /\
     (b0 = 0xF0 -> lo = 0x90) /\ (b0 = 0xF4 -> hi = 0x8F)).
Proof. unfold lead. intros H. repeat case_match; simplify_eq; within_cases; lia. Qed.

(** Write a byte of a known range as an offset from the start of the range. *)
Lemma byte_offset base b :
  0 <= base <= byte.unsigned b -> b = byte.of_Z (base + (byte.unsigned b - base)).
Proof.
  intros. replace (base + (byte.unsigned b - base)) with (byte.unsigned b) by lia.
  by rewrite byte.of_Z_unsigned.
Qed.

Lemma cont_inv b : cont b = true -> 0x80 <= byte.unsigned b <= 0xBF.
Proof. apply within_spec. Qed.

Lemma mod_offset base m b : 0 < m -> 0 <= base -> base mod m = 0 -> 0 <= b - base < m -> b mod m = b - base.
Proof.
  intros Hm Hb H0 Hr. rewrite <- (Z.mod_small (b - base) m) by lia.
  rewrite Zminus_mod, H0, Z.sub_0_r, Z.mod_mod by lia. done.
Qed.

Lemma decode_rune_inv s r n : s ≠ [] -> decode_rune s = (r, n) -> decoded s r n.
Proof.
  destruct s as [|c0 t]; [done|]. intros _. pose proof (byte_unsigned_range c0) as H0.
  unfold decode_rune. destruct (Z.ltb_spec (byte.unsigned c0) 0x80).
  { intros [= <- <-]. constructor. unfold is_u8 in H0. lia. }
  destruct (lead (byte.unsigned c0)) as [[[k lo] hi]|] eqn:Hl;
    [|intros [= <- <-]; constructor].
  pose proof (lead_inv _ _ _ _ Hl) as [(-> & ?)|[(-> & ?)|(-> & ?)]];
    repeat case_match; intros [= <- <-]; try apply decoded_bad;
    within_cases; destruct_and?;
    repeat match goal with H : cont _ = true |- _ => apply cont_inv in H end.
  - rewrite (byte_offset 0xC0 c0), (byte_offset 0x80 b) at 1 by lia.
    unfold low6. rewrite (mod_offset 0xC0 32), (mod_offset 0x80 64) by (try done; lia).
    constructor; lia.
  - rewrite (byte_offset 0xE0 c0), (byte_offset 0x80 b), (byte_offset 0x80 b0) at 1 by lia.
    unfold low6. rewrite (mod_offset 0xE0 16), !(mod_offset 0x80 64) by (try done; lia).
    constructor; lia.
  - rewrite (byte_offset 0xF0 c0), (byte_offset 0x80 b), (byte_offset 0x80 b0), (byte_offset 0x80 b1) at 1 by lia.
    unfold low6. rewrite (mod_offset 0xF0 8), !(mod_offset 0x80 64) by (try done; lia).
    constructor; lia.
Qed.

Lemma decoded_scalar s r n : decoded s r n -> is_scalar r.
Proof. unfold is_scalar. destruct 1; unfold RuneError; lia. Qed.

Lemma encode_1 r : 0 <= r < 0x80 -> encode_rune r = [byte.of_Z r].
Proof. intros. unfold encode_rune. within_cases; try done; lia. Qed.

Ltac encode_tac :=
  intros; unfold encode_rune; within_cases; cbn [orb]; try lia;
  cbn [fmap list_fmap]; repeat (apply (f_equal2 cons); [apply (f_equal byte.of_Z)|]);
  try reflexivity; Z.div_mod_to_equations; lia.

Lemma encode_2 a b :
  2 <= a < 32 -> 0 <= b < 64 ->
  encode_rune (a * 64 + b) = byte.of_Z <$> [0xC0 + a; 0x80 + b].
Proof. encode_tac. Qed.

Lemma encode_3 a b c :
  0 <= a < 16 -> 0 <= b < 64 -> 0 <= c < 64 -> (a = 0 -> 32 <= b) -> (a = 13 -> b < 32) ->
  encode_rune (a * 4096 + b * 64 + c) = byte.of_Z <$> [0xE0 + a; 0x80 + b; 0x80 + c].
Proof. encode_tac. Qed.

Lemma encode_4 a b c d :
  0 <= a < 5 -> 0 <= b < 64 -> 0 <= c < 64 -> 0 <= d < 64 ->
  (a = 0 -> 16 <= b) -> (a = 4 -> b < 16) ->
  encode_rune (a * 262144 + b * 4096 + c * 64 + d)
  = byte.of_Z <$> [0xF0 + a; 0x80 + b; 0x80 + c; 0x80 + d].
Proof. encode_tac. Qed.

(** A step that is not an error re-encodes to the bytes it consumed. *)
Lemma encode_decoded s r n :
  decoded s r n -> ~ (r = RuneError /\ n = 1%nat) -> encode_rune r ++ drop n s = s.
Proof.
  destruct 1; intros Hok; [| | | |by destruct Hok].
  - rewrite encode_1 by lia. by rewrite byte.of_Z_unsigned.
  - by rewrite encode_2.
  - by rewrite encode_3.
  - by rewrite encode_4.
Qed.

Lemma runes_nil : runes [] = [].
Proof. done. Qed.

Lemma encode_rune_nonempty r : encode_rune r ≠ [].
Proof. unfold encode_rune. by repeat case_match. Qed.

(** Decoding what [string(rs)] encodes gives the runes back. *)
Lemma runes_string_of_runes rs : Forall is_scalar rs -> runes (string_of_runes rs) = rs.
Proof.
  induction 1 as [|r rs Hr _ IH]; [done|]. cbn [string_of_runes mbind list_bind].
  rewrite (runes_cons _ r (length (encode_rune r))).
  - f_equal. rewrite drop_app_length. exact IH.
  - pose proof (encode_rune_nonempty r). by destruct (encode_rune r).
  - by apply decode_encode_rune.
Qed.

(** Induction along the decoding loop. *)
Lemma runes_ind (P : gostring -> list Z -> Prop) :
  P [] [] ->
  (forall s r n, s ≠ [] -> decode_rune s = (r, n) -> decoded s r n ->
     P (drop n s) (runes (drop n s)) -> P s (r :: runes (drop n s))) ->
  forall s, P s (runes s).
Proof.
  intros Hnil Hcons s. remember (length s) as k eqn:Hk. revert s Hk.
  induction (lt_wf k) as [k _ IH]. intros s ->.
  destruct (decide (s = [])) as [->|Hs]; [done|].
  destruct (decode_rune s) as [r n] eqn:Hd. rewrite (runes_cons s r n) by done.
  apply Hcons; [done|done|by apply decode_rune_inv|].
  eapply IH; [|done]. pose proof (decode_rune_width s Hs) as Hw. rewrite Hd in Hw.
  rewrite length_drop. destruct s; simpl in *; [done|lia].
Qed.

Lemma runes_scalar s : Forall is_scalar (runes s).
Proof.
  apply (runes_ind (fun _ rs => Forall is_scalar rs)); [done|].
  intros. constructor; [by eapply decoded_scalar | done].
Qed.

Lemma utf8_valid_fuel_enough n m s :
  (length s <= n)%nat -> (length s <= m)%nat -> utf8_valid_fuel n s = utf8_valid_fuel m s.
Proof.
  revert m s. induction n as [|n IH]; intros m s Hn Hm.
  { destruct s; simpl in *; [by destruct m | lia]. }
  destruct m as [|m]; [destruct s; simpl in *; [done | lia]|].
  destruct s as [|c t]; [done|]. cbn [utf8_valid_fuel].
  pose proof (decode_rune_width (c :: t) ltac:(done)).
  destruct (decode_rune (c :: t)) as [r k]. cbn [snd] in *. f_equal.
  apply IH; rewrite length_drop; simpl in *; lia.
Qed.

Lemma utf8_valid_cons s r n :
  s ≠ [] -> decode_rune s = (r, n) ->
  utf8_valid s = negb ((r =? RuneError) && (n =? 1)%nat) && utf8_valid (drop n s).
Proof.
  intros Hs Hd. pose proof (decode_rune_width s Hs) as Hw. rewrite Hd in Hw. simpl in Hw.
  destruct s as [|c t]; [done|]. unfold utf8_valid at 1. cbn [length utf8_valid_fuel].
  rewrite Hd. f_equal. apply utf8_valid_fuel_enough; rewrite ?length_drop; simpl; lia.
Qed.

(** Encoding the runes of a valid string gives the string back. *)
Lemma string_of_runes_runes s : utf8_valid s = true -> string_of_runes (runes s) = s.
Proof.
  apply (runes_ind (fun s rs => utf8_valid s = true -> string_of_runes rs = s)); [done|].
  intros s' r n Hs Hd Hdec IH Hv. rewrite (utf8_valid_cons _ r n) in Hv by done.
  apply andb_true_iff in Hv as [Hok Hv]. cbn [string_of_runes mbind list_bind].
  fold (string_of_runes (runes (drop n s'))).
  change (encode_rune r ++ string_of_runes (runes (drop n s')) = s').
  rewrite IH by done. apply encode_decoded; [done|].
  intros [-> ->]. done.
Qed.

(** ** UTF-16 round trip *)

(** The code units [WriteString] emits for a rune: one below U+10000, a
    surrogate pair above. *)
Definition utf16_units (r : Z) : list Z :=
  if r <=? 0xFFFF then [r] else let '(r1, r2) := utf16_encode_rune r in [r1; r2].

Lemma utf16_decode_bmp u us :
  ~ 0xD800 <= u <= 0xDFFF -> utf16_decode (u :: us) = u :: utf16_decode us.
Proof. intros Hu. cbn [utf16_decode]. apply within_false in Hu. by rewrite Hu. Qed.

Lemma utf16_decode_surrogates u1 u2 us :
  0xD800 <= u1 <= 0xDBFF -> 0xDC00 <= u2 <= 0xDFFF ->
  utf16_decode (u1 :: u2 :: us) = utf16_decode_pair u1 u2 :: utf16_decode us.
Proof.
  intros H1 H2. cbn [utf16_decode].
  rewrite (proj2 (within_spec 0xD800 0xDFFF u1)) by lia. cbn [negb].
  apply within_spec in H1, H2. by rewrite H1, H2.
Qed.

Lemma utf16_decode_units rs :
  Forall is_scalar rs -> utf16_decode (rs ≫= utf16_units) = rs.
Proof.
  induction 1 as [|r rs Hr _ IH]; [done|]. cbn [mbind list_bind].
  unfold is_scalar in Hr. unfold utf16_units at 1. destruct (Z.leb_spec r 0xFFFF).
  { cbn [app]. rewrite utf16_decode_bmp by lia. f_equal. exact IH. }
  unfold utf16_encode_rune. rewrite (proj2 (within_spec 0x10000 0x10FFFF r)) by lia.
  cbn [app]. rewrite utf16_decode_surrogates by (Z.div_mod_to_equations; lia).
  f_equal; [|exact IH]. unfold utf16_decode_pair. Z.div_mod_to_equations; lia.
Qed.

Lemma utf16_units_range r : is_scalar r -> Forall is_u16 (utf16_units r).
Proof.
  unfold is_scalar, utf16_units, utf16_encode_rune, is_u16. intros.
  destruct (Z.leb_spec r 0xFFFF); [repeat constructor; lia|].
  within_cases; repeat constructor; try done; Z.div_mod_to_equations; lia.
Qed.

Lemma utf16_units_nonzero r : is_scalar r -> r ≠ 0 -> Forall (.≠ 0) (utf16_units r).
Proof.
  unfold is_scalar, utf16_units, utf16_encode_rune. intros.
  destruct (Z.leb_spec r 0xFFFF); [repeat constructor; lia|].
  within_cases; repeat constructor; try done; Z.div_mod_to_equations; lia.
Qed.

(** What decoding makes of any code units: scalar values that take no more
    code units to encode than there were. *)
Lemma utf16_decode_any us :
  Forall is_u16 us ->
  Forall is_scalar (utf16_decode us) /\ length (utf16_decode us ≫= utf16_units) = length us.
Proof.
  remember (length us) as n eqn:Hn. revert us Hn.
  induction n as [n IH] using lt_wf_ind. intros us -> Hu.
  destruct us as [|u us]; [done|]. inversion Hu as [|? ? Hu1 Hus]; subst. cbn [utf16_decode].
  destruct (IH (length us) ltac:(simpl; lia) us eq_refl Hus) as [IH1 IH2].
  assert (is_scalar RuneError /\ length (utf16_units RuneError) = 1%nat) as [He1 He2]
    by (split; [unfold is_scalar, RuneError; lia|done]).
  destruct (within 0xD800 0xDFFF u) eqn:E; cbn [negb].
  - destruct us as [|u2 us']; [by repeat constructor|].
    inversion Hus as [|? ? Hu2 Hus']; subst.
    destruct (within 0xD800 0xDBFF u && within 0xDC00 0xDFFF u2) eqn:E2.
    + apply andb_true_iff in E2 as [Ea Eb]. apply within_spec in Ea, Eb.
      destruct (IH (length us') ltac:(simpl; lia) us' eq_refl Hus') as [IH3 IH4].
      assert (is_scalar (utf16_decode_pair u u2) /\ length (utf16_units (utf16_decode_pair u u2)) = 2%nat)
        as [Hp1 Hp2].
      { unfold is_scalar, utf16_decode_pair, utf16_units, utf16_encode_rune. split; [lia|].
        destruct (Z.leb_spec ((u - 0xD800) * 1024 + (u2 - 0xDC00) + 0x10000) 0xFFFF); [lia|].
        by repeat case_match. }
      split; [by constructor|]. cbn [mbind list_bind]. rewrite length_app, Hp2.
      change (list_bind Z Z utf16_units (utf16_decode us')) with (utf16_decode us' ≫= utf16_units).
      rewrite IH4. done.
    + split; [by constructor|]. cbn [mbind list_bind]. rewrite length_app, He2.
      change (list_bind _ _ _ ?l) with (l ≫= utf16_units). rewrite IH2. done.
  - apply within_false in E. unfold is_u16 in Hu1. split.
    + constructor; [unfold is_scalar; lia|done].
    + cbn [mbind list_bind]. rewrite length_app.
      change (list_bind _ _ _ ?l) with (l ≫= utf16_units). rewrite IH2.
      unfold utf16_units. by destruct (Z.leb_spec u 0xFFFF); [|lia].
Qed.
