(* ===== verification/PacketReader.v ===== *)
(** [pkg/network/packet_reader.go]: the bounds-checked little-endian reader
    every packet handler consumes its payload with. *)
From stdpp Require Import base gmap list numbers strings.
From coqutil Require Import Byte Word.LittleEndianList.
From Stdlib Require Import Lia ZArith.
From S2P Require Import Prelude.
From S2P Require Import Unicode.
Local Open Scope Z_scope.

Definition ErrOutOfBounds : error := "packet: out of bounds"%string.
Definition ErrInvalidSize : error := "packet: invalid size"%string.
Definition ErrNoTerminator : error := "packet: missing null terminator for string"%string.

Definition MaxPacketSize : Z := 65536.
Definition MinPacketSize : Z := 0.

(** The read position is a Go [int]; [rbuf] is the slice [r.buf]. *)
Record PacketReader := mkReader { rbuf : list byte; pos : Z }.

Definition rlen (r : PacketReader) : Z := Z.of_nat (length (rbuf r)).
Definition set_pos (p : Z) (r : PacketReader) : PacketReader :=
  {| rbuf := rbuf r; pos := p |}.

(** [GetPacketReader]: both fields of the pooled object are overwritten. *)
Definition GetPacketReader (data : list byte) : outcome PacketReader :=
  if (Z.of_nat (length data) <? MinPacketSize) || (MaxPacketSize <? Z.of_nat (length data))
  then Fail ErrInvalidSize
  else Val {| rbuf := data; pos := 0 |}.

(** [PutPacketReader] clears the object that goes back to the pool. *)
Definition PutPacketReader (r : PacketReader) : PacketReader :=
  {| rbuf := []; pos := 0 |}.

Definition ReadableBytes (r : PacketReader) : Z := rlen r - pos r.

(** [r.buf[a:b]]; [None] is the run-time panic of a bad slice expression. *)
Definition reslice (a b : Z) (l : list byte) : option (list byte) :=
  if (0 <=? a) && (a <=? b) && (b <=? Z.of_nat (length l))
  then Some (slice (Z.to_nat a) (Z.to_nat b) l) else None.

(** [r.buf[r.pos:]]. *)
Definition remainder (r : PacketReader) : option (list byte) :=
  reslice (pos r) (rlen r) (rbuf r).

Definition ReadByte : M PacketReader byte := λ r,
  if rlen r <=? pos r then (Fail ErrOutOfBounds, r)
  else match reslice (pos r) (pos r + 1) (rbuf r) with
       | Some [b] => (Val b, set_pos (pos r + 1) r)
       | _ => (Panic, r)
       end.

(** The common body of [ReadUint16], [ReadUint32] and [ReadUint64], which
    differ in the number [k] of bytes. *)
Definition read_uint (k : nat) : M PacketReader Z := λ r,
  if rlen r <? pos r + Z.of_nat k then (Fail ErrOutOfBounds, r)
  else match remainder r with
       | Some rest => (Val (le_combine (take k rest)), set_pos (pos r + Z.of_nat k) r)
       | None => (Panic, r)
       end.

Definition ReadUint16 : M PacketReader Z := read_uint 2.
Definition ReadUint32 : M PacketReader Z := read_uint 4.
Definition ReadUint64 : M PacketReader Z := read_uint 8.

Definition ReadInt16 : M PacketReader Z := v ← ReadUint16; mret (i16 v).
Definition ReadInt32 : M PacketReader Z := v ← ReadUint32; mret (i32 v).
Definition ReadInt64 : M PacketReader Z := v ← ReadUint64; mret (i64 v).

(** A [float32] or [float64] is its IEEE bit pattern, which is what
    [math.Float32frombits] and [math.Float32bits] convert from and to. *)
Definition ReadFloat32 : M PacketReader Z := u ← ReadUint32; mret u.
Definition ReadFloat64 : M PacketReader Z := u ← ReadUint64; mret u.

(** [ensure]: the sum is an [int], which wraps at 64 bits. *)
Definition ensure (n : Z) : M PacketReader unit := λ r,
  if rlen r <? i64 (pos r + n) then (Fail ErrOutOfBounds, r) else (Val tt, r).

(** [b := r.buf[r.pos : r.pos+n]; r.pos += n]. *)
Definition take_bytes (n : Z) : M PacketReader (list byte) := λ r,
  match reslice (pos r) (i64 (pos r + n)) (rbuf r) with
  | Some b => (Val b, set_pos (i64 (pos r + n)) r)
  | None => (Panic, r)
  end.

Definition ReadBytes (n : Z) : M PacketReader (list byte) :=
  _ ← ensure n; take_bytes n.

(** The search for the terminator: two bytes at a time, from [i]. *)
Fixpoint find_terminator (i : nat) (l : list byte) : option nat :=
  match l with
  | b0 :: b1 :: l' =>
    if (byte.unsigned b0 =? 0) && (byte.unsigned b1 =? 0) then Some i
    else find_terminator (2 + i) l'
  | _ => None
  end.

(** [uint16(raw[2*i]) | uint16(raw[2*i+1])<<8]. *)
Definition u16_at (raw : list byte) (i : nat) : Z :=
  Z.lor (byte.unsigned (nth (2 * i) raw Byte.x00))
        (u16 (Z.shiftl (byte.unsigned (nth (2 * i + 1) raw Byte.x00)) 8)).

(** The loop that fills the [uint16] buffer. *)
Definition fill_u16 (raw : list byte) (u16len : nat) (buf : list Z) : list Z :=
  for_range u16len (λ i b, <[i := u16_at raw i]> b) buf.

(** What [decodePool.New] makes. *)
Definition fresh_decode_buf : list Z := replicate 1024 0.

(** The text of a terminated string: through the pooled buffer [pBuf] when it
    fits in 1024 units, through a fresh one otherwise. *)
Definition decode_utf16 (pBuf : list Z) (raw : list byte) : gostring :=
  let u16len := (length raw / 2)%nat in
  if (u16len <=? 1024)%nat
  then string_of_runes (utf16_decode (take u16len (fill_u16 raw u16len pBuf)))
  else string_of_runes (utf16_decode (fill_u16 raw u16len (replicate u16len 0))).

Definition ReadString (pBuf : list Z) : M PacketReader gostring := λ r,
  match remainder r with
  | None => (Panic, r)
  | Some rest =>
    match find_terminator 0 rest with
    | None => (Fail ErrNoTerminator, r)
    | Some targetIdx =>
      let raw := take targetIdx rest in
      let r' := set_pos (pos r + Z.of_nat targetIdx + 2) r in
      if (length raw =? 0)%nat then (Val [], r') else (Val (decode_utf16 pBuf raw), r')
    end
  end.

Definition SkipString : M PacketReader unit := λ r,
  match remainder r with
  | None => (Panic, r)
  | Some rest =>
    match find_terminator 0 rest with
    | None => (Fail ErrNoTerminator, r)
    | Some i => (Val tt, set_pos (pos r + Z.of_nat i + 2) r)
    end
  end.

(** * The reader invariant *)

(** The position stays inside the buffer, which a packet bounds. *)
Definition reader_ok (r : PacketReader) : Prop :=
  0 <= pos r <= rlen r /\ rlen r <= MaxPacketSize.

(** The bytes that have not been read yet. *)
Definition rest (r : PacketReader) : list byte := drop (Z.to_nat (pos r)) (rbuf r).

Lemma reslice_ok a b l :
  0 <= a <= b -> b <= Z.of_nat (length l) ->
  reslice a b l = Some (slice (Z.to_nat a) (Z.to_nat b) l).
Proof.
  intros. unfold reslice.
  destruct (Z.leb_spec 0 a), (Z.leb_spec a b), (Z.leb_spec b (Z.of_nat (length l))); done || lia.
Qed.

Lemma remainder_ok r : reader_ok r -> remainder r = Some (rest r).
Proof.
  intros [Hp _]. unfold remainder, rlen in *. rewrite reslice_ok by lia.
  f_equal. unfold slice, rest. apply take_ge. rewrite length_drop. lia.
Qed.

Lemma length_rest r : reader_ok r -> Z.of_nat (length (rest r)) = ReadableBytes r.
Proof. intros [Hp _]. unfold rest, ReadableBytes, rlen in *. rewrite length_drop. lia. Qed.

Lemma rest_set_pos r k :
  reader_ok r -> 0 <= k -> rest (set_pos (pos r + k) r) = drop (Z.to_nat k) (rest r).
Proof.
  intros [Hp _] Hk. unfold rest, set_pos. simpl. rewrite drop_drop. f_equal. lia.
Qed.

Lemma reader_ok_advance r k :
  reader_ok r -> 0 <= k <= ReadableBytes r -> reader_ok (set_pos (pos r + k) r).
Proof. unfold reader_ok, ReadableBytes, rlen, set_pos. simpl. lia. Qed.

Lemma find_terminator_spec l i k :
  find_terminator i l = Some k ->
  exists j, k = (i + 2 * j)%nat /\ (2 * j + 2 <= length l)%nat.
Proof.
  revert i. induction l as [l IH] using (induction_ltof1 _ (@length byte)).
  intros i. destruct l as [|b0 [|b1 l]]; [done|done|]. cbn [find_terminator].
  destruct (_ && _).
  { intros [= <-]. exists 0%nat. simpl. lia. }
  intros H. destruct (IH l ltac:(unfold ltof; simpl; lia) _ H) as (j & -> & Hj).
  exists (S j). simpl. lia.
Qed.

Lemma find_terminator_bound r k :
  reader_ok r -> find_terminator 0 (rest r) = Some k -> Z.of_nat k + 2 <= ReadableBytes r.
Proof.
  intros Hr H. apply find_terminator_spec in H as (j & -> & Hj).
  rewrite <- (length_rest r) by done. lia.
Qed.

(** ** Safe reads

    [safe_read m]: from a good reader, [m] does not panic, leaves the buffer
    alone, keeps the invariant and never moves the position back. *)
Definition safe_read {A} (m : M PacketReader A) : Prop := forall r,
  reader_ok r ->
  let '(o, r') := m r in
  is_panic o = false /\ reader_ok r' /\ rbuf r' = rbuf r /\ pos r <= pos r'.

Lemma safe_ret {A} (a : A) : safe_read (mret a).
Proof. intros r Hr. simpl. auto with lia. Qed.

Lemma safe_fail {A} e : safe_read (A := A) (fail e).
Proof. intros r Hr. simpl. auto with lia. Qed.

Lemma safe_bind {A B} (m : M PacketReader A) (k : A -> M PacketReader B) :
  safe_read m -> (forall a, safe_read (k a)) -> safe_read (m ≫= k).
Proof.
  intros Hm Hk r Hr. unfold mbind, M_bind. specialize (Hm r Hr).
  destruct (m r) as [[a|e|] r']; destruct Hm as (Hp & Hr' & Hb & Hle); [|done|done].
  specialize (Hk a r' Hr'). destruct (k a r') as [o r'']. destruct Hk as (? & ? & ? & ?).
  split_and!; [done|done|congruence|lia].
Qed.

Lemma safe_advance r k :
  reader_ok r -> 0 <= k <= ReadableBytes r ->
  reader_ok (set_pos (pos r + k) r) /\ rbuf (set_pos (pos r + k) r) = rbuf r
  /\ pos r <= pos (set_pos (pos r + k) r).
Proof. intros Hr Hk. split_and!; [by apply reader_ok_advance | done | simpl; lia]. Qed.

Lemma read_uint_val r k :
  reader_ok r -> Z.of_nat k <= ReadableBytes r ->
  read_uint k r = (Val (le_combine (take k (rest r))), set_pos (pos r + Z.of_nat k) r).
Proof.
  intros Hr Hk. unfold read_uint. rewrite remainder_ok by done.
  unfold ReadableBytes in Hk. destruct (Z.ltb_spec (rlen r) (pos r + Z.of_nat k)); [lia|done].
Qed.

Lemma read_uint_short r k :
  ReadableBytes r < Z.of_nat k -> read_uint k r = (Fail ErrOutOfBounds, r).
Proof.
  intros Hk. unfold read_uint, ReadableBytes in *.
  destruct (Z.ltb_spec (rlen r) (pos r + Z.of_nat k)); [done|lia].
Qed.

Lemma ReadByte_val r :
  reader_ok r -> 1 <= ReadableBytes r ->
  exists b, rest r !! 0%nat = Some b /\ ReadByte r = (Val b, set_pos (pos r + 1) r).
Proof.
  intros Hr Hk. unfold ReadByte. pose proof Hr as [Hp _]. unfold ReadableBytes in Hk.
  destruct (Z.leb_spec (rlen r) (pos r)); [lia|].
  rewrite reslice_ok by (unfold rlen in *; lia).
  unfold slice. replace (Z.to_nat (pos r + 1) - Z.to_nat (pos r))%nat with 1%nat
    by (clear -Hp; lia).
  fold (rest r). destruct (rest r) as [|b l] eqn:E; [|by exists b].
  pose proof (length_rest r Hr) as Hl. rewrite E in Hl. unfold ReadableBytes in Hl. simpl in Hl. lia.
Qed.

Lemma ReadByte_short r : ReadableBytes r < 1 -> ReadByte r = (Fail ErrOutOfBounds, r).
Proof.
  unfold ReadByte, ReadableBytes. intros. destruct (Z.leb_spec (rlen r) (pos r)); [done|lia].
Qed.

Lemma ReadBytes_val r n :
  reader_ok r -> 0 <= n <= ReadableBytes r ->
  ReadBytes n r = (Val (take (Z.to_nat n) (rest r)), set_pos (pos r + n) r).
Proof.
  intros Hr Hn. pose proof Hr as [Hp Hm]. unfold ReadBytes, take_bytes, ensure, mbind, M_bind, ReadableBytes, MaxPacketSize in *.
  rewrite (i64_small (pos r + n)) by (unfold is_i64; lia).
  destruct (Z.ltb_spec (rlen r) (pos r + n)); [lia|].
  rewrite i64_small by (unfold is_i64; lia).
  rewrite reslice_ok by (unfold rlen in *; lia). unfold slice, rest. do 3 f_equal. lia.
Qed.

Lemma ReadBytes_short r n :
  reader_ok r -> ReadableBytes r < n < 2 ^ 63 - MaxPacketSize ->
  ReadBytes n r = (Fail ErrOutOfBounds, r).
Proof.
  intros [Hp Hm] Hn. unfold ReadBytes, take_bytes, ensure, mbind, M_bind, ReadableBytes, MaxPacketSize in *.
  rewrite i64_small by (unfold is_i64; lia).
  destruct (Z.ltb_spec (rlen r) (pos r + n)); [done|lia].
Qed.

Lemma safe_read_uint k : safe_read (read_uint k).
Proof.
  intros r Hr. destruct (Z.le_gt_cases (Z.of_nat k) (ReadableBytes r)).
  - rewrite read_uint_val by done. split; [done|]. apply safe_advance; [done|lia].
  - rewrite read_uint_short by lia. split_and!; [done|done|done|lia].
Qed.

Lemma safe_ReadByte : safe_read ReadByte.
Proof.
  intros r Hr. destruct (Z.le_gt_cases 1 (ReadableBytes r)).
  - destruct (ReadByte_val r) as (b & _ & ->); [done|done|]. split; [done|].
    apply safe_advance; [done|lia].
  - rewrite ReadByte_short by lia. split_and!; [done|done|done|lia].
Qed.

Lemma safe_ReadBytes n : 0 <= n < 2 ^ 63 - MaxPacketSize -> safe_read (ReadBytes n).
Proof.
  intros Hn r Hr. destruct (Z.le_gt_cases n (ReadableBytes r)).
  - rewrite ReadBytes_val by (done || lia). split; [done|]. apply safe_advance; [done|lia].
  - rewrite ReadBytes_short by (done || lia). split_and!; [done|done|done|lia].
Qed.

Lemma safe_ReadString pBuf : safe_read (ReadString pBuf).
Proof.
  intros r Hr. unfold ReadString. rewrite remainder_ok by done.
  destruct (find_terminator 0 (rest r)) as [k|] eqn:E; [|split_and!; [done|done|done|lia]].
  pose proof (find_terminator_bound r k Hr E).
  replace (pos r + Z.of_nat k + 2) with (pos r + (Z.of_nat k + 2)) by lia.
  destruct (_ =? _)%nat; (split; [done|]; apply safe_advance; [done|lia]).
Qed.

Lemma safe_SkipString : safe_read SkipString.
Proof.
  intros r Hr. unfold SkipString. rewrite remainder_ok by done.
  destruct (find_terminator 0 (rest r)) as [k|] eqn:E; [|split_and!; [done|done|done|lia]].
  pose proof (find_terminator_bound r k Hr E).
  replace (pos r + Z.of_nat k + 2) with (pos r + (Z.of_nat k + 2)) by lia.
  split; [done|]; apply safe_advance; [done|lia].
Qed.

Lemma safe_ReadUint16 : safe_read ReadUint16.
Proof. apply safe_read_uint. Qed.
Lemma safe_ReadUint32 : safe_read ReadUint32.
Proof. apply safe_read_uint. Qed.
Lemma safe_ReadUint64 : safe_read ReadUint64.
Proof. apply safe_read_uint. Qed.
Lemma safe_ReadInt16 : safe_read ReadInt16.
Proof. apply safe_bind; [apply safe_read_uint | intros; apply safe_ret]. Qed.
Lemma safe_ReadInt32 : safe_read ReadInt32.
Proof. apply safe_bind; [apply safe_read_uint | intros; apply safe_ret]. Qed.
Lemma safe_ReadInt64 : safe_read ReadInt64.
Proof. apply safe_bind; [apply safe_read_uint | intros; apply safe_ret]. Qed.
Lemma safe_ReadFloat32 : safe_read ReadFloat32.
Proof. apply safe_bind; [apply safe_read_uint | intros; apply safe_ret]. Qed.
Lemma safe_ReadFloat64 : safe_read ReadFloat64.
Proof. apply safe_bind; [apply safe_read_uint | intros; apply safe_ret]. Qed.

Lemma GetPacketReader_ok data r : GetPacketReader data = Val r -> reader_ok r.
Proof.
  unfold GetPacketReader. destruct (_ || _) eqn:E; [done|]. intros [= <-].
  apply orb_false_iff in E as [_ E]. apply Z.ltb_ge in E.
  unfold reader_ok, rlen. simpl. lia.
Qed.

Create HintDb reader.
#[export] Hint Resolve safe_ret safe_fail safe_ReadByte safe_ReadUint16 safe_ReadUint32
  safe_ReadUint64 safe_ReadInt16 safe_ReadInt32 safe_ReadInt64 safe_ReadFloat32
  safe_ReadFloat64 safe_ReadBytes safe_ReadString safe_SkipString : reader.

(** ** Decoding the text of a string *)

(** The code units of a byte sequence, by recursion: the reference for the
    indexed loop of the code. *)
Fixpoint le_units (raw : list byte) : list Z :=
  match raw with
  | b0 :: b1 :: raw' => le_combine [b0; b1] :: le_units raw'
  | _ => []
  end.

Lemma le_units_u16 raw : Forall is_u16 (le_units raw).
Proof.
  remember (length raw) as n eqn:Hn. revert raw Hn.
  induction n as [n IH] using lt_wf_ind. intros raw ->. destruct raw as [|b0 [|b1 raw]]; [done|done|].
  constructor; [|apply (IH (length raw)); simpl; auto with lia].
  pose proof (le_combine_bound [b0; b1]). done.
Qed.

Lemma length_le_units raw : (2 * length (le_units raw) <= length raw)%nat.
Proof.
  remember (length raw) as n eqn:Hn. revert raw Hn.
  induction n as [n IH] using lt_wf_ind. intros raw ->. destruct raw as [|b0 [|b1 raw]]; simpl; [lia|lia|].
  specialize (IH (length raw) ltac:(simpl; lia) raw eq_refl). lia.
Qed.

Lemma u16_at_cons b0 b1 raw i : u16_at (b0 :: b1 :: raw) (S i) = u16_at raw i.
Proof.
  unfold u16_at. replace (2 * S i)%nat with (S (S (2 * i)))%nat by lia.
  replace (S (S (2 * i)) + 1)%nat with (S (S (2 * i + 1)))%nat by lia. done.
Qed.

Lemma u16_at_0 b0 b1 raw : u16_at (b0 :: b1 :: raw) 0 = le_combine [b0; b1].
Proof.
  unfold u16_at. cbn [nth Nat.mul Nat.add].
  change (le_combine [b0; b1]) with
    (Z.lor (byte.unsigned b0) (Z.shiftl (Z.lor (byte.unsigned b1) 0) 8)).
  rewrite Z.lor_0_r, u16_small; [done|]. pose proof (byte_unsigned_range b1).
  rewrite Z.shiftl_mul_pow2 by lia. unfold is_u8, is_u16 in *. lia.
Qed.

Lemma fill_u16_take raw n buf :
  (n <= length buf)%nat -> take n (fill_u16 raw n buf) = map (u16_at raw) (seq 0 n).
Proof.
  intros Hn. unfold fill_u16.
  eapply (for_range_ind (λ i b, length b = length buf /\ take i b = map (u16_at raw) (seq 0 i)));
    [done|].
  intros i b Hi [Hl Ht]. rewrite length_insert. split; [done|].
  change (1 + i)%nat with (S i). rewrite seq_S, map_app, <- Ht. simpl.
  rewrite (take_S_r _ _ (u16_at raw i)) by (apply list_lookup_insert_eq; lia).
  f_equal. apply take_insert_ge. lia.
Qed.

Lemma length_fill_u16 raw n buf : length (fill_u16 raw n buf) = length buf.
Proof.
  unfold fill_u16. apply (for_range_ind (λ _ b, length b = length buf)); [done|].
  intros i b _ <-. apply length_insert.
Qed.

Lemma map_u16_at raw n :
  length raw = (2 * n)%nat -> map (u16_at raw) (seq 0 n) = le_units raw.
Proof.
  revert raw. induction n as [|n IH]; intros raw Hl.
  { by destruct raw. }
  destruct raw as [|b0 [|b1 raw]]; simpl in Hl; try lia.
  cbn [seq map le_units]. rewrite u16_at_0, <- IH by lia. f_equal.
  rewrite <- seq_shift, map_map. apply map_ext. intros i. apply u16_at_cons.
Qed.

(** The pooled and the freshly allocated path compute the same string, whatever
    an earlier packet left in the pooled buffer. *)
Lemma decode_utf16_ref pBuf raw n :
  (1024 <= length pBuf)%nat -> length raw = (2 * n)%nat ->
  decode_utf16 pBuf raw = string_of_runes (utf16_decode (le_units raw)).
Proof.
  intros Hp Hl. unfold decode_utf16. rewrite Hl.
  replace (2 * n / 2)%nat with n by (rewrite Nat.mul_comm, Nat.div_mul; lia).
  destruct (Nat.leb_spec n 1024).
  - by rewrite fill_u16_take, map_u16_at by lia.
  - rewrite <- (map_u16_at raw n), <- (fill_u16_take raw n (replicate n 0)) by
      (done || (rewrite length_replicate; lia)).
    rewrite take_ge; [done|]. rewrite length_fill_u16, length_replicate. lia.
Qed.

(** What [ReadString] does in terms of the unread bytes. *)
Lemma ReadString_spec pBuf r :
  reader_ok r -> (1024 <= length pBuf)%nat ->
  ReadString pBuf r =
  match find_terminator 0 (rest r) with
  | None => (Fail ErrNoTerminator, r)
  | Some k => (Val (string_of_runes (utf16_decode (le_units (take k (rest r))))),
               set_pos (pos r + Z.of_nat k + 2) r)
  end.
Proof.
  intros Hr Hp. unfold ReadString. rewrite remainder_ok by done.
  destruct (find_terminator 0 (rest r)) as [k|] eqn:E; [|done].
  apply find_terminator_spec in E as (j & -> & Hj).
  assert (length (take (0 + 2 * j) (rest r)) = (2 * j)%nat) as Hl by (rewrite length_take; lia).
  rewrite (decode_utf16_ref pBuf _ j) by done.
  destruct (Nat.eqb_spec (length (take (0 + 2 * j) (rest r))) 0) as [H0|]; [|done].
  destruct (take (0 + 2 * j) (rest r)); done.
Qed.

(** * Properties *)

(** The operations a handler can apply to its reader, and a run of them that
    ignores returned errors and stops at a panic. *)
Inductive read_op : Type :=
| OpByte | OpUint16 | OpUint32 | OpUint64 | OpInt16 | OpInt32 | OpInt64
| OpFloat32 | OpFloat64 | OpBytes (n : Z) | OpString | OpSkip.

Definition run_op (pBuf : list Z) (op : read_op) : M PacketReader unit :=
  match op with
  | OpByte => _ ← ReadByte; mret tt
  | OpUint16 => _ ← ReadUint16; mret tt
  | OpUint32 => _ ← ReadUint32; mret tt
  | OpUint64 => _ ← ReadUint64; mret tt
  | OpInt16 => _ ← ReadInt16; mret tt
  | OpInt32 => _ ← ReadInt32; mret tt
  | OpInt64 => _ ← ReadInt64; mret tt
  | OpFloat32 => _ ← ReadFloat32; mret tt
  | OpFloat64 => _ ← ReadFloat64; mret tt
  | OpBytes n => _ ← ReadBytes n; mret tt
  | OpString => _ ← ReadString pBuf; mret tt
  | OpSkip => SkipString
  end.

Fixpoint run_ops (pBuf : list Z) (ops : list read_op) (r : PacketReader) : bool * PacketReader :=
  match ops with
  | [] => (false, r)
  | op :: ops =>
    let '(o, r') := run_op pBuf op r in
    if is_panic o then (true, r') else run_ops pBuf ops r'
  end.

(** [ReadBytes] is only ever asked for a non-negative amount that leaves room
    for the position in an [int]. *)
Definition op_ok (op : read_op) : Prop :=
  match op with OpBytes n => 0 <= n < 2 ^ 63 - MaxPacketSize | _ => True end.

#[export] Instance op_ok_dec op : Decision (op_ok op).
Proof. destruct op; simpl; apply _. Defined.

Lemma safe_run_op pBuf op : op_ok op -> safe_read (run_op pBuf op).
Proof.
  intros Hop. destruct op; cbn [run_op]; try apply safe_bind; auto with reader.
Qed.



(** The exact panic condition of [ReadBytes]: on a well-formed reader it
    panics precisely for a negative size or one so large that the position
    overflows an [int]; sizes read from the wire must be checked first. *)
Theorem ReadBytes_panics_iff r n :
  reader_ok r -> is_i64 n ->
  (is_panic (ReadBytes n r).1 = true <-> n < 0 \/ 2 ^ 63 <= pos r + n).
Proof.
  intros Hr Hn. pose proof Hr as [Hp Hm]. unfold MaxPacketSize, is_i64 in *.
  split.
  - intros Hpan. destruct (Z.le_gt_cases 0 n); [right|by left].
    destruct (Z.le_gt_cases (2 ^ 63) (pos r + n)); [done|].
    destruct (Z.le_gt_cases n (ReadableBytes r)).
    + by rewrite ReadBytes_val in Hpan by (done || lia).
    + exfalso. unfold ReadBytes, ensure, mbind, M_bind, ReadableBytes in *.
      rewrite i64_small in Hpan by (unfold is_i64; lia).
      by destruct (Z.ltb_spec (rlen r) (pos r + n)); [|lia].
  - intros Hc. unfold ReadBytes, ensure, take_bytes, mbind, M_bind.
    assert (i64 (pos r + n) < pos r) as Hlt.
    { destruct Hc; [rewrite i64_small by (unfold is_i64; lia); lia|].
      unfold i64. Z.div_mod_to_equations; lia. }
    destruct (Z.ltb_spec (rlen r) (i64 (pos r + n))); [lia|].
    unfold reslice. by destruct (Z.leb_spec (pos r) (i64 (pos r + n))); [lia|];
      rewrite andb_false_r.
Qed.

Lemma ReadBytes_panics_iff_witness :
  let r := {| rbuf := [Byte.x01; Byte.x02]; pos := 1 |} in
  is_panic (ReadBytes (-1) r).1 = true <-> -1 < 0 \/ 2 ^ 63 <= pos r + (-1).
Proof.
  apply ReadBytes_panics_iff; unfold reader_ok, rlen, MaxPacketSize, is_i64; simpl; lia.
Defined.

(** [SkipString] is [ReadString] without the text: the same error on the
    same input and the same final position, whatever the pooled buffer holds. *)
Theorem SkipString_ReadString pBuf r :
  reader_ok r ->
  SkipString r =
  (match (ReadString pBuf r).1 with Val _ => Val tt | Fail e => Fail e | Panic => Panic end,
   (ReadString pBuf r).2).
Proof.
  intros Hr. unfold SkipString, ReadString. rewrite remainder_ok by done.
  destruct (find_terminator 0 (rest r)); [|done]. by destruct (_ =? _)%nat.
Qed.

Lemma SkipString_ReadString_witness :
  let r := {| rbuf := [Byte.x41; Byte.x00; Byte.x00; Byte.x00; Byte.x07]; pos := 0 |} in
  SkipString r =
  (match (ReadString fresh_decode_buf r).1 with Val _ => Val tt | Fail e => Fail e | Panic => Panic end,
   (ReadString fresh_decode_buf r).2).
Proof.
  apply SkipString_ReadString. unfold reader_ok, rlen, MaxPacketSize; simpl; lia.
Defined.
