(* ===== verification/PacketWriter.v ===== *)
(** [pkg/network/packet_writer.go]: the pooled packet writer.  A writer is its
    backing array (whose length is the slice's capacity) and the length of the
    slice, so that the bytes beyond the length, left by earlier packets, are
    part of the state. *)
From stdpp Require Import base gmap list numbers strings.
From coqutil Require Import Byte Word.LittleEndianList.
From Stdlib Require Import Lia ZArith.
From S2P Require Import Prelude.
From S2P Require Import Unicode.
Local Open Scope Z_scope.

(** [wlen] and capacities are lengths of in-memory slices, hence [nat]. *)
Record PacketWriter := mkWriter { warr : list byte; wlen : nat }.

Definition defaultWriterCap : nat := 1024.

Definition wcap (w : PacketWriter) : nat := length (warr w).

(** [Bytes]: the slice [w.buf]. *)
Definition Bytes (w : PacketWriter) : list byte := take (wlen w) (warr w).

Definition zeros (n : nat) : list byte := replicate n Byte.x00.

(** [packetWriterPool.New]. *)
Definition NewPacketWriter : PacketWriter :=
  {| warr := zeros defaultWriterCap; wlen := 0 |}.

Definition reset (w : PacketWriter) : PacketWriter := {| warr := warr w; wlen := 0 |}.

Definition Reserve (n : nat) (w : PacketWriter) : PacketWriter :=
  if (wcap w - wlen w <? n)%nat then
    let newCap := ((wcap w + n) * 2)%nat in
    let newCap := if (Z.of_nat newCap >? 65536) then (wcap w + n)%nat else newCap in
    {| warr := Bytes w ++ zeros (newCap - wlen w); wlen := wlen w |}
  else w.

Definition Extend (n : nat) (w : PacketWriter) : PacketWriter :=
  let w := Reserve n w in {| warr := warr w; wlen := (wlen w + n)%nat |}.

(** [binary.LittleEndian.PutUintN(w.buf[pos:], v)] with [k] bytes. *)
Definition put_uint (k pos : nat) (v : Z) (w : PacketWriter) : PacketWriter :=
  {| warr := splice pos (le_split k v) (warr w); wlen := wlen w |}.

Section Append.
(** The capacity Go's [append] gives a slice it must reallocate: it depends on
    the runtime, which only promises that the elements fit; [append] never
    makes less room than its elements need. *)
Context (grow : nat -> nat -> nat).

(** [w.buf = append(w.buf, bs...)]. *)
Definition append (bs : list byte) (w : PacketWriter) : PacketWriter :=
  let n := (wlen w + length bs)%nat in
  if (n <=? wcap w)%nat
  then {| warr := splice (wlen w) bs (warr w); wlen := n |}
  else {| warr := Bytes w ++ bs ++ zeros (grow (wcap w) n - n); wlen := n |}.

(** [GetPacketWriter], given the object the pool hands out. *)
Definition GetPacketWriter (pooled : PacketWriter) : PacketWriter :=
  append [Byte.x00; Byte.x00] (Reserve 2 (reset pooled)).

Definition WriteByte (v : byte) (w : PacketWriter) : PacketWriter := append [v] w.

(** The common body of the [WriteUintN] methods: [k] zero bytes are appended
    and then overwritten. *)
Definition write_uint (k : nat) (v : Z) (w : PacketWriter) : PacketWriter :=
  put_uint k (wlen w) v (append (zeros k) w).

Definition WriteUint16 (v : Z) : PacketWriter -> PacketWriter := write_uint 2 v.
Definition WriteUint32 (v : Z) : PacketWriter -> PacketWriter := write_uint 4 v.
Definition WriteUint64 (v : Z) : PacketWriter -> PacketWriter := write_uint 8 v.
Definition WriteInt16 (v : Z) : PacketWriter -> PacketWriter := WriteUint16 (u16 v).
Definition WriteInt32 (v : Z) : PacketWriter -> PacketWriter := WriteUint32 (u32 v).
Definition WriteInt64 (v : Z) : PacketWriter -> PacketWriter := WriteUint64 (u64 v).
Definition WriteFloat32 (bits : Z) : PacketWriter -> PacketWriter := WriteUint32 bits.
Definition WriteFloat64 (bits : Z) : PacketWriter -> PacketWriter := WriteUint64 bits.

Definition WriteBytes (b : list byte) (w : PacketWriter) : PacketWriter := append b w.
End Append.

(** [PutPacketWriter]: an oversized buffer is dropped. *)
Definition PutPacketWriter (w : PacketWriter) : PacketWriter :=
  if (Z.of_nat (wcap w) >? 64 * 1024) then {| warr := []; wlen := 0 |} else reset w.

Definition PrependLength (w : PacketWriter) : outcome PacketWriter :=
  if Z.of_nat (wlen w) >? 65535 then Panic
  else if (wcap w <? 2)%nat then Panic
  else Val (put_uint 2 0 (Z.of_nat (wlen w)) w).

(** [utf16Len]. *)
Definition utf16Len (s : gostring) : nat :=
  foldl (λ count r, if r <=? 0xFFFF then (count + 1)%nat else (count + 2)%nat) 0%nat (runes s).

(** The body of the loop [for _, r := range s] of both string writers. *)
Definition write_rune (st : nat * PacketWriter) (r : Z) : nat * PacketWriter :=
  let '(pos, w) := st in
  if r <=? 0xFFFF then ((pos + 2)%nat, put_uint 2 pos (u16 r) w)
  else let '(r1, r2) := utf16_encode_rune r in
       ((pos + 4)%nat, put_uint 2 (pos + 2) (u16 r2) (put_uint 2 pos (u16 r1) w)).

Definition WriteString (s : gostring) (w : PacketWriter) : PacketWriter :=
  let sizeInBytes := (utf16Len s * 2 + 2)%nat in
  let '(pos, w) := foldl write_rune (wlen w, Extend sizeInBytes w) (runes s) in
  put_uint 2 pos 0 w.

Definition WriteSizedString (grow : nat -> nat -> nat) (s : gostring) (w : PacketWriter)
    : PacketWriter :=
  let utf16Count := utf16Len s in
  let w := WriteInt16 grow (i16 (Z.of_nat utf16Count)) w in
  let sizeInBytes := (utf16Count * 2)%nat in
  (foldl write_rune (wlen w, Extend sizeInBytes w) (runes s)).2.

(** * Lemmas *)

Definition writer_ok (w : PacketWriter) : Prop := (wlen w <= wcap w)%nat.

Lemma length_Bytes w : writer_ok w -> length (Bytes w) = wlen w.
Proof. unfold writer_ok, Bytes, wcap. intros. rewrite length_take. lia. Qed.

Lemma Reserve_spec n w :
  writer_ok w ->
  Bytes (Reserve n w) = Bytes w /\ wlen (Reserve n w) = wlen w /\
  (wlen w + n <= wcap (Reserve n w))%nat.
Proof.
  intros Hw. pose proof (length_Bytes w Hw) as Hl. unfold writer_ok in Hw.
  unfold Reserve. destruct (Nat.ltb_spec (wcap w - wlen w) n); [|split_and!; [done|done|lia]].
  unfold Bytes at 1, wcap at 4. simpl. split_and!; [|done|].
  - rewrite <- Hl at 1. by rewrite take_app_length.
  - unfold wcap. simpl. rewrite length_app, Hl. unfold zeros. rewrite length_replicate.
    destruct (_ >? _); unfold wcap in *; lia.
Qed.

(** What [Extend] appends is whatever the backing array holds there. *)
Definition stale (n : nat) (w : PacketWriter) : list byte :=
  let w := Reserve n w in slice (wlen w) (wlen w + n) (warr w).

Lemma length_stale n w : writer_ok w -> length (stale n w) = n.
Proof.
  intros Hw. destruct (Reserve_spec n w Hw) as (_ & Hl & Hc).
  unfold stale. rewrite length_slice by (unfold wcap in *; lia). lia.
Qed.

Lemma take_slice {A} a b (l : list A) : (a <= b)%nat -> take b l = take a l ++ slice a b l.
Proof. intros. unfold slice. rewrite take_take_drop. f_equal. lia. Qed.

Lemma Extend_spec n w :
  writer_ok w ->
  Bytes (Extend n w) = Bytes w ++ stale n w /\ wlen (Extend n w) = (wlen w + n)%nat /\
  writer_ok (Extend n w).
Proof.
  intros Hw. destruct (Reserve_spec n w Hw) as (Hb & Hl & Hc).
  unfold Extend, stale, writer_ok, wcap in *. simpl. split_and!; [|lia|lia].
  rewrite <- Hb. unfold Bytes. simpl. by rewrite (take_slice (wlen (Reserve n w))) by lia.
Qed.

Lemma take_splice {A} n off (bs l : list A) :
  (off + length bs <= n)%nat -> (n <= length l)%nat ->
  take n (splice off bs l) = splice off bs (take n l).
Proof.
  intros H1 H2. unfold splice. rewrite !take_app, !length_take.
  rewrite !take_take. f_equal; [f_equal; lia|].
  rewrite (take_ge bs) by lia. f_equal.
  rewrite skipn_firstn_comm. f_equal. lia.
Qed.

Lemma put_uint_spec k pos v w :
  writer_ok w -> (pos + k <= wlen w)%nat ->
  Bytes (put_uint k pos v w) = splice pos (le_split k v) (Bytes w) /\
  wlen (put_uint k pos v w) = wlen w /\ wcap (put_uint k pos v w) = wcap w /\
  writer_ok (put_uint k pos v w).
Proof.
  intros Hw Hp. unfold put_uint, writer_ok, wcap, Bytes in *. simpl.
  rewrite length_splice by (rewrite length_le_split; lia). split_and!; [|done|done|lia].
  apply take_splice; [rewrite length_le_split|]; lia.
Qed.

Section AppendLemmas.
Context (grow : nat -> nat -> nat).

Lemma append_spec bs w :
  writer_ok w ->
  Bytes (append grow bs w) = Bytes w ++ bs /\ writer_ok (append grow bs w).
Proof.
  intros Hw. pose proof (length_Bytes w Hw) as Hl. unfold append.
  destruct (Nat.leb_spec (wlen w + length bs) (wcap w)).
  - unfold writer_ok, Bytes, wcap in *. simpl. rewrite length_splice by lia.
    split; [|lia]. unfold splice. rewrite app_assoc. 
    rewrite take_app_le by (rewrite length_app, length_take; lia).
    apply take_ge. rewrite length_app, length_take. lia.
  - unfold writer_ok, Bytes at 1, wcap. simpl.
    rewrite !length_app, Hl. unfold zeros. rewrite length_replicate.
    split; [|unfold wcap in *; lia].
    rewrite app_assoc, take_app_le by (rewrite length_app; lia).
    apply take_ge. rewrite length_app. lia.
Qed.

Lemma GetPacketWriter_spec pooled :
  Bytes (GetPacketWriter grow pooled) = [Byte.x00; Byte.x00] /\
  writer_ok (GetPacketWriter grow pooled).
Proof.
  assert (writer_ok (reset pooled)) as Hr by (unfold writer_ok; simpl; lia).
  destruct (Reserve_spec 2 _ Hr) as (Hb & Hl & Hc).
  destruct (append_spec [Byte.x00; Byte.x00] (Reserve 2 (reset pooled))) as [H1 H2];
    [unfold writer_ok in *; lia|].
  split; [|done]. unfold GetPacketWriter. rewrite H1, Hb. done.
Qed.

Lemma write_uint_spec k v w :
  writer_ok w ->
  Bytes (write_uint grow k v w) = Bytes w ++ le_split k v /\ writer_ok (write_uint grow k v w).
Proof.
  intros Hw. pose proof (length_Bytes w Hw) as Hl.
  destruct (append_spec (zeros k) w Hw) as [Hb Ho].
  assert (wlen (append grow (zeros k) w) = (wlen w + k)%nat) as Hwl.
  { rewrite <- (length_Bytes _ Ho), Hb, length_app, Hl. unfold zeros. by rewrite length_replicate. }
  destruct (put_uint_spec k (wlen w) v _ Ho ltac:(lia)) as (Hp & _ & _ & Hpo).
  split; [|done]. unfold write_uint. rewrite Hp, Hb, <- Hl.
  apply splice_app_r. unfold zeros. by rewrite length_le_split, length_replicate.
Qed.
End AppendLemmas.

(** ** The string writers *)

(** The little-endian bytes of a sequence of code units. *)
Definition le_bytes (us : list Z) : list byte := us ≫= le_split 2.

(** The UTF-16LE encoding of a string, without a terminator. *)
Definition utf16le (s : gostring) : list byte := le_bytes (runes s ≫= utf16_units).

Lemma le_bytes_cons u us : le_bytes (u :: us) = le_split 2 u ++ le_bytes us.
Proof. done. Qed.

Lemma length_le_bytes us : length (le_bytes us) = (2 * length us)%nat.
Proof.
  induction us as [|u us IH]; [done|].
  rewrite le_bytes_cons, length_app, length_le_split, IH. simpl. lia.
Qed.

Lemma le_bytes_app us vs : le_bytes (us ++ vs) = le_bytes us ++ le_bytes vs.
Proof. apply bind_app. Qed.

Lemma utf16Len_spec s : utf16Len s = length (runes s ≫= utf16_units).
Proof.
  unfold utf16Len.
  cut (forall rs c, foldl (λ count r, if r <=? 0xFFFF then (count + 1)%nat else (count + 2)%nat) c rs
                    = (c + length (rs ≫= utf16_units))%nat).
  { intros ->. lia. }
  induction rs as [|r rs IH]; intros c; [simpl; lia|].
  cbn [foldl mbind list_bind]. rewrite IH, length_app.
  assert (length (utf16_units r) = if r <=? 0xFFFF then 1%nat else 2%nat) as ->.
  { unfold utf16_units, utf16_encode_rune. by repeat case_match. }
  change (list_bind Z Z utf16_units rs) with (rs ≫= utf16_units).
  destruct (r <=? 0xFFFF); lia.
Qed.

(** Storing code units one after the other from [pos]. *)
Fixpoint put_units (pos : nat) (us : list Z) (l : list byte) : list byte :=
  match us with
  | [] => l
  | u :: us => put_units (pos + 2) us (splice pos (le_split 2 u) l)
  end.

Lemma put_units_app us vs pos l :
  put_units pos (us ++ vs) l = put_units (pos + 2 * length us) vs (put_units pos us l).
Proof.
  revert pos l. induction us as [|u us IH]; intros pos l; simpl.
  { f_equal. lia. }
  rewrite IH. f_equal. lia.
Qed.

(** They replace exactly the bytes reserved for them. *)
Lemma put_units_spec us pre old :
  (2 * length us <= length old)%nat ->
  put_units (length pre) us (pre ++ old) = pre ++ le_bytes us ++ drop (2 * length us) old.
Proof.
  revert pre old. induction us as [|u us IH]; intros pre old Hl; [done|].
  cbn [put_units length]. simpl in Hl.
  assert (splice (length pre) (le_split 2 u) (pre ++ old)
          = (pre ++ le_split 2 u) ++ drop 2 old) as ->.
  { unfold splice. rewrite take_app_length, length_le_split, drop_app_ge by lia.
    replace (length pre + 2 - length pre)%nat with 2%nat by lia. by rewrite app_assoc. }
  replace (length pre + 2)%nat with (length (pre ++ le_split 2 u))
    by (rewrite length_app, length_le_split; done).
  rewrite IH by (rewrite length_drop; lia).
  rewrite drop_drop, <- app_assoc. f_equal.
  rewrite le_bytes_cons, <- app_assoc. do 2 f_equal. f_equal. lia.
Qed.

Lemma le_split_u16 v : le_split 2 (u16 v) = le_split 2 v.
Proof. symmetry. apply le_split_mod. Qed.

(** One iteration of the writing loop stores the code units of the rune. *)
Lemma write_rune_spec pos w r :
  writer_ok w -> (pos + 2 * length (utf16_units r) <= wlen w)%nat ->
  exists w', write_rune (pos, w) r = ((pos + 2 * length (utf16_units r))%nat, w') /\
    Bytes w' = put_units pos (utf16_units r) (Bytes w) /\ wlen w' = wlen w /\ writer_ok w'.
Proof.
  unfold write_rune, utf16_units, utf16_encode_rune. intros Hw Hp.
  destruct (r <=? 0xFFFF).
  { simpl in Hp. destruct (put_uint_spec 2 pos (u16 r) w Hw ltac:(lia)) as (Hb & Hl & _ & Ho).
    eexists. split; [done|]. split_and!; [|done|done]. rewrite Hb, le_split_u16. done. }
  destruct (within _ _ r); cbn [length put_units] in *;
  match goal with |- context [put_uint 2 (pos + 2) (u16 ?b) (put_uint 2 pos (u16 ?a) w)] =>
    destruct (put_uint_spec 2 pos (u16 a) w Hw ltac:(lia)) as (Hb & Hl & _ & Ho);
    destruct (put_uint_spec 2 (pos + 2) (u16 b) _ Ho ltac:(lia)) as (Hb2 & Hl2 & _ & Ho2)
  end; (eexists; split; [done|]; split_and!; [|congruence|done]);
  by rewrite Hb2, Hb, !le_split_u16.
Qed.

Lemma write_runes_spec rs pos w :
  writer_ok w -> (pos + 2 * length (rs ≫= utf16_units) <= wlen w)%nat ->
  exists w', foldl write_rune (pos, w) rs = ((pos + 2 * length (rs ≫= utf16_units))%nat, w') /\
    Bytes w' = put_units pos (rs ≫= utf16_units) (Bytes w) /\ wlen w' = wlen w /\ writer_ok w'.
Proof.
  revert pos w. induction rs as [|r rs IH]; intros pos w Hw Hp.
  { exists w. simpl. split_and!; [|done|done|done]. f_equal. lia. }
  change ((r :: rs) ≫= utf16_units) with (utf16_units r ++ (rs ≫= utf16_units)) in *.
  rewrite length_app in Hp.
  destruct (write_rune_spec pos w r Hw ltac:(lia)) as (w1 & E1 & Hb1 & Hl1 & Ho1).
  destruct (IH (pos + 2 * length (utf16_units r))%nat w1 Ho1 ltac:(lia))
    as (w2 & E2 & Hb2 & Hl2 & Ho2).
  exists w2. cbn [foldl]. rewrite E1, E2. split_and!; [|by rewrite Hb2, Hb1, put_units_app|congruence|done].
  f_equal. rewrite length_app. lia.
Qed.

(** The loop, run on the region [Extend] has just added. *)
Lemma write_string_region s k w :
  writer_ok w ->
  exists w', foldl write_rune (wlen w, Extend (utf16Len s * 2 + k) w) (runes s)
             = ((wlen w + utf16Len s * 2)%nat, w') /\
    Bytes w' = Bytes w ++ utf16le s ++ drop (utf16Len s * 2) (stale (utf16Len s * 2 + k) w) /\
    wlen w' = (wlen w + utf16Len s * 2 + k)%nat /\ writer_ok w'.
Proof.
  intros Hw. destruct (Extend_spec (utf16Len s * 2 + k) w Hw) as (Hb & Hl & Ho).
  pose proof (utf16Len_spec s) as Hu.
  destruct (write_runes_spec (runes s) (wlen w) _ Ho ltac:(lia)) as (w' & E & Hb' & Hl' & Ho').
  exists w'. split_and!; [|..|lia|done].
  - rewrite E. f_equal. lia.
  - rewrite Hb', Hb, <- (length_Bytes w) by done.
    rewrite put_units_spec by (rewrite length_stale; [lia|done]).
    do 2 f_equal. f_equal. lia.
Qed.

Lemma WriteString_spec s w :
  writer_ok w ->
  Bytes (WriteString s w) = Bytes w ++ utf16le s ++ [Byte.x00; Byte.x00] /\
  writer_ok (WriteString s w).
Proof.
  intros Hw. destruct (write_string_region s 2 w Hw) as (w' & E & Hb & Hl & Ho).
  unfold WriteString. rewrite E.
  destruct (put_uint_spec 2 (wlen w + utf16Len s * 2) 0 w' Ho ltac:(lia)) as (Hp & _ & _ & Hpo).
  split; [|done]. rewrite Hp, Hb, !app_assoc.
  replace (wlen w + utf16Len s * 2)%nat with (length (Bytes w ++ utf16le s)).
  - rewrite splice_app_r; [done|].
    rewrite length_le_split, length_drop, length_stale by done. lia.
  - rewrite length_app, length_Bytes by done. unfold utf16le.
    rewrite length_le_bytes, utf16Len_spec. lia.
Qed.

Lemma WriteSizedString_spec grow s w :
  writer_ok w ->
  Bytes (WriteSizedString grow s w) =
    Bytes w ++ le_split 2 (u16 (i16 (Z.of_nat (utf16Len s)))) ++ utf16le s /\
  writer_ok (WriteSizedString grow s w).
Proof.
  intros Hw. unfold WriteSizedString, WriteInt16, WriteUint16.
  set (n := u16 _). destruct (write_uint_spec grow 2 n w Hw) as [Hb1 Ho1].
  destruct (write_string_region s 0 _ Ho1) as (w' & E & Hb & Hl & Ho).
  rewrite Nat.add_0_r in E. rewrite E. simpl. split; [|done].
  rewrite Hb, Hb1, drop_ge by (rewrite length_stale; [lia|done]).
  rewrite app_nil_r. by rewrite <- app_assoc.
Qed.

(** * Properties *)

(** the string writers overwrite all the uninitialised room they reserve:
    what they add depends on the text alone, not on what an earlier packet left
    in the pooled buffer.  [WriteString] adds the UTF-16LE text and a
    terminator, [WriteSizedString] the number of code units and the text. *)
Theorem string_writers_no_stale grow s w :
  writer_ok w ->
  Bytes (WriteString s w) = Bytes w ++ utf16le s ++ [Byte.x00; Byte.x00] /\
  Bytes (WriteSizedString grow s w) =
    Bytes w ++ le_split 2 (Z.of_nat (length (utf16le s) / 2)) ++ utf16le s.
Proof.
  intros Hw. split; [by apply WriteString_spec|].
  destruct (WriteSizedString_spec grow s w Hw) as [-> _].
  do 2 f_equal. unfold utf16le.
  rewrite length_le_bytes, (Nat.mul_comm 2), Nat.div_mul, <- utf16Len_spec by done.
  rewrite le_split_mod, (le_split_mod (Z.of_nat _)). f_equal.
  change (Z.of_nat 2 * 8) with 16. unfold u16, i16. Z.div_mod_to_equations. lia.
Qed.

(** A writer whose buffer still holds the bytes of an earlier packet. *)
Definition dirty_writer : PacketWriter := {| warr := replicate 64 Byte.xff; wlen := 0 |}.

Lemma string_writers_no_stale_witness :
  Bytes (WriteString (go_str "ok") dirty_writer)
  = Bytes dirty_writer ++ utf16le (go_str "ok") ++ [Byte.x00; Byte.x00] /\
  Bytes (WriteSizedString (λ _ n, n) (go_str "ok") dirty_writer)
  = Bytes dirty_writer ++ le_split 2 (Z.of_nat (length (utf16le (go_str "ok")) / 2))
      ++ utf16le (go_str "ok").
Proof. apply string_writers_no_stale. unfold writer_ok, wcap. simpl. lia. Defined.
