(* ===== verification/PacketCodec.v ===== *)
(** The writer and the reader of [pkg/network] against each other: whatever
    sequence of fields a server component writes into a packet, the peer's
    reader gives back, field by field. *)
From stdpp Require Import base gmap list numbers strings.
From coqutil Require Import Byte Word.LittleEndianList.
From Stdlib Require Import Lia ZArith.
From S2P Require Import Prelude.
From S2P Require Import Unicode.
From S2P Require Import PacketReader.
From S2P Require Import PacketWriter.
Local Open Scope Z_scope.

(** A field of a packet, with the value written. *)
Inductive field : Type :=
| FByte (b : byte)
| FUint16 (v : Z) | FUint32 (v : Z) | FUint64 (v : Z)
| FInt16 (v : Z) | FInt32 (v : Z) | FInt64 (v : Z)
| FFloat32 (bits : Z) | FFloat64 (bits : Z)
| FBytes (b : list byte)
| FString (s : gostring).

#[export] Instance field_eq_dec : EqDecision field.
Proof. solve_decision. Defined.

(** The values of the Go type of the field; a string must be UTF-8 without a
    NUL, since the wire format ends it at the first NUL. *)
Definition field_ok (f : field) : Prop :=
  match f with
  | FByte _ => True
  | FUint16 v => is_u16 v
  | FUint32 v | FFloat32 v => is_u32 v
  | FUint64 v | FFloat64 v => is_u64 v
  | FInt16 v => is_i16 v
  | FInt32 v => is_i32 v
  | FInt64 v => is_i64 v
  | FBytes _ => True
  | FString s => utf8_valid s = true /\ Forall (.≠ 0) (runes s)
  end.

Definition write_field (grow : nat -> nat -> nat) (f : field) : PacketWriter -> PacketWriter :=
  match f with
  | FByte b => WriteByte grow b
  | FUint16 v => WriteUint16 grow v
  | FUint32 v => WriteUint32 grow v
  | FUint64 v => WriteUint64 grow v
  | FInt16 v => WriteInt16 grow v
  | FInt32 v => WriteInt32 grow v
  | FInt64 v => WriteInt64 grow v
  | FFloat32 v => WriteFloat32 grow v
  | FFloat64 v => WriteFloat64 grow v
  | FBytes b => WriteBytes grow b
  | FString s => WriteString s
  end.

(** Reading a field of the kind of [f] (and of its length, for raw bytes). *)
Definition read_field (pBuf : list Z) (f : field) : M PacketReader field :=
  match f with
  | FByte _ => b ← ReadByte; mret (FByte b)
  | FUint16 _ => v ← ReadUint16; mret (FUint16 v)
  | FUint32 _ => v ← ReadUint32; mret (FUint32 v)
  | FUint64 _ => v ← ReadUint64; mret (FUint64 v)
  | FInt16 _ => v ← ReadInt16; mret (FInt16 v)
  | FInt32 _ => v ← ReadInt32; mret (FInt32 v)
  | FInt64 _ => v ← ReadInt64; mret (FInt64 v)
  | FFloat32 _ => v ← ReadFloat32; mret (FFloat32 v)
  | FFloat64 _ => v ← ReadFloat64; mret (FFloat64 v)
  | FBytes b => v ← ReadBytes (Z.of_nat (length b)); mret (FBytes v)
  | FString _ => s ← ReadString pBuf; mret (FString s)
  end.

Fixpoint read_fields (pBuf : list Z) (fs : list field) : M PacketReader (list field) :=
  match fs with
  | [] => mret []
  | f :: fs => g ← read_field pBuf f; gs ← read_fields pBuf fs; mret (g :: gs)
  end.

(** The bytes of a field on the wire. *)
Definition field_bytes (f : field) : list byte :=
  match f with
  | FByte b => [b]
  | FUint16 v | FInt16 v => le_split 2 v
  | FUint32 v | FInt32 v | FFloat32 v => le_split 4 v
  | FUint64 v | FInt64 v | FFloat64 v => le_split 8 v
  | FBytes b => b
  | FString s => utf16le s ++ [Byte.x00; Byte.x00]
  end.

Lemma le_split_u16' v : le_split 2 (u16 v) = le_split 2 v.
Proof. symmetry. apply le_split_mod. Qed.
Lemma le_split_u32 v : le_split 4 (u32 v) = le_split 4 v.
Proof. symmetry. apply le_split_mod. Qed.
Lemma le_split_u64 v : le_split 8 (u64 v) = le_split 8 v.
Proof. symmetry. apply le_split_mod. Qed.

Lemma write_field_spec grow f w :
  writer_ok w ->
  Bytes (write_field grow f w) = Bytes w ++ field_bytes f /\ writer_ok (write_field grow f w).
Proof.
  intros Hw. destruct f; cbn [write_field field_bytes];
    try (by apply append_spec); try (by apply write_uint_spec); try (by apply WriteString_spec).
  - destruct (write_uint_spec grow 2 (u16 v) w Hw). by rewrite <- le_split_u16'.
  - destruct (write_uint_spec grow 4 (u32 v) w Hw). by rewrite <- le_split_u32.
  - destruct (write_uint_spec grow 8 (u64 v) w Hw). by rewrite <- le_split_u64.
Qed.

Lemma write_fields_spec grow fs w :
  writer_ok w ->
  let w' := foldl (λ w f, write_field grow f w) w fs in
  Bytes w' = Bytes w ++ (fs ≫= field_bytes) /\ writer_ok w'.
Proof.
  revert w. induction fs as [|f fs IH]; intros w Hw; [by rewrite app_nil_r|].
  destruct (write_field_spec grow f w Hw) as [Hb Ho].
  destruct (IH _ Ho) as [Hb' Ho']. split; [|done]. cbn [foldl].
  rewrite Hb', Hb, <- app_assoc. done.
Qed.

(** ** Reading back *)

(** A reader whose unread bytes start with [bs]. *)
Definition at_bytes (bs tail : list byte) (r : PacketReader) : Prop :=
  reader_ok r /\ rest r = bs ++ tail.

Lemma at_bytes_len bs tail r :
  at_bytes bs tail r -> Z.of_nat (length bs) <= ReadableBytes r.
Proof. intros [Hr E]. rewrite <- length_rest, E, length_app by done. lia. Qed.

Lemma at_bytes_advance bs tail r :
  at_bytes bs tail r -> at_bytes [] tail (set_pos (pos r + Z.of_nat (length bs)) r).
Proof.
  intros H. pose proof (at_bytes_len _ _ _ H). destruct H as [Hr E].
  split; [apply reader_ok_advance; [done|lia]|].
  rewrite rest_set_pos, Nat2Z.id, E by (done || lia). apply drop_app_length.
Qed.

Lemma read_uint_at k v tail r :
  at_bytes (le_split k v) tail r ->
  read_uint k r = (Val (v mod 2 ^ (Z.of_nat k * 8)), set_pos (pos r + Z.of_nat k) r).
Proof.
  intros H. pose proof (at_bytes_len _ _ _ H) as Hl. destruct H as [Hr E].
  rewrite length_le_split in Hl. rewrite read_uint_val, E by done.
  rewrite take_app_le by (rewrite length_le_split; lia).
  by rewrite take_ge, le_combine_split by (rewrite length_le_split; lia).
Qed.

Lemma le_combine_pair u : is_u16 u -> exists b0 b1,
  le_split 2 u = [b0; b1] /\ le_combine [b0; b1] = u /\
  (u ≠ 0 -> (byte.unsigned b0 =? 0) && (byte.unsigned b1 =? 0) = false).
Proof.
  intros Hu. exists (byte.of_Z u), (byte.of_Z (Z.shiftr u 8)).
  assert (le_combine (le_split 2 u) = u) as E by (rewrite le_u16; by apply u16_small).
  split_and!; [done|done|]. intros Hne. apply not_true_iff_false. intros H.
  apply andb_true_iff in H as [H0 H1]. apply Z.eqb_eq in H0, H1. apply Hne.
  rewrite <- E.
  change (le_combine (le_split 2 u)) with
    (Z.lor (byte.unsigned (byte.of_Z u))
       (Z.shiftl (Z.lor (byte.unsigned (byte.of_Z (Z.shiftr u 8))) 0) 8)).
  by rewrite H0, H1.
Qed.

(** The terminator of an encoded NUL-free text is found right after it. *)
Lemma find_terminator_le_bytes us tail i :
  Forall is_u16 us -> Forall (.≠ 0) us ->
  find_terminator i (le_bytes us ++ [Byte.x00; Byte.x00] ++ tail) = Some (i + 2 * length us)%nat.
Proof.
  intros Hr Hn. revert i. induction Hr as [|u us Hu Hr IH]; intros i.
  { simpl. f_equal. lia. }
  inversion Hn; subst. destruct (le_combine_pair u Hu) as (b0 & b1 & E & _ & Hz).
  rewrite le_bytes_cons, E. cbn [app find_terminator]. rewrite Hz by done.
  change (?x :: ?y :: tail) with ([x; y] ++ tail). rewrite IH by done.
  f_equal. simpl. lia.
Qed.

Lemma le_units_le_bytes us : Forall is_u16 us -> le_units (le_bytes us) = us.
Proof.
  induction 1 as [|u us Hu _ IH]; [done|].
  destruct (le_combine_pair u Hu) as (b0 & b1 & E & Hc & _).
  rewrite le_bytes_cons, E. cbn [app le_units]. by rewrite Hc, IH.
Qed.

Lemma Forall_bind_units (P : Z -> Prop) rs :
  (forall r, r ∈ rs -> Forall P (utf16_units r)) -> Forall P (rs ≫= utf16_units).
Proof.
  intros H. apply Forall_bind. apply Forall_forall. intros r Hr. by apply H.
Qed.

(** A string comes back with its invalid bytes replaced: as itself when it is
    valid UTF-8. *)
Lemma ReadString_at pBuf s tail r :
  (1024 <= length pBuf)%nat -> Forall (.≠ 0) (runes s) ->
  at_bytes (utf16le s ++ [Byte.x00; Byte.x00]) tail r ->
  ReadString pBuf r =
    (Val (string_of_runes (runes s)),
     set_pos (pos r + Z.of_nat (length (utf16le s ++ [Byte.x00; Byte.x00]))) r).
Proof.
  intros Hp Hn [Hr E]. pose proof (runes_scalar s) as Hs.
  assert (Forall is_u16 (runes s ≫= utf16_units)) as Hu16.
  { apply Forall_bind_units. intros x Hx. apply utf16_units_range.
    by apply (proj1 (Forall_forall _ _) Hs). }
  assert (Forall (.≠ 0) (runes s ≫= utf16_units)) as Hnz.
  { apply Forall_bind_units. intros x Hx. apply utf16_units_nonzero.
    - by apply (proj1 (Forall_forall _ _) Hs).
    - by apply (proj1 (Forall_forall _ _) Hn). }
  rewrite ReadString_spec, E, <- app_assoc by done. unfold utf16le.
  rewrite find_terminator_le_bytes by done. cbn [Nat.add].
  rewrite take_app_le, take_ge by (rewrite length_le_bytes; lia).
  rewrite le_units_le_bytes, utf16_decode_units by done.
  do 2 f_equal. rewrite length_app, length_le_bytes. simpl. lia.
Qed.

(** Every integer read is a raw read followed by a conversion [conv]. *)
Lemma read_int_at {A} k (conv : Z -> A) v tail r :
  at_bytes (le_split k v) tail r ->
  (v ← read_uint k; mret (conv v)) r =
    (Val (conv (v mod 2 ^ (Z.of_nat k * 8))), set_pos (pos r + Z.of_nat k) r).
Proof. intros Ha. by rewrite (M_bind_val _ _ _ _ _ (read_uint_at _ _ _ _ Ha)). Qed.

Lemma read_field_spec pBuf f tail r :
  (1024 <= length pBuf)%nat -> field_ok f -> at_bytes (field_bytes f) tail r ->
  read_field pBuf f r = (Val f, set_pos (pos r + Z.of_nat (length (field_bytes f))) r).
Proof.
  intros Hp Hf Ha. pose proof (at_bytes_len _ _ _ Ha) as Hl.
  destruct f; cbn [read_field field_bytes field_ok] in *; rewrite ?length_le_split in *;
    unfold ReadInt16, ReadInt32, ReadInt64, ReadFloat32, ReadFloat64, ReadUint16, ReadUint32,
      ReadUint64.
  - destruct Ha as [Hr E]. destruct (ReadByte_val r Hr Hl) as (b' & Hb & Hrd).
    rewrite E in Hb. cbn in Hb. injection Hb as <-.
    by rewrite (M_bind_val _ _ _ _ _ Hrd).
  - rewrite (read_int_at 2 FUint16 _ _ _ Ha). do 3 f_equal. by apply u16_small.
  - rewrite (read_int_at 4 FUint32 _ _ _ Ha). do 3 f_equal. by apply u32_small.
  - rewrite (read_int_at 8 FUint64 _ _ _ Ha). do 3 f_equal. by apply u64_small.
  - rewrite (M_bind_val _ _ _ _ _ (read_int_at 2 i16 _ _ _ Ha)). change (_ mod _) with (u16 v).
    by rewrite i16_u16, i16_small.
  - rewrite (M_bind_val _ _ _ _ _ (read_int_at 4 i32 _ _ _ Ha)). change (_ mod _) with (u32 v).
    by rewrite i32_u32, i32_small.
  - rewrite (M_bind_val _ _ _ _ _ (read_int_at 8 i64 _ _ _ Ha)). change (_ mod _) with (u64 v).
    by rewrite i64_u64, i64_small.
  - rewrite (M_bind_val _ _ _ _ _ (read_int_at 4 id _ _ _ Ha)). unfold id.
    change (_ mod _) with (u32 bits). by rewrite u32_small.
  - rewrite (M_bind_val _ _ _ _ _ (read_int_at 8 id _ _ _ Ha)). unfold id.
    change (_ mod _) with (u64 bits). by rewrite u64_small.
  - destruct Ha as [Hr E].
    rewrite (M_bind_val _ _ _ _ _ (ReadBytes_val r (Z.of_nat (length b)) Hr ltac:(lia))).
    rewrite E, Nat2Z.id, take_app_length. done.
  - destruct Hf as [Hv Hn].
    rewrite (M_bind_val _ _ _ _ _ (ReadString_at pBuf s tail r Hp Hn Ha)).
    by rewrite string_of_runes_runes.
Qed.

Lemma read_fields_spec pBuf fs tail r :
  (1024 <= length pBuf)%nat -> Forall field_ok fs -> at_bytes (fs ≫= field_bytes) tail r ->
  exists r', read_fields pBuf fs r = (Val fs, r') /\ reader_ok r' /\ rest r' = tail.
Proof.
  intros Hp Hfs. revert r. induction Hfs as [|f fs Hf _ IH]; intros r Ha.
  { destruct Ha. by exists r. }
  change ((f :: fs) ≫= field_bytes) with (field_bytes f ++ (fs ≫= field_bytes)) in Ha.
  assert (at_bytes (field_bytes f) ((fs ≫= field_bytes) ++ tail) r) as Ha1.
  { destruct Ha as [Hr E]. split; [done|]. by rewrite E, <- app_assoc. }
  pose proof (at_bytes_advance _ _ _ Ha1) as Ha2.
  destruct (IH _ Ha2) as (r' & E & Hr' & Hrest). exists r'. split; [|done].
  cbn [read_fields]. unfold mbind at 1, M_bind at 1.
  rewrite (read_field_spec pBuf f _ r Hp Hf Ha1).
  unfold mbind, M_bind. by rewrite E.
Qed.

(** * Properties *)

(** A packet as every sender of the server builds it: a pooled writer, the
    fields in order, the length in front. *)
Definition build_packet (grow : nat -> nat -> nat) (pooled : PacketWriter) (fs : list field)
    : outcome PacketWriter :=
  PrependLength (foldl (λ w f, write_field grow f w) (GetPacketWriter grow pooled) fs).

Definition packet_size (fs : list field) : nat := (2 + length (fs ≫= field_bytes))%nat.

Lemma build_packet_spec grow pooled fs :
  Z.of_nat (packet_size fs) <= 65535 ->
  exists w, build_packet grow pooled fs = Val w /\
    Bytes w = le_split 2 (Z.of_nat (packet_size fs)) ++ (fs ≫= field_bytes) /\ writer_ok w.
Proof.
  unfold packet_size. intros Hs. unfold build_packet.
  destruct (GetPacketWriter_spec grow pooled) as [Hb Ho].
  destruct (write_fields_spec grow fs _ Ho) as [Hb1 Ho1]. rewrite Hb in Hb1. cbn zeta in *.
  set (w := foldl _ _ fs) in *.
  assert (wlen w = (2 + length (fs ≫= field_bytes))%nat) as Hl.
  { by rewrite <- (length_Bytes w Ho1), Hb1, length_app. }
  unfold PrependLength. rewrite Hl.
  destruct (Z.gtb_spec (Z.of_nat (2 + length (fs ≫= field_bytes))) 65535); [lia|].
  destruct (Nat.ltb_spec (wcap w) 2); [unfold writer_ok in Ho1; lia|].
  destruct (put_uint_spec 2 0 (Z.of_nat (2 + length (fs ≫= field_bytes))) w Ho1 ltac:(lia))
    as (Hp & _ & _ & Hpo).
  eexists. split; [done|]. split; [|done]. rewrite Hp, Hb1.
  unfold splice. rewrite length_le_split. done.
Qed.

(** C15: packets round-trip: the fields written by any sender, through any pooled
    buffer, are read back in order with their values, after a length header
    that is the length of the packet; nothing is left over. *)
Theorem packet_roundtrip grow pooled pBuf fs :
  (1024 <= length pBuf)%nat -> Forall field_ok fs -> Z.of_nat (packet_size fs) <= 65535 ->
  exists w r r', build_packet grow pooled fs = Val w /\
    GetPacketReader (Bytes w) = Val r /\
    (n ← ReadUint16; gs ← read_fields pBuf fs; mret (n, gs)) r
      = (Val (Z.of_nat (length (Bytes w)), fs), r') /\
    ReadableBytes r' = 0.
Proof.
  intros Hp Hfs Hs. destruct (build_packet_spec grow pooled fs Hs) as (w & E & Hb & Ho).
  assert (length (Bytes w) = packet_size fs) as Hl by (by rewrite Hb, length_app).
  set (r := {| rbuf := Bytes w; pos := 0 |}).
  assert (GetPacketReader (Bytes w) = Val r) as Hg.
  { unfold GetPacketReader, MinPacketSize, MaxPacketSize. rewrite Hl.
    destruct (Z.ltb_spec (Z.of_nat (packet_size fs)) 0), (Z.ltb_spec 65536 (Z.of_nat (packet_size fs)));
      done || lia. }
  pose proof (GetPacketReader_ok _ _ Hg) as Hr.
  assert (at_bytes (le_split 2 (Z.of_nat (packet_size fs))) (fs ≫= field_bytes) r) as Ha by done.
  pose proof (at_bytes_advance _ _ _ Ha) as Ha2. cbn [app] in Ha2.
  destruct (read_fields_spec pBuf fs [] (set_pos (pos r + 2) r) Hp Hfs) as (r' & Er & Hr' & Hrest).
  { destruct Ha2. split; [done|]. by rewrite app_nil_r. }
  exists w, r, r'. split_and!; [done|done| |by rewrite <- length_rest, Hrest].
  unfold ReadUint16. rewrite (M_bind_val _ _ _ _ _ (read_uint_at _ _ _ _ Ha)).
  rewrite (M_bind_val _ _ _ _ _ Er), Hl, Z.mod_small by (change (2 ^ (Z.of_nat 2 * 8)) with 65536; lia). done.
Qed.

(** The packet of the unit test of the package. *)
Definition sample_fields : list field :=
  [FByte Byte.x42; FUint16 0x1234; FInt32 (-5); FString (go_str "Hello, Lineage 2!")].

Lemma packet_roundtrip_witness :
  exists w r r', build_packet (λ _ n, n) NewPacketWriter sample_fields = Val w /\
    GetPacketReader (Bytes w) = Val r /\
    (n ← ReadUint16; gs ← read_fields fresh_decode_buf sample_fields; mret (n, gs)) r
      = (Val (Z.of_nat (length (Bytes w)), sample_fields), r') /\
    ReadableBytes r' = 0.
Proof.
  apply packet_roundtrip.
  - vm_compute. lia.
  - repeat constructor; vm_compute; try discriminate; try done; repeat constructor; discriminate.
  - vm_compute. discriminate.
Defined.
