(* ===== verification/Blowfish.v ===== *)
(** [pkg/crypto/blowfish_cipher.go]: the Blowfish block cipher, its key
    schedule, and the in-place ECB passes over a byte range. *)
From stdpp Require Import base gmap list numbers strings.
From coqutil Require Import Byte Word.LittleEndianList.
From Stdlib Require Import Lia ZArith.
From S2P Require Import Prelude.
From S2P Require Import BlowfishTables.
Local Open Scope Z_scope.

(** [pArray] has 18 words, [sBoxes] four boxes of 256 words ([cipher_ok]). *)
Record BlowfishCipher := mkCipher { pArray : list Z; sBoxes : list (list Z) }.

Definition P (c : BlowfishCipher) (i : nat) : Z := nth i (pArray c) 0.
Definition S_box (c : BlowfishCipher) (box : nat) (i : Z) : Z :=
  nth (Z.to_nat i) (nth box (sBoxes c) []) 0.

(** The round function. *)
Definition f (c : BlowfishCipher) (x : Z) : Z :=
  let a := u8 (Z.shiftr x 24) in
  let b := u8 (Z.shiftr x 16) in
  let idxC := u8 (Z.shiftr x 8) in
  let d := u8 x in
  u32 (Z.lxor (u32 (S_box c 0 a + S_box c 1 b)) (S_box c 2 idxC) + S_box c 3 d).

Definition encryptBlock (c : BlowfishCipher) (xl xr : Z) : Z * Z :=
  let xl := Z.lxor xl (P c 0) in
  let xr := Z.lxor xr (Z.lxor (f c xl) (P c 1)) in
  let xl := Z.lxor xl (Z.lxor (f c xr) (P c 2)) in
  let xr := Z.lxor xr (Z.lxor (f c xl) (P c 3)) in
  let xl := Z.lxor xl (Z.lxor (f c xr) (P c 4)) in
  let xr := Z.lxor xr (Z.lxor (f c xl) (P c 5)) in
  let xl := Z.lxor xl (Z.lxor (f c xr) (P c 6)) in
  let xr := Z.lxor xr (Z.lxor (f c xl) (P c 7)) in
  let xl := Z.lxor xl (Z.lxor (f c xr) (P c 8)) in
  let xr := Z.lxor xr (Z.lxor (f c xl) (P c 9)) in
  let xl := Z.lxor xl (Z.lxor (f c xr) (P c 10)) in
  let xr := Z.lxor xr (Z.lxor (f c xl) (P c 11)) in
  let xl := Z.lxor xl (Z.lxor (f c xr) (P c 12)) in
  let xr := Z.lxor xr (Z.lxor (f c xl) (P c 13)) in
  let xl := Z.lxor xl (Z.lxor (f c xr) (P c 14)) in
  let xr := Z.lxor xr (Z.lxor (f c xl) (P c 15)) in
  let xl := Z.lxor xl (Z.lxor (f c xr) (P c 16)) in
  let xr := Z.lxor xr (P c 17) in
  (xr, xl).

Definition decryptBlock (c : BlowfishCipher) (xl xr : Z) : Z * Z :=
  let xl := Z.lxor xl (P c 17) in
  let xr := Z.lxor xr (Z.lxor (f c xl) (P c 16)) in
  let xl := Z.lxor xl (Z.lxor (f c xr) (P c 15)) in
  let xr := Z.lxor xr (Z.lxor (f c xl) (P c 14)) in
  let xl := Z.lxor xl (Z.lxor (f c xr) (P c 13)) in
  let xr := Z.lxor xr (Z.lxor (f c xl) (P c 12)) in
  let xl := Z.lxor xl (Z.lxor (f c xr) (P c 11)) in
  let xr := Z.lxor xr (Z.lxor (f c xl) (P c 10)) in
  let xl := Z.lxor xl (Z.lxor (f c xr) (P c 9)) in
  let xr := Z.lxor xr (Z.lxor (f c xl) (P c 8)) in
  let xl := Z.lxor xl (Z.lxor (f c xr) (P c 7)) in
  let xr := Z.lxor xr (Z.lxor (f c xl) (P c 6)) in
  let xl := Z.lxor xl (Z.lxor (f c xr) (P c 5)) in
  let xr := Z.lxor xr (Z.lxor (f c xl) (P c 4)) in
  let xl := Z.lxor xl (Z.lxor (f c xr) (P c 3)) in
  let xr := Z.lxor xr (Z.lxor (f c xl) (P c 2)) in
  let xl := Z.lxor xl (Z.lxor (f c xr) (P c 1)) in
  let xr := Z.lxor xr (P c 0) in
  (xr, xl).

(** ** Key schedule *)

(** [c.pArray[i] = v] and [c.sBoxes[box][i] = v]. *)
Definition set_P (i : nat) (v : Z) (c : BlowfishCipher) : BlowfishCipher :=
  {| pArray := <[i := v]> (pArray c); sBoxes := sBoxes c |}.
Definition set_S (box i : nat) (v : Z) (c : BlowfishCipher) : BlowfishCipher :=
  {| pArray := pArray c;
     sBoxes := <[box := <[i := v]> (nth box (sBoxes c) [])]> (sBoxes c) |}.

(** The four key bytes that go into one subkey, and the key index after them. *)
Definition key_word (key : list byte) (keyIndex : nat) : Z * nat :=
  for_range 4 (λ _ '(data, k),
    let data := Z.lor (u32 (Z.shiftl data 8)) (byte.unsigned (nth k key Byte.x00)) in
    let k := (k + 1)%nat in
    (data, if (length key <=? k)%nat then 0%nat else k)) (0, keyIndex).

Definition mix_key (key : list byte) (c : BlowfishCipher) : BlowfishCipher :=
  (for_range 18 (λ i '(c, k),
     let '(data, k) := key_word key k in
     (set_P i (Z.lxor (P c i) data) c, k)) (c, 0%nat)).1.

(** One step of the subkey generation: encrypt the running block with the
    cipher built so far and store its halves. *)
Definition expand_P (i : nat) (st : BlowfishCipher * Z * Z) : BlowfishCipher * Z * Z :=
  let '(c, xl, xr) := st in
  let '(xl, xr) := encryptBlock c xl xr in
  (set_P (2 * i + 1) xr (set_P (2 * i) xl c), xl, xr).
Definition expand_S (box i : nat) (st : BlowfishCipher * Z * Z) : BlowfishCipher * Z * Z :=
  let '(c, xl, xr) := st in
  let '(xl, xr) := encryptBlock c xl xr in
  (set_S box (2 * i + 1) xr (set_S box (2 * i) xl c), xl, xr).

Definition setKey (key : list byte) : BlowfishCipher :=
  let c := {| pArray := parrayInit; sBoxes := [sboxInit0; sboxInit1; sboxInit2; sboxInit3] |} in
  if (length key =? 0)%nat then c
  else
    let c := mix_key key c in
    let st := for_range 9 expand_P (c, 0, 0) in
    let st := for_range 4 (λ box st, for_range 128 (expand_S box) st) st in
    st.1.1.

Definition NewBlowfishCipher (key : list byte) : BlowfishCipher := setKey key.

(** [Zero]. *)
Definition Zero (c : BlowfishCipher) : BlowfishCipher :=
  {| pArray := map (λ _, 0) (pArray c); sBoxes := map (map (λ _, 0)) (sBoxes c) |}.

(** ** Ranges of bytes *)

Definition bytesToUint32LE (src : list byte) (offset : nat) : Z :=
  le_combine (slice offset (offset + 4) src).
Definition uint32ToBytesLE (val : Z) (dst : list byte) (offset : nat) : list byte :=
  splice offset (le_split 4 val) dst.

(** The body of both range loops at offset [off]; [None] is the panic of
    [_ = data[off+7]]. *)
Definition range_step (blk : Z -> Z -> Z * Z) (off : nat) (data : list byte) : option (list byte) :=
  if (off + 7 <? length data)%nat then
    let xl := bytesToUint32LE data off in
    let xr := bytesToUint32LE data (off + 4) in
    let '(xl, xr) := blk xl xr in
    Some (uint32ToBytesLE xr (uint32ToBytesLE xl data off) (off + 4))
  else None.

(** [for i := 0; i < n; i++ { off := offset + i*8; ... }]. *)
Fixpoint range_loop (blk : Z -> Z -> Z * Z) (n off : nat) (data : list byte) : option (list byte) :=
  match n with
  | O => Some data
  | S n => data ← range_step blk off data; range_loop blk n (off + 8) data
  end.

(** The common shape of [CipherRange] and [DecipherRange], with the guard on
    [int] arguments whose sum wraps at 64 bits. *)
Definition range_with (blk : Z -> Z -> Z * Z) (data : list byte) (offset len : Z)
    : option (list byte) :=
  if (offset <? 0) || (len <=? 0) || (i64 (offset + len) >? Z.of_nat (length data))
  then Some data
  else range_loop blk (Z.to_nat (len / 8)) (Z.to_nat offset) data.

Definition CipherRange (c : BlowfishCipher) : list byte -> Z -> Z -> option (list byte) :=
  range_with (encryptBlock c).
Definition DecipherRange (c : BlowfishCipher) : list byte -> Z -> Z -> option (list byte) :=
  range_with (decryptBlock c).

(** * The reference network

    A Feistel network by recursion on the list of subkeys: the halves are
    swapped after every round.  The unrolled block functions are instances. *)
Fixpoint feistel (F : Z -> Z) (ks : list Z) (l r : Z) : Z * Z :=
  match ks with
  | [] => (l, r)
  | k :: ks => feistel F ks (Z.lxor r (Z.lxor (F l) k)) l
  end.

(** Whitening with [k0] before and [k1] after the rounds, halves swapped. *)
Definition feistel_block (F : Z -> Z) (k0 : Z) (ks : list Z) (k1 : Z) (l r : Z) : Z * Z :=
  let '(l, r) := feistel F ks (Z.lxor l k0) r in (Z.lxor r k1, l).

Definition round_keys (c : BlowfishCipher) : list Z := map (P c) (seq 1 16).

Lemma feistel_app F ks ks' l r :
  feistel F (ks ++ ks') l r = let '(l, r) := feistel F ks l r in feistel F ks' l r.
Proof. revert l r. induction ks as [|k ks IH]; intros l r; [done|]. apply IH. Qed.

(** Running the subkeys backwards on swapped halves undoes the rounds. *)
Lemma feistel_rev F ks l r :
  let '(l', r') := feistel F ks l r in feistel F (rev ks) r' l' = (r, l).
Proof.
  revert l r. induction ks as [|k ks IH]; intros l r; [done|].
  cbn [feistel rev]. specialize (IH (Z.lxor r (Z.lxor (F l) k)) l).
  destruct (feistel F ks _ l) as [l' r']. rewrite feistel_app, IH. cbn [feistel].
  by rewrite lxor_cancel.
Qed.

Lemma feistel_block_inverse F k0 ks k1 l r :
  let '(l', r') := feistel_block F k0 ks k1 l r in
  feistel_block F k1 (rev ks) k0 l' r' = (l, r).
Proof.
  unfold feistel_block. pose proof (feistel_rev F ks (Z.lxor l k0) r) as H.
  destruct (feistel F ks _ r) as [l' r']. by rewrite lxor_cancel, H, lxor_cancel.
Qed.

Lemma encryptBlock_feistel c l r :
  encryptBlock c l r = feistel_block (f c) (P c 0) (round_keys c) (P c 17) l r.
Proof. reflexivity. Qed.

Lemma decryptBlock_feistel c l r :
  decryptBlock c l r = feistel_block (f c) (P c 17) (rev (round_keys c)) (P c 0) l r.
Proof. reflexivity. Qed.

(** * Words stay words *)

Definition cipher_ok (c : BlowfishCipher) : Prop :=
  length (pArray c) = 18%nat /\ Forall is_u32 (pArray c) /\
  length (sBoxes c) = 4%nat /\ Forall (λ b, length b = 256%nat /\ Forall is_u32 b) (sBoxes c).

Lemma nth_u32 i l : Forall is_u32 l -> is_u32 (nth i l 0).
Proof.
  intros H. destruct (nth_in_or_default i l 0) as [Hin| ->]; [|unfold is_u32; lia].
  by apply (proj1 (List.Forall_forall _ _) H).
Qed.

Lemma P_u32 c i : Forall is_u32 (pArray c) -> is_u32 (P c i).
Proof. apply nth_u32. Qed.

Lemma f_u32 c x : is_u32 (f c x).
Proof. apply u32_range. Qed.

#[export] Hint Resolve P_u32 f_u32 : goint.

Lemma feistel_u32 F ks l r :
  (forall x, is_u32 (F x)) -> Forall is_u32 ks -> is_u32 l -> is_u32 r ->
  is_u32 (feistel F ks l r).1 /\ is_u32 (feistel F ks l r).2.
Proof.
  intros HF Hks. revert l r. induction Hks as [|k ks Hk _ IH]; intros l r Hl Hr; [done|].
  cbn [feistel]. apply IH; [|done]. auto with goint.
Qed.

Lemma feistel_block_u32 F k0 ks k1 l r :
  (forall x, is_u32 (F x)) -> Forall is_u32 ks -> is_u32 k0 -> is_u32 k1 ->
  is_u32 l -> is_u32 r ->
  is_u32 (feistel_block F k0 ks k1 l r).1 /\ is_u32 (feistel_block F k0 ks k1 l r).2.
Proof.
  intros HF Hks H0 H1 Hl Hr. unfold feistel_block.
  pose proof (feistel_u32 F ks (Z.lxor l k0) r HF Hks ltac:(auto with goint) Hr) as [A B].
  destruct (feistel F ks _ r) as [l' r']. simpl in *. auto with goint.
Qed.

Lemma round_keys_u32 c : Forall is_u32 (pArray c) -> Forall is_u32 (round_keys c).
Proof. intros. apply Forall_map, Forall_forall. intros i _. auto with goint. Qed.

Lemma encryptBlock_u32 c l r :
  Forall is_u32 (pArray c) -> is_u32 l -> is_u32 r ->
  is_u32 (encryptBlock c l r).1 /\ is_u32 (encryptBlock c l r).2.
Proof.
  intros. rewrite encryptBlock_feistel.
  apply feistel_block_u32; auto using round_keys_u32 with goint.
Qed.

Lemma decryptBlock_encryptBlock c l r :
  let '(l', r') := encryptBlock c l r in decryptBlock c l' r' = (l, r).
Proof.
  rewrite encryptBlock_feistel. pose proof (feistel_block_inverse (f c) (P c 0) (round_keys c) (P c 17) l r) as H.
  destruct (feistel_block _ _ _ _ l r). by rewrite decryptBlock_feistel.
Qed.

(** ** The key schedule builds a well-formed cipher *)

Lemma Forall_insert_u32 i v l : Forall is_u32 l -> is_u32 v -> Forall is_u32 (<[i:=v]> l).
Proof. intros. by apply Forall_insert. Qed.

Lemma set_P_ok i v c : cipher_ok c -> is_u32 v -> cipher_ok (set_P i v c).
Proof.
  intros (H1 & H2 & H3 & H4) Hv. split_and!; simpl; [|by apply Forall_insert_u32|done|done].
  by rewrite length_insert.
Qed.

Lemma set_S_ok box i v c : cipher_ok c -> is_u32 v -> cipher_ok (set_S box i v c).
Proof.
  intros (H1 & H2 & H3 & H4) Hv. split_and!; simpl; [done|done|by rewrite length_insert|].
  destruct (Nat.lt_ge_cases box (length (sBoxes c))).
  - apply Forall_insert; [done|]. pose proof (nth_In (sBoxes c) [] H) as Hin.
    apply (proj1 (List.Forall_forall _ _) H4) in Hin as [Hl Hb].
    split; [by rewrite length_insert | by apply Forall_insert_u32].
  - by rewrite list_insert_ge.
Qed.

Lemma key_word_u32 key k : is_u32 (key_word key k).1.
Proof.
  unfold key_word. apply (for_range_ind (λ _ st, is_u32 st.1)); [unfold is_u32; simpl; lia|].
  intros i [data k'] _ _. cbn [fst]. auto with goint.
Qed.

Lemma mix_key_ok key c : cipher_ok c -> cipher_ok (mix_key key c).
Proof.
  intros Hc. unfold mix_key. apply (for_range_ind (λ _ st, cipher_ok st.1)); [done|].
  intros i [c' k] _ Hc'. cbn [fst] in *. pose proof (key_word_u32 key k) as Hk.
  destruct (key_word key k) as [data k']. cbn [fst] in *.
  apply set_P_ok; [done|]. destruct Hc' as (_ & HP & _). auto with goint.
Qed.

(** The invariant of the expansion loops: the cipher so far and the running
    block are well formed. *)
Definition expansion_ok (st : BlowfishCipher * Z * Z) : Prop :=
  cipher_ok st.1.1 /\ is_u32 st.1.2 /\ is_u32 st.2.

Lemma expand_P_ok i st : expansion_ok st -> expansion_ok (expand_P i st).
Proof.
  destruct st as [[c xl] xr]. intros (Hc & Hl & Hr). cbn [fst snd] in *. unfold expand_P.
  pose proof Hc as (_ & HP & _). pose proof (encryptBlock_u32 c xl xr HP Hl Hr) as [A B].
  destruct (encryptBlock c xl xr) as [l r]. split_and!; cbn [fst snd] in *; [|done|done].
  auto using set_P_ok.
Qed.

Lemma expand_S_ok box i st : expansion_ok st -> expansion_ok (expand_S box i st).
Proof.
  destruct st as [[c xl] xr]. intros (Hc & Hl & Hr). cbn [fst snd] in *. unfold expand_S.
  pose proof Hc as (_ & HP & _). pose proof (encryptBlock_u32 c xl xr HP Hl Hr) as [A B].
  destruct (encryptBlock c xl xr) as [l r]. split_and!; cbn [fst snd] in *; [|done|done].
  auto using set_S_ok.
Qed.

Lemma table_u32 l : forallb (λ z, (0 <=? z) && (z <? 2 ^ 32)) l = true -> Forall is_u32 l.
Proof.
  rewrite forallb_forall, List.Forall_forall. intros H x Hx. specialize (H x Hx).
  unfold is_u32. apply andb_true_iff in H as [H1 H2]. apply Z.leb_le in H1. apply Z.ltb_lt in H2. lia.
Qed.

Lemma initial_ok :
  cipher_ok {| pArray := parrayInit; sBoxes := [sboxInit0; sboxInit1; sboxInit2; sboxInit3] |}.
Proof.
  split_and!; [reflexivity|apply table_u32; vm_compute; reflexivity|reflexivity|].
  repeat (apply List.Forall_cons; [split; [reflexivity|apply table_u32; vm_compute; reflexivity]|]).
  apply List.Forall_nil.
Qed.

Lemma NewBlowfishCipher_cipher_ok key : cipher_ok (NewBlowfishCipher key).
Proof.
  unfold NewBlowfishCipher, setKey. destruct (_ =? _)%nat; [apply initial_ok|]. cbn zeta.
  apply (for_range_ind (λ _ st, expansion_ok st)).
  - apply (for_range_ind (λ _ st, expansion_ok st)).
    + split_and!; [apply mix_key_ok, initial_ok|unfold is_u32; simpl; lia|unfold is_u32; simpl; lia].
    + intros. by apply expand_P_ok.
  - intros box st _ Hst. apply (for_range_ind (λ _ st, expansion_ok st)); [done|].
    intros. by apply expand_S_ok.
Qed.

(** * ECB over a range *)

(** One block of bytes through a block function. *)
Definition ecb_block (blk : Z -> Z -> Z * Z) (b : list byte) : list byte :=
  let '(l, r) := blk (le_combine (take 4 b)) (le_combine (take 4 (drop 4 b))) in
  le_split 4 l ++ le_split 4 r.

(** The first [n] blocks of [body], block by block. *)
Fixpoint ecb (blk : Z -> Z -> Z * Z) (n : nat) (body : list byte) : list byte :=
  match n with
  | O => body
  | S n => ecb_block blk (take 8 body) ++ ecb blk n (drop 8 body)
  end.

Lemma length_ecb_block blk b : length (ecb_block blk b) = 8%nat.
Proof. unfold ecb_block. destruct (blk _ _). by rewrite length_app, !length_le_split. Qed.

Lemma length_ecb blk n body :
  (8 * n <= length body)%nat -> length (ecb blk n body) = length body.
Proof.
  revert body. induction n as [|n IH]; intros body H; [done|]. cbn [ecb].
  rewrite length_app, length_ecb_block, IH; rewrite length_drop; lia.
Qed.

Lemma range_step_spec blk pre body :
  (8 <= length body)%nat ->
  range_step blk (length pre) (pre ++ body)
  = Some (pre ++ ecb_block blk (take 8 body) ++ drop 8 body).
Proof.
  intros H. unfold range_step. rewrite length_app.
  destruct (Nat.ltb_spec (length pre + 7) (length pre + length body)); [|lia].
  unfold bytesToUint32LE, uint32ToBytesLE.
  rewrite <- !Nat.add_assoc, slice_app_l. rewrite <- (Nat.add_0_r (length pre)) at 1.
  rewrite slice_app_l. cbn [Nat.add].
  do 8 (destruct body as [|? body]; [simpl in H; lia|]).
  unfold ecb_block. cbn [take drop slice Nat.sub]. destruct (blk _ _) as [l r].
  rewrite splice_app_l.
  replace (length pre + 4)%nat with (length (pre ++ le_split 4 l))
    by (rewrite length_app, length_le_split; done).
  change (splice 0 (le_split 4 l) ?x) with (le_split 4 l ++ drop 4 x).
  rewrite app_assoc, splice_app_l, <- !app_assoc. done.
Qed.

Lemma range_loop_spec blk n pre body :
  (8 * n <= length body)%nat ->
  range_loop blk n (length pre) (pre ++ body) = Some (pre ++ ecb blk n body).
Proof.
  revert pre body. induction n as [|n IH]; intros pre body H; [done|].
  cbn [range_loop ecb]. rewrite range_step_spec by lia. cbn [mbind option_bind].
  rewrite app_assoc.
  replace (length pre + 8)%nat with (length (pre ++ ecb_block blk (take 8 body)))
    by (rewrite length_app, length_ecb_block; done).
  rewrite IH by (rewrite length_drop; lia). by rewrite <- app_assoc.
Qed.

Lemma ecb_block_inverse (enc dec : Z -> Z -> Z * Z) b :
  length b = 8%nat ->
  (forall l r, is_u32 l -> is_u32 r -> is_u32 (enc l r).1 /\ is_u32 (enc l r).2) ->
  (forall l r, let '(l', r') := enc l r in dec l' r' = (l, r)) ->
  ecb_block dec (ecb_block enc b) = b.
Proof.
  intros Hb Hr Hinv. unfold ecb_block.
  set (l := le_combine (take 4 b)). set (r := le_combine (take 4 (drop 4 b))).
  assert (is_u32 l /\ is_u32 r) as [Hl Hr'].
  { split; apply le_combine_u32; rewrite length_take, ?length_drop; lia. }
  specialize (Hr l r Hl Hr'). specialize (Hinv l r).
  destruct (enc l r) as [l' r']. cbn [fst snd] in Hr. destruct Hr as [Hl2 Hr2].
  rewrite take_app_le, take_ge by (rewrite length_le_split; lia).
  rewrite drop_app_ge, length_le_split by (rewrite length_le_split; lia).
  rewrite drop_0, take_ge by (rewrite length_le_split; lia).
  rewrite !le_u32, !u32_small, Hinv by done. unfold l, r.
  rewrite !split_le_combine' by (rewrite length_take, ?length_drop; lia).
  rewrite (take_ge (drop 4 b)) by (rewrite length_drop; lia). apply take_drop.
Qed.

Lemma ecb_inverse (enc dec : Z -> Z -> Z * Z) n body :
  (8 * n <= length body)%nat ->
  (forall l r, is_u32 l -> is_u32 r -> is_u32 (enc l r).1 /\ is_u32 (enc l r).2) ->
  (forall l r, let '(l', r') := enc l r in dec l' r' = (l, r)) ->
  ecb dec n (ecb enc n body) = body.
Proof.
  intros H Hr Hinv. revert body H. induction n as [|n IH]; intros body H; [done|].
  cbn [ecb]. rewrite take_app_le, take_ge by (rewrite length_ecb_block; lia).
  rewrite drop_app_ge, length_ecb_block by (rewrite length_ecb_block; lia).
  rewrite drop_0, ecb_block_inverse by (done || (rewrite length_take; lia)).
  rewrite IH by (rewrite length_drop; lia). apply take_drop.
Qed.

(** The bytes after the whole blocks stay. *)
Lemma lookup_ecb_ge blk n body i :
  (8 * n <= i)%nat -> ecb blk n body !! i = body !! i.
Proof.
  revert body i. induction n as [|n IH]; intros body i Hi; [done|]. cbn [ecb].
  rewrite lookup_app_r, length_ecb_block by (rewrite length_ecb_block; lia).
  rewrite IH by lia. rewrite lookup_drop. f_equal. lia.
Qed.

(** The two outcomes of a range call whose arguments do not overflow an [int]:
    nothing happens, or the blocks of the range go through the cipher. *)
Lemma range_with_spec blk data offset len :
  is_i64 offset -> is_i64 len -> offset + len < 2 ^ 63 ->
  (range_with blk data offset len = Some data /\
     (offset < 0 \/ len <= 0 \/ Z.of_nat (length data) < offset + len)) \/
  (exists pre body, data = pre ++ body /\ Z.of_nat (length pre) = offset /\ 0 < len /\
     (8 * Z.to_nat (len / 8) <= length body)%nat /\
     range_with blk data offset len = Some (pre ++ ecb blk (Z.to_nat (len / 8)) body)).
Proof.
  unfold is_i64. intros Ho Hl Hs. unfold range_with.
  destruct (Z.ltb_spec offset 0); [left; auto|].
  destruct (Z.leb_spec len 0); [left; auto|].
  rewrite i64_small by (unfold is_i64; lia). cbn [orb].
  destruct (Z.gtb_spec (offset + len) (Z.of_nat (length data))); [left; auto with lia|].
  right. exists (take (Z.to_nat offset) data), (drop (Z.to_nat offset) data).
  assert (length (take (Z.to_nat offset) data) = Z.to_nat offset) as Hp
    by (rewrite length_take; lia).
  assert (8 * Z.to_nat (len / 8) <= length (drop (Z.to_nat offset) data))%nat as Hn.
  { rewrite length_drop. pose proof (Z.mul_div_le len 8). lia. }
  split_and!; [by rewrite take_drop|lia|lia|done|].
  rewrite <- range_loop_spec, take_drop, Hp by done. done.
Qed.

Lemma encryptBlock_decryptBlock c l r :
  let '(l', r') := decryptBlock c l r in encryptBlock c l' r' = (l, r).
Proof.
  rewrite decryptBlock_feistel.
  pose proof (feistel_block_inverse (f c) (P c 17) (rev (round_keys c)) (P c 0) l r) as H.
  rewrite rev_involutive in H. destruct (feistel_block _ _ _ _ l r). by rewrite encryptBlock_feistel.
Qed.

Lemma decryptBlock_u32 c l r :
  Forall is_u32 (pArray c) -> is_u32 l -> is_u32 r ->
  is_u32 (decryptBlock c l r).1 /\ is_u32 (decryptBlock c l r).2.
Proof.
  intros. rewrite decryptBlock_feistel.
  apply feistel_block_u32; auto using Forall_rev, round_keys_u32 with goint.
Qed.

(** Either pass over a range is undone by the other; here for any two block
    functions that are inverse to each other on words. *)
Lemma range_with_inverse enc dec data offset len :
  (forall l r, is_u32 l -> is_u32 r -> is_u32 (enc l r).1 /\ is_u32 (enc l r).2) ->
  (forall l r, let '(l', r') := enc l r in dec l' r' = (l, r)) ->
  is_i64 offset -> is_i64 len -> offset + len < 2 ^ 63 ->
  exists data', range_with enc data offset len = Some data' /\
    length data' = length data /\
    (forall i, Z.of_nat i < offset \/ offset + 8 * (len / 8) <= Z.of_nat i -> data' !! i = data !! i) /\
    range_with dec data' offset len = Some data.
Proof.
  intros Hu Hinv Ho Hl Hs.
  destruct (range_with_spec enc data offset len Ho Hl Hs)
    as [[E Hg]|(pre & body & -> & Hp & Hpos & Hn & E)].
  { exists data. split_and!; [done|done|done|].
    destruct (range_with_spec dec data offset len Ho Hl Hs)
      as [[E' _]|(pre & body & -> & Hp & Hpos & Hn & E')]; [done|].
    unfold is_i64 in *. unfold range_with in *.
    rewrite i64_small in * by (unfold is_i64; lia).
    destruct (Z.ltb_spec offset 0), (Z.leb_spec len 0),
      (Z.gtb_spec (offset + len) (Z.of_nat (length (pre ++ body)))); try done; lia. }
  assert (0 <= len / 8) as Hq by (apply Z.div_pos; lia).
  set (n := Z.to_nat (len / 8)) in *.
  assert (length (ecb enc n body) = length body) as Hlen by (by apply length_ecb).
  exists (pre ++ ecb enc n body). split_and!; [done|by rewrite !length_app, Hlen|..].
  - intros i [Hi|Hi]; [by rewrite !lookup_app_l by lia|].
    rewrite !lookup_app_r by lia. apply lookup_ecb_ge. lia.
  - unfold range_with in *. rewrite length_app, Hlen, <- length_app.
    destruct (_ || _); [congruence|].
    replace (Z.to_nat offset) with (length pre) by lia.
    rewrite range_loop_spec by lia. by rewrite (ecb_inverse enc dec).
Qed.

Lemma CipherRange_inverse c data offset len :
  cipher_ok c -> is_i64 offset -> is_i64 len -> offset + len < 2 ^ 63 ->
  exists data', CipherRange c data offset len = Some data' /\
    length data' = length data /\
    (forall i, Z.of_nat i < offset \/ offset + 8 * (len / 8) <= Z.of_nat i -> data' !! i = data !! i) /\
    DecipherRange c data' offset len = Some data.
Proof.
  intros (_ & HP & _). apply range_with_inverse.
  - intros. by apply encryptBlock_u32.
  - intros. apply decryptBlock_encryptBlock.
Qed.

Lemma DecipherRange_inverse c data offset len :
  cipher_ok c -> is_i64 offset -> is_i64 len -> offset + len < 2 ^ 63 ->
  exists data', DecipherRange c data offset len = Some data' /\
    length data' = length data /\
    (forall i, Z.of_nat i < offset \/ offset + 8 * (len / 8) <= Z.of_nat i -> data' !! i = data !! i) /\
    CipherRange c data' offset len = Some data.
Proof.
  intros (_ & HP & _). apply range_with_inverse.
  - intros. by apply decryptBlock_u32.
  - intros. apply encryptBlock_decryptBlock.
Qed.

(** * Properties *)

(** C33: encrypting a byte range in place and decrypting it gives the data back,
    for every key, range and data: when the range does not overflow an [int]
    neither pass panics, lengths are kept, bytes outside the whole blocks of the
    range are not touched, and the second pass undoes the first. *)
Theorem range_roundtrip key data offset len :
  is_i64 offset -> is_i64 len -> offset + len < 2 ^ 63 ->
  let c := NewBlowfishCipher key in
  exists data', CipherRange c data offset len = Some data' /\
    length data' = length data /\
    (forall i, Z.of_nat i < offset \/ offset + 8 * (len / 8) <= Z.of_nat i -> data' !! i = data !! i) /\
    DecipherRange c data' offset len = Some data.
Proof. intros. apply CipherRange_inverse; [apply NewBlowfishCipher_cipher_ok|done..]. Qed.

Lemma range_roundtrip_witness :
  let c := NewBlowfishCipher (go_str "key") in
  let data := go_str "0123456789abcdefghij" in
  exists data', CipherRange c data 1 17 = Some data' /\
    length data' = length data /\
    (forall i, Z.of_nat i < 1 \/ 1 + 8 * (17 / 8) <= Z.of_nat i -> data' !! i = data !! i) /\
    DecipherRange c data' 1 17 = Some data.
Proof. apply (range_roundtrip (go_str "key")); unfold is_i64; lia. Defined.

(** C38: for every key the cipher is a permutation of the 64-bit blocks: the two
    block functions map words to words and are inverse to each other. *)
Theorem block_permutation key l r :
  is_u32 l -> is_u32 r ->
  let c := NewBlowfishCipher key in
  let e := encryptBlock c l r in
  let d := decryptBlock c l r in
  is_u32 e.1 /\ is_u32 e.2 /\ decryptBlock c e.1 e.2 = (l, r) /\
  is_u32 d.1 /\ is_u32 d.2 /\ encryptBlock c d.1 d.2 = (l, r).
Proof.
  intros Hl Hr c e d. destruct (NewBlowfishCipher_cipher_ok key) as (_ & HP & _).
  pose proof (encryptBlock_u32 c l r HP Hl Hr) as [He1 He2].
  pose proof (decryptBlock_u32 c l r HP Hl Hr) as [Hd1 Hd2].
  pose proof (decryptBlock_encryptBlock c l r) as He.
  pose proof (encryptBlock_decryptBlock c l r) as Hd.
  unfold e, d. destruct (encryptBlock c l r), (decryptBlock c l r). simpl in *. auto 10.
Qed.

Lemma block_permutation_witness :
  let c := NewBlowfishCipher (go_str "key") in
  let e := encryptBlock c 1 2 in
  let d := decryptBlock c 1 2 in
  is_u32 e.1 /\ is_u32 e.2 /\ decryptBlock c e.1 e.2 = (1, 2) /\
  is_u32 d.1 /\ is_u32 d.2 /\ encryptBlock c d.1 d.2 = (1, 2).
Proof. apply (block_permutation (go_str "key")); unfold is_u32; lia. Defined.

(** The cipher is Blowfish: tables, key schedule and rounds reproduce the
    published test vectors of the algorithm (the all-zero key and block, and
    the 26-letter key on the block "BLOWFISH"). *)
Theorem blowfish_test_vectors :
  encryptBlock (NewBlowfishCipher (replicate 8 Byte.x00)) 0 0
    = (0x4EF99745, 0x6198DD78) /\
  encryptBlock (NewBlowfishCipher (go_str "abcdefghijklmnopqrstuvwxyz"))
    0x424C4F57 0x46495348 = (0x324ED0FE, 0xF413A203).
Proof. split; vm_compute; reflexivity. Qed.
