(* ===== verification/Crypt.v ===== *)
(** [internal/crypto/crypt.go]: packet encryption on the pooled writer.  The
    buffer is encrypted in place, so the model works on the writer's backing
    array and keeps the stale bytes [Extend] exposes. *)
From stdpp Require Import base gmap list numbers strings.
From coqutil Require Import Byte Word.LittleEndianList.
From Stdlib Require Import Lia ZArith.
From S2P Require Import Prelude.
From S2P Require Import PacketWriter.
From S2P Require Import Blowfish.
Local Open Scope Z_scope.

Record Crypt := mkCrypt { cipher : BlowfishCipher; updatedKey : bool }.

Definition StaticKey : list byte :=
  byte.of_Z <$> [0x6b; 0x60; 0xcb; 0x5b; 0x82; 0xce; 0x90; 0xb1;
                 0xcc; 0x2b; 0x6c; 0x55; 0x6c; 0x6c; 0x6c; 0x6c].

Definition staticCipher : BlowfishCipher := NewBlowfishCipher StaticKey.

Definition NewCrypt (key : list byte) : Crypt :=
  {| cipher := NewBlowfishCipher key; updatedKey := false |}.

(** [raw[pos:pos+4]] and [PutUint32(raw[pos:pos+4], v)]; [None] is the panic of
    the slice expression. *)
Definition get_word (raw : list byte) (pos : Z) : option Z :=
  if pos + 4 <=? Z.of_nat (length raw)
  then Some (le_combine (slice (Z.to_nat pos) (Z.to_nat pos + 4) raw)) else None.
Definition put_word (raw : list byte) (pos v : Z) : option (list byte) :=
  if pos + 4 <=? Z.of_nat (length raw)
  then Some (splice (Z.to_nat pos) (le_split 4 v) raw) else None.

(** [for pos < stop { ... }]: [pos], [ecx] and the buffer after the loop. *)
Fixpoint xor_loop (fuel : nat) (pos stop ecx : Z) (raw : list byte)
    : option (Z * Z * list byte) :=
  if pos <? stop then
    match fuel with
    | O => None
    | S fuel =>
      edx ← get_word raw pos;
      let ecx := u32 (ecx + edx) in
      let edx := Z.lxor edx ecx in
      raw ← put_word raw pos edx;
      xor_loop fuel (u32 (pos + 4)) stop ecx raw
    end
  else Some (pos, ecx, raw).

(** Every iteration consumes a word of the buffer: a quarter of the size is
    fuel enough ([encXorPass_spec]). *)
Definition encXorPass (raw : list byte) (size key : Z) : option (list byte) :=
  if (u32 (Z.of_nat (length raw)) <? size) || (size <? 8) then Some raw
  else
    '(pos, ecx, raw) ← xor_loop (Z.to_nat (size / 4)) 4 (u32 (size - 8)) key raw;
    if u32 (pos + 4) <=? u32 (Z.of_nat (length raw)) then put_word raw pos ecx
    else Some raw.

(** [w.Extend(pad)] unless the payload is aligned; Go's [%] truncates. *)
Definition pad_to_block (payloadLen : Z) (w : PacketWriter) : Z * PacketWriter :=
  let pad := 8 - Z.rem payloadLen 8 in
  if pad =? 8 then (payloadLen, w) else (payloadLen + pad, Extend (Z.to_nat pad) w).

(** Store [data] back through the slice [w.Bytes()[2:]]. *)
Definition store_data (w : PacketWriter) (data : list byte) : PacketWriter :=
  {| warr := splice 2 data (warr w); wlen := wlen w |}.

(** [Encrypt]; [xorKey] is what [rand.Uint32()] returns if it is called. *)
Definition Encrypt (xorKey : Z) (c : Crypt) (w : PacketWriter) : option (Crypt * PacketWriter) :=
  let payloadLen := Z.of_nat (length (Bytes w)) - 2 in
  let reserve := if negb (updatedKey c) then 16%nat else 12%nat in
  let w := Extend reserve w in
  let '(payloadLen, w) := pad_to_block (payloadLen + Z.of_nat reserve) w in
  let data := drop 2 (Bytes w) in
  data ← (if negb (updatedKey c) then encXorPass data (u32 payloadLen) xorKey else Some data);
  data ← CipherRange (cipher c) data 0 payloadLen;
  Some ({| cipher := cipher c; updatedKey := true |}, store_data w data).

Definition EncryptStatic (xorKey : Z) (w : PacketWriter) : option PacketWriter :=
  let payloadLen := Z.of_nat (length (Bytes w)) - 2 in
  let reserve := 16%nat in
  let w := Extend reserve w in
  let '(payloadLen, w) := pad_to_block (payloadLen + Z.of_nat reserve) w in
  let data := drop 2 (Bytes w) in
  data ← encXorPass data (u32 payloadLen) xorKey;
  data ← CipherRange staticCipher data 0 payloadLen;
  Some (store_data w data).

(** [Decrypt]: the verdict and the buffer, decrypted in place. *)
Definition Decrypt (c : Crypt) (data : list byte) (size : Z) : option (bool * list byte) :=
  if negb (Z.rem size 8 =? 0) || (size <=? 0) then Some (false, data)
  else data ← DecipherRange (cipher c) data 0 size; Some (true, data).

(** * The peer's side of the xor pass

    The client reads the running sum that ends the buffer and walks the words
    backwards.  This is the specification the pass is checked against. *)

Fixpoint words (n : nat) (l : list byte) : list Z :=
  match n with
  | O => []
  | S n => le_combine (take 4 l) :: words n (drop 4 l)
  end.

Definition word_bytes (ws : list Z) : list byte := ws ≫= le_split 4.

(** The pass on a list of words: the masked words and the final sum. *)
Fixpoint mask_words (ecx : Z) (ws : list Z) : list Z * Z :=
  match ws with
  | [] => ([], ecx)
  | e :: ws =>
    let ecx := u32 (ecx + e) in
    let '(ms, last) := mask_words ecx ws in (Z.lxor e ecx :: ms, last)
  end.

(** Unmasking, last word first. *)
Fixpoint unmask_rev (ecx : Z) (ms : list Z) : list Z :=
  match ms with
  | [] => []
  | m :: ms => let e := Z.lxor m ecx in e :: unmask_rev (u32 (ecx - e)) ms
  end.

Definition decXorPass (raw : list byte) (size : nat) : list byte :=
  let n := ((size - 12) / 4)%nat in
  let ms := words n (drop 4 raw) in
  let last := le_combine (slice (size - 8) (size - 4) raw) in
  take 4 raw ++ word_bytes (rev (unmask_rev last (rev ms))) ++ drop (size - 8) raw.

(** * Lemmas *)

Lemma word_bytes_cons w ws : word_bytes (w :: ws) = le_split 4 w ++ word_bytes ws.
Proof. done. Qed.

Lemma length_word_bytes ws : length (word_bytes ws) = (4 * length ws)%nat.
Proof.
  induction ws as [|w ws IH]; [done|].
  rewrite word_bytes_cons, length_app, length_le_split, IH. simpl. lia.
Qed.

Lemma words_word_bytes ws tail :
  Forall is_u32 ws -> words (length ws) (word_bytes ws ++ tail) = ws.
Proof.
  induction 1 as [|w ws Hw _ IH]; [done|]. cbn [length words].
  rewrite word_bytes_cons, <- app_assoc.
  rewrite take_app_le, take_ge by (rewrite length_le_split; lia).
  rewrite drop_app_ge, length_le_split by (rewrite length_le_split; lia).
  by rewrite drop_0, IH, le_u32, u32_small.
Qed.

Lemma word_bytes_words n l :
  length l = (4 * n)%nat -> word_bytes (words n l) = l.
Proof.
  revert l. induction n as [|n IH]; intros l Hl.
  { by destruct l. }
  cbn [words]. rewrite word_bytes_cons, IH by (rewrite length_drop; lia).
  rewrite split_le_combine' by (rewrite length_take; lia). apply take_drop.
Qed.

Lemma words_take n l : words n (take (4 * n) l) = words n l.
Proof.
  revert l. induction n as [|n IH]; intros l; [done|]. cbn [words].
  rewrite take_take. replace (4 `min` (4 * S n))%nat with 4%nat by lia. f_equal.
  rewrite <- (IH (drop 4 l)). f_equal. rewrite skipn_firstn_comm. f_equal. lia.
Qed.

Lemma length_words n l : length (words n l) = n.
Proof. revert l. induction n as [|n IH]; intros l; [done|]. cbn. by rewrite IH. Qed.

Lemma words_u32 n l : (4 * n <= length l)%nat -> Forall is_u32 (words n l).
Proof.
  revert l. induction n as [|n IH]; intros l Hl; [constructor|]. cbn [words].
  constructor; [apply le_combine_u32; rewrite length_take; lia|].
  apply IH. rewrite length_drop. lia.
Qed.

Lemma mask_words_app ecx ws vs :
  mask_words ecx (ws ++ vs) =
  let '(ms, mid) := mask_words ecx ws in
  let '(ns, last) := mask_words mid vs in (ms ++ ns, last).
Proof.
  revert ecx. induction ws as [|w ws IH]; intros ecx; cbn [app mask_words].
  { by destruct (mask_words ecx vs). }
  rewrite IH. destruct (mask_words (u32 (ecx + w)) ws) as [ms mid].
  by destruct (mask_words mid vs).
Qed.

Lemma mask_words_u32 ecx ws :
  is_u32 ecx -> Forall is_u32 ws ->
  Forall is_u32 (mask_words ecx ws).1 /\ is_u32 (mask_words ecx ws).2 /\
  length (mask_words ecx ws).1 = length ws.
Proof.
  intros He Hws. revert ecx He. induction Hws as [|w ws Hw _ IH]; intros ecx He; [done|].
  cbn [mask_words]. destruct (IH (u32 (ecx + w)) ltac:(auto with goint)) as (H1 & H2 & H3).
  destruct (mask_words (u32 (ecx + w)) ws) as [ms last]. cbn [fst snd length] in *.
  split_and!; [constructor; auto with goint | done | congruence].
Qed.

(** The peer needs no key: from the last sum it finds all the words. *)
Lemma unmask_mask ecx ws :
  is_u32 ecx -> Forall is_u32 ws ->
  let '(ms, last) := mask_words ecx ws in unmask_rev last (rev ms) = rev ws.
Proof.
  intros He. induction ws as [|w ws IH] using rev_ind; intros Hws; [done|].
  apply Forall_app in Hws as [Hws Hw]. inversion Hw as [|? ? Hw1]; subst.
  specialize (IH Hws). pose proof (mask_words_u32 ecx ws He Hws) as (_ & Hm & _).
  rewrite mask_words_app. destruct (mask_words ecx ws) as [ms mid]. cbn [mask_words snd] in *.
  rewrite !rev_app_distr. cbn [rev app unmask_rev].
  rewrite lxor_cancel.
  replace (u32 (u32 (mid + w) - w)) with mid by (unfold u32, is_u32 in *; Z.div_mod_to_equations; lia).
  by rewrite IH.
Qed.

(** ** The loop of the pass *)

Lemma get_word_app pre w post :
  is_u32 w -> get_word (pre ++ le_split 4 w ++ post) (Z.of_nat (length pre)) = Some w.
Proof.
  intros Hw. unfold get_word. rewrite !length_app, length_le_split.
  destruct (Z.leb_spec (Z.of_nat (length pre) + 4)
    (Z.of_nat (length pre + (4 + length post)))); [|lia].
  rewrite Nat2Z.id. replace (slice (length pre) (length pre + 4) (pre ++ le_split 4 w ++ post))
    with (le_split 4 w); [by rewrite le_u32, u32_small|].
  rewrite <- (length_le_split 4 w) at 2. symmetry. apply slice_app_mid.
Qed.

Lemma put_word_app pre old post v :
  length old = 4%nat ->
  put_word (pre ++ old ++ post) (Z.of_nat (length pre)) v = Some (pre ++ le_split 4 v ++ post).
Proof.
  intros Ho. unfold put_word. rewrite !length_app, Ho.
  destruct (Z.leb_spec (Z.of_nat (length pre) + 4)
    (Z.of_nat (length pre + (4 + length post)))); [|lia].
  rewrite Nat2Z.id, splice_app_l. do 2 f_equal.
  unfold splice. rewrite length_le_split. cbn [take app Nat.add].
  by rewrite drop_app_ge, Ho, drop_0 by lia.
Qed.

Lemma xor_loop_spec ws fuel pre post ecx :
  (length ws <= fuel)%nat -> is_u32 ecx -> Forall is_u32 ws ->
  Z.of_nat (length pre + 4 * length ws) < 2 ^ 32 ->
  xor_loop fuel (Z.of_nat (length pre)) (Z.of_nat (length pre + 4 * length ws)) ecx
    (pre ++ word_bytes ws ++ post)
  = let '(ms, last) := mask_words ecx ws in
    Some (Z.of_nat (length pre + 4 * length ws), last, pre ++ word_bytes ms ++ post).
Proof.
  revert fuel pre ecx. induction ws as [|w ws IH]; intros fuel pre ecx Hf He Hws Hb.
  { replace (length pre + 4 * length [])%nat with (length pre) by (simpl; lia).
    cbn [mask_words]. destruct fuel; unfold xor_loop;
      destruct (Z.ltb_spec (Z.of_nat (length pre)) (Z.of_nat (length pre))); (done || lia). }
  inversion Hws as [|? ? Hw Hws']; subst. cbn [length] in *.
  destruct fuel as [|fuel]; [lia|]. cbn [xor_loop].
  destruct (Z.ltb_spec (Z.of_nat (length pre)) (Z.of_nat (length pre + 4 * S (length ws)))); [|lia].
  rewrite word_bytes_cons, <- app_assoc, get_word_app by done. cbn [mbind option_bind].
  rewrite put_word_app by apply length_le_split. cbn [mbind option_bind mask_words].
  set (e := u32 (ecx + w)). set (m := Z.lxor w e).
  replace (u32 (Z.of_nat (length pre) + 4)) with (Z.of_nat (length (pre ++ le_split 4 m)))
    by (rewrite length_app, length_le_split, u32_small; unfold is_u32; lia).
  replace (length pre + 4 * S (length ws))%nat with (length (pre ++ le_split 4 m) + 4 * length ws)%nat
    by (rewrite length_app, length_le_split; lia).
  rewrite app_assoc, IH by
    (try done; try lia; try (unfold e; auto with goint); rewrite length_app, length_le_split; lia).
  destruct (mask_words e ws) as [ms last].
  by rewrite word_bytes_cons, <- !app_assoc.
Qed.

(** The parts of a buffer the pass treats differently. *)
Lemma raw_parts n raw :
  length raw = (4 * (n + 3))%nat ->
  raw = take 4 raw ++ word_bytes (words n (drop 4 raw)) ++
        slice (4 * (n + 1)) (4 * (n + 2)) raw ++ drop (4 * (n + 2)) raw.
Proof.
  intros Hl. rewrite <- words_take, word_bytes_words by (rewrite length_take, length_drop; lia).
  rewrite <- slice_drop by lia.
  replace (4 * (n + 1))%nat with (4 + 4 * n)%nat by lia.
  by rewrite <- drop_drop, take_drop, take_drop.
Qed.

(** The whole pass on a buffer of [4 * (n + 3)] bytes: the first word stays, the
    middle words are masked, the sum replaces the next word, the last stays. *)
Lemma encXorPass_spec n raw key :
  length raw = (4 * (n + 3))%nat -> Z.of_nat (length raw) < 2 ^ 32 -> is_u32 key ->
  encXorPass raw (Z.of_nat (length raw)) key =
  let '(ms, last) := mask_words key (words n (drop 4 raw)) in
  Some (take 4 raw ++ word_bytes ms ++ le_split 4 last ++ drop (4 * (n + 2)) raw).
Proof.
  intros Hl Hb Hk. unfold encXorPass. rewrite !(u32_small (Z.of_nat (length raw))) by (unfold is_u32; lia).
  rewrite Z.ltb_irrefl. destruct (Z.ltb_spec (Z.of_nat (length raw)) 8); [lia|]. cbn [orb].
  set (pre := take 4 raw). set (ws := words n (drop 4 raw)).
  set (mid := slice (4 * (n + 1)) (4 * (n + 2)) raw). set (post := drop (4 * (n + 2)) raw).
  assert (length pre = 4%nat) as Hp by (unfold pre; rewrite length_take; lia).
  assert (length ws = n) as Hn by apply length_words.
  assert (length mid = 4%nat) as Hm by (unfold mid; rewrite length_slice; lia).
  assert (Forall is_u32 ws) as Hu by (apply words_u32; rewrite length_drop; lia).
  pose proof (raw_parts n raw Hl) as Hraw. fold pre ws mid post in Hraw.
  set (stop := Z.of_nat (length pre + 4 * length ws)).
  replace (u32 (Z.of_nat (length raw) - 8)) with stop by (rewrite u32_small; unfold is_u32; lia).
  assert (length ws <= Z.to_nat (Z.of_nat (length raw) / 4))%nat as Hfuel.
  { rewrite Hl, Hn. replace (Z.of_nat (4 * (n + 3))) with (Z.of_nat (n + 3) * 4) by lia.
    rewrite Z.div_mul; lia. }
  pose proof (xor_loop_spec ws _ pre (mid ++ post) key Hfuel Hk Hu ltac:(lia)) as Hx.
  rewrite <- Hraw in Hx. fold stop in Hx. rewrite Hp in Hx. change (Z.of_nat 4) with 4 in Hx.
  rewrite Hx. pose proof (mask_words_u32 key ws Hk Hu) as (_ & _ & Hml).
  destruct (mask_words key ws) as [ms last]. cbn [mbind option_bind fst] in *.
  assert (length (pre ++ word_bytes ms ++ mid ++ post) = length raw) as Hl'.
  { rewrite Hraw, !length_app, !length_word_bytes, Hml. done. }
  rewrite Hl', !u32_small by (unfold is_u32; lia).
  destruct (Z.leb_spec (stop + 4) (Z.of_nat (length raw))); [|lia].
  replace stop with (Z.of_nat (length (pre ++ word_bytes ms)))
    by (rewrite length_app, length_word_bytes; lia).
  rewrite app_assoc, put_word_app by done. by rewrite <- app_assoc.
Qed.

(** The peer recovers everything but the word the sum was stored in. *)
Lemma decXorPass_encXorPass n raw key raw' :
  length raw = (4 * (n + 3))%nat -> Z.of_nat (length raw) < 2 ^ 32 -> is_u32 key ->
  encXorPass raw (Z.of_nat (length raw)) key = Some raw' ->
  length raw' = length raw /\
  take (4 * (n + 1)) (decXorPass raw' (length raw)) = take (4 * (n + 1)) raw.
Proof.
  intros Hl Hb Hk. rewrite (encXorPass_spec n) by done.
  set (ws := words n (drop 4 raw)).
  assert (Forall is_u32 ws) as Hu by (apply words_u32; rewrite length_drop; lia).
  assert (length ws = n) as Hn by apply length_words.
  pose proof (mask_words_u32 key ws Hk Hu) as (Hm1 & Hm2 & Hm3).
  pose proof (unmask_mask key ws Hk Hu) as Hun.
  destruct (mask_words key ws) as [ms last]. cbn [fst snd] in *.
  intros Hraw'. apply (inj Some) in Hraw' as <-.
  set (pre := take 4 raw). set (post := drop (4 * (n + 2)) raw).
  assert (length pre = 4%nat) as Hp by (unfold pre; rewrite length_take; lia).
  assert (length post = 4%nat) as Hpo by (unfold post; rewrite length_drop; lia).
  split; [rewrite !length_app, length_word_bytes, length_le_split; lia|].
  unfold decXorPass. rewrite Hl.
  replace ((4 * (n + 3) - 12) / 4)%nat with n
    by (replace (4 * (n + 3) - 12)%nat with (n * 4)%nat by lia; by rewrite Nat.div_mul).
  rewrite (take_app_le pre), (take_ge pre) by lia.
  rewrite (drop_app_ge pre _ 4), Hp, drop_0 by lia.
  match goal with |- context [words n ?x] => replace (words n x) with ms
    by (rewrite <- Hn, <- Hm3, words_word_bytes; done) end.
  replace (le_combine _) with last.
  - rewrite Hun, rev_involutive.
    rewrite app_assoc, take_app_le by (rewrite length_app, length_word_bytes; lia).
    rewrite take_ge by (rewrite length_app, length_word_bytes; lia).
    unfold pre, ws. rewrite Nat.mul_add_distr_l, Nat.add_comm, <- take_take_drop. f_equal.
    rewrite <- words_take, word_bytes_words; [done|]. rewrite length_take, length_drop. lia.
  - replace (4 * (n + 3) - 8)%nat with (length (pre ++ word_bytes ms) + 0)%nat
      by (rewrite length_app, length_word_bytes; lia).
    replace (4 * (n + 3) - 4)%nat with (length (pre ++ word_bytes ms) + 4)%nat
      by (rewrite length_app, length_word_bytes; lia).
    rewrite app_assoc, Nat.add_0_r. rewrite <- (length_le_split 4 last) at 1.
    by rewrite slice_app_mid, le_u32, u32_small.
Qed.

(** ** Growing and storing *)

(** The padding that aligns a payload of [k] bytes to the block size. *)
Definition padding (k : nat) : nat := ((8 - k mod 8) mod 8)%nat.

Lemma padding_aligned k : ((k + padding k) mod 8 = 0)%nat.
Proof.
  unfold padding. pose proof (Nat.mod_upper_bound k 8 ltac:(lia)).
  pose proof (Nat.div_mod_eq k 8). set (q := (k / 8)%nat) in *. set (m := (k mod 8)%nat) in *.
  destruct (Nat.eq_dec m 0) as [->|].
  - replace ((8 - 0) mod 8)%nat with 0%nat by done. apply Nat.Div0.mod_divides. exists q. lia.
  - rewrite (Nat.mod_small (8 - m)) by lia. apply Nat.Div0.mod_divides. exists (q + 1)%nat. lia.
Qed.

Lemma padding_lt k : (padding k < 8)%nat.
Proof. apply Nat.mod_upper_bound. lia. Qed.

Lemma pad_to_block_spec k w :
  pad_to_block (Z.of_nat k) w = (Z.of_nat (k + padding k), 
    if (padding k =? 0)%nat then w else Extend (padding k) w).
Proof.
  unfold pad_to_block. rewrite Z.rem_mod_nonneg by lia.
  pose proof (Nat2Z.inj_mod k 8) as Hm. change (Z.of_nat 8) with 8 in Hm. rewrite <- Hm.
  unfold padding. pose proof (Nat.mod_upper_bound k 8 ltac:(lia)) as Hlt.
  destruct (Z.eqb_spec (8 - Z.of_nat (k mod 8)) 8) as [E|E].
  - replace (k mod 8)%nat with 0%nat by lia. simpl. f_equal. lia.
  - rewrite (Nat.mod_small (8 - k mod 8)) by lia.
    destruct (Nat.eqb_spec (8 - k mod 8) 0); [lia|]. f_equal; [lia|f_equal; lia].
Qed.

(** Where the capacity suffices, extending only moves the length. *)
Lemma Extend_fits n w :
  (wlen w + n <= wcap w)%nat -> Extend n w = {| warr := warr w; wlen := (wlen w + n)%nat |}.
Proof.
  intros H. unfold Extend, Reserve. destruct (Nat.ltb_spec (wcap w - wlen w) n); [lia|done].
Qed.

(** The buffer [Encrypt] works on: [reserve] bytes and the padding are added
    without being initialised. *)
Definition grown (reserve : nat) (w : PacketWriter) : PacketWriter :=
  let k := (wlen w - 2 + reserve)%nat in
  if (padding k =? 0)%nat then Extend reserve w else Extend (padding k) (Extend reserve w).

Definition grown_by (reserve : nat) (w : PacketWriter) : nat :=
  (reserve + padding (wlen w - 2 + reserve))%nat.

Lemma grown_spec reserve w :
  writer_ok w ->
  exists st, Bytes (grown reserve w) = Bytes w ++ st /\ length st = grown_by reserve w /\
    writer_ok (grown reserve w) /\ wlen (grown reserve w) = (wlen w + grown_by reserve w)%nat /\
    ((wlen w + grown_by reserve w <= wcap w)%nat ->
       warr (grown reserve w) = warr w /\
       st = slice (wlen w) (wlen w + grown_by reserve w) (warr w)).
Proof.
  intros Hw. unfold grown, grown_by. set (k := (wlen w - 2 + reserve)%nat).
  destruct (Extend_spec reserve w Hw) as (Hb & Hl & Ho).
  assert (forall n, (wlen w + n <= wcap w)%nat -> forall st, length st = n ->
    take (wlen w + n) (warr w) = Bytes w ++ st -> st = slice (wlen w) (wlen w + n) (warr w)) as Huniq.
  { intros n Hn st Hst E. rewrite (take_slice (wlen w)) in E by lia.
    by apply app_inv_head in E. }
  destruct (Nat.eqb_spec (padding k) 0) as [E|E].
  - exists (stale reserve w). rewrite E, Nat.add_0_r. split_and!; [done|by apply length_stale|done|done|].
    intros Hc. rewrite Extend_fits in * by done. split; [done|].
    apply Huniq; [done|by apply length_stale|]. by rewrite <- Hb.
  - destruct (Extend_spec (padding k) _ Ho) as (Hb2 & Hl2 & Ho2).
    exists (stale reserve w ++ stale (padding k) (Extend reserve w)).
    assert (length (stale reserve w ++ stale (padding k) (Extend reserve w)) = (reserve + padding k)%nat) as Hst
      by (rewrite length_app, !length_stale; done).
    split_and!; [by rewrite Hb2, Hb, <- app_assoc|done|done|lia|].
    intros Hc. 
    assert (Extend (padding k) (Extend reserve w)
            = {| warr := warr w; wlen := (wlen w + (reserve + padding k))%nat |}) as Hext.
    { rewrite (Extend_fits reserve) by lia. rewrite Extend_fits by (unfold wcap in *; simpl; lia).
      simpl. f_equal. lia. }
    split; [by rewrite Hext|]. apply Huniq; [done|done|].
    transitivity (Bytes (Extend (padding k) (Extend reserve w))); [by rewrite Hext|].
    by rewrite Hb2, Hb, <- app_assoc.
Qed.

Lemma store_data_spec w data :
  writer_ok w -> (2 <= wlen w)%nat -> length data = (wlen w - 2)%nat ->
  Bytes (store_data w data) = take 2 (Bytes w) ++ data /\ writer_ok (store_data w data).
Proof.
  unfold writer_ok, wcap. intros Hw H2 Hd. unfold store_data, Bytes. simpl.
  rewrite length_splice by lia. split; [|done].
  rewrite take_splice by lia. unfold splice. rewrite Hd.
  rewrite (drop_ge (take (wlen w) (warr w))) by (rewrite length_take; lia).
  by rewrite app_nil_r.
Qed.

(** [Encrypt] with the growth of the buffer made explicit. *)
Lemma Encrypt_grown xorKey c w :
  writer_ok w -> (2 <= wlen w)%nat ->
  Encrypt xorKey c w =
  let reserve := if negb (updatedKey c) then 16%nat else 12%nat in
  let w' := grown reserve w in
  let n := Z.of_nat (length (drop 2 (Bytes w'))) in
  data ← (if negb (updatedKey c) then encXorPass (drop 2 (Bytes w')) (u32 n) xorKey
          else Some (drop 2 (Bytes w')));
  data ← CipherRange (cipher c) data 0 n;
  Some ({| cipher := cipher c; updatedKey := true |}, store_data w' data).
Proof.
  intros Hw H2. unfold Encrypt. rewrite length_Bytes by done. cbn zeta.
  set (reserve := if negb (updatedKey c) then 16%nat else 12%nat).
  replace (Z.of_nat (wlen w) - 2 + Z.of_nat reserve) with (Z.of_nat (wlen w - 2 + reserve)) by lia.
  rewrite pad_to_block_spec. fold (grown reserve w).
  destruct (grown_spec reserve w Hw) as (st & Hb & Hst & Ho & Hl & _).
  replace (Z.of_nat (length (drop 2 (Bytes (grown reserve w)))))
    with (Z.of_nat (wlen w - 2 + reserve + padding (wlen w - 2 + reserve))); [done|].
  rewrite length_drop, length_Bytes, Hl by done. unfold grown_by. f_equal. lia.
Qed.

Lemma EncryptStatic_Encrypt xorKey w :
  EncryptStatic xorKey w = snd <$> Encrypt xorKey {| cipher := staticCipher; updatedKey := false |} w.
Proof.
  unfold EncryptStatic, Encrypt. cbn [negb updatedKey cipher].
  destruct (pad_to_block _ _) as [p w']. 
  destruct (encXorPass _ _ _) as [d|]; cbn [mbind option_bind]; [|done].
  by destruct (CipherRange _ _ _ _).
Qed.

(** * Properties *)

Definition crypt_ok (c : Crypt) : Prop := cipher_ok (cipher c).

Lemma NewCrypt_ok key : crypt_ok (NewCrypt key).
Proof. apply NewBlowfishCipher_cipher_ok. Qed.

Lemma staticCipher_ok : cipher_ok staticCipher.
Proof. unfold staticCipher. apply NewBlowfishCipher_cipher_ok. Qed.

(** What the peer is able to undo: decipher the body of the packet. *)
Definition peer_decipher (c : BlowfishCipher) (packet : list byte) : option (list byte) :=
  let body := drop 2 packet in DecipherRange c body 0 (Z.of_nat (length body)).

(** The last stage of both functions on an aligned body. *)
Lemma encipher_stored c w data :
  cipher_ok c -> writer_ok w -> (2 <= wlen w)%nat -> Z.of_nat (wlen w) < 2 ^ 32 ->
  length data = (wlen w - 2)%nat ->
  exists data', CipherRange c data 0 (Z.of_nat (wlen w - 2)) = Some data' /\
    take 2 (Bytes (store_data w data')) = take 2 (Bytes w) /\
    length (Bytes (store_data w data')) = wlen w /\
    peer_decipher c (Bytes (store_data w data')) = Some data.
Proof.
  intros Hc Hw H2 Hb Hd.
  destruct (CipherRange_inverse c data 0 (Z.of_nat (wlen w - 2)) Hc) as (data' & E & Hl & _ & Hdec);
    [unfold is_i64; lia..|].
  exists data'. split; [done|].
  destruct (store_data_spec w data' Hw H2 ltac:(lia)) as [Hs _].
  assert (length (take 2 (Bytes w)) = 2%nat) as Ht by (rewrite length_take, length_Bytes by done; lia).
  rewrite Hs. split_and!.
  - by rewrite take_app_le, take_ge by lia.
  - rewrite length_app. lia.
  - unfold peer_decipher. rewrite drop_app_ge, Ht, drop_0 by lia. by rewrite Hl, Hd.
Qed.

(** The body of a grown writer: payload, then the bytes that were not
    initialised; its length is a number of whole blocks. *)
Lemma grown_body reserve w :
  writer_ok w -> (2 <= wlen w)%nat ->
  exists st, drop 2 (Bytes (grown reserve w)) = drop 2 (Bytes w) ++ st /\
    take 2 (Bytes (grown reserve w)) = take 2 (Bytes w) /\
    length st = grown_by reserve w /\
    ((wlen (grown reserve w) - 2) mod 8 = 0)%nat /\
    wlen (grown reserve w) = (wlen w + grown_by reserve w)%nat /\
    writer_ok (grown reserve w) /\
    ((wlen w + grown_by reserve w <= wcap w)%nat ->
     st = slice (wlen w) (wlen w + grown_by reserve w) (warr w)).
Proof.
  intros Hw H2. destruct (grown_spec reserve w Hw) as (st & Hb & Hst & Ho & Hl & Hf).
  exists st. pose proof (length_Bytes w Hw). rewrite Hb, drop_app_le, take_app_le by lia.
  split_and!; [done|done|done| |done|done|by apply Hf].
  rewrite Hl. unfold grown_by.
  replace (wlen w + (reserve + padding (wlen w - 2 + reserve)) - 2)%nat
    with (wlen w - 2 + reserve + padding (wlen w - 2 + reserve))%nat by lia.
  apply padding_aligned.
Qed.

(** The body after the xor pass has the same length and, masked, still
    determines all of the body but its last two words. *)
Lemma encXorPass_aligned data key :
  (length data mod 8 = 0)%nat -> (16 <= length data)%nat -> Z.of_nat (length data) < 2 ^ 32 ->
  is_u32 key ->
  exists data', encXorPass data (Z.of_nat (length data)) key = Some data' /\
    length data' = length data /\
    take (length data - 8) (decXorPass data' (length data)) = take (length data - 8) data.
Proof.
  intros Ha H16 Hb Hk.
  destruct (encXorPass data (Z.of_nat (length data)) key) as [data'|] eqn:E.
  - pose proof (Nat.div_mod_eq (length data) 8) as Hq. set (q := (length data / 8)%nat) in *.
    assert (length data = 4 * ((2 * q - 3) + 3))%nat as Hl by lia.
    destruct (decXorPass_encXorPass _ _ _ _ Hl Hb Hk E) as [H1 H2].
    exists data'. split_and!; [done|done|].
    replace (length data - 8)%nat with (4 * (2 * q - 3 + 1))%nat by lia. done.
  - pose proof (Nat.div_mod_eq (length data) 8) as Hq. set (q := (length data / 8)%nat) in *.
    rewrite (encXorPass_spec (2 * q - 3)) in E by (done || lia).
    by destruct (mask_words _ _).
Qed.

Lemma Encrypt_first_spec xorKey cph w :
  cipher_ok cph -> writer_ok w -> (2 <= wlen w)%nat ->
  Z.of_nat (wlen w) + 24 < 2 ^ 32 -> is_u32 xorKey ->
  exists w' plain,
    Encrypt xorKey {| cipher := cph; updatedKey := false |} w
      = Some ({| cipher := cph; updatedKey := true |}, w') /\
    take 2 (Bytes w') = take 2 (Bytes w) /\ ((length (Bytes w') - 2) mod 8 = 0)%nat /\
    peer_decipher (cph) (Bytes w') = Some plain /\
    take (wlen w - 2) (decXorPass plain (length plain)) = drop 2 (Bytes w).
Proof.
  intros Hc Hw H2 Hb Hk. rewrite Encrypt_grown by done. cbn [negb updatedKey cipher].
  destruct (grown_body 16 w Hw H2) as (st & Hbody & Hhd & Hst & Hal & Hl & Ho & _).
  pose proof (length_Bytes w Hw) as Hlw.
  pose proof (padding_lt (wlen w - 2 + 16)) as Hpad.
  assert (length (drop 2 (Bytes (grown 16 w))) = (wlen (grown 16 w) - 2)%nat) as Hld
    by (rewrite length_drop, length_Bytes; done).
  unfold grown_by in Hl.
  destruct (encXorPass_aligned (drop 2 (Bytes (grown 16 w))) xorKey) as (data & Hx & Hdl & Hdec);
    [rewrite Hld; done|lia|lia|done|].
  cbn zeta. rewrite u32_small by (unfold is_u32; lia). rewrite Hx. cbn [mbind option_bind].
  destruct (encipher_stored (cph) (grown 16 w) data Hc Ho) as (data' & E & Ht & Hlen & Hp);
    [lia..|].
  rewrite Hld, E. eexists _, data. split; [done|]. rewrite Ht, Hlen. split_and!; [done|done|done|].
  rewrite Hdl. apply (f_equal (take (wlen w - 2))) in Hdec. rewrite !take_take in Hdec.
  rewrite Nat.min_l in Hdec by lia. rewrite Hdec, Hbody.
  assert (length (drop 2 (Bytes w)) = (wlen w - 2)%nat) as Hd by (rewrite length_drop; lia).
  by rewrite take_app_le, take_ge by lia.
Qed.

(** the first packet of a session, and an Init packet under the static key,
    reach the peer: encryption does not panic, leaves the length header alone,
    produces whole cipher blocks, and a peer that deciphers the body and undoes
    the xor pass from the sum it ends with reads back the payload; the session
    cipher is then marked as updated. *)
Theorem Encrypt_first_packet xorKey key w :
  writer_ok w -> (2 <= wlen w)%nat -> Z.of_nat (wlen w) + 24 < 2 ^ 32 -> is_u32 xorKey ->
  (exists w' plain,
    Encrypt xorKey (NewCrypt key) w
      = Some ({| cipher := NewBlowfishCipher key; updatedKey := true |}, w') /\
    take 2 (Bytes w') = take 2 (Bytes w) /\ ((length (Bytes w') - 2) mod 8 = 0)%nat /\
    peer_decipher (NewBlowfishCipher key) (Bytes w') = Some plain /\
    take (wlen w - 2) (decXorPass plain (length plain)) = drop 2 (Bytes w)) /\
  (exists w' plain,
    EncryptStatic xorKey w = Some w' /\
    take 2 (Bytes w') = take 2 (Bytes w) /\ ((length (Bytes w') - 2) mod 8 = 0)%nat /\
    peer_decipher staticCipher (Bytes w') = Some plain /\
    take (wlen w - 2) (decXorPass plain (length plain)) = drop 2 (Bytes w)).
Proof.
  intros Hw H2 Hb Hk. pose proof staticCipher_ok as Hc.
  split; [apply Encrypt_first_spec; auto using NewBlowfishCipher_cipher_ok|].
  destruct (Encrypt_first_spec xorKey staticCipher w Hc Hw H2 Hb Hk) as (w' & plain & E & H).
  exists w', plain. split; [|exact H]. rewrite EncryptStatic_Encrypt, E. reflexivity.
Qed.

Definition sample_writer : PacketWriter :=
  {| warr := [Byte.x00; Byte.x00] ++ go_str "packet" ++ replicate 40 Byte.xaa; wlen := 8 |}.

Lemma Encrypt_first_packet_witness :
  (exists w' plain,
    Encrypt 7 (NewCrypt (go_str "k")) sample_writer
      = Some ({| cipher := NewBlowfishCipher (go_str "k"); updatedKey := true |}, w') /\
    take 2 (Bytes w') = take 2 (Bytes sample_writer) /\ ((length (Bytes w') - 2) mod 8 = 0)%nat /\
    peer_decipher (NewBlowfishCipher (go_str "k")) (Bytes w') = Some plain /\
    take (wlen sample_writer - 2) (decXorPass plain (length plain)) = drop 2 (Bytes sample_writer)) /\
  (exists w' plain,
    EncryptStatic 7 sample_writer = Some w' /\
    take 2 (Bytes w') = take 2 (Bytes sample_writer) /\ ((length (Bytes w') - 2) mod 8 = 0)%nat /\
    peer_decipher staticCipher (Bytes w') = Some plain /\
    take (wlen sample_writer - 2) (decXorPass plain (length plain)) = drop 2 (Bytes sample_writer)).
Proof.
  apply (Encrypt_first_packet 7 (go_str "k") sample_writer);
    [unfold writer_ok, wcap; simpl; lia|simpl; lia|simpl; lia|unfold is_u32; lia].
Defined.

Lemma Encrypt_later_spec xorKey cph w :
  cipher_ok cph -> writer_ok w -> (2 <= wlen w)%nat -> Z.of_nat (wlen w) + 24 < 2 ^ 32 ->
  exists w' st,
    Encrypt xorKey {| cipher := cph; updatedKey := true |} w
      = Some ({| cipher := cph; updatedKey := true |}, w') /\
    take 2 (Bytes w') = take 2 (Bytes w) /\ ((length (Bytes w') - 2) mod 8 = 0)%nat /\
    (12 <= length st < 20)%nat /\
    peer_decipher cph (Bytes w') = Some (drop 2 (Bytes w) ++ st) /\
    ((wlen w + length st <= wcap w)%nat -> st = slice (wlen w) (wlen w + length st) (warr w)).
Proof.
  intros Hc Hw H2 Hb. rewrite Encrypt_grown by done. cbn [updatedKey cipher negb].
  destruct (grown_body 12 w Hw H2) as (st & Hbody & Hhd & Hst & Hal & Hl & Ho & Hf).
  pose proof (padding_lt (wlen w - 2 + 12)) as Hpad.
  assert (length (drop 2 (Bytes (grown 12 w))) = (wlen (grown 12 w) - 2)%nat) as Hld
    by (rewrite length_drop, length_Bytes; done).
  destruct (encipher_stored cph (grown 12 w) (drop 2 (Bytes (grown 12 w))))
    as (data' & E & Ht & Hlen & Hp);
    [done|done|unfold grown_by in *; lia..|].
  cbn zeta. cbn [mbind option_bind]. rewrite Hld, E. exists (store_data (grown 12 w) data'), st.
  split; [done|]. rewrite Ht, Hlen, Hp, Hbody, Hst.
  split_and!; [done|done|unfold grown_by; lia..|done|done].
Qed.

(** The size of what comes out, whatever the key. *)
Lemma Encrypt_shape xorKey c w c' w' :
  writer_ok w -> (2 <= wlen w)%nat -> Encrypt xorKey c w = Some (c', w') ->
  c' = {| cipher := cipher c; updatedKey := true |} /\ writer_ok w' /\ (wlen w <= wlen w' <= wlen w + 24)%nat.
Proof.
  intros Hw H2. rewrite Encrypt_grown by done. cbn zeta.
  set (reserve := if negb (updatedKey c) then 16%nat else 12%nat).
  assert (reserve <= 16)%nat as Hr by (unfold reserve; destruct (updatedKey c); cbn; lia).
  destruct (grown_spec reserve w Hw) as (st & _ & _ & Ho & Hl & _).
  pose proof (padding_lt (wlen w - 2 + reserve)) as Hp. unfold grown_by in Hl.
  clearbody reserve. destruct (if negb (updatedKey c) then _ else _) as [d|]; cbn [mbind option_bind]; [|done].
  destruct (CipherRange _ _ _ _) as [d'|]; cbn [mbind option_bind]; [|done]. intros [= <- <-].
  split_and!; [done| |cbn [store_data wlen]; lia..].
  unfold writer_ok, wcap, store_data in *. cbn [warr wlen]. unfold splice.
  rewrite !length_app, length_take, length_drop. lia.
Qed.

(** every later packet reaches the peer too, and with it the bytes that
    encryption appends: it writes no checksum and clears nothing, so when the
    pooled buffer has room the peer reads, after the payload, whatever an earlier
    packet left at those positions of the buffer. *)
Theorem Encrypt_later_packets xorKey key w :
  let c := {| cipher := NewBlowfishCipher key; updatedKey := true |} in
  writer_ok w -> (2 <= wlen w)%nat -> Z.of_nat (wlen w) + 24 < 2 ^ 32 ->
  exists w' st,
    Encrypt xorKey c w = Some (c, w') /\
    take 2 (Bytes w') = take 2 (Bytes w) /\ ((length (Bytes w') - 2) mod 8 = 0)%nat /\
    (12 <= length st < 20)%nat /\
    peer_decipher (NewBlowfishCipher key) (Bytes w') = Some (drop 2 (Bytes w) ++ st) /\
    ((wlen w + length st <= wcap w)%nat -> st = slice (wlen w) (wlen w + length st) (warr w)).
Proof. intros c. apply Encrypt_later_spec. apply NewBlowfishCipher_cipher_ok. Qed.

Lemma Encrypt_later_packets_witness :
  let c := {| cipher := NewBlowfishCipher (go_str "k"); updatedKey := true |} in
  exists w' st,
    Encrypt 7 c sample_writer = Some (c, w') /\
    take 2 (Bytes w') = take 2 (Bytes sample_writer) /\ ((length (Bytes w') - 2) mod 8 = 0)%nat /\
    (12 <= length st < 20)%nat /\
    peer_decipher (NewBlowfishCipher (go_str "k")) (Bytes w')
      = Some (drop 2 (Bytes sample_writer) ++ st) /\
    ((wlen sample_writer + length st <= wcap sample_writer)%nat ->
      st = slice (wlen sample_writer) (wlen sample_writer + length st) (warr sample_writer)).
Proof.
  apply (Encrypt_later_packets 7 (go_str "k") sample_writer);
    [unfold writer_ok, wcap; simpl; lia|simpl; lia|simpl; lia].
Defined.

(** [Decrypt], called as the listener calls it on a whole frame body, never
    panics; it accepts exactly the non-empty bodies of whole blocks, and what it
    leaves in the buffer is the only plain text that enciphers to the body. A
    rejected body is left as it was. *)
Theorem Decrypt_verdict key updated data :
  let c := {| cipher := NewBlowfishCipher key; updatedKey := updated |} in
  Z.of_nat (length data) < 2 ^ 63 ->
  exists ok data',
    Decrypt c data (Z.of_nat (length data)) = Some (ok, data') /\
    (ok = true <-> data <> [] /\ (length data mod 8 = 0)%nat) /\
    (ok = false -> data' = data) /\
    (ok = true -> length data' = length data /\
       forall plain, length plain = length data ->
         (CipherRange (cipher c) plain 0 (Z.of_nat (length plain)) = Some data <-> plain = data')).
Proof.
  intros c Hb. subst c. unfold Decrypt. cbn [cipher].
  rewrite Z.rem_mod_nonneg by lia. change 8 with (Z.of_nat 8). rewrite <- Nat2Z.inj_mod.
  destruct (Z.eqb_spec (Z.of_nat (length data mod 8)) 0) as [E|E]; cbn [negb orb].
  2: { eexists _, _. split_and!; [done| |done|done]. split; [done|]. intros [_ ?]. lia. }
  destruct (Z.leb_spec (Z.of_nat (length data)) 0) as [Hz|Hz].
  { eexists _, _. split_and!; [done| |done|done]. split; [done|].
    destruct data; [naive_solver|simpl in Hz; lia]. }
  destruct (DecipherRange_inverse (NewBlowfishCipher key) data 0 (Z.of_nat (length data)))
    as (data' & Hd & Hl & _ & Hc); [apply NewBlowfishCipher_cipher_ok|unfold is_i64; lia..|].
  rewrite Hd. cbn [mbind option_bind]. eexists _, _. split_and!; [done| |done|].
  { split; [|done]. intros _. split; [by intros ->|lia]. }
  intros _. split; [done|]. intros plain Hp. rewrite Hp. split; [|by intros ->].
  intros Hc'. destruct (CipherRange_inverse (NewBlowfishCipher key) plain 0 (Z.of_nat (length data)))
    as (data2 & E2 & _ & _ & Hd2); [apply NewBlowfishCipher_cipher_ok|unfold is_i64; lia..|].
  congruence.
Qed.

Lemma Decrypt_verdict_witness :
  let c := {| cipher := NewBlowfishCipher (go_str "k"); updatedKey := true |} in
  let data := go_str "16 bytes of body" in
  exists ok data',
    Decrypt c data (Z.of_nat (length data)) = Some (ok, data') /\
    (ok = true <-> data <> [] /\ (length data mod 8 = 0)%nat) /\
    (ok = false -> data' = data) /\
    (ok = true -> length data' = length data /\
       forall plain, length plain = length data ->
         (CipherRange (cipher c) plain 0 (Z.of_nat (length plain)) = Some data <-> plain = data')).
Proof. apply (Decrypt_verdict (go_str "k") true (go_str "16 bytes of body")). simpl. lia. Defined.
