(* ===== verification/Keys.v ===== *)
(** [pkg/crypto/blowfish_key.go] and [pkg/crypto/session_key.go]: the pools of
    Blowfish keys and the identifiers of a login session.  What [rand.Read]
    delivers is an argument of the generating functions ([None] is its error). *)
From stdpp Require Import base gmap list numbers strings.
From coqutil Require Import Byte Word.LittleEndianList.
From Stdlib Require Import Lia ZArith.
From S2P Require Import Prelude.
Local Open Scope Z_scope.

Module BlowfishKeys.

Definition cryptKeysSize : nat := 20.

(** The two package variables. *)
Record pools := mkPools { loginCryptKeys : list (list byte); gameCryptKeys : list (list byte) }.

(** Their zero values. *)
Definition zero_pools : pools :=
  let zero := replicate cryptKeysSize (replicate 16 Byte.x00) in
  {| loginCryptKeys := zero; gameCryptKeys := zero |}.

Definition suffixKey : list byte :=
  byte.of_Z <$> [0xc8; 0x27; 0x93; 0x01; 0xa1; 0x6c; 0x31; 0x97].

(** [uint(idx) % uint(cryptKeysSize)] for an [int] index. *)
Definition pool_index (idx : Z) : nat := Z.to_nat (u64 idx mod Z.of_nat cryptKeysSize).

Definition GetRandomBlowFishKey (idx : Z) (p : pools) : list byte :=
  nth (pool_index idx) (loginCryptKeys p) [].
Definition GetRandomGameBlowFishKey (idx : Z) (p : pools) : list byte :=
  nth (pool_index idx) (gameCryptKeys p) [].

(** [copy(pool[i][off:], bs)]. *)
Definition copy_key (i off : nat) (bs : list byte) (pool : list (list byte)) : list (list byte) :=
  alter (splice off bs) i pool.

Definition GenerateLoginBlowFishKeys (read : option (list byte)) (p : pools) : outcome pools :=
  match read with
  | None => Panic
  | Some entropy =>
    Val {| loginCryptKeys :=
             for_range cryptKeysSize (λ i pool,
               copy_key i 0 (slice (i * 16) ((i + 1) * 16) entropy) pool) (loginCryptKeys p);
           gameCryptKeys := gameCryptKeys p |}
  end.

Definition GenerateGameBlowFishKeys (read : option (list byte)) (p : pools) : outcome pools :=
  match read with
  | None => Panic
  | Some entropy =>
    Val {| loginCryptKeys := loginCryptKeys p;
           gameCryptKeys :=
             for_range cryptKeysSize (λ i pool,
               copy_key i 8 suffixKey
                 (copy_key i 0 (slice (i * 8) ((i + 1) * 8) entropy) pool)) (gameCryptKeys p) |}
  end.

(** ** Invariant: twenty keys of sixteen bytes *)
Definition pool_ok (pool : list (list byte)) : Prop :=
  length pool = cryptKeysSize /\ Forall (λ k, length k = 16%nat) pool.
Definition pools_ok (p : pools) : Prop := pool_ok (loginCryptKeys p) /\ pool_ok (gameCryptKeys p).

Lemma zero_pools_ok : pools_ok zero_pools.
Proof. split; (split; [reflexivity|by apply Forall_replicate]). Qed.

Lemma pool_index_lt idx : (pool_index idx < cryptKeysSize)%nat.
Proof.
  unfold pool_index, cryptKeysSize. pose proof (Z.mod_pos_bound (u64 idx) 20 ltac:(lia)).
  change (Z.of_nat 20) with 20. lia.
Qed.

(** A loop that rewrites entry [i] in its iteration [i], and only there. *)
Lemma pool_loop (step : nat -> list byte -> list byte) pool i :
  length pool = cryptKeysSize -> (i < cryptKeysSize)%nat ->
  for_range cryptKeysSize (λ i, alter (step i) i) pool !! i = step i <$> pool !! i /\
  length (for_range cryptKeysSize (λ i, alter (step i) i) pool) = cryptKeysSize.
Proof.
  intros Hl Hi.
  pose proof (for_range_ind (λ m l, length l = cryptKeysSize /\
    forall j, l !! j = if (j <? m)%nat then step j <$> pool !! j else pool !! j)
    cryptKeysSize (λ i, alter (step i) i) pool) as H.
  destruct H as [H1 H2]; [by split| |split; [|done]].
  - intros m l Hm [H1 H2]. split; [by rewrite length_alter|]. intros j.
    destruct (Nat.eq_dec j m) as [->|Hne].
    + rewrite list_lookup_alter_eq, H2, Nat.ltb_irrefl.
      by destruct (Nat.ltb_spec m (1 + m)); [|lia].
    + rewrite list_lookup_alter_ne, H2 by done.
      destruct (Nat.ltb_spec j m), (Nat.ltb_spec j (1 + m)); (done || lia).
  - rewrite H2. by destruct (Nat.ltb_spec i cryptKeysSize); [|lia].
Qed.

Lemma splice_whole {A} (bs l : list A) : length bs = length l -> splice 0 bs l = bs.
Proof. intros H. unfold splice. simpl. by rewrite drop_ge, app_nil_r by lia. Qed.

(** What a generating loop leaves when its iteration [i] turns any sixteen-byte
    entry into the key [v i]. *)
Lemma generated_pool (step : nat -> list byte -> list byte) (v : nat -> list byte) pool :
  pool_ok pool ->
  (forall i k, (i < cryptKeysSize)%nat -> length k = 16%nat -> step i k = v i /\ length (v i) = 16%nat) ->
  let pool' := for_range cryptKeysSize (λ i, alter (step i) i) pool in
  pool_ok pool' /\ forall idx, nth (pool_index idx) pool' [] = v (pool_index idx).
Proof.
  intros [Hl Hk] Hstep pool'.
  assert (forall i, (i < cryptKeysSize)%nat ->
    length pool' = cryptKeysSize /\ pool' !! i = Some (v i) /\ length (v i) = 16%nat) as H.
  { intros i Hi. destruct (pool_loop step pool i Hl Hi) as [A B]. split; [done|].
    destruct (lookup_lt_is_Some_2 pool i ltac:(lia)) as [k Hki].
    destruct (Hstep i k Hi (Forall_lookup_1 _ _ _ _ Hk Hki)) as [E1 E2].
    split; [|done]. unfold pool'. rewrite A, Hki. simpl. by rewrite E1. }
  destruct (H 0%nat ltac:(unfold cryptKeysSize; lia)) as [Hl' _].
  split; [split; [done|]|].
  - apply Forall_lookup. intros i k Hki. pose proof (lookup_lt_Some _ _ _ Hki) as Hi.
    rewrite Hl' in Hi. destruct (H i Hi) as (_ & E & ?). rewrite E in Hki.
    by apply (inj Some) in Hki as <-.
  - intros idx. destruct (H _ (pool_index_lt idx)) as (_ & E & _). by rewrite nth_lookup, E.
Qed.

Lemma login_pool entropy pool :
  pool_ok pool -> length entropy = 320%nat ->
  let pool' := for_range cryptKeysSize (λ i pool,
    copy_key i 0 (slice (i * 16) ((i + 1) * 16) entropy) pool) pool in
  pool_ok pool' /\ forall idx, nth (pool_index idx) pool' [] =
    slice (16 * pool_index idx) (16 * pool_index idx + 16) entropy.
Proof.
  intros Hp He. apply (generated_pool (λ i, splice 0 (slice (i * 16) ((i + 1) * 16) entropy))
    (λ i, slice (16 * i) (16 * i + 16) entropy) pool Hp).
  intros i k Hi Hk. assert (length (slice (16 * i) (16 * i + 16) entropy) = 16%nat) as Hs
    by (rewrite length_slice; unfold cryptKeysSize in *; lia).
  split; [|done]. replace (i * 16)%nat with (16 * i)%nat by lia.
  replace ((i + 1) * 16)%nat with (16 * i + 16)%nat by lia. apply splice_whole. lia.
Qed.

Lemma game_pool entropy pool :
  pool_ok pool -> length entropy = 160%nat ->
  let pool' := for_range cryptKeysSize (λ i pool,
    copy_key i 8 suffixKey (copy_key i 0 (slice (i * 8) ((i + 1) * 8) entropy) pool)) pool in
  pool_ok pool' /\ forall idx, nth (pool_index idx) pool' [] =
    slice (8 * pool_index idx) (8 * pool_index idx + 8) entropy ++ suffixKey.
Proof.
  intros Hp He pool'.
  assert (pool' = for_range cryptKeysSize (λ i, alter
    (λ k, splice 8 suffixKey (splice 0 (slice (i * 8) ((i + 1) * 8) entropy) k)) i) pool) as ->.
  { apply for_range_ext. intros i l. unfold copy_key. by rewrite list_alter_alter_eq. }
  apply (generated_pool _ (λ i, slice (8 * i) (8 * i + 8) entropy ++ suffixKey) pool Hp).
  intros i k Hi Hk. assert (length (slice (8 * i) (8 * i + 8) entropy) = 8%nat) as Hs
    by (rewrite length_slice; unfold cryptKeysSize in *; lia).
  split; [|by rewrite length_app, Hs].
  replace (i * 8)%nat with (8 * i)%nat by lia.
  replace ((i + 1) * 8)%nat with (8 * i + 8)%nat by lia.
  set (c := slice (8 * i) (8 * i + 8) entropy) in *.
  replace (splice 0 c k) with (c ++ drop 8 k) by (unfold splice; simpl; by rewrite Hs).
  rewrite <- Hs at 1. by rewrite splice_app_r by (rewrite length_drop, Hk; reflexivity).
Qed.

(** generating the pools installs the entropy that was read and nothing else:
    for every index, negative ones included, the selected login key is a
    sixteen-byte chunk of the entropy, the selected game key eight bytes of
    entropy and the fixed suffix; each generator leaves the other pool alone. *)
Theorem generated_keys e1 e2 p :
  pools_ok p -> length e1 = 320%nat -> length e2 = 160%nat ->
  exists p1 p2,
    GenerateLoginBlowFishKeys (Some e1) p = Val p1 /\
    GenerateGameBlowFishKeys (Some e2) p1 = Val p2 /\ pools_ok p2 /\
    gameCryptKeys p1 = gameCryptKeys p /\
    forall idx, let i := Z.to_nat (u64 idx mod 20) in
      GetRandomBlowFishKey idx p2 = slice (16 * i) (16 * i + 16) e1 /\
      GetRandomGameBlowFishKey idx p2 = slice (8 * i) (8 * i + 8) e2 ++ suffixKey.
Proof.
  intros [HL HG] H1 H2. eexists _, _. split; [reflexivity|]. split; [reflexivity|].
  destruct (login_pool e1 _ HL H1) as [HL1 HL2]. destruct (game_pool e2 _ HG H2) as [HG1 HG2].
  split; [by split|]. split; [done|]. intros idx. split; [apply HL2|apply HG2].
Qed.

Lemma generated_keys_witness :
  let e1 := (λ n, byte.of_Z (Z.of_nat n)) <$> seq 0 320 in
  let e2 := (λ n, byte.of_Z (Z.of_nat n)) <$> seq 0 160 in
  exists p1 p2,
    GenerateLoginBlowFishKeys (Some e1) zero_pools = Val p1 /\
    GenerateGameBlowFishKeys (Some e2) p1 = Val p2 /\ pools_ok p2 /\
    gameCryptKeys p1 = gameCryptKeys zero_pools /\
    forall idx, let i := Z.to_nat (u64 idx mod 20) in
      GetRandomBlowFishKey idx p2 = slice (16 * i) (16 * i + 16) e1 /\
      GetRandomGameBlowFishKey idx p2 = slice (8 * i) (8 * i + 8) e2 ++ suffixKey.
Proof. intros e1 e2. apply generated_keys; [apply zero_pools_ok|reflexivity|reflexivity]. Defined.

End BlowfishKeys.

Module SessionKeys.

Record SessionKey := mkSessionKey {
  LoginOkID1 : Z; LoginOkID2 : Z; PlayOkID1 : Z; PlayOkID2 : Z }.

#[export] Instance SessionKey_eq_dec : EqDecision SessionKey.
Proof. solve_decision. Defined.

(** The fields are [int32]. *)
Definition key_ok (k : SessionKey) : Prop :=
  is_i32 (LoginOkID1 k) /\ is_i32 (LoginOkID2 k) /\ is_i32 (PlayOkID1 k) /\ is_i32 (PlayOkID2 k).

Definition GenerateSessionKey (read : error + list byte) : error + SessionKey :=
  match read with
  | inl err => inl err
  | inr b =>
    inr {| LoginOkID1 := i32 (le_combine (slice 0 4 b));
           LoginOkID2 := i32 (le_combine (slice 4 8 b));
           PlayOkID1 := i32 (le_combine (slice 8 12 b));
           PlayOkID2 := i32 (le_combine (slice 12 16 b)) |}
  end.

Definition CheckLoginPair (s : SessionKey) (loginOK01 loginOK02 : Z) : bool :=
  let diff := Z.lor (Z.lxor (LoginOkID1 s) loginOK01) (Z.lxor (LoginOkID2 s) loginOK02) in
  diff =? 0.

Definition CheckPlayPair (s : SessionKey) (loginOK01 loginOK02 playOK01 playOK02 : Z) : bool :=
  let diff := Z.lor (Z.lor (Z.lor (Z.lxor (LoginOkID1 s) loginOK01)
                                  (Z.lxor (LoginOkID2 s) loginOK02))
                           (Z.lxor (PlayOkID1 s) playOK01))
                    (Z.lxor (PlayOkID2 s) playOK02) in
  diff =? 0.

Lemma CheckLoginPair_iff s a b :
  CheckLoginPair s a b = true <-> LoginOkID1 s = a /\ LoginOkID2 s = b.
Proof. unfold CheckLoginPair. by rewrite Z.eqb_eq, Z.lor_eq_0_iff, !lxor_zero_iff. Qed.

Lemma CheckPlayPair_iff s a b c d :
  CheckPlayPair s a b c d = true <->
  LoginOkID1 s = a /\ LoginOkID2 s = b /\ PlayOkID1 s = c /\ PlayOkID2 s = d.
Proof.
  unfold CheckPlayPair. rewrite Z.eqb_eq, !Z.lor_eq_0_iff, !lxor_zero_iff. tauto.
Qed.

(** An identifier sent as an [int32] is the four bytes it was read from. *)
Lemma id_bytes a (b : list byte) :
  (a + 4 <= length b)%nat ->
  le_split 4 (u32 (i32 (le_combine (slice a (a + 4) b)))) = slice a (a + 4) b.
Proof.
  intros H. assert (length (slice a (a + 4) b) = 4%nat) as Hl by (rewrite length_slice; lia).
  pose proof (le_combine_u32 _ Hl) as Hu.
  replace (u32 (i32 (le_combine (slice a (a + 4) b)))) with (le_combine (slice a (a + 4) b))
    by zmod.
  by apply split_le_combine'.
Qed.

(** a session key is its sixteen random bytes, none lost and none used
    twice: the four identifiers, as sent to the client, spell the bytes out; so
    a check that accepts a guess has been given exactly those bytes, and the
    login pair alone exactly the first eight. *)
Theorem session_key_entropy b :
  length b = 16%nat ->
  exists k, GenerateSessionKey (inr b) = inr k /\ key_ok k /\
    le_split 4 (u32 (LoginOkID1 k)) ++ le_split 4 (u32 (LoginOkID2 k)) ++
      le_split 4 (u32 (PlayOkID1 k)) ++ le_split 4 (u32 (PlayOkID2 k)) = b /\
    forall g, length g = 16%nat ->
      let i n := i32 (le_combine (slice n (n + 4) g)) in
      (CheckPlayPair k (i 0%nat) (i 4%nat) (i 8%nat) (i 12%nat) = true <-> g = b) /\
      (CheckLoginPair k (i 0%nat) (i 4%nat) = true <-> take 8 g = take 8 b).
Proof.
  assert (forall l : list byte, length l = 16%nat ->
    l = slice 0 4 l ++ slice 4 8 l ++ slice 8 12 l ++ slice 12 16 l /\
    take 8 l = slice 0 4 l ++ slice 4 8 l) as Hsplit.
  { intros l Hl. do 16 (destruct l as [|? l]; [done|]). by destruct l. }
  intros Hb. eexists. split; [reflexivity|]. split; [split_and!; apply i32_range|].
  cbn [LoginOkID1 LoginOkID2 PlayOkID1 PlayOkID2]. split.
  { rewrite (id_bytes 0), (id_bytes 4), (id_bytes 8), (id_bytes 12) by lia.
    symmetry. by apply Hsplit. }
  intros g Hg. set (i := λ n, i32 (le_combine (slice n (n + 4) g))).
  change (i32 (le_combine (slice 0 (0 + 4) g))) with (i 0%nat).
  change (i32 (le_combine (slice 4 (4 + 4) g))) with (i 4%nat).
  change (i32 (le_combine (slice 8 (8 + 4) g))) with (i 8%nat).
  change (i32 (le_combine (slice 12 (12 + 4) g))) with (i 12%nat).
  assert (forall n, (n + 4 <= 16)%nat ->
    i32 (le_combine (slice n (n + 4) b)) = i n -> slice n (n + 4) b = slice n (n + 4) g) as Hid.
  { intros n Hn E. unfold i in E. rewrite <- (id_bytes n b), <- (id_bytes n g), E by lia. done. }
  rewrite CheckPlayPair_iff, CheckLoginPair_iff.
  cbn [LoginOkID1 LoginOkID2 PlayOkID1 PlayOkID2].
  destruct (Hsplit b Hb) as [Eb Tb], (Hsplit g Hg) as [Eg Tg]. split.
  - split; [|by intros <-]. intros (E0 & E4 & E8 & E12). rewrite Eb, Eg.
    by rewrite (Hid 0%nat ltac:(lia) E0 : slice 0 4 b = slice 0 4 g),
      (Hid 4%nat ltac:(lia) E4 : slice 4 8 b = slice 4 8 g),
      (Hid 8%nat ltac:(lia) E8 : slice 8 12 b = slice 8 12 g),
      (Hid 12%nat ltac:(lia) E12 : slice 12 16 b = slice 12 16 g).
  - split.
    + intros [E0 E4]. by rewrite Tb, Tg, (Hid 0%nat ltac:(lia) E0 : slice 0 4 b = slice 0 4 g),
        (Hid 4%nat ltac:(lia) E4 : slice 4 8 b = slice 4 8 g).
    + intros E. unfold i.
      assert (forall n (l : list byte), (n + 4 <= 8)%nat -> slice n (n + 4) l = slice n (n + 4) (take 8 l)) as Ht.
      { intros n l Hn. unfold slice. rewrite skipn_firstn_comm, take_take. f_equal. lia. }
      pose proof (Ht 0%nat b) as B0. pose proof (Ht 0%nat g) as G0.
      pose proof (Ht 4%nat b) as B4. pose proof (Ht 4%nat g) as G4.
      cbn [Nat.add] in *. rewrite B0, B4, G0, G4 by lia. by rewrite E.
Qed.

Lemma session_key_entropy_witness :
  let b := go_str "sixteen bytes!!!" in
  exists k, GenerateSessionKey (inr b) = inr k /\ key_ok k /\
    le_split 4 (u32 (LoginOkID1 k)) ++ le_split 4 (u32 (LoginOkID2 k)) ++
      le_split 4 (u32 (PlayOkID1 k)) ++ le_split 4 (u32 (PlayOkID2 k)) = b /\
    forall g, length g = 16%nat ->
      let i n := i32 (le_combine (slice n (n + 4) g)) in
      (CheckPlayPair k (i 0%nat) (i 4%nat) (i 8%nat) (i 12%nat) = true <-> g = b) /\
      (CheckLoginPair k (i 0%nat) (i 4%nat) = true <-> take 8 g = take 8 b).
Proof. apply session_key_entropy. reflexivity. Defined.

End SessionKeys.
