(* ===== verification/Rsa.v ===== *)
(** [pkg/crypto/scrambled_key.go]: the pool of RSA keys, CRT decryption, and the
    scrambling of the public modulus sent in the Init packet. *)
From stdpp Require Import base gmap list numbers strings.
From coqutil Require Import Byte Word.LittleEndianList.
From Stdlib Require Import Lia ZArith Zmod.
From S2P Require Import Prelude.
Local Open Scope Z_scope.

(** * math/big *)

(** [x.Exp(c, e, m)] for [e >= 0] and [m > 0]; [SetBytes]; [FillBytes] of a
    non-negative number into [n] bytes, which panics if it does not fit. *)
Definition Exp (c e m : Z) : Z := c ^ e mod m.
Definition SetBytes (bs : list byte) : Z := le_combine (rev bs).
Definition FillBytes (n : nat) (z : Z) : outcome (list byte) :=
  if z <? 2 ^ (8 * Z.of_nat n) then Val (rev (le_split n z)) else Panic.

(** * Keys *)

Definition RSAModulusSize : nat := 128.

(** What the program uses of an [rsa.PrivateKey]: [PublicKey.N], the two primes
    and the [Precomputed] values; [E] and [D] relate them ([rsa_ok]). *)
Record PrivateKey := mkPrivateKey {
  N : Z; E : Z; D : Z; Prime0 : Z; Prime1 : Z; Dp : Z; Dq : Z; Qinv : Z }.

Record ScrambledKey := mkScrambledKey { Private : PrivateKey; Modulus : list byte }.

(** Arrays of a fixed size are indexed in bounds by the loops below. *)
Definition at_ (l : list byte) (i : nat) : byte := nth i l Byte.x00.

(** [dst[i], dst[j] = dst[j], dst[i]] and [dst[i] ^= dst[j]]. *)
Definition swap_at (i j : nat) (l : list byte) : list byte :=
  <[j := at_ l i]> (<[i := at_ l j]> l).
Definition xor_at (i j : nat) (l : list byte) : list byte :=
  <[i := byte_xor (at_ l i) (at_ l j)]> l.

Definition fillAndScrambleModulus (modulus : Z) : outcome (list byte) :=
  match FillBytes RSAModulusSize modulus with
  | Val dst =>
    let dst := for_range 4 (λ i, swap_at i (77 + i)) dst in
    let dst := for_range 64 (λ i, xor_at i (64 + i)) dst in
    let dst := for_range 4 (λ i, xor_at (13 + i) (52 + i)) dst in
    let dst := for_range 64 (λ i, xor_at (64 + i) i) dst in
    Val dst
  | Fail err => Fail err
  | Panic => Panic
  end.

(** The keys left to generate after [i] of them; [gen i] is what the [i]-th call
    of [rsa.GenerateKey] followed by [Precompute] yields. *)
Fixpoint generate_keys (gen : nat -> option PrivateKey) (i n : nat) : outcome (list ScrambledKey) :=
  match n with
  | O => Val []
  | S n =>
    match gen i with
    | None => Panic
    | Some key =>
      match fillAndScrambleModulus (N key), generate_keys gen (i + 1) n with
      | Val m, Val rest => Val ({| Private := key; Modulus := m |} :: rest)
      | _, _ => Panic
      end
    end
  end.

Definition InitRSAPool (gen : nat -> option PrivateKey) (size : Z) : outcome (list ScrambledKey) :=
  if size <=? 0 then Panic else generate_keys gen 0 (Z.to_nat size).

(** [GetScrambledKey]: [rsaIdx] is the atomic counter, incremented by the call. *)
Definition GetScrambledKey (rsaPool : list ScrambledKey) (rsaIdx : Z) : outcome ScrambledKey * Z :=
  let poolLen := Z.of_nat (length rsaPool) in
  if poolLen =? 0 then (Fail "crypto: rsa pool is not initialized"%string, rsaIdx)
  else
    let i := u32 (rsaIdx + 1) in
    match rsaPool !! Z.to_nat (i mod poolLen) with
    | Some k => (Val k, i)
    | None => (Panic, i)
    end.

Definition RSADecrypt (key : ScrambledKey) (ciphertext : list byte) : outcome (list byte) :=
  if negb (length ciphertext =? RSAModulusSize)%nat
  then Fail "crypto: invalid ciphertext size"%string
  else
    let priv := Private key in
    let c := SetBytes ciphertext in
    let m1 := Exp c (Dp priv) (Prime0 priv) in
    let m2 := Exp c (Dq priv) (Prime1 priv) in
    let h := m1 - m2 in
    let h := if h <? 0 then h + Prime0 priv else h in
    let h := h * Qinv priv in
    let h := h mod Prime0 priv in
    let m := h * Prime1 priv in
    let m := m + m2 in
    FillBytes RSAModulusSize m.

(** * What [rsa.GenerateKey] and [Precompute] promise *)

Record rsa_ok (k : PrivateKey) : Prop := {
  ok_p : Z.prime (Prime0 k);
  ok_q : Z.prime (Prime1 k);
  ok_pq : Prime0 k <> Prime1 k;
  ok_N : N k = Prime0 k * Prime1 k;
  ok_size : N k < 2 ^ 1024;
  ok_E : 0 < E k;
  ok_D : 0 < D k;
  ok_ed_p : E k * D k mod (Prime0 k - 1) = 1;
  ok_ed_q : E k * D k mod (Prime1 k - 1) = 1;
  ok_dp : Dp k = D k mod (Prime0 k - 1);
  ok_dq : Dq k = D k mod (Prime1 k - 1);
  ok_qinv : Qinv k * Prime1 k mod Prime0 k = 1
}.

(** ** Arithmetic *)

Lemma SetBytes_FillBytes n z bs :
  0 <= z -> FillBytes n z = Val bs -> SetBytes bs = z /\ length bs = n.
Proof.
  unfold FillBytes, SetBytes. intros Hz. destruct (Z.ltb_spec z (2 ^ (8 * Z.of_nat n))); [|done].
  intros H1. injection H1 as <-. rewrite rev_involutive, length_rev, length_le_split.
  rewrite le_combine_split_small; [done|]. by rewrite (Z.mul_comm _ 8).
Qed.

Lemma FillBytes_total n z :
  z < 2 ^ (8 * Z.of_nat n) -> exists bs, FillBytes n z = Val bs /\ length bs = n.
Proof.
  intros H. unfold FillBytes. destruct (Z.ltb_spec z (2 ^ (8 * Z.of_nat n))); [|lia].
  eexists. split; [done|]. by rewrite length_rev, length_le_split.
Qed.

(** Fermat's little theorem, iterated. *)
Lemma fermat_iter p a k :
  Z.prime p -> 0 <= k -> a ^ (1 + k * (p - 1)) mod p = a mod p.
Proof.
  intros Hp Hk. pose proof (Z.prime_ge_2 p Hp) as H2.
  assert (a ^ p mod p = a mod p) as Hf.
  { pose proof (f_equal Zmod.to_Z (Zmod.fermat (Zmod.of_Z p a) Hp)) as H.
    rewrite Zmod.to_Z_pow_nonneg_r, !Zmod.to_Z_of_Z, Z.mod_pow_l in H by lia. done. }
  revert k Hk. apply natlike_ind; [by rewrite Z.mul_0_l, Z.add_0_r, Z.pow_1_r|].
  intros k Hk IH. replace (1 + Z.succ k * (p - 1)) with (k * (p - 1) + p) by lia.
  rewrite Z.pow_add_r by nia. rewrite <- Z.mul_mod_idemp_r, Hf, Z.mul_mod_idemp_r by lia.
  rewrite Z.pow_add_r, Z.pow_1_r in IH by nia. by rewrite (Z.mul_comm _ a).
Qed.

(** The exponents invert each other modulo one of the primes. *)
Lemma exp_inverse p m e d :
  Z.prime p -> 0 < e -> 0 < d -> e * d mod (p - 1) = 1 ->
  Exp (m ^ e) (d mod (p - 1)) p = m mod p.
Proof.
  intros Hp He Hd Hed. pose proof (Z.prime_ge_2 p Hp) as H2. unfold Exp.
  assert (p - 1 <> 1) as Hp1 by (intros Hp1; rewrite Hp1, Z.mod_1_r in Hed; lia).
  set (d' := d mod (p - 1)). assert (0 <= d') as Hd' by (apply Z.mod_pos_bound; lia).
  rewrite <- Z.pow_mul_r by lia.
  assert (e * d' mod (p - 1) = 1) as Hed' by (unfold d'; rewrite Z.mul_mod_idemp_r by lia; done).
  pose proof (Z.div_mod (e * d') (p - 1) ltac:(lia)) as Hdm. rewrite Hed' in Hdm.
  rewrite Hdm, Z.add_comm, (Z.mul_comm (p - 1)). apply fermat_iter; [done|].
  apply Z.div_pos; nia.
Qed.

Lemma Exp_mod c e m p : (p | m) -> 0 < p -> 0 < m -> Exp (c mod m) e p = Exp c e p.
Proof.
  intros Hd Hp Hm. unfold Exp. rewrite <- (Z.mod_pow_l (c mod m)), <- (Z.mod_pow_l c).
  f_equal. f_equal. destruct Hd as [k ->]. rewrite Z.mul_comm, Z.rem_mul_r by nia.
  by rewrite Z.mul_comm, Z.mod_add, Z.mod_mod by lia.
Qed.

Lemma crt_unique p q x y :
  Z.prime p -> Z.prime q -> p <> q -> 0 <= x < p * q -> 0 <= y < p * q ->
  x mod p = y mod p -> x mod q = y mod q -> x = y.
Proof.
  intros Hp Hq Hne Hx Hy Ep Eq. pose proof (Z.prime_ge_2 p Hp). pose proof (Z.prime_ge_2 q Hq).
  assert (forall r, 0 < r -> x mod r = y mod r -> (r | x - y)) as Hd.
  { intros r Hr H1. apply Z.mod_divide; [lia|]. by rewrite Zminus_mod, H1, Z.sub_diag, Z.mod_0_l by lia. }
  destruct (Hd p ltac:(lia) Ep) as [k Hk].
  assert (Z.coprime q p) as Hc.
  { apply Z.coprime_prime_l; [done|]. intros Hqp. apply Z.divide_prime_prime in Hqp; auto. }
  assert (q | p * k) as Hqk by (rewrite Z.mul_comm, <- Hk; apply Hd; [lia|done]).
  apply Z.gauss in Hqk as [j Hj]; [|exact Hc].
  assert (x - y = j * (p * q)) as Hj' by (rewrite Hk, Hj; ring).
  clear - Hx Hy Hj'. generalize dependent (p * q). intros n ? ? ?.
  destruct (Z.lt_trichotomy j 0) as [|[->|]]; nia.
Qed.

(** ** The decryption *)

(** The combination of the two residues; [h] is [m1 - m2] or [p] more. *)
Definition crt_combine (k : PrivateKey) (m1 m2 : Z) : Z :=
  let h := if m1 - m2 <? 0 then m1 - m2 + Prime0 k else m1 - m2 in
  h * Qinv k mod Prime0 k * Prime1 k + m2.

Lemma crt_combine_bound k m1 m2 :
  0 < Prime0 k -> 0 <= m2 < Prime1 k -> 0 <= crt_combine k m1 m2 < Prime0 k * Prime1 k.
Proof.
  intros Hp Hq. unfold crt_combine. set (h := if m1 - m2 <? 0 then _ else m1 - m2).
  pose proof (Z.mod_pos_bound (h * Qinv k) (Prime0 k) Hp). nia.
Qed.

Lemma crt_combine_mod k m1 m2 :
  0 < Prime0 k -> 0 <= m2 < Prime1 k -> Qinv k * Prime1 k mod Prime0 k = 1 ->
  crt_combine k m1 m2 mod Prime0 k = m1 mod Prime0 k /\
  crt_combine k m1 m2 mod Prime1 k = m2.
Proof.
  intros Hp Hq Hi. unfold crt_combine. set (h := if m1 - m2 <? 0 then _ else m1 - m2).
  assert (h mod Prime0 k = (m1 - m2) mod Prime0 k) as Hh.
  { unfold h. destruct (_ <? _); [|done]. rewrite <- (Z.mod_add (m1 - m2) 1) by lia. by rewrite Z.mul_1_l. }
  split.
  - rewrite Zplus_mod, Z.mul_mod_idemp_l by lia.
    replace (h * Qinv k * Prime1 k) with (h * (Qinv k * Prime1 k)) by ring.
    rewrite <- Z.mul_mod_idemp_r, Hi, Z.mul_1_r, Hh by lia.
    rewrite <- Zplus_mod. f_equal. lia.
  - rewrite Z.add_comm, Z.mod_add by lia. by apply Z.mod_small.
Qed.

Lemma RSADecrypt_eq key ct :
  RSADecrypt key ct =
  if negb (length ct =? RSAModulusSize)%nat then Fail "crypto: invalid ciphertext size"%string
  else let k := Private key in let c := SetBytes ct in
       FillBytes RSAModulusSize (crt_combine k (Exp c (Dp k) (Prime0 k)) (Exp c (Dq k) (Prime1 k))).
Proof. reflexivity. Qed.

Lemma rsa_primes_pos k : rsa_ok k -> 0 < Prime0 k /\ 0 < Prime1 k.
Proof.
  intros Hk. pose proof (Z.prime_ge_2 _ (ok_p k Hk)). pose proof (Z.prime_ge_2 _ (ok_q k Hk)). lia.
Qed.

Lemma RSADecrypt_inverts key m ct :
  rsa_ok (Private key) -> 0 <= m < N (Private key) ->
  FillBytes RSAModulusSize (m ^ E (Private key) mod N (Private key)) = Val ct ->
  RSADecrypt key ct = FillBytes RSAModulusSize m /\ SetBytes ct < N (Private key).
Proof.
  intros Hk Hm Hct. rewrite RSADecrypt_eq. set (k := Private key) in *.
  destruct (rsa_primes_pos k Hk) as [Hp Hq]. pose proof (ok_N k Hk) as HN.
  pose proof (Z.mod_pos_bound (m ^ E k) (N k) ltac:(lia)) as Hc.
  destruct (SetBytes_FillBytes _ _ _ (proj1 Hc) Hct) as [Hs Hl].
  rewrite Hl. cbn [negb Nat.eqb RSAModulusSize]. rewrite Hs. split; [|lia]. cbn zeta.
  rewrite !Exp_mod by (try lia; rewrite HN; auto using Z.divide_factor_l, Z.divide_factor_r).
  rewrite (ok_dp k Hk), (ok_dq k Hk).
  rewrite !exp_inverse by (destruct Hk; done).
  pose proof (Z.mod_pos_bound m (Prime1 k) Hq) as Hmq.
  destruct (crt_combine_mod k (m mod Prime0 k) (m mod Prime1 k) Hp Hmq (ok_qinv k Hk)) as [E1 E2].
  f_equal. apply (crt_unique (Prime0 k) (Prime1 k)); [apply Hk|apply Hk|apply Hk|..].
  - by apply crt_combine_bound.
  - by rewrite <- HN.
  - by rewrite E1, Z.mod_mod by lia.
  - done.
Qed.

Lemma RSADecrypt_value key ct :
  rsa_ok (Private key) ->
  if (length ct =? RSAModulusSize)%nat
  then exists out, RSADecrypt key ct = Val out /\ length out = RSAModulusSize
  else RSADecrypt key ct = Fail "crypto: invalid ciphertext size"%string.
Proof.
  intros Hk. rewrite RSADecrypt_eq. destruct (_ =? _)%nat; [|done]. cbn zeta. cbn [negb].
  destruct (rsa_primes_pos _ Hk) as [Hp Hq]. apply FillBytes_total.
  pose proof (ok_N _ Hk). pose proof (ok_size _ Hk). change (8 * Z.of_nat RSAModulusSize) with 1024.
  match goal with |- crt_combine ?k ?a ?b < _ =>
    pose proof (crt_combine_bound k a b Hp (Z.mod_pos_bound _ _ Hq)) end. lia.
Qed.

(** C12: CRT decryption inverts encryption: with any key as [crypto/rsa] makes
    them, the cipher text [m ^ E mod N] of any message [m < N] decrypts to
    exactly the bytes of [m]. *)
Theorem RSADecrypt_correct key m ct :
  rsa_ok (Private key) -> 0 <= m < N (Private key) ->
  FillBytes RSAModulusSize (m ^ E (Private key) mod N (Private key)) = Val ct ->
  RSADecrypt key ct = FillBytes RSAModulusSize m /\ SetBytes ct < N (Private key).
Proof. apply RSADecrypt_inverts. Qed.

(** decryption is total on what the network delivers: a wrong size is an
    error, and any other cipher text, forged ones included, yields 128 bytes; the
    result never overflows the output buffer ([FillBytes] would panic). *)
Theorem RSADecrypt_total key ct :
  rsa_ok (Private key) ->
  if (length ct =? RSAModulusSize)%nat
  then exists out, RSADecrypt key ct = Val out /\ length out = RSAModulusSize
  else RSADecrypt key ct = Fail "crypto: invalid ciphertext size"%string.
Proof. apply RSADecrypt_value. Qed.

(** ** A small key for the witnesses *)

(** Trial division below [k], the square of which exceeds [p]. *)
Lemma prime_check p k :
  1 < p -> p < Z.of_nat k * Z.of_nat k ->
  forallb (λ n, negb (p mod Z.of_nat n =? 0)) (seq 2 (k - 2)) = true -> Z.prime p.
Proof.
  intros Hp Hk H. rewrite forallb_forall in H.
  assert (forall c, 1 < c -> c < Z.of_nat k -> ~ (c | p)) as Hc.
  { intros c H1 H2 Hd. apply Z.mod_divide in Hd; [|lia]. specialize (H (Z.to_nat c)).
    rewrite in_seq, Z2Nat.id, Hd in H by lia. by specialize (H ltac:(lia)). }
  split; [done|]. intros d Hd Hdp. destruct (Z.lt_ge_cases d (Z.of_nat k)) as [Hl|Hg].
  - by apply (Hc d ltac:(lia) Hl).
  - destruct Hdp as [c E]. apply (Hc c); [nia|nia|]. exists d. lia.
Qed.

Definition small_key : ScrambledKey :=
  {| Private := {| N := 3233; E := 17; D := 2753; Prime0 := 61; Prime1 := 53;
                   Dp := 53; Dq := 49; Qinv := 38 |};
     Modulus := [] |}.

Lemma small_key_ok : rsa_ok (Private small_key).
Proof. split; first [by apply (prime_check _ 8) | reflexivity | done]. Qed.

Lemma RSADecrypt_correct_witness :
  exists ct, FillBytes RSAModulusSize (65 ^ 17 mod 3233) = Val ct /\
    RSADecrypt small_key ct = FillBytes RSAModulusSize 65 /\ SetBytes ct < 3233.
Proof.
  eexists. split; [reflexivity|].
  apply (RSADecrypt_correct small_key 65); [apply small_key_ok|simpl; lia|reflexivity].
Defined.

Lemma RSADecrypt_total_witness :
  exists out, RSADecrypt small_key (replicate 128 Byte.xff) = Val out /\ length out = RSAModulusSize.
Proof. exact (RSADecrypt_total small_key (replicate 128 Byte.xff) small_key_ok). Defined.

(** ** Scrambling *)

Lemma at_lookup l i b : l !! i = Some b -> at_ l i = b.
Proof. intros H. unfold at_. by rewrite nth_lookup, H. Qed.

(** The xor loop changes the [n] bytes from [d] on, using the [n] bytes from
    [s] on. *)
Lemma xor_at_loop n d s l :
  (d + n <= length l)%nat -> (s + n <= length l)%nat -> (d + n <= s \/ s + n <= d)%nat ->
  length (for_range n (λ i, xor_at (d + i) (s + i)) l) = length l /\
  forall j, for_range n (λ i, xor_at (d + i) (s + i)) l !! j =
    if decide (d <= j < d + n)%nat then Some (byte_xor (at_ l j) (at_ l (s + (j - d)))) else l !! j.
Proof.
  intros Hd Hs Hdis.
  set (P := λ m l', length l' = length l /\ forall j, l' !! j =
    if decide (d <= j < d + m)%nat then Some (byte_xor (at_ l j) (at_ l (s + (j - d)))) else l !! j).
  enough (P n (for_range n _ l)) as HP by exact HP. apply (for_range_ind P); unfold P; clear P.
  { split; [done|]. intros j. case_decide; [lia|done]. }
  intros i l' Hi [Hl IH]. unfold xor_at. split; [by rewrite length_insert|]. intros j.
  assert (forall k, ~ (d <= k < d + i)%nat -> at_ l' k = at_ l k) as Hat.
  { intros k Hk. unfold at_. rewrite !nth_lookup, IH. case_decide; [lia|done]. }
  destruct (decide (j = (d + i)%nat)) as [->|Hne].
  - rewrite list_lookup_insert_eq by lia. case_decide; [|lia].
    rewrite !Hat by lia. do 3 f_equal. lia.
  - rewrite list_lookup_insert_ne, IH by done. repeat case_decide; (done || lia).
Qed.

Lemma swap_at_loop n d s l :
  (d + n <= s)%nat -> (s + n <= length l)%nat ->
  length (for_range n (λ i, swap_at (d + i) (s + i)) l) = length l /\
  forall j, for_range n (λ i, swap_at (d + i) (s + i)) l !! j =
    if decide (d <= j < d + n)%nat then Some (at_ l (s + (j - d)))
    else if decide (s <= j < s + n)%nat then Some (at_ l (d + (j - s))) else l !! j.
Proof.
  intros Hds Hs.
  set (P := λ m l', length l' = length l /\ forall j, l' !! j =
    if decide (d <= j < d + m)%nat then Some (at_ l (s + (j - d)))
    else if decide (s <= j < s + m)%nat then Some (at_ l (d + (j - s))) else l !! j).
  enough (P n (for_range n _ l)) as HP by exact HP. apply (for_range_ind P); unfold P; clear P.
  { split; [done|]. intros j. repeat case_decide; (done || lia). }
  intros i l' Hi [Hl IH]. unfold swap_at. split; [by rewrite !length_insert|]. intros j.
  assert (forall k, ~ (d <= k < d + i)%nat -> ~ (s <= k < s + i)%nat -> at_ l' k = at_ l k) as Hat.
  { intros k Hk Hk2. unfold at_. rewrite !nth_lookup, IH. repeat case_decide; (done || lia). }
  destruct (decide (j = (s + i)%nat)) as [->|Hne].
  - rewrite list_lookup_insert_eq by (rewrite length_insert; lia).
    repeat case_decide; try lia. rewrite Hat by lia. do 2 f_equal. lia.
  - rewrite list_lookup_insert_ne by done. destruct (decide (j = (d + i)%nat)) as [->|Hne2].
    + rewrite list_lookup_insert_eq by lia. case_decide; [|lia]. rewrite Hat by lia. do 2 f_equal. lia.
    + rewrite list_lookup_insert_ne, IH by done. repeat case_decide; (done || lia).
Qed.

(** Both loops undo themselves. *)
Lemma xor_at_loop_twice n d s l :
  (d + n <= length l)%nat -> (s + n <= length l)%nat -> (d + n <= s \/ s + n <= d)%nat ->
  for_range n (λ i, xor_at (d + i) (s + i)) (for_range n (λ i, xor_at (d + i) (s + i)) l) = l.
Proof.
  intros Hd Hs Hdis. destruct (xor_at_loop n d s l Hd Hs Hdis) as [Hl H1].
  set (l' := for_range n _ l) in *. apply list_eq. intros j.
  destruct (xor_at_loop n d s l') as [_ H2]; [lia..|]. rewrite H2. case_decide as Hj; [|by rewrite H1, decide_False].
  assert (at_ l' j = byte_xor (at_ l j) (at_ l (s + (j - d)))) as ->
    by (apply at_lookup; by rewrite H1, decide_True).
  assert (at_ l' (s + (j - d)) = at_ l (s + (j - d))) as ->
    by (unfold at_; rewrite !nth_lookup, H1, decide_False by lia; done).
  rewrite byte_xor_cancel. destruct (lookup_lt_is_Some_2 l j ltac:(lia)) as [b Hb].
  by rewrite Hb, (at_lookup _ _ _ Hb).
Qed.

Lemma swap_at_loop_twice n d s l :
  (d + n <= s)%nat -> (s + n <= length l)%nat ->
  for_range n (λ i, swap_at (d + i) (s + i)) (for_range n (λ i, swap_at (d + i) (s + i)) l) = l.
Proof.
  intros Hds Hs. destruct (swap_at_loop n d s l Hds Hs) as [Hl H1].
  set (l' := for_range n _ l) in *. apply list_eq. intros j.
  destruct (swap_at_loop n d s l') as [_ H2]; [lia..|]. rewrite H2.
  assert (forall k, (k < length l)%nat -> l !! k = Some (at_ l k)) as Hat.
  { intros k Hk. destruct (lookup_lt_is_Some_2 l k Hk) as [b Hb]. by rewrite Hb, (at_lookup _ _ _ Hb). }
  destruct (decide (d <= j < d + n)%nat) as [Hj|Hj]; [|destruct (decide (s <= j < s + n)%nat) as [Hk|Hk]].
  - rewrite Hat by lia. f_equal. apply at_lookup. rewrite H1, decide_False, decide_True by lia.
    do 2 f_equal. lia.
  - rewrite Hat by lia. f_equal. apply at_lookup. rewrite H1, decide_True by lia. do 2 f_equal. lia.
  - by rewrite H1, !decide_False.
Qed.

(** The client's inverse: the four steps backwards. *)
Definition unscramble (l : list byte) : list byte :=
  for_range 4 (λ i, swap_at i (77 + i))
    (for_range 64 (λ i, xor_at i (64 + i))
      (for_range 4 (λ i, xor_at (13 + i) (52 + i))
        (for_range 64 (λ i, xor_at (64 + i) i) l))).

(** The modulus survives the scrambling: for every modulus of at most 1024
    bits the function returns 128 bytes, from which the client, undoing the four
    steps, recovers the big-endian modulus; a longer modulus is a panic. *)
Theorem scrambled_modulus_roundtrip modulus :
  0 <= modulus ->
  if modulus <? 2 ^ 1024
  then exists m, fillAndScrambleModulus modulus = Val m /\ length m = RSAModulusSize /\
         SetBytes (unscramble m) = modulus
  else fillAndScrambleModulus modulus = Panic.
Proof.
  intros Hm. unfold fillAndScrambleModulus. destruct (Z.ltb_spec modulus (2 ^ 1024)) as [Hlt|Hge].
  2: { unfold FillBytes. change (8 * Z.of_nat RSAModulusSize) with 1024.
       by destruct (Z.ltb_spec modulus (2 ^ 1024)); [lia|]. }
  destruct (FillBytes_total RSAModulusSize modulus Hlt) as (l & E & Hl). rewrite E.
  destruct (SetBytes_FillBytes _ _ _ Hm E) as [Hs _]. unfold RSAModulusSize in Hl.
  eexists. split; [reflexivity|].
  set (l1 := for_range 4 (λ i, swap_at i (77 + i)) l).
  assert (length l1 = 128%nat) as L1
    by (rewrite <- Hl; refine (proj1 (swap_at_loop 4 0 77 l _ _)); lia).
  set (l2 := for_range 64 (λ i, xor_at i (64 + i)) l1).
  assert (length l2 = 128%nat) as L2
    by (rewrite <- L1; refine (proj1 (xor_at_loop 64 0 64 l1 _ _ _)); lia).
  set (l3 := for_range 4 (λ i, xor_at (13 + i) (52 + i)) l2).
  assert (length l3 = 128%nat) as L3
    by (rewrite <- L2; refine (proj1 (xor_at_loop 4 13 52 l2 _ _ _)); lia).
  split; [unfold RSAModulusSize; rewrite <- L3; refine (proj1 (xor_at_loop 64 64 0 l3 _ _ _)); lia|].
  rewrite <- Hs. f_equal. unfold unscramble.
  assert (for_range 64 (λ i, xor_at (64 + i) i) (for_range 64 (λ i, xor_at (64 + i) i) l3) = l3) as ->
    by (refine (xor_at_loop_twice 64 64 0 l3 _ _ _); lia).
  unfold l3. rewrite (xor_at_loop_twice 4 13 52 l2) by lia. unfold l2.
  assert (for_range 64 (λ i, xor_at i (64 + i)) (for_range 64 (λ i, xor_at i (64 + i)) l1) = l1) as ->
    by (refine (xor_at_loop_twice 64 0 64 l1 _ _ _); lia).
  refine (swap_at_loop_twice 4 0 77 l _ _); lia.
Qed.

Lemma scrambled_modulus_roundtrip_witness :
  exists m, fillAndScrambleModulus 3233 = Val m /\ length m = RSAModulusSize /\
    SetBytes (unscramble m) = 3233.
Proof. apply (scrambled_modulus_roundtrip 3233). lia. Defined.

(** ** Round robin *)

(** The keys handed out by [k] successive calls. *)
Fixpoint picks (k : nat) (rsaPool : list ScrambledKey) (rsaIdx : Z) : list (outcome ScrambledKey) :=
  match k with
  | O => []
  | S k => let '(key, rsaIdx) := GetScrambledKey rsaPool rsaIdx in key :: picks k rsaPool rsaIdx
  end.

Lemma GetScrambledKey_pick pool c :
  pool <> [] -> exists k, pool !! Z.to_nat (u32 (c + 1) mod Z.of_nat (length pool)) = Some k /\
    GetScrambledKey pool c = (Val k, u32 (c + 1)).
Proof.
  intros Hp. assert (0 < Z.of_nat (length pool)) as Hn by (destruct pool; [done|simpl; lia]).
  unfold GetScrambledKey. destruct (Z.eqb_spec (Z.of_nat (length pool)) 0); [lia|].
  pose proof (Z.mod_pos_bound (u32 (c + 1)) _ Hn).
  destruct (lookup_lt_is_Some_2 pool (Z.to_nat (u32 (c + 1) mod Z.of_nat (length pool)))) as [k Hk]; [lia|].
  exists k. by rewrite Hk.
Qed.

Lemma u32_mod n z : 0 < n -> (n | 2 ^ 32) -> u32 z mod n = z mod n.
Proof.
  intros Hn [k Hk]. unfold u32. rewrite Hk, (Z.mul_comm k n), Z.rem_mul_r by nia.
  by rewrite Z.mul_comm, Z.mod_add, Z.mod_mod by lia.
Qed.

Lemma picks_lookup k pool c j :
  pool <> [] -> (Z.of_nat (length pool) | 2 ^ 32) -> (j < k)%nat ->
  picks k pool c !! j = Val <$> pool !! Z.to_nat ((c + 1 + Z.of_nat j) mod Z.of_nat (length pool)).
Proof.
  intros Hp Hd. assert (0 < Z.of_nat (length pool)) as Hn by (destruct pool; [done|simpl; lia]).
  revert c j. induction k as [|k IH]; intros c j Hj; [lia|]. cbn [picks].
  destruct (GetScrambledKey_pick pool c Hp) as (key & Hk & ->).
  destruct j as [|j]; cbn [lookup list_lookup].
  - rewrite <- u32_mod, Z.add_0_r, Hk by done. done.
  - change (list_lookup j (picks k pool (u32 (c + 1)))) with (picks k pool (u32 (c + 1)) !! j).
    rewrite IH by lia. do 3 f_equal.
    rewrite <- Z.add_assoc, Zplus_mod, u32_mod, <- Zplus_mod by done. f_equal. lia.
Qed.

(** Keys are handed out round robin: with a pool whose size divides [2^32],
    as the server's 32 does, any [n] consecutive calls, from any counter value
    and across the wrap-around of the counter, hand out each of the [n] keys
    once, in order from the next one. *)
Theorem round_robin pool c :
  pool <> [] -> (Z.of_nat (length pool) | 2 ^ 32) ->
  let r := Z.to_nat ((c + 1) mod Z.of_nat (length pool)) in
  picks (length pool) pool c = Val <$> (drop r pool ++ take r pool).
Proof.
  intros Hp Hd r. assert (0 < Z.of_nat (length pool)) as Hn by (destruct pool; [done|simpl; lia]).
  pose proof (Z.mod_pos_bound (c + 1) _ Hn) as Hr. assert (r < length pool)%nat as Hr' by lia.
  apply list_eq. intros j.
  destruct (Nat.lt_ge_cases j (length pool)) as [Hj|Hj].
  2: { assert (forall k c, length (picks k pool c) = k) as Hlen.
       { induction k as [|k IH]; intros c0; [done|]. cbn [picks].
         destruct (GetScrambledKey pool c0). cbn. by rewrite IH. }
       rewrite !lookup_ge_None_2; [done|..]; rewrite ?length_fmap, ?length_app, ?length_drop,
         ?length_take, ?Hlen; lia. }
  rewrite picks_lookup by done. rewrite list_lookup_fmap. f_equal.
  rewrite Zplus_mod, (Z.mod_small (Z.of_nat j)) by lia.
  replace ((c + 1) mod Z.of_nat (length pool)) with (Z.of_nat r) by lia.
  destruct (Nat.lt_ge_cases (r + j) (length pool)) as [Hs|Hs].
  - rewrite lookup_app_l by (rewrite length_drop; lia). rewrite lookup_drop. f_equal.
    rewrite Z.mod_small by lia. lia.
  - rewrite lookup_app_r by (rewrite length_drop; lia). rewrite length_drop.
    rewrite lookup_take_lt by lia. f_equal.
    replace (Z.of_nat r + Z.of_nat j) with (Z.of_nat (r + j - length pool) + 1 * Z.of_nat (length pool)) by lia.
    rewrite Z.mod_add, Z.mod_small by lia. lia.
Qed.

Lemma round_robin_witness :
  let pool := [small_key; small_key] in
  picks 2 pool (2 ^ 32 - 1) = Val <$> (drop (Z.to_nat (2 ^ 32 mod 2)) pool ++ take (Z.to_nat (2 ^ 32 mod 2)) pool).
Proof. apply (round_robin [small_key; small_key] (2 ^ 32 - 1)); [done|by exists (2 ^ 31)]. Defined.
