(* ===== verification/GoStd.v ===== *)
(** The parts of Go's standard library the services build on: [time.Time] and
    [time.Duration], and [netip.Addr]. *)
From stdpp Require Import base gmap list numbers strings.
From coqutil Require Import Byte Word.LittleEndianList.
From Stdlib Require Import Lia ZArith.
From S2P Require Import Prelude.
Local Open Scope Z_scope.

(** * time

    A [time.Time] is the number of nanoseconds since the zero time (January 1 of
    year 1), a [time.Duration] an [int64] number of nanoseconds. *)
Definition Time : Type := Z.
Definition Second : Z := 1000000000.

Definition IsZero (t : Time) : bool := t =? 0.
Definition After (t u : Time) : bool := u <? t.
(** [t.Add(d)]. *)
Definition Add (t : Time) (d : Z) : Time := t + d.
(** [t.Sub(u)] saturates at the largest and the smallest duration. *)
Definition Sub (t u : Time) : Z := Z.max (- 2 ^ 63) (Z.min (2 ^ 63 - 1) (t - u)).

Lemma Sub_lt t u d : is_i64 d -> Sub t u < d <-> t - u < d /\ - 2 ^ 63 < d.
Proof. unfold Sub, is_i64. lia. Qed.

(** Comparing a difference with a positive duration does not see the saturation. *)
Lemma Sub_ltb t u d : 0 <= d < 2 ^ 63 -> (Sub t u <? d) = (t - u <? d).
Proof.
  intros Hd. destruct (Z.ltb_spec (Sub t u) d), (Z.ltb_spec (t - u) d); unfold Sub in *; lia.
Qed.

(** * net/netip *)

(** The value of an address in network order; an IPv6 address has a zone. *)
Inductive Addr : Type :=
| InvalidAddr
| IPv4 (a : Z)
| IPv6 (a : Z) (zone : gostring).

#[export] Instance Addr_eq_dec : EqDecision Addr.
Proof. solve_decision. Defined.

#[export] Program Instance Addr_countable : Countable Addr :=
  inj_countable'
    (λ a, match a with InvalidAddr => inl tt | IPv4 a => inr (inl a) | IPv6 a z => inr (inr (a, z)) end)
    (λ s, match s with inl _ => InvalidAddr | inr (inl a) => IPv4 a | inr (inr (a, z)) => IPv6 a z end) _.
Next Obligation. by intros []. Qed.

(** [As16]: an IPv4 address is mapped into IPv6. *)
Definition As16 (ip : Addr) : list byte :=
  match ip with
  | InvalidAddr => replicate 16 Byte.x00
  | IPv4 a => rev (le_split 16 (Z.lor (Z.shiftl 0xffff 32) (a mod 2 ^ 32)))
  | IPv6 a _ => rev (le_split 16 a)
  end.

Definition Unmap (ip : Addr) : Addr :=
  match ip with
  | IPv6 a _ => if Z.shiftr a 32 =? 0xffff then IPv4 (a mod 2 ^ 32) else ip
  | _ => ip
  end.

Definition IsLoopback (ip : Addr) : bool :=
  match Unmap ip with
  | IPv4 a => Z.shiftr a 24 =? 127
  | IPv6 a _ => a =? 1
  | InvalidAddr => false
  end.

Example As16_localhost :
  As16 (IPv4 0x7f000001) = byte.of_Z <$> [0;0;0;0;0;0;0;0;0;0;0xff;0xff;127;0;0;1].
Proof. reflexivity. Qed.
Example loopback_addresses :
  map IsLoopback [IPv4 0x7f000001; IPv6 1 []; IPv6 0xffff7f000001 []; IPv4 0x0a000001; InvalidAddr]
  = [true; true; true; false; false].
Proof. reflexivity. Qed.
