(* ===== verification/Sharding.v ===== *)
(** The sharded maps of [internal/session/session.go],
    [internal/service/session_registry.go] and
    [internal/middleware/rate_limiter.go]: an array of 64 maps, each under its
    own lock, an entry living in the shard its key hashes to.

    [ShardHash] is what a store asks of the hash of its keys; the operations and
    their refinement to one flat map are proved once, against the class. *)
From stdpp Require Import base gmap list numbers strings.
From coqutil Require Import Byte Word.LittleEndianList.
From Stdlib Require Import Lia ZArith.
From S2P Require Import Prelude.
From S2P Require Import GoStd.
Local Open Scope Z_scope.

(** All three stores have the same number of shards, a power of two. *)
Definition ShardCount : Z := 64.

Class ShardHash (K : Type) := shard_hash : K -> Z.

(** [shards[h & (ShardCount-1)]]. *)
Definition shard_index `{ShardHash K} (k : K) : nat :=
  Z.to_nat (Z.land (shard_hash k) (ShardCount - 1)).

Lemma shard_index_lt `{ShardHash K} (k : K) : (shard_index k < 64)%nat.
Proof.
  unfold shard_index, ShardCount. change (64 - 1) with (Z.ones 6).
  rewrite Z.land_ones by lia. pose proof (Z.mod_pos_bound (shard_hash k) (2 ^ 6) ltac:(lia)). lia.
Qed.

(** ** The three hashes *)

(** [shardFor] of the session store: [uint32(id)]. *)
#[export] Instance id_hash : ShardHash Z | 10 := u32.

(** [getShard] of the session registry: FNV-1 of a user name. *)
#[export] Instance account_hash : ShardHash gostring := λ username,
  foldl (λ hash b, Z.lxor (u32 (hash * 16777619)) (byte.unsigned b)) 2166136261 username.

(** [shardFor] of the rate limiter: FNV-1a of the sixteen address bytes. *)
#[export] Instance addr_hash : ShardHash Addr := λ ip,
  foldl (λ h b, u32 (Z.lxor h (byte.unsigned b) * 16777619)) 2166136261 (As16 ip).

Section Store.
Context {K V : Type} `{Countable K} `{!ShardHash K}.

Abbreviation shards := (list (gmap K V)).

Definition empty_shards : shards := replicate 64 ∅.

(** The map of the shard a key belongs to, and its replacement. *)
Definition shard_of (k : K) (st : shards) : gmap K V := nth (shard_index k) st ∅.
Definition set_shard (k : K) (m : gmap K V) (st : shards) : shards := <[shard_index k := m]> st.

(** [shard.m[k]], [shard.m[k] = v], [delete(shard.m, k)]. *)
Definition sh_get (k : K) (st : shards) : option V := shard_of k st !! k.
Definition sh_put (k : K) (v : V) (st : shards) : shards :=
  set_shard k (<[k := v]> (shard_of k st)) st.
Definition sh_delete (k : K) (st : shards) : shards :=
  set_shard k (delete k (shard_of k st)) st.

(** [for k, v := range shard.m { if drop v { delete(shard.m, k) } }], under the
    lock of shard [i]; a sweep takes the locks one after the other. *)
Definition sweep_shard (drop : V -> bool) (i : nat) (st : shards) : shards :=
  alter (filter (λ kv, drop kv.2 = false)) i st.
Definition sh_sweep (drop : V -> bool) (st : shards) : shards :=
  for_range (Z.to_nat ShardCount) (sweep_shard drop) st.

(** ** Invariant and abstraction *)

(** 64 shards, every key in its own. *)
Definition shards_ok (st : shards) : Prop :=
  length st = 64%nat /\
  forall i m k v, st !! i = Some m -> m !! k = Some v -> i = shard_index k.

(** The flat map a sharded store stands for. *)
Definition flat (st : shards) : gmap K V := ⋃ st.

Lemma empty_shards_ok : shards_ok empty_shards.
Proof.
  split; [apply length_replicate|]. intros i m k v Hi Hk.
  apply lookup_replicate in Hi as [-> _]. by rewrite lookup_empty in Hk.
Qed.

Lemma shard_of_lookup k st : shards_ok st -> st !! shard_index k = Some (shard_of k st).
Proof.
  intros [Hl _]. pose proof (shard_index_lt k). unfold shard_of. rewrite nth_lookup.
  destruct (lookup_lt_is_Some_2 st (shard_index k)) as [m Hm]; [lia|]. by rewrite Hm.
Qed.

Lemma shard_of_set k m st : shards_ok st -> shard_of k (set_shard k m st) = m.
Proof.
  intros [Hl _]. pose proof (shard_index_lt k). unfold shard_of, set_shard.
  by rewrite nth_lookup, list_lookup_insert_eq by lia.
Qed.

Lemma shard_of_set_ne k k' m st :
  shard_index k' <> shard_index k -> shard_of k' (set_shard k m st) = shard_of k' st.
Proof. intros Hne. unfold shard_of, set_shard. by rewrite !nth_lookup, list_lookup_insert_ne. Qed.

Lemma set_shard_ok k m st :
  shards_ok st -> (forall k' v, m !! k' = Some v -> shard_index k' = shard_index k) ->
  shards_ok (set_shard k m st).
Proof.
  intros [Hl Hk] Hm. split; [unfold set_shard; by rewrite length_insert|].
  intros i m' k' v Hi Hv. unfold set_shard in Hi.
  apply list_lookup_insert_Some in Hi as [(<- & <- & _)|[_ Hi]]; [|by eapply Hk].
  symmetry. by eapply Hm.
Qed.

Lemma shard_of_keys k k' v st :
  shards_ok st -> shard_of k st !! k' = Some v -> shard_index k' = shard_index k.
Proof. intros Hok Hv. symmetry. eapply Hok; [by apply shard_of_lookup|exact Hv]. Qed.

Lemma sh_put_ok k v st : shards_ok st -> shards_ok (sh_put k v st).
Proof.
  intros Hok. apply set_shard_ok; [done|]. intros k' v' Hv.
  apply lookup_insert_Some in Hv as [[<- _]|[_ Hv]]; [done|by eapply shard_of_keys].
Qed.

Lemma sh_delete_ok k st : shards_ok st -> shards_ok (sh_delete k st).
Proof.
  intros Hok. apply set_shard_ok; [done|]. intros k' v' Hv.
  apply lookup_delete_Some in Hv as [_ Hv]. by eapply shard_of_keys.
Qed.

Lemma sweep_shard_ok d i st : shards_ok st -> shards_ok (sweep_shard d i st).
Proof.
  intros [Hl Hk]. split; [unfold sweep_shard; by rewrite length_alter|].
  intros j m k v Hj Hv. unfold sweep_shard in Hj.
  destruct (decide (i = j)) as [->|Hne].
  - rewrite list_lookup_alter_eq in Hj. destruct (st !! j) as [m'|] eqn:E; [|done].
    apply (inj Some) in Hj as <-. apply map_lookup_filter_Some in Hv as [Hv _]. by eapply Hk.
  - rewrite list_lookup_alter_ne in Hj by done. by eapply Hk.
Qed.

Lemma sh_sweep_ok d st : shards_ok st -> shards_ok (sh_sweep d st).
Proof.
  intros Hok. apply (for_range_ind (λ _ st, shards_ok st)); [done|].
  intros. by apply sweep_shard_ok.
Qed.

(** ** Refinement *)

Lemma union_list_lookup (l : list (gmap K V)) k m v :
  m ∈ l -> (forall m', m' ∈ l -> m' !! k = Some v \/ m' !! k = None) -> m !! k = Some v ->
  (⋃ l) !! k = Some v.
Proof.
  intros Hin Hall Hm. induction l as [|m0 l IH]; [by apply elem_of_nil in Hin|].
  change (⋃ (m0 :: l)) with (m0 ∪ ⋃ l). rewrite lookup_union.
  destruct (Hall m0) as [E|E]; [apply elem_of_cons; by left|..]; rewrite E.
  - by destruct ((⋃ l) !! k).
  - rewrite IH; [done| |intros; apply Hall; apply elem_of_cons; by right].
    apply elem_of_cons in Hin as [->|?]; [congruence|done].
Qed.

Lemma union_list_lookup_None (l : list (gmap K V)) k :
  (forall m, m ∈ l -> m !! k = None) -> (⋃ l) !! k = None.
Proof.
  intros Hall. induction l as [|m l IH]; [apply lookup_empty|].
  change (⋃ (m :: l)) with (m ∪ ⋃ l). rewrite lookup_union, IH, (Hall m); [done|apply elem_of_cons; by left|].
  intros m' Hm'. apply Hall. apply elem_of_cons. by right.
Qed.

(** A lookup in the right shard is a lookup in the flat map. *)
Lemma flat_lookup st k : shards_ok st -> flat st !! k = sh_get k st.
Proof.
  intros Hok. unfold flat, sh_get. pose proof (shard_of_lookup k st Hok) as Hs.
  assert (forall m, m ∈ st -> m !! k = shard_of k st !! k \/ m !! k = None) as Hall.
  { intros m [i Hi]%list_elem_of_lookup. destruct (m !! k) as [v|] eqn:E; [|by right].
    pose proof (proj2 Hok _ _ _ _ Hi E) as ->. left. congruence. }
  destruct (shard_of k st !! k) as [v|] eqn:E.
  - apply (union_list_lookup st k (shard_of k st)); [by eapply list_elem_of_lookup_2|done|done].
  - apply union_list_lookup_None. intros m Hm. destruct (Hall m Hm); congruence.
Qed.

Lemma flat_empty : flat empty_shards = ∅.
Proof.
  apply map_eq. intros k. rewrite flat_lookup by apply empty_shards_ok.
  unfold sh_get, shard_of, empty_shards. rewrite nth_lookup.
  destruct (replicate 64 ∅ !! shard_index k) as [m|] eqn:E; [|done].
  by apply lookup_replicate in E as [-> _].
Qed.

Lemma sh_get_set_shard k k' m st :
  shards_ok st -> sh_get k' (set_shard k m st)
  = if decide (shard_index k' = shard_index k) then m !! k' else sh_get k' st.
Proof.
  intros Hok. unfold sh_get. case_decide as E; [|by rewrite shard_of_set_ne].
  replace (shard_of k' (set_shard k m st)) with (shard_of k (set_shard k m st))
    by (unfold shard_of; by rewrite E).
  by rewrite shard_of_set.
Qed.

Lemma flat_put st k v : shards_ok st -> flat (sh_put k v st) = <[k := v]> (flat st).
Proof.
  intros Hok. apply map_eq. intros k'. rewrite flat_lookup by by apply sh_put_ok.
  unfold sh_put. rewrite sh_get_set_shard by done.
  destruct (decide (k' = k)) as [->|Hne].
  - rewrite decide_True by done. by rewrite !lookup_insert_eq.
  - rewrite !lookup_insert_ne, flat_lookup by done. case_decide as E; [|done].
    unfold sh_get, shard_of. by rewrite E.
Qed.

Lemma flat_delete st k : shards_ok st -> flat (sh_delete k st) = delete k (flat st).
Proof.
  intros Hok. apply map_eq. intros k'. rewrite flat_lookup by by apply sh_delete_ok.
  unfold sh_delete. rewrite sh_get_set_shard by done.
  destruct (decide (k' = k)) as [->|Hne].
  - rewrite decide_True by done. by rewrite !lookup_delete_eq.
  - rewrite !lookup_delete_ne, flat_lookup by done. case_decide as E; [|done].
    unfold sh_get, shard_of. by rewrite E.
Qed.

Lemma sh_get_sweep_shard k i st d :
  shards_ok st -> sh_get k (sweep_shard d i st) =
  if decide (shard_index k = i) then keep_if (λ v, negb (d v)) (sh_get k st) else sh_get k st.
Proof.
  intros Hok. pose proof (shard_of_lookup k st Hok) as Hs.
  unfold sh_get at 1, shard_of, sweep_shard. rewrite nth_lookup.
  case_decide as E; [subst i; rewrite list_lookup_alter_eq|rewrite list_lookup_alter_ne by done];
    rewrite Hs; cbn; [|done].
  rewrite map_lookup_filter. unfold sh_get. destruct (shard_of k st !! k) as [v|]; [|done].
  cbn. by destruct (d v).
Qed.

(** A sweep drops the entries it is told to, in every shard. *)
Lemma sh_get_sweep k st d :
  shards_ok st -> sh_get k (sh_sweep d st) = keep_if (λ v, negb (d v)) (sh_get k st).
Proof.
  intros Hok. unfold sh_sweep.
  destruct (for_range_ind (λ m st', shards_ok st' /\ sh_get k st' =
    if (shard_index k <? m)%nat then keep_if (λ v, negb (d v)) (sh_get k st) else sh_get k st)
    (Z.to_nat ShardCount) (sweep_shard d) st) as [_ ->]; [by split| |].
  - intros i st' Hi [Hok' IH]. split; [by apply sweep_shard_ok|].
    rewrite sh_get_sweep_shard, IH by done.
    destruct (Nat.ltb_spec (shard_index k) i), (Nat.ltb_spec (shard_index k) (1 + i)); case_decide;
      (done || lia).
  - pose proof (shard_index_lt k). change (Z.to_nat ShardCount) with 64%nat.
    by destruct (Nat.ltb_spec (shard_index k) 64); [|lia].
Qed.

Lemma flat_sweep st d : shards_ok st -> flat (sh_sweep d st) = filter (λ kv, d kv.2 = false) (flat st).
Proof.
  intros Hok. apply map_eq. intros k. rewrite flat_lookup by by apply sh_sweep_ok.
  rewrite sh_get_sweep, map_lookup_filter, flat_lookup by done.
  destruct (sh_get k st) as [v|]; [|done]. cbn. by destruct (d v).
Qed.

Lemma sh_get_put k k' v st :
  shards_ok st -> sh_get k' (sh_put k v st) = if decide (k' = k) then Some v else sh_get k' st.
Proof.
  intros Hok. rewrite <- !flat_lookup, flat_put by auto using sh_put_ok.
  case_decide as E; [subst; apply lookup_insert_eq|by rewrite lookup_insert_ne].
Qed.

Lemma sh_get_delete k k' st :
  shards_ok st -> sh_get k' (sh_delete k st) = if decide (k' = k) then None else sh_get k' st.
Proof.
  intros Hok. rewrite <- !flat_lookup, flat_delete by auto using sh_delete_ok.
  case_decide as E; [subst; apply lookup_delete_eq|by rewrite lookup_delete_ne].
Qed.

Lemma sh_get_empty k : sh_get k empty_shards = None.
Proof. by rewrite <- flat_lookup, flat_empty, lookup_empty by apply empty_shards_ok. Qed.

End Store.

Arguments shards_ok {K V _ _ _} st.
Arguments flat {K V _ _} st.

Create HintDb shards.
#[export] Hint Resolve empty_shards_ok sh_put_ok sh_delete_ok sh_sweep_ok sweep_shard_ok : shards.

(** * Property *)

Section Refinement.
Context {K V : Type} `{Countable K} `{!ShardHash K}.

(** What the locked sections of the three stores do to the shards. *)
Inductive sh_op :=
| SPut (k : K) (v : V)
| SDelete (k : K)
| SSweepShard (drop : V -> bool) (i : nat)
| SSweep (drop : V -> bool).

Definition sh_step (st : list (gmap K V)) (o : sh_op) : list (gmap K V) :=
  match o with
  | SPut k v => sh_put k v st
  | SDelete k => sh_delete k st
  | SSweepShard drop i => sweep_shard drop i st
  | SSweep drop => sh_sweep drop st
  end.

(** The same on one map. *)
Definition flat_step (m : gmap K V) (o : sh_op) : gmap K V :=
  match o with
  | SPut k v => <[k := v]> m
  | SDelete k => delete k m
  | SSweepShard drop i => filter (λ kv, shard_index kv.1 = i -> drop kv.2 = false) m
  | SSweep drop => filter (λ kv, drop kv.2 = false) m
  end.

Lemma flat_sweep_shard (st : list (gmap K V)) d i :
  shards_ok st ->
  flat (sweep_shard d i st) = filter (λ kv, shard_index kv.1 = i -> d kv.2 = false) (flat st).
Proof.
  intros Hok. apply map_eq. intros k. rewrite flat_lookup by by apply sweep_shard_ok.
  rewrite sh_get_sweep_shard, map_lookup_filter, flat_lookup by done.
  destruct (sh_get k st) as [v|]; cbn; [|by case_decide].
  destruct (d v) eqn:Ed; repeat case_decide; repeat case_guard; cbn in *; naive_solver.
Qed.

(** C36: distributing the entries over 64 maps by a hash of the key is invisible:
    after any sequence of updates and sweeps of an empty store every entry is in
    the shard of its key, the shards together are exactly the map that one
    unsharded table would hold, and a lookup in one shard is a lookup in it. *)
Theorem sharding_invisible (ops : list sh_op) :
  let st := foldl sh_step empty_shards ops in
  shards_ok st /\ flat st = foldl flat_step ∅ ops /\
  forall k, sh_get k st = foldl flat_step ∅ ops !! k.
Proof.
  intros st. enough (shards_ok st /\ flat st = foldl flat_step ∅ ops) as [H1 H2].
  { split_and!; [done|done|]. intros k. by rewrite <- H2, flat_lookup. }
  unfold st. rewrite <- flat_empty. generalize (empty_shards_ok (K:=K) (V:=V)).
  generalize (empty_shards (K:=K) (V:=V)). clear st.
  induction ops as [|o ops IH]; intros st Hok; [done|]. cbn [foldl].
  assert (shards_ok (sh_step st o) /\ flat (sh_step st o) = flat_step (flat st) o) as [Hok' <-].
  { split; destruct o; cbn [sh_step flat_step]; eauto with shards;
      [by apply flat_put|by apply flat_delete|by apply flat_sweep_shard|by apply flat_sweep]. }
  by apply IH.
Qed.
End Refinement.
