(* ===== verification/SessionStore.v ===== *)
(** [internal/session/session.go]: the store of hand-off sessions a game server
    consumes.  The instants [time.Now()] yields are arguments of the operations;
    a run is a sequence of operations, each atomic under the lock of its shard. *)
From stdpp Require Import base gmap list numbers strings.
From Stdlib Require Import Lia ZArith.
From S2P Require Import Prelude.
From S2P Require Import Keys.
From S2P Require Import GoStd.
From S2P Require Import Sharding.
Import SessionKeys.
Local Open Scope Z_scope.

Record Session := mkSession {
  ExpiresAt : Time; Key : SessionKey; Account : gostring; AccountID : Z; ServerID : Z }.

(** [shards [sessionShardCount]*shard], keyed by the [int32] session id. *)
Definition store : Type := list (gmap Z Session).

Definition empty_store : store := empty_shards.

Definition Put (id : Z) (session : Session) (st : store) : store := sh_put id session st.

Definition ValidateAndDelete (now : Time) (id : Z) (st : store) : option Session * store :=
  let found := sh_get id st in
  let st := match found with Some _ => sh_delete id st | None => st end in
  match found with
  | Some session => if After now (ExpiresAt session) then (None, st) else (Some session, st)
  | None => (None, st)
  end.

(** What one tick of [StartGC] does, and the part of it under one lock. *)
Definition expired (now : Time) (session : Session) : bool := After now (ExpiresAt session).
Definition gc_shard (now : Time) (i : nat) (st : store) : store := sweep_shard (expired now) i st.
Definition gc_tick (now : Time) (st : store) : store := sh_sweep (expired now) st.

(** ** Runs *)

Inductive op :=
| OPut (id : Z) (session : Session)
| OValidate (now : Time) (id : Z)
| OGc (now : Time) (i : nat).

Definition step (st : store) (o : op) : option Session * store :=
  match o with
  | OPut id session => (None, Put id session st)
  | OValidate now id => ValidateAndDelete now id st
  | OGc now i => (None, gc_shard now i st)
  end.

Definition run (ops : list op) (st : store) : store := foldl (λ st o, (step st o).2) st ops.

(** ** Specification: what a client of the store counts on

    The session that waits under an id is the one put last, until it is asked
    for; expiry is looked at when it is asked for.  There is no collector here. *)
Fixpoint pending (id : Z) (ops : list op) (cur : option Session) : option Session :=
  match ops with
  | [] => cur
  | OPut id' s :: ops => pending id ops (if decide (id' = id) then Some s else cur)
  | OValidate _ id' :: ops => pending id ops (if decide (id' = id) then None else cur)
  | OGc _ _ :: ops => pending id ops cur
  end.

Definition not_expired (now : Time) (s : Session) : bool := now <=? ExpiresAt s.

(** The operations that look at the clock do so no later than [now]. *)
Definition gc_before (now : Time) (ops : list op) : Prop :=
  forall t i, OGc t i ∈ ops -> t <= now.

(** * Lemmas *)

Lemma step_ok st o : shards_ok st -> shards_ok (step st o).2.
Proof.
  intros Hok. destruct o as [id s|now id|now i]; cbn; unfold Put, gc_shard; auto with shards.
  unfold ValidateAndDelete. destruct (sh_get id st) as [s|]; [|done].
  destruct (After now (ExpiresAt s)); cbn; auto with shards.
Qed.

Lemma run_ok ops st : shards_ok st -> shards_ok (run ops st).
Proof. revert st. induction ops as [|o ops IH]; intros st Hok; [done|]. by apply IH, step_ok. Qed.

Lemma ValidateAndDelete_get now id st id' :
  shards_ok st ->
  sh_get id' (ValidateAndDelete now id st).2 = if decide (id' = id) then None else sh_get id' st.
Proof.
  intros Hok. unfold ValidateAndDelete. destruct (sh_get id st) as [s|] eqn:E.
  - assert (sh_get id' (sh_delete id st) = if decide (id' = id) then None else sh_get id' st)
      by by apply sh_get_delete.
    by destruct (After now (ExpiresAt s)).
  - cbn. case_decide; congruence.
Qed.

(** What the store holds for an id against what is pending: the same, unless the
    collector has dropped a session, which had expired then. *)
Definition agrees (now : Time) (held wanted : option Session) : Prop :=
  held = wanted \/ (held = None /\ exists s, wanted = Some s /\ not_expired now s = false).

Lemma step_agrees now st o id cur :
  shards_ok st -> (forall t i, o = OGc t i -> t <= now) -> agrees now (sh_get id st) cur ->
  agrees now (sh_get id (step st o).2) (pending id [o] cur).
Proof.
  intros Hok Ht Ha. destruct o as [id' s|t id'|t i]; cbn [step pending snd].
  - unfold Put. rewrite sh_get_put by done.
    repeat case_decide; subst; try done. by left.
  - rewrite ValidateAndDelete_get by done. repeat case_decide; subst; try done. by left.
  - unfold gc_shard. rewrite sh_get_sweep_shard by done. case_decide; [|done].
    specialize (Ht t i eq_refl). unfold agrees, not_expired in *.
    destruct Ha as [->|[-> Hs]]; [|by right].
    destruct cur as [s|]; [|by left]. cbn. unfold expired, After.
    destruct (Z.ltb_spec (ExpiresAt s) t); cbn; [right|by left].
    split; [done|]. exists s. split; [done|]. apply Z.leb_gt. lia.
Qed.

Lemma run_agrees now ops st id cur :
  shards_ok st -> gc_before now ops -> agrees now (sh_get id st) cur ->
  agrees now (sh_get id (run ops st)) (pending id ops cur).
Proof.
  revert st cur. induction ops as [|o ops IH]; intros st cur Hok Hgc Ha; [done|].
  assert (pending id (o :: ops) cur = pending id ops (pending id [o] cur)) as ->
    by by destruct o.
  apply IH; [by apply step_ok|intros t i Hin; apply (Hgc t i); apply elem_of_cons; by right|].
  apply step_agrees; [done| |done]. intros t i ->. apply (Hgc t i). apply elem_of_cons. by left.
Qed.

Lemma validate_pending ops now id :
  gc_before now ops ->
  (ValidateAndDelete now id (run ops empty_store)).1
  = keep_if (not_expired now) (pending id ops None).
Proof.
  intros Hgc. pose proof (run_ok ops empty_store empty_shards_ok) as Hok.
  destruct (run_agrees now ops empty_store id None) as [E|[E (s & -> & Hs)]];
    [apply empty_shards_ok|done|left; apply sh_get_empty|..];
    unfold ValidateAndDelete; rewrite E; cbn; [|by rewrite Hs].
  destruct (pending id ops None) as [s|]; [|done]. unfold After, not_expired. cbn.
  rewrite Z.ltb_antisym. by destruct (now <=? ExpiresAt s).
Qed.

(** * Properties *)

(** C6: a hand-off is used at most once and in time: whatever was put, asked for
    and collected before, asking for an id yields exactly the session that was
    put last under it, provided nobody has asked for the id since and it has not
    expired; the garbage collector, interleaved in any way, is never noticed as
    long as the clock does not run backwards. *)
Theorem handoff_single_use ops now id :
  gc_before now ops ->
  (ValidateAndDelete now id (run ops empty_store)).1
  = keep_if (not_expired now) (pending id ops None).
Proof. apply validate_pending. Qed.

Definition sample_session : Session :=
  {| ExpiresAt := 100; Key := mkSessionKey 1 2 3 4; Account := go_str "ann"; AccountID := 7; ServerID := 1 |}.

Lemma handoff_single_use_witness :
  let ops := [OPut 5 sample_session; OGc 50 5; OPut 69 sample_session; OValidate 60 69] in
  (ValidateAndDelete 90 5 (run ops empty_store)).1 = keep_if (not_expired 90) (pending 5 ops None) /\
  (ValidateAndDelete 90 69 (run ops empty_store)).1 = keep_if (not_expired 90) (pending 69 ops None).
Proof.
  intros ops. assert (gc_before 90 ops) as H.
  { intros t i Hin. unfold ops in Hin.
    repeat (apply elem_of_cons in Hin as [Hin|Hin]; [try done; injection Hin as -> ->; lia|]).
    by apply elem_of_nil in Hin. }
  split; apply handoff_single_use; exact H.
Defined.
