(* ===== verification/SessionRegistry.v ===== *)
(** [internal/service/session_registry.go]: who is logged in.  Every method is
    atomic under the lock of the account's shard ([ClearServer] takes the locks
    one after the other); the instants [time.Now()] yields are arguments. *)
From stdpp Require Import base gmap list numbers strings sorting.
From Stdlib Require Import Lia ZArith.
From S2P Require Import Prelude.
From S2P Require Import GoStd.
From S2P Require Import Sharding.
Local Open Scope Z_scope.

Record SessionInfo := mkSessionInfo {
  LoginTime : Time; LastRejectionTime : Time; SessionID : Z; ServerID : Z }.

Definition registry : Type := list (gmap gostring SessionInfo).

Definition NewSessionRegistry : registry := empty_shards.

(** The answer of [TryRegister]: kick the old session, and go on. *)
Definition TryRegister (now : Time) (username : gostring) (r : registry)
    : (bool * bool) * registry :=
  match sh_get username r with
  | None =>
    ((false, true),
     sh_put username {| LoginTime := now; LastRejectionTime := 0; SessionID := -1; ServerID := 0 |} r)
  | Some sess =>
    if (SessionID sess =? -1) && (Sub now (LoginTime sess) <? 5 * Second) then ((false, false), r)
    else if negb (IsZero (LastRejectionTime sess)) && (Sub now (LastRejectionTime sess) <? 30 * Second)
    then ((true, true),
          sh_put username {| LoginTime := LoginTime sess; LastRejectionTime := 0;
                             SessionID := SessionID sess; ServerID := ServerID sess |} r)
    else ((false, false),
          sh_put username {| LoginTime := LoginTime sess; LastRejectionTime := now;
                             SessionID := SessionID sess; ServerID := ServerID sess |} r)
  end.

Definition Register (now : Time) (username : gostring) (sessionID : Z) (r : registry) : registry :=
  sh_put username {| SessionID := sessionID; ServerID := 0; LoginTime := now; LastRejectionTime := 0 |} r.

Definition Unregister (username : gostring) (sessionID : Z) (r : registry) : bool * registry :=
  match sh_get username r with
  | Some sess => if SessionID sess =? sessionID then (true, sh_delete username r) else (false, r)
  | None => (false, r)
  end.

Definition SetGS (username : gostring) (serverID : Z) (r : registry) : registry :=
  match sh_get username r with
  | Some sess =>
    sh_put username {| LoginTime := LoginTime sess; LastRejectionTime := LastRejectionTime sess;
                       SessionID := SessionID sess; ServerID := serverID |} r
  | None => r
  end.

Definition Get (username : gostring) (r : registry) : option SessionInfo := sh_get username r.

Definition on_server (serverID : Z) (sess : SessionInfo) : bool := ServerID sess =? serverID.

(** [ClearServer], and the part of it under the lock of shard [i]. *)
Definition clear_shard (serverID : Z) (i : nat) (r : registry) : registry :=
  sweep_shard (on_server serverID) i r.
Definition ClearServer (serverID : Z) (r : registry) : registry := sh_sweep (on_server serverID) r.

(** ** Runs *)

Inductive op :=
| OTryRegister (now : Time) (username : gostring)
| ORegister (now : Time) (username : gostring) (sessionID : Z)
| OUnregister (username : gostring) (sessionID : Z)
| OSetGS (username : gostring) (serverID : Z)
| OClearShard (serverID : Z) (i : nat).

Definition step (r : registry) (o : op) : registry :=
  match o with
  | OTryRegister now u => (TryRegister now u r).2
  | ORegister now u id => Register now u id r
  | OUnregister u id => (Unregister u id r).2
  | OSetGS u id => SetGS u id r
  | OClearShard id i => clear_shard id i r
  end.

Definition run (ops : list op) (r : registry) : registry := foldl step r ops.

(** ** One account

    What an operation does to the entry of one account depends on that entry
    alone ([step_entry]); the properties are proved on a single entry. *)

Definition try_entry (now : Time) (cur : option SessionInfo) : (bool * bool) * option SessionInfo :=
  match cur with
  | None => ((false, true),
      Some {| LoginTime := now; LastRejectionTime := 0; SessionID := -1; ServerID := 0 |})
  | Some sess =>
    if (SessionID sess =? -1) && (Sub now (LoginTime sess) <? 5 * Second) then ((false, false), Some sess)
    else if negb (IsZero (LastRejectionTime sess)) && (Sub now (LastRejectionTime sess) <? 30 * Second)
    then ((true, true), Some {| LoginTime := LoginTime sess; LastRejectionTime := 0;
                                SessionID := SessionID sess; ServerID := ServerID sess |})
    else ((false, false), Some {| LoginTime := LoginTime sess; LastRejectionTime := now;
                                  SessionID := SessionID sess; ServerID := ServerID sess |})
  end.

Definition entry_step (u : gostring) (cur : option SessionInfo) (o : op) : option SessionInfo :=
  match o with
  | OTryRegister now u' => if decide (u' = u) then (try_entry now cur).2 else cur
  | ORegister now u' id =>
    if decide (u' = u)
    then Some {| SessionID := id; ServerID := 0; LoginTime := now; LastRejectionTime := 0 |} else cur
  | OUnregister u' id =>
    if decide (u' = u) then keep_if (λ s, negb (SessionID s =? id)) cur else cur
  | OSetGS u' id =>
    if decide (u' = u)
    then (λ s, {| LoginTime := LoginTime s; LastRejectionTime := LastRejectionTime s;
                  SessionID := SessionID s; ServerID := id |}) <$> cur else cur
  | OClearShard id i =>
    if decide (shard_index u = i) then keep_if (λ s, negb (on_server id s)) cur else cur
  end.

Definition entry_run (u : gostring) (ops : list op) (cur : option SessionInfo) : option SessionInfo :=
  foldl (entry_step u) cur ops.

Lemma TryRegister_entry now u r :
  shards_ok r ->
  (TryRegister now u r).1 = (try_entry now (sh_get u r)).1 /\ shards_ok (TryRegister now u r).2 /\
  forall u', sh_get u' (TryRegister now u r).2 =
    if decide (u' = u) then (try_entry now (sh_get u r)).2 else sh_get u' r.
Proof.
  intros Hok. unfold TryRegister, try_entry.
  destruct (sh_get u r) as [sess|] eqn:E; [destruct (_ && _); [|destruct (_ && _)]|]; cbn;
    (split_and!; [done|auto with shards|intros u'; rewrite ?sh_get_put by done; try done]).
  case_decide; congruence.
Qed.

Lemma step_entry r o :
  shards_ok r -> shards_ok (step r o) /\ forall u, sh_get u (step r o) = entry_step u (sh_get u r) o.
Proof.
  intros Hok. destruct o as [now u|now u id|u id|u id|id i]; cbn [step entry_step].
  - destruct (TryRegister_entry now u r Hok) as (_ & Hok' & Hg). split; [done|].
    intros u'. rewrite Hg. repeat case_decide; congruence.
  - unfold Register. split; [auto with shards|]. intros u'. rewrite sh_get_put by done.
    repeat case_decide; congruence.
  - unfold Unregister, keep_if. destruct (sh_get u r) as [sess|] eqn:E.
    + destruct (SessionID sess =? id) eqn:Eid; cbn.
      * split; [auto with shards|]. intros u'. rewrite sh_get_delete by done.
        repeat case_decide; subst; try done. by rewrite E, Eid.
      * split; [done|]. intros u'. case_decide; [|done]. subst. by rewrite E, Eid.
    + cbn. split; [done|]. intros u'. case_decide; [|done]. subst. by rewrite E.
  - unfold SetGS. destruct (sh_get u r) as [sess|] eqn:E.
    + split; [auto with shards|]. intros u'. rewrite sh_get_put by done.
      repeat case_decide; subst; try done. by rewrite E.
    + split; [done|]. intros u'. case_decide; [|done]. subst. by rewrite E.
  - unfold clear_shard. split; [auto with shards|]. intros u'. by rewrite sh_get_sweep_shard.
Qed.

Lemma run_entry ops r :
  shards_ok r -> shards_ok (run ops r) /\ forall u, sh_get u (run ops r) = entry_run u ops (sh_get u r).
Proof.
  revert r. induction ops as [|o ops IH]; intros r Hok; [done|].
  destruct (step_entry r o Hok) as [Hok' Hg]. destruct (IH _ Hok') as [Hok2 Hg2].
  split; [exact Hok2|]. intros u. unfold run in *. cbn [foldl entry_run].
  rewrite Hg2, Hg. done.
Qed.

Lemma run_new_entry ops u :
  shards_ok (run ops NewSessionRegistry) /\
  sh_get u (run ops NewSessionRegistry) = entry_run u ops None.
Proof.
  destruct (run_entry ops NewSessionRegistry empty_shards_ok) as [H1 H2]. split; [done|].
  rewrite H2. unfold NewSessionRegistry. by rewrite sh_get_empty.
Qed.

Lemma run_app ops1 ops2 r : run (ops1 ++ ops2) r = run ops2 (run ops1 r).
Proof. apply foldl_app. Qed.

Lemma entry_run_app u ops1 ops2 cur :
  entry_run u (ops1 ++ ops2) cur = entry_run u ops2 (entry_run u ops1 cur).
Proof. apply foldl_app. Qed.

(** * Properties *)

(** The operations that can remove, and that can confirm, an account's entry. *)
Definition removes (u : gostring) (o : op) : bool :=
  match o with
  | OUnregister u' _ => if decide (u' = u) then true else false
  | OClearShard _ _ => true
  | _ => false
  end.
Definition confirms (u : gostring) (o : op) : bool :=
  match o with ORegister _ u' _ => if decide (u' = u) then true else false | _ => false end.

(** A property of the entry that every allowed operation keeps. *)
Lemma entry_run_inv (P : option SessionInfo -> Prop) (allowed : op -> bool) u ops cur :
  (forall cur o, allowed o = true -> P cur -> P (entry_step u cur o)) ->
  forallb allowed ops = true -> P cur -> P (entry_run u ops cur).
Proof.
  intros Hstep. revert cur. induction ops as [|o ops IH]; intros cur Ho Hc; [done|].
  cbn in Ho. apply andb_true_iff in Ho as [Ho Hos]. by apply IH, Hstep.
Qed.

Lemma try_entry_admits now cur : (try_entry now cur).1 = (false, true) -> cur = None.
Proof. unfold try_entry. by repeat case_match. Qed.

Lemma TryRegister_run_entry now u r :
  shards_ok r -> (TryRegister now u r).1 = (try_entry now (Get u r)).1.
Proof. intros Hok. by apply TryRegister_entry. Qed.

Lemma try_entry_keeps now cur : is_Some (try_entry now cur).2.
Proof. unfold try_entry. repeat case_match; by eexists. Qed.

(** An admitted attempt stays the only one. *)
Lemma admitted_present u now mid cur :
  forallb (λ o, negb (removes u o)) mid = true ->
  is_Some (entry_run u mid (try_entry now cur).2).
Proof.
  intros Hm. apply (entry_run_inv is_Some (λ o, negb (removes u o))); [|done|apply try_entry_keeps].
  intros c o Ho Hc. destruct o; cbn in *; repeat case_decide; try done.
  - apply try_entry_keeps.
  - by apply fmap_is_Some.
Qed.

(** Until it is confirmed the entry keeps the mark of an attempt in progress. *)
Definition attempt_since (now : Time) (cur : option SessionInfo) : Prop :=
  exists s, cur = Some s /\ SessionID s = -1 /\ LoginTime s = now.

Lemma attempt_kept u now mid cur :
  forallb (λ o, negb (removes u o) && negb (confirms u o)) mid = true ->
  attempt_since now cur -> attempt_since now (entry_run u mid cur).
Proof.
  intros Hm Ha. apply (entry_run_inv (attempt_since now) (λ o, negb (removes u o) && negb (confirms u o)));
    [|done|done].
  intros c o Ho (s & -> & Hid & Ht). destruct o; cbn in *; repeat case_decide; subst;
    try done; try (by eexists).
  unfold attempt_since. repeat case_match; by eexists.
Qed.



(** ** Kicks *)

Definition op_time (o : op) : option Time :=
  match o with
  | OTryRegister now _ | ORegister now _ _ => Some now
  | _ => None
  end.

(** [time.Now()] does not run backwards. *)
Definition clock_ok (ops : list op) : Prop := StronglySorted Z.le (omap op_time ops).

(** Neither an attempt on the account nor the confirmation of one. *)
Definition quiet (u : gostring) (o : op) : bool :=
  match o with
  | OTryRegister _ u' | ORegister _ u' _ => if decide (u' = u) then false else true
  | _ => true
  end.

(** The last attempt on [u] was at [t], and was rejected. *)
Definition rejected_at (u : gostring) (t : Time) (ops : list op) : Prop :=
  exists ops1 ops2, ops = ops1 ++ OTryRegister t u :: ops2 /\
    (try_entry t (entry_run u ops1 None)).1 = (false, false) /\ forallb (quiet u) ops2 = true.

Lemma rejected_at_snoc u t ops o : quiet u o = true -> rejected_at u t ops -> rejected_at u t (ops ++ [o]).
Proof.
  intros Hq (ops1 & ops2 & -> & Hr & Hqs). exists ops1, (ops2 ++ [o]).
  rewrite <- app_assoc. split_and!; [done|done|]. by rewrite forallb_app, Hqs; simpl; rewrite Hq.
Qed.

(** A pending kick has a reason. *)
Definition kick_justified (u : gostring) (ops : list op) : Prop :=
  forall s, entry_run u ops None = Some s -> LastRejectionTime s <> 0 ->
    rejected_at u (LastRejectionTime s) ops /\
    (SessionID s = -1 -> LoginTime s + 5 * Second <= LastRejectionTime s).

Lemma clock_snoc ops o : clock_ok (ops ++ [o]) ->
  clock_ok ops /\ forall t, op_time o = Some t ->
    forall t' u', OTryRegister t' u' ∈ ops -> t' <= t.
Proof.
  unfold clock_ok. rewrite omap_app. intros (Hle & H1 & _)%StronglySorted_app. split; [done|].
  intros t Ho t' u' Hin. apply Hle; [|cbn; rewrite Ho; set_solver].
  apply list_elem_of_omap. by exists (OTryRegister t' u').
Qed.

Lemma rejected_at_in u t ops : rejected_at u t ops -> OTryRegister t u ∈ ops.
Proof. intros (ops1 & ops2 & -> & _). set_solver. Qed.

(** The attempt that is added to the run. *)
Lemma kick_justified_try u t ops :
  (forall t' u', OTryRegister t' u' ∈ ops -> t' <= t) ->
  kick_justified u ops -> kick_justified u (ops ++ [OTryRegister t u]).
Proof.
  intros Hle IH s. rewrite entry_run_app. cbn. rewrite decide_True by done.
  specialize (IH). unfold kick_justified in IH.
  destruct (entry_run u ops None) as [s0|] eqn:E; [|by intros [= <-]].
  specialize (IH s0 eq_refl).
  assert (rejected_at u t (ops ++ [OTryRegister t u]) \/ (try_entry t (Some s0)).1 <> (false, false)) as Hrej.
  { destruct (decide ((try_entry t (Some s0)).1 = (false, false))) as [Hd|Hd]; [left|by right].
    exists ops, []. split_and!; [done|by rewrite E|done]. }
  unfold try_entry in *. destruct ((SessionID s0 =? -1) && _) eqn:Ep; cbn in *.
  - intros [= <-] Hz. destruct (IH Hz) as [Hr Hl]. exfalso.
    apply andb_true_iff in Ep as [Hid Hlt]. apply Z.eqb_eq in Hid.
    specialize (Hle _ _ (rejected_at_in _ _ _ Hr)). specialize (Hl Hid).
    rewrite Sub_ltb in Hlt by (unfold Second; lia). apply Z.ltb_lt in Hlt. lia.
  - destruct (negb _ && _); [by intros [= <-]|]. intros [= <-] _. cbn.
    split; [by destruct Hrej|]. intros Hid. rewrite Hid in Ep. cbn in Ep.
    rewrite Sub_ltb in Ep by (unfold Second; lia). apply Z.ltb_ge in Ep. lia.
Qed.

(** Every other operation keeps the entry's history, or resets it. *)
Lemma kick_justified_other u o ops :
  (forall t, o <> OTryRegister t u) -> kick_justified u ops -> kick_justified u (ops ++ [o]).
Proof.
  intros Hne IH s. rewrite entry_run_app. cbn. unfold kick_justified in IH. intros Hs Hz.
  assert (quiet u o = true -> forall s0, entry_run u ops None = Some s0 ->
    LastRejectionTime s = LastRejectionTime s0 -> SessionID s = SessionID s0 -> LoginTime s = LoginTime s0 ->
    rejected_at u (LastRejectionTime s) (ops ++ [o]) /\
    (SessionID s = -1 -> LoginTime s + 5 * Second <= LastRejectionTime s)) as Hsame.
  { intros Hq s0 E0 E1 E2 E3. rewrite E1, E2, E3 in *. destruct (IH s0 E0 Hz) as [Hr Hl].
    split; [by apply rejected_at_snoc|done]. }
  destruct o as [t u'|t u' id|u' id|u' id|id i]; cbn in *; try case_decide; subst.
  - by destruct (Hne t).
  - by apply (Hsame eq_refl s).
  - by injection Hs as <-.
  - by apply (Hsame eq_refl s).
  - apply keep_if_Some in Hs as [Hs _]. by apply (Hsame eq_refl s).
  - by apply (Hsame eq_refl s).
  - apply fmap_Some in Hs as (s0 & E & ->). by apply (Hsame eq_refl s0).
  - by apply (Hsame eq_refl s).
  - apply keep_if_Some in Hs as [Hs _]. by apply (Hsame eq_refl s).
  - by apply (Hsame eq_refl s).
Qed.

Lemma kick_justified_run u ops : clock_ok ops -> kick_justified u ops.
Proof.
  induction ops as [|o ops IH] using rev_ind; intros Hc; [by intros s|].
  destruct (clock_snoc ops o Hc) as [Hc' Hle]. specialize (IH Hc').
  destruct o as [t u'|t u' id|u' id|u' id|id i]; try (by apply kick_justified_other).
  destruct (decide (u' = u)) as [->|Hne].
  - apply kick_justified_try; [by apply Hle|done].
  - apply kick_justified_other; [congruence|done].
Qed.

(** C18: nobody is kicked by surprise: an attempt is told to kick the session of
    the account only if the attempt before it on that account was rejected less
    than thirty seconds ago, and the account has not been confirmed since. *)
Theorem kick_needs_rejection ops u t :
  clock_ok (ops ++ [OTryRegister t u]) ->
  (TryRegister t u (run ops NewSessionRegistry)).1 = (true, true) ->
  exists ops1 t0 ops2, ops = ops1 ++ OTryRegister t0 u :: ops2 /\
    (TryRegister t0 u (run ops1 NewSessionRegistry)).1 = (false, false) /\
    t0 <= t < t0 + 30 * Second /\ forallb (quiet u) ops2 = true.
Proof.
  intros Hc Hk. destruct (clock_snoc _ _ Hc) as [Hc' Hle].
  destruct (run_new_entry ops u) as [Hok Hg].
  rewrite TryRegister_run_entry in Hk by done. unfold Get in Hk. rewrite Hg in Hk.
  pose proof (kick_justified_run u ops Hc') as Hj. unfold kick_justified in Hj.
  destruct (entry_run u ops None) as [s|]; [|done]. unfold try_entry in Hk.
  destruct ((SessionID s =? -1) && _); [done|]. destruct (negb _ && _) eqn:E; [|done].
  apply andb_true_iff in E as [Ez Et]. unfold IsZero in Ez. apply negb_true_iff, Z.eqb_neq in Ez.
  rewrite Sub_ltb in Et by (unfold Second; lia). apply Z.ltb_lt in Et.
  destruct (Hj s eq_refl Ez) as [Hr _]. pose proof (Hle t eq_refl _ _ (rejected_at_in _ _ _ Hr)).
  destruct Hr as (ops1 & ops2 & -> & Hr & Hq).
  exists ops1, (LastRejectionTime s), ops2. split_and!; [done| |lia|lia|done].
  destruct (run_new_entry ops1 u) as [Hok1 Hg1].
  rewrite TryRegister_run_entry by done. unfold Get. by rewrite Hg1.
Qed.

Definition kick_run : list op :=
  [OTryRegister 1 (go_str "ann"); ORegister 2 (go_str "ann") 77; OTryRegister (10 * Second) (go_str "ann")].

Lemma kick_needs_rejection_witness :
  exists ops1 t0 ops2, kick_run = ops1 ++ OTryRegister t0 (go_str "ann") :: ops2 /\
    (TryRegister t0 (go_str "ann") (run ops1 NewSessionRegistry)).1 = (false, false) /\
    t0 <= 15 * Second < t0 + 30 * Second /\ forallb (quiet (go_str "ann")) ops2 = true.
Proof.
  apply (kick_needs_rejection kick_run).
  - unfold clock_ok, kick_run. cbn. repeat constructor; unfold Second; lia.
  - vm_compute. reflexivity.
Defined.

(** ** Removal *)

(** leaving removes a session and only its own: [Unregister] succeeds exactly
    when the account's entry carries the given session id, it never touches
    another account, and an old connection's [Unregister] leaves the entry of a
    newer login in place; [ClearServer] removes exactly the entries of its
    server. *)
Theorem removal_is_exact ops u id srv :
  let r := run ops NewSessionRegistry in
  ((Unregister u id r).1 = true <-> SessionID <$> Get u r = Some id) /\
  (forall u', Get u' (Unregister u id r).2 =
     if decide (u' = u /\ SessionID <$> Get u r = Some id) then None else Get u' r) /\
  (forall t id', id' <> id -> Get u (Unregister u id (Register t u id' r)).2 = Get u (Register t u id' r)) /\
  (forall u', Get u' (ClearServer srv r) =
     if decide (ServerID <$> Get u' r = Some srv) then None else Get u' r).
Proof.
  intros r. destruct (run_new_entry ops u) as [Hok _]. fold r in Hok.
  pose proof (λ u id, proj2 (step_entry r (OUnregister u id) Hok)) as HU. cbn [step entry_step] in HU.
  unfold Get. split_and!.
  - unfold Unregister. destruct (sh_get u r) as [s|]; cbn; [|done].
    destruct (Z.eqb_spec (SessionID s) id); cbn; naive_solver.
  - intros u'. rewrite HU. unfold keep_if. destruct (decide (u = u')) as [->|Hne].
    + destruct (sh_get u' r) as [s|]; cbn; [|by case_decide].
      destruct (Z.eqb_spec (SessionID s) id); cbn; case_decide; naive_solver.
    + rewrite decide_False; [done|naive_solver].
  - intros t id' Hne. unfold Unregister, Register. rewrite sh_get_put, decide_True by done. cbn.
    destruct (Z.eqb_spec id' id); [done|]. cbn. by rewrite sh_get_put, decide_True.
  - intros u'. unfold ClearServer. rewrite sh_get_sweep by done. unfold keep_if, on_server.
    destruct (sh_get u' r) as [s|]; cbn; [|by case_decide].
    destruct (Z.eqb_spec (ServerID s) srv); cbn; case_decide; naive_solver.
Qed.
