(* ===== verification/RateLimiter.v ===== *)
(** [internal/middleware/rate_limiter.go]: the fixed-window limiter of accepted
    connections.  [Allow] is atomic under the lock of the address's shard, a
    cleanup locks one shard after the other; the [UnixNano] instants are
    arguments. *)
From stdpp Require Import base gmap list numbers strings sorting.
From Stdlib Require Import Lia ZArith.
From S2P Require Import Prelude.
From S2P Require Import GoStd.
From S2P Require Import Sharding.
Local Open Scope Z_scope.

Record rlEntry := mkEntry { windowStart : Z; count : Z }.

Record RateLimiter := mkLimiter {
  shards : list (gmap Addr rlEntry); window : Z; limit : Z }.

Definition NewRateLimiter (limit window : Z) : RateLimiter :=
  {| shards := empty_shards; window := window; limit := i32 limit |}.

(** The value a map yields for an absent key. *)
Definition zero_entry : rlEntry := {| windowStart := 0; count := 0 |}.

Definition set_shards (s : list (gmap Addr rlEntry)) (r : RateLimiter) : RateLimiter :=
  {| shards := s; window := window r; limit := limit r |}.

Definition Allow (now : Z) (ip : Addr) (r : RateLimiter) : bool * RateLimiter :=
  let win := window r in
  let e := default zero_entry (sh_get ip (shards r)) in
  let e := if i64 (now - windowStart e) >=? win then {| windowStart := now; count := 0 |} else e in
  if count e >=? limit r then (false, r)
  else (true, set_shards (sh_put ip {| windowStart := windowStart e; count := i32 (count e + 1) |} (shards r)) r).

(** [cleanup] computes its cutoff once and then visits the shards. *)
Definition cutoff (now : Z) (r : RateLimiter) : Z := i64 (now - window r).
Definition cleanup_shard (cutoff : Z) (i : nat) (r : RateLimiter) : RateLimiter :=
  set_shards (sweep_shard (λ e, windowStart e <? cutoff) i (shards r)) r.
Definition cleanup (now : Z) (r : RateLimiter) : RateLimiter :=
  set_shards (sh_sweep (λ e, windowStart e <? cutoff now r) (shards r)) r.

(** ** Runs *)

Inductive op :=
| OAllow (now : Z) (ip : Addr)
| OCleanup (now : Z) (i : nat).

Definition step (r : RateLimiter) (o : op) : RateLimiter :=
  match o with
  | OAllow now ip => (Allow now ip r).2
  | OCleanup now i => cleanup_shard (cutoff now r) i r
  end.

Definition run (ops : list op) (r : RateLimiter) : RateLimiter := foldl step r ops.

Definition op_time (o : op) : Z := match o with OAllow now _ | OCleanup now _ => now end.

(** The instants at which an address was let through. *)
Fixpoint grants (ip : Addr) (ops : list op) (r : RateLimiter) : list Z :=
  match ops with
  | [] => []
  | o :: ops =>
    match o with
    | OAllow now ip' =>
      if bool_decide (ip' = ip) && (Allow now ip' r).1 then now :: grants ip ops (step r o)
      else grants ip ops (step r o)
    | OCleanup _ _ => grants ip ops (step r o)
    end
  end.

(** How many of the instants lie in [[a, b)]. *)
Definition within_time (a b : Z) (l : list Z) : nat :=
  length (filter (λ g, a <= g < b) l).

(** The clock: nanoseconds since 1970 that fit an [int64], not before the first
    window could have passed, not running backwards. *)
Definition clock_ok (win : Z) (ops : list op) : Prop :=
  StronglySorted Z.le (op_time <$> ops) /\ Forall (λ o, win <= op_time o < 2 ^ 63) ops.

(** * Windows *)

Section Windows.
Context (win lim : Z) (Hwin : 0 < win).

(** Instants grouped in windows of length [win] that follow one another before
    [b], at most [lim] instants in each. *)
Inductive windowed : list Z -> Z -> Prop :=
| windowed_nil b : windowed [] b
| windowed_app l w lw b :
    windowed l w -> Forall (λ g, w <= g < w + win) lw -> Z.of_nat (length lw) <= Z.max 0 lim ->
    w + win <= b -> windowed (l ++ lw) b.

Lemma windowed_mono l b b' : windowed l b -> b <= b' -> windowed l b'.
Proof. intros H Hb. destruct H; econstructor; (done || lia). Qed.

Lemma windowed_before l b : windowed l b -> Forall (λ g, g < b) l.
Proof.
  induction 1 as [|l w lw b _ IH Hw _ Hb]; [constructor|]. apply Forall_app. split.
  - eapply Forall_impl; [exact IH|]. cbn. lia.
  - eapply Forall_impl; [exact Hw|]. cbn. lia.
Qed.

Lemma within_time_app a b l l' :
  within_time a b (l ++ l') = (within_time a b l + within_time a b l')%nat.
Proof. unfold within_time. by rewrite filter_app, length_app. Qed.

Lemma within_time_le a b l : (within_time a b l <= length l)%nat.
Proof. apply length_filter. Qed.

Lemma within_time_none a b l : Forall (λ g, ~ (a <= g < b)) l -> within_time a b l = 0%nat.
Proof.
  unfold within_time. induction 1 as [|g l Hg _ IH]; [done|]. by rewrite filter_cons_False.
Qed.

Lemma within_time_all a b l : Forall (λ g, a <= g < b) l -> within_time a b l = length l.
Proof.
  unfold within_time. induction 1 as [|g l Hg _ IH]; [done|].
  rewrite filter_cons_True by done. cbn. by rewrite IH.
Qed.

(** Windows ending by [a + win] contribute one window's worth from [a] on. *)
Lemma windowed_tail l b a c :
  windowed l b -> b - win <= a -> Z.of_nat (within_time a c l) <= Z.max 0 lim.
Proof.
  intros H Hb. destruct H as [|l w lw b Hl _ Hn Hw]; [cbn; lia|].
  rewrite within_time_app, (within_time_none a c l).
  - pose proof (within_time_le a c lw). lia.
  - eapply Forall_impl; [by apply windowed_before|]. cbn. lia.
Qed.

(** An interval as long as a window meets at most two of them. *)
Lemma windowed_two l b a :
  windowed l b -> Z.of_nat (within_time a (a + win) l) <= 2 * Z.max 0 lim.
Proof.
  induction 1 as [|l w lw b Hl IH Hw Hn Hb]; [cbn; lia|]. rewrite within_time_app.
  destruct (decide (a + win <= w)) as [Hd|Hd].
  - assert (within_time a (a + win) lw = 0%nat) as ->; [|lia].
    apply within_time_none.
    eapply Forall_impl; [exact Hw|]. cbn. lia.
  - pose proof (within_time_le a (a + win) lw).
    pose proof (windowed_tail l w a (a + win) Hl ltac:(lia)). lia.
Qed.
End Windows.

(** * One address *)

(** What is known of an address's entry and its grants at time [now]. *)
Definition entry_inv (win lim : Z) (G : list Z) (cur : option rlEntry) (now : Z) : Prop :=
  match cur with
  | None => windowed win lim G now
  | Some e => exists G0 Gw, G = G0 ++ Gw /\ windowed win lim G0 (windowStart e) /\
      Forall (λ g, windowStart e <= g < windowStart e + win /\ g <= now) Gw /\
      Z.of_nat (length Gw) = count e /\ 0 < count e <= lim /\ 0 <= windowStart e <= now
  end.

(** [Allow] on the entry of its address. *)
Definition allow_entry (win lim now : Z) (cur : option rlEntry) : bool * option rlEntry :=
  let e := default zero_entry cur in
  let e := if i64 (now - windowStart e) >=? win then {| windowStart := now; count := 0 |} else e in
  if count e >=? lim then (false, cur)
  else (true, Some {| windowStart := windowStart e; count := i32 (count e + 1) |}).

Lemma Allow_entry now ip r :
  shards_ok (shards r) ->
  let a := allow_entry (window r) (limit r) now (sh_get ip (shards r)) in
  (Allow now ip r).1 = a.1 /\ shards_ok (shards (Allow now ip r).2) /\
  window (Allow now ip r).2 = window r /\ limit (Allow now ip r).2 = limit r /\
  forall ip', sh_get ip' (shards (Allow now ip r).2) =
    if decide (ip' = ip) then a.2 else sh_get ip' (shards r).
Proof.
  intros Hok a. unfold a, allow_entry, Allow. destruct (count _ >=? limit r); cbn.
  - split_and!; try done. intros ip'. by case_decide; subst.
  - split_and!; [done|auto with shards|done|done|]. intros ip'. by apply sh_get_put.
Qed.

Section Entry.
Context (win lim : Z) (Hwin : 0 < win) (Hlim : is_i32 lim).

Lemma entry_inv_mono G cur now now' :
  entry_inv win lim G cur now -> now <= now' -> entry_inv win lim G cur now'.
Proof.
  unfold entry_inv. destruct cur as [e|]; [|intros; by eapply windowed_mono].
  intros (G0 & Gw & -> & H0 & Hw & Hn & Hc & Hs) Hle. exists G0, Gw. split_and!; try done; try lia.
  eapply Forall_impl; [exact Hw|]. cbn. lia.
Qed.

(** The grants so far are windows before [now] when a new window starts. *)
Lemma entry_inv_windowed G cur now :
  entry_inv win lim G cur now ->
  (forall e, cur = Some e -> win <= now - windowStart e) -> windowed win lim G now.
Proof.
  destruct cur as [e|]; cbn; [|done].
  intros (G0 & Gw & -> & H0 & Hw & Hn & Hc & Hs) Hd. specialize (Hd e eq_refl).
  econstructor; [exact H0| |lia|lia]. eapply Forall_impl; [exact Hw|]. cbn. lia.
Qed.

(** The reset test, without the wrap-around it cannot reach. *)
Lemma reset_test now e :
  0 <= windowStart e <= now -> now < 2 ^ 63 ->
  (i64 (now - windowStart e) >=? win) = (win <=? now - windowStart e).
Proof. intros He Hn. rewrite i64_small by (unfold is_i64; lia). apply Z.geb_leb. Qed.

Lemma allow_entry_inv G cur now :
  entry_inv win lim G cur now -> win <= now < 2 ^ 63 ->
  let a := allow_entry win lim now cur in
  entry_inv win lim (if a.1 then G ++ [now] else G) a.2 now /\
  (a.1 = false -> lim <= Z.of_nat (within_time (now - win + 1) (now + 1) G)).
Proof.
  intros Hinv Hnow a. unfold a, allow_entry. clear a.
  set (e := default zero_entry cur).
  assert (0 <= windowStart e <= now) as He.
  { unfold e. destruct cur as [e0|]; cbn; [|lia]. by destruct Hinv as (? & ? & _ & _ & _ & _ & _ & ?). }
  rewrite reset_test by (done || lia).
  destruct (Z.leb_spec win (now - windowStart e)) as [Hr|Hr].
  - assert (windowed win lim G now) as HG.
    { apply (entry_inv_windowed G cur now); [done|]. intros e0 ->. done. }
    cbn [count windowStart]. destruct (Z.geb_spec 0 lim); cbn [fst snd].
    + split; [by destruct cur|lia].
    + split; [|done]. cbn [entry_inv windowStart count]. rewrite i32_small by (unfold is_i32 in *; lia).
      exists G, [now]. split_and!; cbn; try done; try lia. constructor; [lia|constructor].
  - destruct cur as [e0|]; [|unfold e in Hr; cbn in Hr; lia]. cbn in e. unfold e in *. clear e.
    destruct Hinv as (G0 & Gw & -> & H0 & Hw & Hn & Hc & Hs).
    destruct (Z.geb_spec (count e0) lim); cbn [fst snd].
    + split.
      * exists G0, Gw. split_and!; (done || lia).
      * intros _. rewrite within_time_app.
        rewrite (within_time_all _ _ Gw); [lia|]. eapply Forall_impl; [exact Hw|]. cbn. lia.
    + split; [|done]. cbn [entry_inv windowStart count]. rewrite i32_small by (unfold is_i32 in *; lia).
      exists G0, (Gw ++ [now]). rewrite length_app. split_and!; cbn; try lia; try done.
      * by rewrite app_assoc.
      * apply Forall_app. split; [done|]. constructor; [lia|constructor].
Qed.

(** A cleanup only drops entries whose window is over. *)
Lemma cleanup_entry_inv G cur now :
  entry_inv win lim G cur now -> win <= now < 2 ^ 63 ->
  entry_inv win lim G (keep_if (λ e, negb (windowStart e <? i64 (now - win))) cur) now.
Proof.
  intros Hinv Hnow. rewrite i64_small by (unfold is_i64; lia).
  destruct cur as [e|]; cbn; [|done]. destruct (Z.ltb_spec (windowStart e) (now - win)); cbn; [|done].
  apply (entry_inv_windowed G (Some e)); [done|]. intros ? [= <-]. lia.
Qed.
End Entry.

(** * Whole runs *)

Lemma grants_app ip ops ops' r :
  grants ip (ops ++ ops') r = grants ip ops r ++ grants ip ops' (run ops r).
Proof.
  revert r. induction ops as [|o ops IH]; intros r; [done|]. cbn [app grants run foldl].
  destruct o as [now ip'|now i]; [|apply IH].
  destruct (bool_decide (ip' = ip) && _); [cbn [app]; f_equal|]; apply IH.
Qed.

(** The limiter's parameters and the invariant of its shards do not change. *)
Definition limiter_ok (win lim : Z) (r : RateLimiter) : Prop :=
  shards_ok (shards r) /\ window r = win /\ limit r = lim.

Lemma NewRateLimiter_ok l w : limiter_ok w (i32 l) (NewRateLimiter l w).
Proof. split_and!; [apply empty_shards_ok|done|done]. Qed.

Lemma step_inv win lim ip r o G t0 :
  0 < win -> is_i32 lim -> limiter_ok win lim r -> win <= op_time o < 2 ^ 63 -> t0 <= op_time o ->
  entry_inv win lim G (sh_get ip (shards r)) t0 ->
  limiter_ok win lim (step r o) /\
  entry_inv win lim (G ++ grants ip [o] r) (sh_get ip (shards (step r o))) (op_time o).
Proof.
  intros Hwin Hlim (Hok & Hw & Hl) Ho Ht Hinv. pose proof (entry_inv_mono _ _ _ _ _ _ Hinv Ht) as Hinv'.
  destruct o as [now ip'|now i]; cbn [op_time] in *.
  - destruct (Allow_entry now ip' r Hok) as (E1 & Hok' & Hw' & Hl' & Hg). rewrite Hw, Hl in *.
    split; [by split_and!|]. cbn [step grants]. rewrite Hg, E1.
    destruct (decide (ip = ip')) as [->|Hne].
    + rewrite bool_decide_eq_true_2 by done. cbn [andb].
      destruct (allow_entry_inv win lim Hwin Hlim G _ now Hinv' Ho) as [H _].
      destruct (allow_entry win lim now _).1; [done|by rewrite app_nil_r].
    + rewrite bool_decide_eq_false_2 by done. cbn [andb]. by rewrite app_nil_r.
  - cbn [step grants]. rewrite app_nil_r. unfold cleanup_shard, cutoff. cbn [shards set_shards].
    split; [split_and!; cbn; auto with shards|]. rewrite sh_get_sweep_shard by done.
    case_decide; [|done]. rewrite Hw. by apply cleanup_entry_inv.
Qed.

Lemma run_inv win lim ip ops r G t0 t :
  0 < win -> is_i32 lim -> limiter_ok win lim r ->
  StronglySorted Z.le (t0 :: (op_time <$> ops) ++ [t]) -> Forall (λ o, win <= op_time o < 2 ^ 63) ops ->
  entry_inv win lim G (sh_get ip (shards r)) t0 ->
  limiter_ok win lim (run ops r) /\
  entry_inv win lim (G ++ grants ip ops r) (sh_get ip (shards (run ops r))) t.
Proof.
  intros Hwin Hlim. revert r G t0. induction ops as [|o ops IH]; intros r G t0 Hok Hs Hb Hinv.
  - split; [done|]. cbn. rewrite app_nil_r. eapply entry_inv_mono; [exact Hinv|].
    inversion Hs as [|? ? _ Hf]; subst. by inversion Hf.
  - inversion Hb as [|? ? Ho Hb']; subst. inversion Hs as [|? ? Hs' Hf]; subst.
    inversion Hf as [|? ? Hle _]; subst.
    destruct (step_inv win lim ip r o G t0) as [Hok' Hinv']; try done.
    destruct (IH _ (G ++ grants ip [o] r) (op_time o) Hok' Hs' Hb' Hinv') as [H1 H2]. split; [done|].
    change (o :: ops) with ([o] ++ ops). rewrite grants_app, app_assoc. exact H2.
Qed.

(** From the start of the limiter up to an instant no earlier than its last step. *)
Lemma run_new_inv win l ip ops t :
  0 < win -> StronglySorted Z.le ((op_time <$> ops) ++ [t]) ->
  Forall (λ o, win <= op_time o < 2 ^ 63) ops ->
  let r := NewRateLimiter l win in
  limiter_ok win (i32 l) (run ops r) /\
  entry_inv win (i32 l) (grants ip ops r) (sh_get ip (shards (run ops r))) t.
Proof.
  intros Hwin Hs Hb r.
  pose (t0 := default t (head (op_time <$> ops))).
  apply (run_inv win (i32 l) ip ops r [] t0 t); try done; [apply i32_range|apply NewRateLimiter_ok| |].
  - constructor; [done|]. unfold t0. destruct ops as [|o ops]; cbn; [by repeat constructor|].
    cbn in Hs. inversion Hs; subst. by constructor.
  - unfold r, NewRateLimiter. cbn [shards]. rewrite sh_get_empty. constructor.
Qed.

(** * Properties *)



(** C37: nobody below the limit is turned away: an address is refused only if it
    has been let through at least [limit] times within the last window. *)
Theorem refused_only_at_limit l win ops ip t :
  0 < win -> clock_ok win (ops ++ [OAllow t ip]) ->
  let r := NewRateLimiter l win in
  (Allow t ip (run ops r)).1 = false ->
  i32 l <= Z.of_nat (within_time (t - win + 1) (t + 1) (grants ip ops r)).
Proof.
  intros Hwin [Hs Hb] r Hr. rewrite fmap_app in Hs. apply Forall_app in Hb as [Hb Ht].
  inversion Ht as [|? ? Ht' _]; subst. cbn in Ht'.
  destruct (run_new_inv win l ip ops t Hwin Hs Hb) as [(Hok & Hw & Hl) Hinv].
  destruct (Allow_entry t ip (run ops r) Hok) as (E & _).
  fold r in Hw, Hl. rewrite Hw, Hl in E. rewrite E in Hr.
  by destruct (allow_entry_inv win (i32 l) Hwin (i32_range l) _ _ t Hinv Ht') as [_ H]; apply H.
Qed.

Lemma refused_only_at_limit_witness :
  let ops := [OAllow 50 (IPv4 1); OAllow 51 (IPv4 1)] in
  let r := NewRateLimiter 2 10 in
  (Allow 55 (IPv4 1) (run ops r)).1 = false /\
  i32 2 <= Z.of_nat (within_time (55 - 10 + 1) (55 + 1) (grants (IPv4 1) ops r)).
Proof.
  split; [vm_compute; reflexivity|].
  apply (refused_only_at_limit 2 10 [OAllow 50 (IPv4 1); OAllow 51 (IPv4 1)] (IPv4 1) 55); [lia| |vm_compute; reflexivity].
  split; repeat constructor; cbn; lia.
Defined.
