(* ===== verification/ServerList.v ===== *)
(** [internal/service/server_list.go]: the table of game servers and the cached
    character counts.  Every method is atomic under the list's lock. *)
From stdpp Require Import base gmap list numbers strings sorting.
From coqutil Require Import Byte.
From Stdlib Require Import Lia ZArith.
From S2P Require Import Prelude.
Local Open Scope Z_scope.

Definition MaxSupportedServers : Z := 32.
Definition InfoTypeStatus : Z := 0x01.
Definition InfoTypeCurrentPlayers : Z := 0x02.

Record Server := mkServer {
  IP : gostring; Port : Z; ID : Z; ServerType : Z; MaxPlayers : Z; CurrentPlayers : Z;
  Pvp : bool; Brackets : bool; Status : Z }.

(** [Server{}]. *)
Definition zero_server : Server :=
  {| IP := []; Port := 0; ID := 0; ServerType := 0; MaxPlayers := 0; CurrentPlayers := 0;
     Pvp := false; Brackets := false; Status := 0 |}.

Record ServerSnapshot := mkSnapshot { Servers : list Server; Count : nat }.

Record ServerList := mkServerList {
  charCounts : gmap gostring (list byte); servers : list Server; active : list bool }.

Definition slots : nat := Z.to_nat MaxSupportedServers.
Definition zero_counts : list byte := replicate slots Byte.x00.

Definition NewServerList : ServerList :=
  {| charCounts := ∅; servers := replicate slots zero_server; active := replicate slots false |}.

(** The guard of every method that indexes by server id. *)
Definition out_of_bounds (id : Z) : bool := (id <? 0) || (id >=? MaxSupportedServers).

Definition Register (srv : Server) (s : ServerList) : ServerList :=
  if out_of_bounds (ID srv) then s
  else {| charCounts := charCounts s;
          servers := <[Z.to_nat (ID srv) := srv]> (servers s);
          active := <[Z.to_nat (ID srv) := true]> (active s) |}.

Definition Unregister (id : Z) (s : ServerList) : ServerList :=
  if out_of_bounds id then s
  else {| charCounts := charCounts s;
          servers := <[Z.to_nat id := zero_server]> (servers s);
          active := <[Z.to_nat id := false]> (active s) |}.

(** The two fields a status update writes, converted to their width. *)
Definition set_Status (v : Z) (srv : Server) : Server :=
  {| IP := IP srv; Port := Port srv; ID := ID srv; ServerType := ServerType srv;
     MaxPlayers := MaxPlayers srv; CurrentPlayers := CurrentPlayers srv; Pvp := Pvp srv;
     Brackets := Brackets srv; Status := u8 v |}.
Definition set_CurrentPlayers (v : Z) (srv : Server) : Server :=
  {| IP := IP srv; Port := Port srv; ID := ID srv; ServerType := ServerType srv;
     MaxPlayers := MaxPlayers srv; CurrentPlayers := i16 v; Pvp := Pvp srv;
     Brackets := Brackets srv; Status := Status srv |}.

Definition apply_info (infoType value : Z) (srv : Server) : Server :=
  if infoType =? InfoTypeStatus then set_Status value srv
  else if infoType =? InfoTypeCurrentPlayers then set_CurrentPlayers value srv
  else srv.

Definition UpdateStatus (id infoType value : Z) (s : ServerList) : ServerList :=
  if out_of_bounds id then s
  else if negb (nth (Z.to_nat id) (active s) false) then s
  else {| charCounts := charCounts s;
          servers := alter (apply_info infoType value) (Z.to_nat id) (servers s);
          active := active s |}.

(** One iteration of the copying loop of [GetServers]. *)
Definition snapshot_step (s : ServerList) (i : nat) (snap : ServerSnapshot) : ServerSnapshot :=
  if nth i (active s) false
  then {| Servers := <[Count snap := nth i (servers s) zero_server]> (Servers snap);
          Count := Count snap + 1 |}
  else snap.
Definition GetServers (s : ServerList) : ServerSnapshot :=
  for_range slots (snapshot_step s) {| Servers := replicate slots zero_server; Count := 0 |}.

Definition SetCharCount (accountName : gostring) (serverID : Z) (count : byte) (s : ServerList)
    : ServerList :=
  if out_of_bounds serverID then s
  else
    let counts := default zero_counts (charCounts s !! accountName) in
    let counts := <[Z.to_nat serverID := count]> counts in
    {| charCounts := <[accountName := counts]> (charCounts s); servers := servers s; active := active s |}.

Definition GetCharCounts (accountName : gostring) (s : ServerList) : list byte * bool :=
  match charCounts s !! accountName with
  | Some counts => (counts, true)
  | None => (zero_counts, false)
  end.

Definition RemoveAccount (accountName : gostring) (s : ServerList) : ServerList :=
  {| charCounts := delete accountName (charCounts s); servers := servers s; active := active s |}.

(** ** Runs *)

Inductive op :=
| ORegister (srv : Server)
| OUnregister (id : Z)
| OUpdateStatus (id infoType value : Z)
| OSetCharCount (accountName : gostring) (serverID : Z) (count : byte)
| ORemoveAccount (accountName : gostring).

Definition step (s : ServerList) (o : op) : ServerList :=
  match o with
  | ORegister srv => Register srv s
  | OUnregister id => Unregister id s
  | OUpdateStatus id it v => UpdateStatus id it v s
  | OSetCharCount a id c => SetCharCount a id c s
  | ORemoveAccount a => RemoveAccount a s
  end.

Definition run (ops : list op) : ServerList := foldl step NewServerList ops.

(** * Specification

    A finite map from the ids 0 to 31 to servers, and for every account a finite
    map from server ids to counts. *)

Definition in_bounds (id : Z) : Prop := 0 <= id < 32.
#[export] Instance in_bounds_dec id : Decision (in_bounds id).
Proof. unfold in_bounds. apply _. Defined.

Definition spec_servers_step (m : gmap Z Server) (o : op) : gmap Z Server :=
  match o with
  | ORegister srv => if decide (in_bounds (ID srv)) then <[ID srv := srv]> m else m
  | OUnregister id => delete id m
  | OUpdateStatus id it v => alter (apply_info it v) id m
  | _ => m
  end.
Definition spec_servers (ops : list op) : gmap Z Server := foldl spec_servers_step ∅ ops.

Definition spec_counts_step (a : gostring) (m : option (gmap Z byte)) (o : op) : option (gmap Z byte) :=
  match o with
  | OSetCharCount a' id c =>
    if decide (a' = a /\ in_bounds id) then Some (<[id := c]> (default ∅ m)) else m
  | ORemoveAccount a' => if decide (a' = a) then None else m
  | _ => m
  end.
Definition spec_counts (a : gostring) (ops : list op) : option (gmap Z byte) :=
  foldl (spec_counts_step a) None ops.

(** All ids in the order of the slots. *)
Definition ids : list Z := Z.of_nat <$> seq 0 slots.

(** * The abstraction relation *)

(** Slot [i] holds the server of id [i], or is cleared. *)
Definition slots_repr (s : ServerList) (m : gmap Z Server) : Prop :=
  length (servers s) = slots /\ length (active s) = slots /\
  (forall id srv, m !! id = Some srv -> in_bounds id /\ ID srv = id) /\
  forall i, (i < slots)%nat ->
    active s !! i = Some (bool_decide (is_Some (m !! Z.of_nat i))) /\
    servers s !! i = Some (default zero_server (m !! Z.of_nat i)).

Definition counts_repr (s : ServerList) (a : gostring) (m : option (gmap Z byte)) : Prop :=
  charCounts s !! a = (λ m, (λ id, default Byte.x00 (m !! id)) <$> ids) <$> m.

Lemma out_of_bounds_spec id : out_of_bounds id = negb (bool_decide (in_bounds id)).
Proof.
  unfold out_of_bounds, in_bounds, MaxSupportedServers.
  case_bool_decide as E; destruct (Z.ltb_spec id 0), (Z.geb_spec id 32); cbn; (done || lia).
Qed.

Lemma ids_lookup i : (i < slots)%nat -> ids !! i = Some (Z.of_nat i).
Proof.
  intros Hi. unfold ids. rewrite list_lookup_fmap, lookup_seq_lt by done. done.
Qed.

Lemma in_bounds_slot id : in_bounds id -> (Z.to_nat id < slots)%nat /\ Z.of_nat (Z.to_nat id) = id.
Proof. unfold in_bounds, slots, MaxSupportedServers. lia. Qed.

(** Writing one slot and the map entry of its id together. *)
Lemma slots_repr_update s m id b srv cc :
  slots_repr s m -> in_bounds id ->
  (b = true -> ID srv = id) -> (b = false -> srv = zero_server) ->
  slots_repr {| charCounts := cc; servers := <[Z.to_nat id := srv]> (servers s);
                active := <[Z.to_nat id := b]> (active s) |}
             (if b then <[id := srv]> m else delete id m).
Proof.
  intros (H1 & H2 & Hm & Hs) Hid Hb Hb'. destruct (in_bounds_slot id Hid) as [Hi Hz].
  split_and!; cbn; [by rewrite length_insert|by rewrite length_insert|..].
  - intros id' srv' Hl. destruct b; [|apply lookup_delete_Some in Hl as [_ Hl]; by apply Hm].
    apply lookup_insert_Some in Hl as [[<- <-]|[_ Hl]]; [auto|by apply Hm].
  - intros i Hilt. destruct (decide (i = Z.to_nat id)) as [->|Hne].
    + rewrite !list_lookup_insert_eq, Hz by lia.
      destruct b; [rewrite lookup_insert_eq|rewrite lookup_delete_eq]; cbn.
      * done.
      * by rewrite Hb'.
    + rewrite !list_lookup_insert_ne by done. specialize (Hs i Hilt).
      assert (Z.of_nat i <> id) by lia.
      by destruct b; [rewrite lookup_insert_ne|rewrite lookup_delete_ne].
Qed.

Lemma apply_info_ID it v srv : ID (apply_info it v srv) = ID srv.
Proof. unfold apply_info. by repeat case_match. Qed.

Lemma step_slots s m o : slots_repr s m -> slots_repr (step s o) (spec_servers_step m o).
Proof.
  intros Hr. destruct o as [srv|id|id it v|a id c|a]; cbn; try done.
  - unfold Register. rewrite out_of_bounds_spec. case_bool_decide as Hid.
    + rewrite decide_True by done. by apply (slots_repr_update s m (ID srv) true srv).
    + by rewrite decide_False.
  - unfold Unregister. rewrite out_of_bounds_spec. case_bool_decide as Hid.
    + by apply (slots_repr_update s m id false zero_server).
    + rewrite delete_id; [done|]. destruct Hr as (_ & _ & Hm & _).
      destruct (m !! id) eqn:E; [|done]. by destruct (Hm _ _ E).
  - unfold UpdateStatus. rewrite out_of_bounds_spec. pose proof Hr as (H1 & H2 & Hm & Hs).
    case_bool_decide as Hid; cbn [negb].
    2: { rewrite alter_id; [done|]. intros srv E. by destruct (Hm _ _ E). }
    destruct (in_bounds_slot id Hid) as [Hi Hz]. destruct (Hs _ Hi) as [Ha Hv]. rewrite Hz in *.
    rewrite nth_lookup, Ha. cbn. case_bool_decide as Hact; cbn [negb].
    + destruct Hact as [srv E]. rewrite E in Hv. cbn in Hv.
      pose proof (slots_repr_update s m id true (apply_info it v srv) (charCounts s) Hr Hid) as Hu.
      rewrite apply_info_ID in Hu. destruct (Hm _ _ E) as [_ HID].
      specialize (Hu (λ _, HID) ltac:(done)).
      rewrite (list_insert_id (active s)) in Hu by (rewrite Ha; f_equal; apply bool_decide_eq_true_2; by eexists).
      replace (alter (apply_info it v) (Z.to_nat id) (servers s))
        with (<[Z.to_nat id := apply_info it v srv]> (servers s)).
      2: { apply list_eq. intros j. destruct (decide (j = Z.to_nat id)) as [->|Hne].
           - by rewrite list_lookup_insert_eq, list_lookup_alter_eq, Hv by lia.
           - by rewrite list_lookup_insert_ne, list_lookup_alter_ne by done. }
      replace (alter (apply_info it v) id m) with (<[id := apply_info it v srv]> m); [done|].
      apply map_eq. intros j. destruct (decide (j = id)) as [->|Hne].
      * by rewrite lookup_insert_eq, lookup_alter_eq, E.
      * by rewrite lookup_insert_ne, lookup_alter_ne by done.
    + rewrite alter_id; [done|]. intros srv E. by destruct Hact.
  - unfold SetCharCount. by destruct (out_of_bounds id).
Qed.

Lemma run_slots ops : slots_repr (run ops) (spec_servers ops).
Proof.
  unfold run, spec_servers. assert (slots_repr NewServerList ∅) as H.
  { split_and!; [done|done|by intros ? ? ?%lookup_empty_Some|].
    intros i Hi. rewrite lookup_empty. unfold NewServerList. cbn [active servers].
    by rewrite !lookup_replicate_2. }
  revert H. generalize NewServerList (∅ : gmap Z Server).
  induction ops as [|o ops IH]; intros s m H; [done|]. by apply IH, step_slots.
Qed.

(** The servers in the order of their slots. *)
Definition listed (m : gmap Z Server) (n : nat) : list Server := omap (λ id, m !! id) (take n ids).

Lemma listed_S m n : (n < slots)%nat ->
  listed m (1 + n) = listed m n ++ option_list (m !! Z.of_nat n).
Proof.
  intros Hn. unfold listed. change (1 + n)%nat with (S n).
  rewrite (take_S_r _ _ (Z.of_nat n)) by by apply ids_lookup.
  rewrite omap_app. cbn. by destruct (m !! Z.of_nat n).
Qed.

Lemma length_ids : length ids = slots.
Proof. unfold ids. by rewrite length_fmap, length_seq. Qed.

Lemma listed_all m : listed m slots = omap (λ id, m !! id) ids.
Proof. unfold listed. rewrite take_ge; [reflexivity|]. by rewrite length_ids. Qed.

Lemma length_listed m n : (n <= slots)%nat -> (length (listed m n) <= n)%nat.
Proof.
  induction n as [|n IH]; intros Hn; [done|]. change (S n) with (1 + n)%nat.
  rewrite listed_S, length_app by lia. specialize (IH ltac:(lia)).
  destruct (m !! Z.of_nat n); cbn; lia.
Qed.

(** The snapshot while it is filled: the servers so far, then zero values. *)
Lemma snapshot_loop s m n :
  slots_repr s m -> (n <= slots)%nat ->
  for_range n (snapshot_step s) {| Servers := replicate slots zero_server; Count := 0 |}
  = {| Servers := listed m n ++ replicate (slots - length (listed m n)) zero_server;
       Count := length (listed m n) |}.
Proof.
  intros (_ & _ & _ & Hs). induction n as [|n IH]; intros Hn; [done|].
  change (S n) with (1 + n)%nat. rewrite for_range_S, IH, listed_S by lia.
  unfold snapshot_step. cbn [Servers Count]. destruct (Hs n ltac:(lia)) as [Ha Hv].
  rewrite !nth_lookup, Ha, Hv. cbn [default from_option id].
  pose proof (length_listed m n ltac:(lia)) as Hl.
  destruct (m !! Z.of_nat n) as [srv|]; cbn [option_list default from_option].
  - rewrite bool_decide_eq_true_2 by by eexists. rewrite length_app. cbn [length]. f_equal.
    replace (slots - length (listed m n))%nat with (S (slots - (length (listed m n) + 1))) by lia.
    cbn [replicate]. rewrite <- app_assoc, insert_app_r_alt, Nat.sub_diag by lia. done.
  - rewrite bool_decide_eq_false_2 by by intros [? ?]. by rewrite app_nil_r.
Qed.

Lemma listed_sorted m n :
  (forall id srv, m !! id = Some srv -> in_bounds id /\ ID srv = id) -> (n <= slots)%nat ->
  StronglySorted Z.lt (ID <$> listed m n) /\ Forall (λ srv, 0 <= ID srv < Z.of_nat n) (listed m n).
Proof.
  intros Hm. induction n as [|n IH]; intros Hn; [by repeat constructor|].
  destruct (IH ltac:(lia)) as [H1 H2]. change (S n) with (1 + n)%nat. rewrite listed_S by lia.
  assert (Forall (λ srv, 0 <= ID srv < Z.of_nat (1 + n)) (listed m n)) as H3
    by (eapply Forall_impl; [exact H2|]; cbn; lia).
  destruct (m !! Z.of_nat n) as [srv|] eqn:E; cbn [option_list]; [|by rewrite app_nil_r].
  destruct (Hm _ _ E) as [_ HID]. rewrite fmap_app. split.
  - apply StronglySorted_app. split_and!; [|done|repeat constructor].
    intros x1 x2 (srv1 & -> & Hin)%list_elem_of_fmap ->%list_elem_of_singleton.
    rewrite Forall_forall in H2. specialize (H2 _ Hin). cbn in H2. lia.
  - apply Forall_app. split; [done|]. constructor; [lia|constructor].
Qed.

(** * Properties *)

(** C35: the table is a finite map from ids to servers: after any sequence of
    registrations, removals and status updates, with ids in or out of bounds, a
    snapshot lists exactly the servers registered under ids 0 to 31 and not
    removed since, each with its last update applied, in the order of their ids
    without duplicates, and the rest of the snapshot is cleared. *)
Theorem server_table_refines ops :
  let present := omap (λ id, spec_servers ops !! id) ids in
  GetServers (run ops) =
    {| Servers := present ++ replicate (slots - length present) zero_server;
       Count := length present |} /\
  StronglySorted Z.lt (ID <$> present) /\
  (forall id srv, spec_servers ops !! id = Some srv <-> srv ∈ present /\ ID srv = id).
Proof.
  intros present. pose proof (run_slots ops) as Hr. pose proof Hr as (_ & _ & Hm & _).
  assert (listed (spec_servers ops) slots = present) as Hl by apply listed_all.
  split; [unfold GetServers; rewrite (snapshot_loop _ _ _ Hr), Hl; done|].
  rewrite <- Hl. split; [by apply listed_sorted|]. intros id srv. rewrite listed_all.
  rewrite list_elem_of_omap. split.
  - intros E. destruct (Hm _ _ E) as [Hid HID]. split; [|done]. exists id. split; [|done].
    destruct (in_bounds_slot id Hid) as [Hi Hz]. rewrite <- Hz.
    eapply list_elem_of_lookup_2. by apply ids_lookup.
  - intros [(id' & _ & E) <-]. by destruct (Hm _ _ E) as [_ ->].
Qed.

Lemma counts_step s a m o : counts_repr s a m -> counts_repr (step s o) a (spec_counts_step a m o).
Proof.
  unfold counts_repr. intros Hr.
  destruct o as [srv|id|id it v|a' id c|a']; cbn [step spec_counts_step].
  - unfold Register. by destruct (out_of_bounds _).
  - unfold Unregister. by destruct (out_of_bounds _).
  - unfold UpdateStatus. destruct (out_of_bounds _); [done|]. by destruct (negb _).
  - unfold SetCharCount. rewrite out_of_bounds_spec.
    case_bool_decide as Hid; cbn [negb]; [|rewrite decide_False by tauto; done].
    cbn [charCounts]. destruct (decide (a' = a)) as [->|Hne].
    2: { rewrite decide_False by tauto. by rewrite lookup_insert_ne. }
    rewrite decide_True by done. rewrite lookup_insert_eq, Hr. cbn [fmap option_fmap option_map]. f_equal.
    destruct (in_bounds_slot id Hid) as [Hi Hz].
    assert (default zero_counts ((λ m, (λ id, default Byte.x00 (m !! id)) <$> ids) <$> m)
            = (λ id, default Byte.x00 (default ∅ m !! id)) <$> ids) as -> by by destruct m.
    apply list_eq. intros j. rewrite list_lookup_fmap.
    pose proof length_ids as Hl.
    destruct (decide (j = Z.to_nat id)) as [->|Hne].
    + rewrite list_lookup_insert_eq by (rewrite length_fmap; lia).
      rewrite ids_lookup, Hz by done. cbn. by rewrite lookup_insert_eq.
    + rewrite list_lookup_insert_ne, list_lookup_fmap by done.
      destruct (Nat.lt_ge_cases j slots) as [Hj|Hj]; [|by rewrite lookup_ge_None_2 by lia].
      rewrite ids_lookup by done. cbn. rewrite lookup_insert_ne by lia. done.
  - cbn. destruct (decide (a' = a)) as [->|Hne]; [by rewrite lookup_delete_eq|by rewrite lookup_delete_ne].
Qed.

Lemma run_counts ops a : counts_repr (run ops) a (spec_counts a ops).
Proof.
  unfold run, spec_counts. assert (counts_repr NewServerList a None) as H by by unfold counts_repr.
  revert H. generalize NewServerList (None : option (gmap Z byte)).
  induction ops as [|o ops IH]; intros s m H; [done|]. by apply IH, counts_step.
Qed.

(** The cached character counts of an account are the counts last recorded for
    it per server since it was last removed, zero where none was recorded;
    recording under an id out of bounds, for another account, or changing the
    server table does not disturb them, and an account is known exactly from its
    first recorded count to its removal. *)
Theorem char_counts_refine ops a :
  GetCharCounts a (run ops) =
    match spec_counts a ops with
    | Some m => ((λ id, default Byte.x00 (m !! id)) <$> ids, true)
    | None => (zero_counts, false)
    end.
Proof.
  unfold GetCharCounts. pose proof (run_counts ops a) as H. unfold counts_repr in H. rewrite H.
  by destruct (spec_counts a ops).
Qed.
