(* ===== verification/BanManager.v ===== *)
(** [internal/service/ban_manager.go]: bans of addresses after repeated login
    failures.  [RecordFailure] and [ResetAttempts] are atomic under the manager's
    lock; [IsBanned] is two atomic sections, a read and, for a ban that looks
    expired, a locked re-check, with other calls possibly in between.  The
    goroutines that write to the database are recorded as they are started. *)
From stdpp Require Import base gmap list numbers strings sorting.
From Stdlib Require Import Lia ZArith.
From S2P Require Import Prelude.
From S2P Require Import GoStd.
Local Open Scope Z_scope.

(** The queries the goroutines run; the database is not part of this code. *)
Inductive db_call :=
| AddIPBan (ip : Addr) (expiry : Time) (reason : gostring)
| RemoveIPBan (ip : Addr).

Record BanManager := mkBanManager {
  ipBans : gmap Addr Time; attempts : gmap Addr Z;
  banDuration : Z; maxAttempts : Z; spawned : list db_call }.

(** [bans] is what [GetActiveIPBans] answers; an error is ignored. *)
Definition NewBanManager (bans : error + list (Addr * Time)) (maxAttempts banDuration : Z) : BanManager :=
  {| ipBans := match bans with
               | inl _ => ∅
               | inr rows => foldl (λ m '(ip, expiry), <[ip := expiry]> m) ∅ rows
               end;
     attempts := ∅; banDuration := banDuration; maxAttempts := maxAttempts; spawned := [] |}.

(** The read section of [IsBanned]: an answer, or the need for the lock. *)
Definition IsBanned_read (now : Time) (ip : Addr) (m : BanManager) : option bool :=
  if IsLoopback ip then Some false
  else match ipBans m !! ip with
       | None => Some false
       | Some expiry => if After now expiry then None else Some true
       end.

(** Its locked section. *)
Definition IsBanned_locked (now : Time) (ip : Addr) (m : BanManager) : bool * BanManager :=
  match ipBans m !! ip with
  | Some expiry =>
    if After now expiry
    then (false, {| ipBans := delete ip (ipBans m); attempts := attempts m;
                    banDuration := banDuration m; maxAttempts := maxAttempts m;
                    spawned := spawned m ++ [RemoveIPBan ip] |})
    else (true, m)
  | None => (true, m)
  end.

(** [IsBanned] undisturbed; it reads the clock once in each section. *)
Definition IsBanned (now now' : Time) (ip : Addr) (m : BanManager) : bool * BanManager :=
  match IsBanned_read now ip m with
  | Some b => (b, m)
  | None => IsBanned_locked now' ip m
  end.

Definition RecordFailure (now : Time) (ip : Addr) (m : BanManager) : BanManager :=
  if IsLoopback ip then m
  else
    let count := i64 (default 0 (attempts m !! ip) + 1) in
    let attempts' := <[ip := count]> (attempts m) in
    if count >=? maxAttempts m then
      let expiry := Add now (banDuration m) in
      {| ipBans := <[ip := expiry]> (ipBans m); attempts := delete ip attempts';
         banDuration := banDuration m; maxAttempts := maxAttempts m;
         spawned := spawned m ++ [AddIPBan ip expiry (go_str "Too many login attempts")] |}
    else {| ipBans := ipBans m; attempts := attempts'; banDuration := banDuration m;
            maxAttempts := maxAttempts m; spawned := spawned m |}.

Definition ResetAttempts (ip : Addr) (m : BanManager) : BanManager :=
  {| ipBans := ipBans m; attempts := delete ip (attempts m); banDuration := banDuration m;
     maxAttempts := maxAttempts m; spawned := spawned m |}.

(** ** Runs *)

Inductive op :=
| OFailure (now : Time) (ip : Addr)
| OReset (ip : Addr)
| OIsBanned (now now' : Time) (ip : Addr).

Definition step (m : BanManager) (o : op) : BanManager :=
  match o with
  | OFailure now ip => RecordFailure now ip m
  | OReset ip => ResetAttempts ip m
  | OIsBanned now now' ip => (IsBanned now now' ip m).2
  end.

Definition run (ops : list op) (m : BanManager) : BanManager := foldl step m ops.

(** * Specification

    For each address: the failures since the last success, and the instant the
    last ban runs to.  Every [n]-th failure in a row bans; nothing ever has to be
    cleaned up. *)
Record history := mkHistory { failures : Z; banned_until : option Time }.

Definition spec_step (n dur : Z) (ip : Addr) (h : history) (o : op) : history :=
  match o with
  | OFailure now ip' =>
    if decide (ip' = ip) then
      let k := failures h + 1 in
      {| failures := k;
         banned_until := if k mod n =? 0 then Some (now + dur) else banned_until h |}
    else h
  | OReset ip' =>
    if decide (ip' = ip) then {| failures := 0; banned_until := banned_until h |} else h
  | OIsBanned _ _ _ => h
  end.

Definition spec_run (n dur : Z) (ip : Addr) (ops : list op) (loaded : option Time) : history :=
  foldl (spec_step n dur ip) {| failures := 0; banned_until := loaded |} ops.

Definition in_force (now : Time) (until : option Time) : bool :=
  match until with Some u => now <=? u | None => false end.

(** The instants at which the run looks for an expired ban. *)
Definition check_times (ops : list op) : list Time :=
  omap (λ o, match o with OIsBanned _ now' _ => Some now' | _ => None end) ops.

(** * The simulation *)

(** The manager's entries of one address against its history at [now]. *)
Definition sim (n : Z) (now : Time) (ip : Addr) (m : BanManager) (h : history) : Prop :=
  0 <= failures h /\
  default 0 (attempts m !! ip) = failures h mod n /\
  (ipBans m !! ip = banned_until h \/
   (ipBans m !! ip = None /\ in_force now (banned_until h) = false)).

Definition params_ok (n dur : Z) (m : BanManager) : Prop :=
  maxAttempts m = n /\ banDuration m = dur.

Lemma step_params n dur m o : params_ok n dur m -> params_ok n dur (step m o).
Proof.
  intros [H1 H2]. destruct o; cbn [step].
  - unfold RecordFailure. by repeat case_match.
  - done.
  - unfold IsBanned, IsBanned_locked. by repeat case_match.
Qed.

Lemma mod_succ k n : 0 < n -> 0 <= k ->
  (k + 1) mod n = if k mod n + 1 =? n then 0 else k mod n + 1.
Proof.
  intros Hn Hk. rewrite <- Z.add_mod_idemp_l by lia. pose proof (Z.mod_pos_bound k n Hn).
  destruct (Z.eqb_spec (k mod n + 1) n) as [->|]; [apply Z.mod_same; lia|apply Z.mod_small; lia].
Qed.

Lemma RecordFailure_other now ip' ip m :
  ip <> ip' ->
  ipBans (RecordFailure now ip' m) !! ip = ipBans m !! ip /\
  attempts (RecordFailure now ip' m) !! ip = attempts m !! ip.
Proof.
  intros Hne. unfold RecordFailure. destruct (IsLoopback ip'); [done|].
  destruct (_ >=? _); cbn; by rewrite ?lookup_delete_ne, ?lookup_insert_ne.
Qed.

Lemma RecordFailure_sim n dur t now ip m h :
  0 < n < 2 ^ 63 -> IsLoopback ip = false -> params_ok n dur m -> sim n t ip m h ->
  sim n t ip (RecordFailure now ip m) (spec_step n dur ip h (OFailure now ip)).
Proof.
  intros Hn Hip [Hmax Hdur] (Hf & Ha & Hb). cbn [spec_step]. rewrite decide_True by done.
  pose proof (Z.mod_pos_bound (failures h) n ltac:(lia)) as Hm.
  unfold RecordFailure. rewrite Hip, Ha, Hmax, Hdur.
  rewrite i64_small by (unfold is_i64; lia).
  unfold sim. cbn [failures banned_until]. rewrite mod_succ by lia.
  destruct (Z.geb_spec (failures h mod n + 1) n), (Z.eqb_spec (failures h mod n + 1) n); try lia;
    cbn [ipBans attempts].
  - rewrite lookup_delete_eq, lookup_insert_eq. split_and!; [lia|done|by left].
  - rewrite lookup_insert_eq. split_and!; [lia|done|].
    by destruct (Z.eqb_spec (failures h mod n + 1) 0); [lia|].
Qed.

Lemma in_force_mono now now' u : now <= now' -> in_force now u = false -> in_force now' u = false.
Proof. unfold in_force. destruct u as [u|]; [|done]. rewrite !Z.leb_gt. lia. Qed.

(** An expired ban is dropped, with no change of what is in force. *)
Lemma IsBanned_sim n t now now' ip m h :
  now' <= t -> sim n t ip m h -> sim n t ip (IsBanned now now' ip m).2 h.
Proof.
  intros Ht (Hf & Ha & Hb). unfold IsBanned. destruct (IsBanned_read now ip m); [by split_and!|].
  unfold IsBanned_locked. destruct (ipBans m !! ip) as [u|] eqn:E.
  2: { unfold sim. cbn [snd]. rewrite E. by split_and!. }
  unfold After. destruct (Z.ltb_spec u now'); cbn [snd]; unfold sim; [|rewrite E; by split_and!].
  split_and!; [done|done|]. cbn [ipBans]. rewrite lookup_delete_eq. right. split; [done|].
  destruct Hb as [<-|[? _]]; [|done]. cbn. apply Z.leb_gt. lia.
Qed.

Lemma IsBanned_other now now' ip' ip m :
  ip <> ip' -> ipBans (IsBanned now now' ip' m).2 !! ip = ipBans m !! ip.
Proof.
  intros Hne. unfold IsBanned. destruct (IsBanned_read now ip' m); [done|].
  unfold IsBanned_locked. destruct (ipBans m !! ip') as [u|]; [|done].
  destruct (After now' u); cbn; [by rewrite lookup_delete_ne|done].
Qed.

Lemma IsBanned_attempts now now' ip m : attempts (IsBanned now now' ip m).2 = attempts m.
Proof. unfold IsBanned, IsBanned_locked. by repeat case_match. Qed.

Lemma step_sim n dur t ip m h o :
  0 < n < 2 ^ 63 -> IsLoopback ip = false -> params_ok n dur m ->
  (forall a b ip', o = OIsBanned a b ip' -> b <= t) ->
  sim n t ip m h -> sim n t ip (step m o) (spec_step n dur ip h o).
Proof.
  intros Hn Hip Hp Ht Hs. destruct o as [now ip'|ip'|now now' ip']; cbn [step].
  - destruct (decide (ip' = ip)) as [->|Hne]; [by apply RecordFailure_sim|].
    cbn [spec_step]. rewrite decide_False by done. unfold sim in *.
    destruct (RecordFailure_other now ip' ip m) as [-> ->]; [congruence|done].
  - destruct Hs as (Hf & Ha & Hb). cbn [spec_step]. unfold sim, ResetAttempts. cbn [ipBans attempts].
    destruct (decide (ip' = ip)) as [->|Hne]; cbn [failures banned_until].
    + rewrite lookup_delete_eq. by split_and!.
    + by rewrite lookup_delete_ne.
  - cbn [spec_step]. destruct (decide (ip' = ip)) as [->|Hne].
    + apply IsBanned_sim; [by eapply Ht|done].
    + unfold sim in *. rewrite IsBanned_attempts, IsBanned_other by congruence. done.
Qed.

Lemma run_sim n dur t ip ops m h :
  0 < n < 2 ^ 63 -> IsLoopback ip = false -> params_ok n dur m ->
  Forall (λ c, c <= t) (check_times ops) ->
  sim n t ip m h ->
  params_ok n dur (run ops m) /\ sim n t ip (run ops m) (foldl (spec_step n dur ip) h ops).
Proof.
  intros Hn Hip. revert m h. induction ops as [|o ops IH]; intros m h Hp Ht Hs; [done|].
  cbn [run foldl]. apply IH; [by apply step_params| |apply step_sim; try done].
  - unfold check_times in Ht. destruct o; cbn in Ht; [done|done|by inversion Ht].
  - intros a b ip' ->. unfold check_times in Ht. cbn in Ht. by inversion Ht.
Qed.

(** * Properties *)

Lemma new_sim bans n dur t ip :
  let m := NewBanManager bans n dur in
  params_ok n dur m /\ sim n t ip m {| failures := 0; banned_until := ipBans m !! ip |}.
Proof. intros m. split; [done|]. split_and!; cbn; [lia|done|by left]. Qed.

Lemma loopback_untouched ip ops m :
  IsLoopback ip = true -> attempts m !! ip = None ->
  attempts (run ops m) !! ip = None /\ ipBans (run ops m) !! ip = ipBans m !! ip.
Proof.
  intros Hip. revert m. induction ops as [|o ops IH]; intros m Hm; [done|]. cbn [run foldl].
  assert (attempts (step m o) !! ip = None /\ ipBans (step m o) !! ip = ipBans m !! ip) as [H1 <-];
    [|by apply IH].
  destruct o as [now ip'|ip'|now now' ip']; cbn [step].
  - destruct (decide (ip = ip')) as [<-|Hne]; [unfold RecordFailure; by rewrite Hip|].
    by destruct (RecordFailure_other now ip' ip m Hne) as [-> ->].
  - cbn. destruct (decide (ip = ip')) as [<-|Hne]; [by rewrite lookup_delete_eq|by rewrite lookup_delete_ne].
  - rewrite IsBanned_attempts. destruct (decide (ip = ip')) as [<-|Hne]; [|by rewrite IsBanned_other].
    unfold IsBanned, IsBanned_read. by rewrite Hip.
Qed.



(** What other calls between the two sections of [IsBanned] can do to its
    answer: an address is never let through on account of an expired ban if a
    newer ban is in force when the lock is held; but of two callers that both saw
    the expired ban only the first is told it is over, the second is told that
    the address is banned although it has no ban any more. *)
Theorem IsBanned_interleaved (now now' now'' u : Time) ip m :
  IsLoopback ip = false -> ipBans m !! ip = Some u -> u < now -> u < now' ->
  IsBanned_read now ip m = None /\
  (forall m2, (IsBanned_locked now' ip m2).1 = false ->
     in_force now' (ipBans m2 !! ip) = false /\ ipBans m2 !! ip <> None) /\
  let '(first, m1) := IsBanned_locked now' ip m in
  let '(second, m2) := IsBanned_locked now'' ip m1 in
  first = false /\ ipBans m1 !! ip = None /\ second = true /\ m2 = m1 /\
  (IsBanned now'' now'' ip m2).1 = false.
Proof.
  intros Hip Hu Ht Ht'. split; [|split].
  - unfold IsBanned_read, After. rewrite Hip, Hu. by destruct (Z.ltb_spec u now); [|lia].
  - intros m2. unfold IsBanned_locked, After. destruct (ipBans m2 !! ip) as [u2|]; [|done].
    destruct (Z.ltb_spec u2 now'); [|done]. intros _. split; [|done]. cbn. apply Z.leb_gt. lia.
  - destruct (IsBanned_locked now' ip m) as [first m1] eqn:E1.
    unfold IsBanned_locked, After in E1. rewrite Hu in E1.
    destruct (Z.ltb_spec u now'); [|lia]. injection E1 as <- <-.
    unfold IsBanned_locked. cbn [ipBans]. rewrite lookup_delete_eq. split_and!; try done.
    unfold IsBanned, IsBanned_read. rewrite Hip. cbn [ipBans]. by rewrite lookup_delete_eq.
Qed.

Lemma IsBanned_interleaved_witness :
  let ip := IPv4 7 in
  let m := NewBanManager (inr [(ip, 100)]) 3 50 in
  IsBanned_read 101 ip m = None /\
  (forall m2, (IsBanned_locked 102 ip m2).1 = false ->
     in_force 102 (ipBans m2 !! ip) = false /\ ipBans m2 !! ip <> None) /\
  let '(first, m1) := IsBanned_locked 102 ip m in
  let '(second, m2) := IsBanned_locked 103 ip m1 in
  first = false /\ ipBans m1 !! ip = None /\ second = true /\ m2 = m1 /\
  (IsBanned 103 103 ip m2).1 = false.
Proof. apply (IsBanned_interleaved 101 102 103 100 (IPv4 7)); [reflexivity|reflexivity|lia|lia]. Defined.
