(* ===== verification/GsHandlers.v ===== *)
(** [internal/packet/gs/] and [internal/client/gs_client.go]: the packets of a
    game server.  A handler runs on the packet's reader, the connection's
    [GameServerClient] and the services the controllers hold; what it changed
    before it returns an error stays changed. *)
From stdpp Require Import base gmap list numbers strings.
From coqutil Require Import Byte Word.LittleEndianList.
From Stdlib Require Import Lia ZArith.
From S2P Require Import Prelude.
From S2P Require Import Unicode.
From S2P Require Import PacketReader.
From S2P Require Import PacketWriter.
From S2P Require Import PacketCodec.
From S2P Require Import Keys.
From S2P Require Import GoStd.
From S2P Require Import Sharding.
From S2P Require Import SessionStore.
From S2P Require Import SessionRegistry.
From S2P Require Import ServerList.
Import SessionKeys.
Local Open Scope Z_scope.

(** Opcodes. *)
Definition GameServerAuth : Z := 0x01.
Definition PlayerInGame : Z := 0x02.
Definition PlayerLogout : Z := 0x03.
Definition PlayerAuthRequest : Z := 0x05.
Definition ServerStatusUpdate : Z := 0x06.
Definition ReplyCharacters : Z := 0x08.
Definition AuthResponse : byte := byte.of_Z 0x02.
Definition PlayerAuthResponse : byte := byte.of_Z 0x03.

Definition MaxHexKeySize : Z := 512.
Definition MaxHostCountCeil : Z := 8.
Definition MaxPlayerSyncBatch : Z := 256.
Definition MaxStatusAttributes : Z := 16.

Definition ErrPayloadTooLarge : error :=
  "handshake payload size exceeds allowed security threshold"%string.
Definition ErrExceededBatchLimit : error :=
  "player sync batch size exceeds maximum allowed limit"%string.
Definition ErrMalformedPacketSize : error :=
  "packet update batch size exceeds maximum permitted threshold"%string.

(** What a handler can reach: the reader, the services, the server id of the
    connection ([gsc.ServerID], 0 before the first Init) and the packets written
    to the connection so far. *)
Record gs_state := mkGs {
  gs_rd : PacketReader;
  gs_servers : ServerList;
  gs_sessions : registry;
  gs_handoffs : store;
  gs_id : Z;
  gs_sent : list (list byte) }.

Definition set_rd (r : PacketReader) (s : gs_state) : gs_state :=
  {| gs_rd := r; gs_servers := gs_servers s; gs_sessions := gs_sessions s;
     gs_handoffs := gs_handoffs s; gs_id := gs_id s; gs_sent := gs_sent s |}.

(** [reader.ReadX()] inside a handler. *)
Definition rd {A} (m : M PacketReader A) : M gs_state A := λ s,
  let '(o, r) := m (gs_rd s) in (o, set_rd r s).

(** Calls on the services and assignments to the connection's fields. *)
Definition on_servers (f : Z -> ServerList -> ServerList) : M gs_state unit := λ s,
  (Val tt, {| gs_rd := gs_rd s; gs_servers := f (gs_id s) (gs_servers s);
              gs_sessions := gs_sessions s; gs_handoffs := gs_handoffs s; gs_id := gs_id s;
              gs_sent := gs_sent s |}).
Definition on_sessions (f : Z -> registry -> registry) : M gs_state unit := λ s,
  (Val tt, {| gs_rd := gs_rd s; gs_servers := gs_servers s;
              gs_sessions := f (gs_id s) (gs_sessions s); gs_handoffs := gs_handoffs s;
              gs_id := gs_id s; gs_sent := gs_sent s |}).
Definition set_id (id : Z) : M gs_state unit := λ s,
  (Val tt, {| gs_rd := gs_rd s; gs_servers := gs_servers s; gs_sessions := gs_sessions s;
              gs_handoffs := gs_handoffs s; gs_id := id; gs_sent := gs_sent s |}).
Definition validate_handoff (now : Time) (id : Z) : M gs_state (option Session) := λ s,
  let '(found, st) := ValidateAndDelete now id (gs_handoffs s) in
  (Val found, {| gs_rd := gs_rd s; gs_servers := gs_servers s; gs_sessions := gs_sessions s;
                 gs_handoffs := st; gs_id := gs_id s; gs_sent := gs_sent s |}).

Section Handlers.
(** The growth of [append], the writer the pool hands out, the pooled decoding
    buffer, what [time.Now()] yields, and the representative of a rune's
    [unicode.SimpleFold] orbit. *)
Context (grow : nat -> nat -> nat) (pooled : PacketWriter) (pBuf : list Z) (now : Time)
  (simple_fold : Z -> Z).

(** [gsc.Send(opcode, build)] for a builder that writes [fields]; a failing
    write is ignored by every caller. *)
Definition Send (opcode : byte) (fields : list field) : M gs_state unit := λ s,
  match build_packet grow pooled (FByte opcode :: fields) with
  | Val w => (Val tt, {| gs_rd := gs_rd s; gs_servers := gs_servers s; gs_sessions := gs_sessions s;
                         gs_handoffs := gs_handoffs s; gs_id := gs_id s;
                         gs_sent := gs_sent s ++ [Bytes w] |})
  | Fail err => (Fail err, s)
  | Panic => (Panic, s)
  end.

(** [for i := 1; i < hostCount; i++ { r.SkipString() }]. *)
Fixpoint skip_strings (n : nat) : M gs_state unit :=
  match n with
  | O => mret tt
  | S n => _ ← rd SkipString; skip_strings n
  end.

Definition HandleInit : M gs_state unit :=
  serverID ← rd ReadByte;
  _ ← rd ReadByte;
  _ ← rd ReadByte;
  serverPort ← rd ReadInt16;
  maxPlayers ← rd ReadInt32;
  hexSize ← rd ReadInt32;
  if (hexSize <? 0) || (hexSize >? MaxHexKeySize) then fail ErrPayloadTooLarge else
  _ ← rd (ReadBytes hexSize);
  hostCount ← rd ReadInt32;
  if (hostCount <? 0) || (hostCount >? MaxHostCountCeil) then fail ErrPayloadTooLarge else
  serverHost ← (if hostCount >? 0
                then host ← rd (ReadString pBuf);
                     _ ← skip_strings (Z.to_nat (hostCount - 1));
                     mret host
                else mret []);
  pvp ← rd ReadByte;
  brackets ← rd ReadByte;
  serverType ← rd ReadInt32;
  let sid := byte.unsigned serverID in
  _ ← set_id sid;
  let srvConfig :=
    {| ServerList.ID := sid; IP := serverHost; Port := serverPort; CurrentPlayers := 0;
       MaxPlayers := i16 maxPlayers; Pvp := byte.unsigned pvp =? 1;
       Brackets := byte.unsigned brackets =? 1; ServerType := serverType; Status := 1 |} in
  _ ← on_servers (λ _, ServerList.Register srvConfig);
  Send AuthResponse [FByte serverID].

(** [for i := 0; i < size; i++ { account := ReadString(); SetGS(account, gsc.ServerID) }]. *)
Fixpoint in_game_loop (n : nat) : M gs_state unit :=
  match n with
  | O => mret tt
  | S n =>
    account ← rd (ReadString pBuf);
    _ ← on_sessions (λ id, SetGS account id);
    in_game_loop n
  end.

Definition HandlePlayerInGame : M gs_state unit :=
  size ← rd ReadInt16;
  if (size <? 0) || (size >? MaxPlayerSyncBatch) then fail ErrExceededBatchLimit else
  in_game_loop (Z.to_nat size).

Definition HandlePlayerLogout : M gs_state unit :=
  account ← rd (ReadString pBuf);
  on_sessions (λ id r,
    match Get account r with
    | Some sess =>
      if SessionRegistry.ServerID sess =? id
      then (SessionRegistry.Unregister account (SessionID sess) r).2 else r
    | None => r
    end).

Definition HandleReplyCharacters : M gs_state unit :=
  account ← rd (ReadString pBuf);
  chars ← rd ReadByte;
  _ ← rd ReadByte;
  on_servers (λ id, SetCharCount account id chars).

Fixpoint status_loop (n : nat) : M gs_state unit :=
  match n with
  | O => mret tt
  | S n =>
    infoType ← rd ReadInt32;
    value ← rd ReadInt32;
    _ ← on_servers (λ id, UpdateStatus id infoType value);
    status_loop n
  end.

Definition HandleStatus : M gs_state unit :=
  size ← rd ReadInt32;
  if (size <? 0) || (size >? MaxStatusAttributes) then fail ErrMalformedPacketSize else
  status_loop (Z.to_nat size).

(** [strings.EqualFold]. *)
Definition EqualFold (s t : gostring) : bool :=
  bool_decide (simple_fold <$> runes s = simple_fold <$> runes t).

Definition HandleValidate : M gs_state unit :=
  account ← rd (ReadString pBuf);
  PlayOkID1 ← rd ReadInt32;
  PlayOkID2 ← rd ReadInt32;
  LoginOkID1 ← rd ReadInt32;
  LoginOkID2 ← rd ReadInt32;
  found ← validate_handoff now LoginOkID1;
  let accepted :=
    match found with
    | Some sess =>
      if EqualFold (Account sess) account
         && CheckPlayPair (Key sess) LoginOkID1 LoginOkID2 PlayOkID1 PlayOkID2
      then Some (AccountID sess) else None
    | None => None
    end in
  Send PlayerAuthResponse
    [FString account; FByte (match accepted with Some _ => Byte.x01 | None => Byte.x00 end);
     FInt32 LoginOkID1; FInt64 (default 0 accepted)].

(** ** [handler.go]: the flat array of handlers *)

Definition Registry : Type := list (option (M gs_state unit)).
Definition NewRegistry : Registry := replicate 256 None.
Definition Register (opcode : Z) (handler : M gs_state unit) (reg : Registry) : Registry :=
  <[Z.to_nat opcode := Some handler]> reg.
(** [Registry.Handle]: a packet with an opcode nobody registered is ignored. *)
Definition route (reg : Registry) (opcode : byte) : M gs_state unit :=
  match nth (Z.to_nat (byte.unsigned opcode)) reg None with
  | None => mret tt
  | Some handler => handler
  end.

(** The handlers [NewGameServerListener] registers. *)
Definition gs_registry : Registry :=
  Register ServerStatusUpdate HandleStatus
    (Register ReplyCharacters HandleReplyCharacters
      (Register PlayerAuthRequest HandleValidate
        (Register PlayerLogout HandlePlayerLogout
          (Register PlayerInGame HandlePlayerInGame
            (Register GameServerAuth HandleInit NewRegistry))))).

Definition Handle (opcode : byte) : M gs_state unit := route gs_registry opcode.

(** Dispatch: each opcode finds the handler registered for it. *)
Lemma gs_Handle_registered opcode :
  Handle opcode =
  let op := byte.unsigned opcode in
  if op =? GameServerAuth then HandleInit
  else if op =? PlayerInGame then HandlePlayerInGame
  else if op =? PlayerLogout then HandlePlayerLogout
  else if op =? PlayerAuthRequest then HandleValidate
  else if op =? ReplyCharacters then HandleReplyCharacters
  else if op =? ServerStatusUpdate then HandleStatus
  else mret tt.
Proof. by destruct opcode. Qed.
End Handlers.

(** * Safety of the handlers *)

(** A handler that neither panics nor leaves its packet. *)
Definition safe_handler {A} (m : M gs_state A) : Prop := forall s,
  reader_ok (gs_rd s) ->
  is_panic (m s).1 = false /\ reader_ok (gs_rd (m s).2) /\
  rbuf (gs_rd (m s).2) = rbuf (gs_rd s) /\ pos (gs_rd s) <= pos (gs_rd (m s).2).

Lemma safe_h_rd {A} (m : M PacketReader A) : safe_read m -> safe_handler (rd m).
Proof.
  intros Hm s Hs. unfold rd. specialize (Hm _ Hs). by destruct (m (gs_rd s)) as [o r].
Qed.

Lemma safe_h_ret {A} (a : A) : safe_handler (mret a).
Proof. intros s Hs. split_and!; (done || lia). Qed.

Lemma safe_h_fail {A} e : safe_handler (A := A) (fail e).
Proof. intros s Hs. split_and!; (done || lia). Qed.

Lemma safe_h_bind {A B} (m : M gs_state A) (k : A -> M gs_state B) :
  safe_handler m -> (forall a, safe_handler (k a)) -> safe_handler (m ≫= k).
Proof.
  intros Hm Hk s Hs. specialize (Hm s Hs). unfold mbind, M_bind.
  destruct (m s) as [[a|e|] s']; cbn [fst snd] in *; [|done|done].
  destruct Hm as (_ & Hs' & Hb & Hp). destruct (Hk a s' Hs') as (H1 & H2 & H3 & H4).
  split_and!; [done|done|congruence|lia].
Qed.

Lemma safe_h_servers f : safe_handler (on_servers f).
Proof. intros s Hs. split_and!; (done || cbn; lia). Qed.
Lemma safe_h_sessions f : safe_handler (on_sessions f).
Proof. intros s Hs. split_and!; (done || cbn; lia). Qed.
Lemma safe_h_set_id id : safe_handler (set_id id).
Proof. intros s Hs. split_and!; (done || cbn; lia). Qed.

Create HintDb handlers.
#[export] Hint Resolve safe_h_rd safe_h_ret safe_h_fail safe_h_bind safe_h_servers
  safe_h_sessions safe_h_set_id : handlers.

(** Splits a handler into its steps. *)
Ltac safe_steps :=
  repeat first
    [ progress intros
    | apply safe_h_bind
    | match goal with |- safe_handler (if ?b then _ else _) => destruct b eqn:? end
    | solve [eauto 3 with handlers reader] ].

Section Safety.
Context (grow : nat -> nat -> nat) (pooled : PacketWriter) (pBuf : list Z) (now : Time)
  (simple_fold : Z -> Z).

Lemma safe_Send opcode fields :
  Z.of_nat (packet_size (FByte opcode :: fields)) <= 65535 -> safe_handler (Send grow pooled opcode fields).
Proof.
  intros Hs s Hr. unfold Send. destruct (build_packet_spec grow pooled _ Hs) as (w & -> & _).
  split_and!; (done || cbn; lia).
Qed.

Lemma safe_skip_strings n : safe_handler (skip_strings n).
Proof. induction n as [|n IH]; cbn [skip_strings]; safe_steps. Qed.

Lemma safe_in_game_loop n : safe_handler (in_game_loop pBuf n).
Proof. induction n as [|n IH]; cbn [in_game_loop]; safe_steps. Qed.

Lemma safe_status_loop n : safe_handler (status_loop n).
Proof. induction n as [|n IH]; cbn [status_loop]; safe_steps. Qed.

Lemma safe_HandleInit : safe_handler (HandleInit grow pooled pBuf).
Proof.
  unfold HandleInit. safe_steps.
  - apply safe_h_rd, safe_ReadBytes.
    match goal with H : (_ <? 0) || (_ >? MaxHexKeySize) = false |- _ =>
      apply orb_false_iff in H as [? ?] end.
    unfold MaxHexKeySize, MaxPacketSize in *. lia.
  - apply safe_skip_strings.
  - by apply safe_Send.
Qed.

Lemma safe_HandlePlayerInGame : safe_handler (HandlePlayerInGame pBuf).
Proof. unfold HandlePlayerInGame. safe_steps. apply safe_in_game_loop. Qed.

Lemma safe_HandlePlayerLogout : safe_handler (HandlePlayerLogout pBuf).
Proof. unfold HandlePlayerLogout. safe_steps. Qed.

Lemma safe_HandleReplyCharacters : safe_handler (HandleReplyCharacters pBuf).
Proof. unfold HandleReplyCharacters. safe_steps. Qed.

Lemma safe_HandleStatus : safe_handler HandleStatus.
Proof. unfold HandleStatus. safe_steps. apply safe_status_loop. Qed.

(** The text of a string takes no more room to send than it took to receive. *)
Lemma ReadString_room r s r' :
  reader_ok r -> (1024 <= length pBuf)%nat -> ReadString pBuf r = (Val s, r') ->
  reader_ok r' /\ rbuf r' = rbuf r /\ pos r + Z.of_nat (length (utf16le s)) + 2 <= pos r'.
Proof.
  intros Hr Hp E. pose proof (safe_ReadString pBuf r Hr) as Hsafe. rewrite E in Hsafe.
  destruct Hsafe as (_ & Hr' & Hb & _). split_and!; [done|done|].
  rewrite ReadString_spec in E by done.
  destruct (find_terminator 0 (rest r)) as [k|] eqn:Ek; [|done]. injection E as <- <-.
  pose proof (find_terminator_bound r k Hr Ek) as Hk.
  assert (Forall is_u16 (le_units (take k (rest r)))) as Hu by apply le_units_u16.
  destruct (utf16_decode_any _ Hu) as [Hsc Hlen].
  unfold utf16le. rewrite runes_string_of_runes, length_le_bytes, Hlen by done.
  pose proof (length_le_units (take k (rest r))) as Hlu. rewrite length_take in Hlu.
  cbn [pos set_pos]. pose proof (length_rest r Hr). lia.
Qed.
End Safety.

(** What holds after a handler that returns a value; an error asks nothing, a
    panic is excluded. *)
Definition post {A} (m : M gs_state A) (s : gs_state) (Q : A -> gs_state -> Prop) : Prop :=
  match m s with
  | (Val a, s') => Q a s'
  | (Fail _, _) => True
  | (Panic, _) => False
  end.

Lemma post_bind {A B} (m : M gs_state A) (k : A -> M gs_state B) s Q :
  post m s (λ a s', post (k a) s' Q) -> post (m ≫= k) s Q.
Proof. unfold post, mbind, M_bind. by destruct (m s) as [[a|e|] s']. Qed.

Lemma post_ReadInt32 s Q :
  reader_ok (gs_rd s) ->
  (forall v r', reader_ok r' -> rbuf r' = rbuf (gs_rd s) -> pos r' = pos (gs_rd s) + 4 -> Q v (set_rd r' s)) ->
  post (rd ReadInt32) s Q.
Proof.
  intros Hr HQ. unfold post, rd, ReadInt32, ReadUint32, mbind, M_bind.
  destruct (Z.le_gt_cases (Z.of_nat 4) (ReadableBytes (gs_rd s))) as [Hle|Hlt].
  - rewrite read_uint_val by done. apply HQ; [apply reader_ok_advance; [done|lia]|done|done].
  - by rewrite read_uint_short by lia.
Qed.

Lemma post_ReadString pBuf s Q :
  reader_ok (gs_rd s) -> (1024 <= length pBuf)%nat ->
  (forall t r', reader_ok r' -> rbuf r' = rbuf (gs_rd s) ->
     pos (gs_rd s) + Z.of_nat (length (utf16le t)) + 2 <= pos r' -> Q t (set_rd r' s)) ->
  post (rd (ReadString pBuf)) s Q.
Proof.
  intros Hr Hp HQ. unfold post, rd. pose proof (safe_ReadString pBuf (gs_rd s) Hr) as Hs.
  destruct (ReadString pBuf (gs_rd s)) as [[t|e|] r'] eqn:E; [|done|by destruct Hs].
  destruct (ReadString_room pBuf _ _ _ Hr Hp E) as (H1 & H2 & H3). by apply HQ.
Qed.

Section Properties.
Context (grow : nat -> nat -> nat) (pooled : PacketWriter) (pBuf : list Z) (now : Time)
  (simple_fold : Z -> Z).

(** A frame carries at most 65535 bytes, its length and its opcode included. *)
Definition MaxPayload : Z := 65532.

Lemma HandleValidate_post s :
  reader_ok (gs_rd s) -> (1024 <= length pBuf)%nat -> rlen (gs_rd s) <= MaxPayload ->
  post (HandleValidate grow pooled pBuf now simple_fold) s (λ _ _, True).
Proof.
  intros Hr Hp Hlen. unfold HandleValidate, MaxPayload, rlen in *.
  apply post_bind, post_ReadString; [done|done|]. intros account r1 Hr1 Hb1 Hp1.
  apply post_bind, post_ReadInt32; [done|]. cbn [gs_rd set_rd]. intros p1 r2 Hr2 Hb2 Hp2.
  apply post_bind, post_ReadInt32; [done|]. cbn [gs_rd set_rd]. intros p2 r3 Hr3 Hb3 Hp3.
  apply post_bind, post_ReadInt32; [done|]. cbn [gs_rd set_rd]. intros l1 r4 Hr4 Hb4 Hp4.
  apply post_bind, post_ReadInt32; [done|]. cbn [gs_rd set_rd]. intros l2 r5 Hr5 Hb5 Hp5.
  apply post_bind. unfold post at 1, validate_handoff. cbn [gs_rd gs_handoffs set_rd].
  destruct (ValidateAndDelete now l1 _) as [found st].
  set (accepted := match found with Some _ => _ | None => None end).
  assert (Z.of_nat (packet_size [FByte PlayerAuthResponse; FString account;
    FByte (match accepted with Some _ => Byte.x01 | None => Byte.x00 end); FInt32 l1;
    FInt64 (default 0 accepted)]) <= 65535) as Hsz.
  { unfold packet_size. cbn [mbind list_bind field_bytes].
    rewrite !length_app, !length_le_split. cbn [length].
    assert (length (rbuf r5) = length (rbuf (gs_rd s))) as Hl by congruence.
    pose proof (proj1 Hr5) as Hend. unfold rlen in Hend. pose proof (proj1 (proj1 Hr)). lia. }
  unfold post, Send. by destruct (build_packet_spec grow pooled _ Hsz) as (w & -> & _).
Qed.

Lemma Handle_no_panic opcode payload s r :
  (1024 <= length pBuf)%nat -> Z.of_nat (length payload) <= MaxPayload ->
  GetPacketReader payload = Val r ->
  is_panic (Handle grow pooled pBuf now simple_fold opcode (set_rd r s)).1 = false.
Proof.
  intros Hp Hl Hg. pose proof (GetPacketReader_ok _ _ Hg) as Hr.
  assert (rlen r <= MaxPayload) as Hlen.
  { unfold GetPacketReader in Hg. destruct (_ || _); [done|]. by injection Hg as <-. }
  assert (forall m : M gs_state unit, safe_handler m -> is_panic (m (set_rd r s)).1 = false) as Hsafe
    by (intros m Hm; by apply Hm).
  rewrite gs_Handle_registered. cbv zeta. repeat case_match; try solve [apply Hsafe;
    auto using safe_HandleInit, safe_HandlePlayerInGame, safe_HandlePlayerLogout,
      safe_HandleReplyCharacters, safe_HandleStatus, safe_h_ret].
  pose proof (HandleValidate_post (set_rd r s) Hr Hp Hlen) as H'. unfold post in H'.
  by destruct (HandleValidate grow pooled pBuf now simple_fold (set_rd r s)) as [[u|e|] s'].
Qed.

(** C16: no packet of a game server can crash the login server in a handler: for
    every opcode and every payload of a frame, and whatever the state of the
    services, the handler returns or reports an error; the reply it may send
    always fits in a frame. *)
Theorem gs_handlers_never_panic opcode payload s r :
  (1024 <= length pBuf)%nat -> Z.of_nat (length payload) <= MaxPayload ->
  GetPacketReader payload = Val r ->
  is_panic (Handle grow pooled pBuf now simple_fold opcode (set_rd r s)).1 = false.
Proof. apply Handle_no_panic. Qed.

(** The account a found hand-off admits, and the one a game server is answered in
    terms of the hand-offs clients made. *)
Definition verdict (found : option Session) (account : gostring) (l1 l2 p1 p2 : Z) : option Z :=
  match found with
  | Some sess =>
    if EqualFold simple_fold (Account sess) account &&
       bool_decide (Key sess = mkSessionKey l1 l2 p1 p2)
    then Some (AccountID sess) else None
  | None => None
  end.
Definition accepts (ops : list SessionStore.op) (account : gostring) (l1 l2 p1 p2 : Z) : option Z :=
  verdict (keep_if (not_expired now) (pending l1 ops None)) account l1 l2 p1 p2.

Lemma CheckPlayPair_key k l1 l2 p1 p2 :
  CheckPlayPair k l1 l2 p1 p2 = bool_decide (k = mkSessionKey l1 l2 p1 p2).
Proof.
  apply eq_true_iff_eq. rewrite CheckPlayPair_iff, bool_decide_eq_true. destruct k. cbn.
  split; [intros (-> & -> & -> & ->); done|by intros [= -> -> -> ->]].
Qed.

Lemma rd_val {A B} (m : M PacketReader A) (k : A -> M gs_state B) s a r' :
  m (gs_rd s) = (Val a, r') -> (rd m ≫= k) s = k a (set_rd r' s).
Proof. intros E. apply M_bind_val. unfold rd. by rewrite E. Qed.

Lemma ReadInt32_at v tail r :
  is_i32 v -> at_bytes (le_split 4 v) tail r ->
  ReadInt32 r = (Val v, set_pos (pos r + 4) r) /\ at_bytes [] tail (set_pos (pos r + 4) r).
Proof.
  intros Hv Ha. split; [|by apply (at_bytes_advance (le_split 4 v))].
  unfold ReadInt32, ReadUint32. rewrite (read_int_at 4 i32 v tail r Ha).
  change (v mod 2 ^ (Z.of_nat 4 * 8)) with (u32 v). by rewrite i32_u32, i32_small.
Qed.

Lemma ValidateAndDelete_handoff ops id :
  gc_before now ops ->
  ValidateAndDelete now id (SessionStore.run ops empty_store)
  = (keep_if (not_expired now) (pending id ops None),
     SessionStore.run (ops ++ [OValidate now id]) empty_store).
Proof.
  intros Hgc. unfold SessionStore.run at 2. rewrite foldl_app. cbn [foldl SessionStore.step].
  fold (SessionStore.run ops empty_store). rewrite <- validate_pending by done.
  by destruct (ValidateAndDelete now id _).
Qed.

(** The fields of a player validation request and of its answer. *)
Definition validate_request (account : gostring) (l1 l2 p1 p2 : Z) : list field :=
  [FString account; FInt32 p1; FInt32 p2; FInt32 l1; FInt32 l2].
Definition validate_answer (account : gostring) (l1 : Z) (accepted : option Z) : list field :=
  [FByte PlayerAuthResponse; FString account;
   FByte (match accepted with Some _ => Byte.x01 | None => Byte.x00 end); FInt32 l1;
   FInt64 (default 0 accepted)].

(** What the handler does with a well-formed request, on any store. *)
Lemma HandleValidate_spec s account l1 l2 p1 p2 :
  (1024 <= length pBuf)%nat ->
  Forall field_ok (validate_request account l1 l2 p1 p2) ->
  at_bytes (validate_request account l1 l2 p1 p2 ≫= field_bytes) [] (gs_rd s) ->
  rlen (gs_rd s) <= MaxPayload ->
  let found := ValidateAndDelete now l1 (gs_handoffs s) in
  let answer := validate_answer account l1 (verdict found.1 account l1 l2 p1 p2) in
  exists s', HandleValidate grow pooled pBuf now simple_fold s = (Val tt, s') /\
    gs_sent s' = gs_sent s ++ [le_split 2 (Z.of_nat (packet_size answer)) ++ (answer ≫= field_bytes)] /\
    gs_handoffs s' = found.2 /\
    gs_servers s' = gs_servers s /\ gs_sessions s' = gs_sessions s /\ gs_id s' = gs_id s.
Proof.
  intros Hp Hok Ha Hlen found answer.
  unfold validate_request in *. cbn [mbind list_bind field_bytes] in Ha.
  rewrite app_nil_r in Ha. rewrite !Forall_cons in Hok.
  destruct Hok as ([Hv Hn] & Hp1 & Hp2 & Hl1 & Hl2 & _). cbn [field_ok] in *.
  assert (Z.of_nat (length (utf16le account)) + 18 <= MaxPayload) as Hroom.
  { pose proof (at_bytes_len _ _ _ Ha) as Hl. rewrite !length_app, !length_le_split in Hl. cbn [length] in Hl.
    destruct Ha as [[Hpos _] _]. unfold ReadableBytes in Hl. lia. }
  assert (at_bytes (utf16le account ++ [Byte.x00; Byte.x00])
    (le_split 4 p1 ++ le_split 4 p2 ++ le_split 4 l1 ++ le_split 4 l2) (gs_rd s)) as Ha0.
  { destruct Ha as [Hr E]. split; [done|]. by rewrite E, app_nil_r. }
  pose proof (at_bytes_advance _ _ _ Ha0) as Ha1. pose proof (ReadString_at pBuf _ _ _ Hp Hn Ha0) as E0.
  rewrite string_of_runes_runes in E0 by done. set (r1 := set_pos _ (gs_rd s)) in *. cbn [app] in Ha1.
  unfold HandleValidate. rewrite (rd_val _ _ _ _ _ E0).
  destruct (ReadInt32_at p1 (le_split 4 p2 ++ le_split 4 l1 ++ le_split 4 l2) r1 Hp1 Ha1) as [E1 Ha2].
  rewrite (rd_val _ _ (set_rd r1 s) _ _ E1). set (r2 := set_pos _ r1) in *. cbn [app] in Ha2.
  destruct (ReadInt32_at p2 (le_split 4 l1 ++ le_split 4 l2) r2 Hp2 Ha2) as [E2 Ha3].
  rewrite (rd_val _ _ (set_rd r2 _) _ _ E2). set (r3 := set_pos _ r2) in *. cbn [app] in Ha3.
  destruct (ReadInt32_at l1 (le_split 4 l2) r3 Hl1 Ha3) as [E3 Ha4].
  rewrite (rd_val _ _ (set_rd r3 _) _ _ E3). set (r4 := set_pos _ r3) in *. cbn [app] in Ha4.
  destruct (ReadInt32_at l2 [] r4 Hl2) as [E4 Ha5].
  { destruct Ha4 as [Hr4 E4]. split; [done|]. by rewrite E4, app_nil_r. }
  rewrite (rd_val _ _ (set_rd r4 _) _ _ E4). set (r5 := set_pos _ r4) in *.
  unfold found in answer |- *. clear found. destruct (ValidateAndDelete now l1 (gs_handoffs s)) as [found st] eqn:Ev.
  erewrite M_bind_val.
  2: { unfold validate_handoff. cbn [gs_handoffs set_rd]. rewrite Ev. reflexivity. }
  cbn [fst snd] in answer |- *.
  set (accepted := match found with Some _ => _ | None => None end).
  assert (accepted = verdict found account l1 l2 p1 p2) as Hacc.
  { unfold accepted, verdict. destruct found as [sess|]; [|done]. by rewrite CheckPlayPair_key. }
  rewrite Hacc. unfold Send.
  change (FByte PlayerAuthResponse :: _) with answer.
  assert (Z.of_nat (packet_size answer) <= 65535) as Hsz.
  { unfold packet_size, answer, validate_answer. cbn [mbind list_bind field_bytes].
    rewrite !length_app, !length_le_split. cbn [length]. unfold MaxPayload in Hroom. lia. }
  destruct (build_packet_spec grow pooled answer Hsz) as (w & E & Hw & _). rewrite E.
  eexists. split; [reflexivity|]. cbn [gs_sent gs_handoffs gs_servers gs_sessions gs_id set_rd].
  by rewrite Hw.
Qed.

(** C3: a player is let into a game exactly with the hand-off the login server
    made for him: a validation request is answered positively, with the account
    id of the hand-off, if and only if a hand-off waits under the given id, has
    not expired, is for that account (letter case aside) and all four
    identifiers match; right or wrong, the request consumes the hand-off, and it
    changes nothing else. *)
Theorem validate_answers ops s account l1 l2 p1 p2 :
  (1024 <= length pBuf)%nat -> gc_before now ops ->
  gs_handoffs s = SessionStore.run ops empty_store ->
  Forall field_ok (validate_request account l1 l2 p1 p2) ->
  at_bytes (validate_request account l1 l2 p1 p2 ≫= field_bytes) [] (gs_rd s) ->
  rlen (gs_rd s) <= MaxPayload ->
  let answer := validate_answer account l1 (accepts ops account l1 l2 p1 p2) in
  exists s', HandleValidate grow pooled pBuf now simple_fold s = (Val tt, s') /\
    gs_sent s' = gs_sent s ++ [le_split 2 (Z.of_nat (packet_size answer)) ++ (answer ≫= field_bytes)] /\
    gs_handoffs s' = SessionStore.run (ops ++ [OValidate now l1]) empty_store /\
    gs_servers s' = gs_servers s /\ gs_sessions s' = gs_sessions s /\ gs_id s' = gs_id s.
Proof.
  intros Hp Hgc Hst Hok Ha Hlen. pose proof (HandleValidate_spec s account l1 l2 p1 p2 Hp Hok Ha Hlen) as Hs.
  rewrite Hst, ValidateAndDelete_handoff in Hs by done. exact Hs.
Qed.
End Properties.

Definition sample_request : list byte := validate_request (go_str "ann") 1 2 3 4 ≫= field_bytes.
Definition sample_gs : gs_state :=
  {| gs_rd := {| rbuf := sample_request; pos := 0 |}; gs_servers := NewServerList;
     gs_sessions := NewSessionRegistry;
     gs_handoffs := SessionStore.run [OPut 1 sample_session] empty_store; gs_id := 1; gs_sent := [] |}.

Lemma validate_answers_witness :
  let answer := validate_answer (go_str "ann") 1
    (accepts 50 id [OPut 1 sample_session] (go_str "ann") 1 2 3 4) in
  accepts 50 id [OPut 1 sample_session] (go_str "ann") 1 2 3 4 = Some 7 /\
  exists s', HandleValidate (λ _ n, n) NewPacketWriter fresh_decode_buf 50 id sample_gs = (Val tt, s') /\
    gs_sent s' = [le_split 2 (Z.of_nat (packet_size answer)) ++ (answer ≫= field_bytes)] /\
    gs_handoffs s' = SessionStore.run ([OPut 1 sample_session] ++ [OValidate 50 1]) empty_store /\
    gs_servers s' = NewServerList /\ gs_sessions s' = NewSessionRegistry /\ gs_id s' = 1.
Proof.
  split; [vm_compute; reflexivity|].
  apply (validate_answers (λ _ n, n) NewPacketWriter fresh_decode_buf 50 id [OPut 1 sample_session]
    sample_gs (go_str "ann") 1 2 3 4).
  - vm_compute. lia.
  - intros t i Hin. apply list_elem_of_singleton in Hin. done.
  - reflexivity.
  - repeat constructor; vm_compute; try discriminate; try done; repeat constructor; discriminate.
  - split; [|by rewrite app_nil_r]. unfold reader_ok, rlen, MaxPacketSize. vm_compute. split; [|discriminate].
    split; discriminate.
  - vm_compute. discriminate.
Defined.

Lemma gs_handlers_never_panic_witness :
  is_panic (Handle (λ _ n, n) NewPacketWriter fresh_decode_buf 50 id (byte.of_Z 5)
    (set_rd {| rbuf := sample_request; pos := 0 |} sample_gs)).1 = false.
Proof.
  apply (gs_handlers_never_panic (λ _ n, n) NewPacketWriter fresh_decode_buf 50 id (byte.of_Z 5)
    sample_request sample_gs).
  - vm_compute. lia.
  - vm_compute. discriminate.
  - vm_compute. reflexivity.
Defined.

(** * Isolation *)

(** What may become of an account's entry at the hands of server [id]: it is
    moved to the server, or it was on the server and is dropped. *)
Definition moved (id : Z) (e e' : option SessionInfo) : Prop :=
  e' = e \/ exists x, e = Some x /\ e' = Some {| LoginTime := LoginTime x;
    LastRejectionTime := LastRejectionTime x; SessionID := SessionID x; SessionRegistry.ServerID := id |}.
Definition moved_or_dropped (id : Z) (e e' : option SessionInfo) : Prop :=
  moved id e e' \/ exists x, e = Some x /\ SessionRegistry.ServerID x = id /\ e' = None.

(** Everything that is not the server's own is as it was. *)
Definition only_own (E : option SessionInfo -> option SessionInfo -> Prop) (s s' : gs_state) : Prop :=
  gs_id s' = gs_id s /\ gs_handoffs s' = gs_handoffs s /\
  (forall j, 0 <= j -> j <> gs_id s ->
     servers (gs_servers s') !! Z.to_nat j = servers (gs_servers s) !! Z.to_nat j /\
     active (gs_servers s') !! Z.to_nat j = active (gs_servers s) !! Z.to_nat j /\
     forall a, (GetCharCounts a (gs_servers s')).1 !! Z.to_nat j
             = (GetCharCounts a (gs_servers s)).1 !! Z.to_nat j) /\
  (shards_ok (gs_sessions s) -> shards_ok (gs_sessions s') /\
     forall u, E (Get u (gs_sessions s)) (Get u (gs_sessions s'))).

Definition own_handler {A} (m : M gs_state A) : Prop :=
  forall s, only_own (moved (gs_id s)) s (m s).2.

Lemma moved_trans id e1 e2 e3 : moved id e1 e2 -> moved id e2 e3 -> moved id e1 e3.
Proof.
  intros [->|(x & -> & ->)] H; [done|]. destruct H as [->|(y & [= <-] & ->)]; right; by eexists.
Qed.

Lemma only_own_refl E s : (forall e, E e e) -> only_own E s s.
Proof. intros HE. by split_and!. Qed.

Lemma only_own_trans (E1 E2 E3 : option SessionInfo -> option SessionInfo -> Prop) s1 s2 s3 :
  (forall a b c, E1 a b -> E2 b c -> E3 a c) ->
  only_own E1 s1 s2 -> only_own E2 s2 s3 -> only_own E3 s1 s3.
Proof.
  intros HE (A1 & A2 & A3 & A4) (B1 & B2 & B3 & B4). split_and!; [congruence|congruence|..].
  - intros j Hj Hne. destruct (A3 j Hj Hne) as (H1 & H2 & H3).
    destruct (B3 j Hj ltac:(congruence)) as (H4 & H5 & H6).
    split_and!; [congruence|congruence|]. intros a. by rewrite H6, H3.
  - intros Hok. destruct (A4 Hok) as [Hok2 Hu2]. destruct (B4 Hok2) as [Hok3 Hu3].
    split; [done|]. intros u. by eapply HE.
Qed.

Lemma own_rd {A} (m : M PacketReader A) : own_handler (rd m).
Proof. intros s. unfold rd. destruct (m (gs_rd s)) as [o r]. split_and!; try done. intros ?. split; [done|]. by left. Qed.

Lemma own_ret {A} (a : A) : own_handler (mret a).
Proof. intros s. apply only_own_refl. by left. Qed.
Lemma own_fail {A} e : own_handler (A := A) (fail e).
Proof. intros s. apply only_own_refl. by left. Qed.

Lemma own_bind {A B} (m : M gs_state A) (k : A -> M gs_state B) :
  own_handler m -> (forall a, own_handler (k a)) -> own_handler (m ≫= k).
Proof.
  intros Hm Hk s. specialize (Hm s). unfold mbind, M_bind.
  destruct (m s) as [[a|e|] s'] eqn:E; cbn [snd] in *; [|done|done].
  specialize (Hk a s'). pose proof Hm as (Hid & _). rewrite Hid in Hk.
  eapply only_own_trans; [apply moved_trans|done|done].
Qed.

Lemma own_update infoType value : own_handler (on_servers (λ id, UpdateStatus id infoType value)).
Proof.
  intros s. unfold on_servers. cbn [snd]. split_and!; [done|done| |intros ?; split; [done|by left]].
  cbn [gs_servers]. intros j Hj Hne. unfold UpdateStatus.
  destruct (out_of_bounds (gs_id s)) eqn:Eb; [done|]. destruct (negb _); [done|]. cbn [servers active].
  unfold out_of_bounds in Eb. apply orb_false_iff in Eb as [Eb _]. apply Z.ltb_ge in Eb.
  split_and!; [apply list_lookup_alter_ne; lia|done|done].
Qed.

Lemma own_SetCharCount account chars : own_handler (on_servers (λ id, SetCharCount account id chars)).
Proof.
  intros s. unfold on_servers. cbn [snd]. split_and!; [done|done| |intros ?; split; [done|by left]].
  cbn [gs_servers]. intros j Hj Hne. unfold SetCharCount.
  destruct (out_of_bounds (gs_id s)) eqn:Eb; [done|].
  unfold out_of_bounds in Eb. apply orb_false_iff in Eb as [Eb _]. apply Z.ltb_ge in Eb.
  split_and!; [done|done|]. intros a. unfold GetCharCounts. cbn [charCounts].
  destruct (decide (a = account)) as [->|Ha]; [|by rewrite lookup_insert_ne].
  rewrite lookup_insert_eq. cbn [fst]. rewrite list_lookup_insert_ne by lia.
  by destruct (charCounts (gs_servers s) !! account).
Qed.

Lemma own_SetGS account : own_handler (on_sessions (λ id, SetGS account id)).
Proof.
  intros s. unfold on_sessions. cbn [snd]. split_and!; [done|done|done|]. cbn [gs_sessions].
  intros Hok. destruct (step_entry _ (OSetGS account (gs_id s)) Hok) as [Hok' Hg].
  split; [exact Hok'|]. intros u. unfold Get. cbn [SessionRegistry.step] in Hg. rewrite Hg.
  cbn [entry_step]. case_decide; [|by left].
  destruct (sh_get u (gs_sessions s)) as [x|]; [right; by exists x|by left].
Qed.

Section Isolation.
Context (grow : nat -> nat -> nat) (pooled : PacketWriter) (pBuf : list Z) (now : Time)
  (simple_fold : Z -> Z).

#[local] Hint Resolve own_rd own_ret own_fail own_bind own_update own_SetCharCount own_SetGS : handlers.

Lemma own_in_game_loop n : own_handler (in_game_loop pBuf n).
Proof. induction n as [|n IH]; cbn [in_game_loop]; auto 10 with handlers. Qed.

Lemma own_status_loop n : own_handler (status_loop n).
Proof. induction n as [|n IH]; cbn [status_loop]; auto 10 with handlers. Qed.

Lemma own_HandlePlayerInGame : own_handler (HandlePlayerInGame pBuf).
Proof.
  apply own_bind; [apply own_rd|]. intros size. destruct (_ || _); [apply own_fail|apply own_in_game_loop].
Qed.

Lemma own_HandleStatus : own_handler HandleStatus.
Proof.
  apply own_bind; [apply own_rd|]. intros size. destruct (_ || _); [apply own_fail|apply own_status_loop].
Qed.

Lemma own_HandleReplyCharacters : own_handler (HandleReplyCharacters pBuf).
Proof. unfold HandleReplyCharacters. auto 10 with handlers. Qed.

(** A logout drops the account's entry only from its own server. *)
Lemma HandlePlayerLogout_own s :
  only_own (moved_or_dropped (gs_id s)) s (HandlePlayerLogout pBuf s).2.
Proof.
  unfold HandlePlayerLogout, mbind, M_bind, rd.
  destruct (ReadString pBuf (gs_rd s)) as [[account|e|] r].
  2, 3: apply (only_own_refl _ s); intros; by left; left.
  unfold on_sessions. cbn [snd]. split_and!; [done|done|done|]. cbn [gs_sessions gs_id set_rd]. intros Hok.
  assert (forall e, moved_or_dropped (gs_id s) e e) as Hrefl by (intros; by left; left).
  destruct (Get account (gs_sessions s)) as [x|] eqn:Ex; [|by split].
  destruct (Z.eqb_spec (SessionRegistry.ServerID x) (gs_id s)) as [Hid|Hid]; [|by split].
  destruct (step_entry _ (SessionRegistry.OUnregister account (SessionID x)) Hok) as [Hok' Hg].
  split; [exact Hok'|]. intros u. unfold Get. cbn [SessionRegistry.step] in Hg. rewrite Hg.
  cbn [entry_step]. case_decide as Hu; [|done]. subst u. unfold Get in Ex. rewrite Ex. cbn.
  rewrite Z.eqb_refl. cbn. right. by exists x.
Qed.

End Isolation.

