(* ===== verification/Authenticator.v ===== *)
(** [internal/service/authenticator.go] and [internal/service/kicker.go].  The
    queries and bcrypt are not code of this repository's own making: the
    authenticator is proved against interfaces, [AccountStore] and [Bcrypt],
    whose laws state what the schema and the libraries document. *)
From stdpp Require Import base gmap list numbers strings.
From Stdlib Require Import Lia ZArith.
From S2P Require Import Prelude.
From S2P Require Import GoStd.
Local Open Scope Z_scope.

(** A row of [FindAccount], and what the query can answer. *)
Record FindAccountRow := mkRow {
  ID : Z; Name : gostring; Pwd : gostring; AccessLevel : Z; LastServer : Z; Banned : bool }.
Inductive find_answer :=
| Found (row : FindAccountRow)
| NoRows
| FindError (err : error).

(** [GenerateFromPassword] draws a salt; [CompareHashAndPassword] succeeds or not. *)
Class Bcrypt := {
  GenerateFromPassword : gostring -> gostring -> error + gostring;
  CompareHashAndPassword : gostring -> gostring -> bool }.

Class BcryptLaws `{Bcrypt} := {
  compare_generated salt password hash :
    GenerateFromPassword salt password = inr hash -> CompareHashAndPassword hash password = true }.

(** The queries, on the state of the database. *)
Class AccountStore (DB : Type) := {
  FindAccount : gostring -> DB -> find_answer;
  RegisterAccount : gostring -> gostring -> option Addr -> DB -> (error + Z) * DB;
  UpdateAccountLastIPByName : gostring -> option Addr -> DB -> DB;
  UpdateAccountLastServer : gostring -> Z -> DB -> DB }.

(** A row inserted by [RegisterAccount] has the column defaults of the schema. *)
Definition fresh_row (id : Z) (name pwd : gostring) : FindAccountRow :=
  {| ID := id; Name := name; Pwd := pwd; AccessLevel := 0; LastServer := 0; Banned := false |}.

(** The update of the last server, as a later [FindAccount] sees it. *)
Definition with_last_server (srv : Z) (a : find_answer) : find_answer :=
  match a with
  | Found row => Found {| ID := ID row; Name := Name row; Pwd := Pwd row;
                          AccessLevel := AccessLevel row; LastServer := srv; Banned := Banned row |}
  | _ => a
  end.

(** The laws hold for names in lower case, which is how names reach the queries
    ([FindAccount] lowers its argument, [RegisterAccount] stores it as it is). *)
Class AccountStoreLaws (DB : Type) `{AccountStore DB} (is_lower : gostring -> bool) := {
  register_find name pwd ip db id db' n :
    is_lower name = true -> is_lower n = true ->
    RegisterAccount name pwd ip db = (inr id, db') ->
    FindAccount n db' = if decide (n = name) then Found (fresh_row id name pwd) else FindAccount n db;
  register_error name pwd ip db err db' n :
    RegisterAccount name pwd ip db = (inl err, db') -> FindAccount n db' = FindAccount n db;
  update_ip_find name ip db n :
    FindAccount n (UpdateAccountLastIPByName name ip db) = FindAccount n db;
  update_server_find name srv db n :
    is_lower name = true -> is_lower n = true ->
    FindAccount n (UpdateAccountLastServer name srv db)
    = if decide (n = name) then with_last_server srv (FindAccount n db) else FindAccount n db }.

(** The sentinel errors, compared by identity, and any other error. *)
Inductive auth_error :=
| ErrAccountNotFound | ErrInvalidPassword | ErrAccountBanned | ErrIPBanned | ErrAlreadyLoggedIn
| ErrOther (err : error).

Record Authenticator := mkAuthenticator { autoCreate : bool }.

Definition NewAuthenticator (autoCreate : bool) : Authenticator := {| autoCreate := autoCreate |}.

Section Authenticator.
Context {DB : Type} `{Bcrypt} `{AccountStore DB} (ParseAddr : gostring -> option Addr).

Definition createAccount (salt username password ip : gostring) (db : DB)
    : (error + (gostring * Z)) * DB :=
  match GenerateFromPassword salt password with
  | inl err => (inl err, db)
  | inr hashed =>
    let targetIP := ParseAddr ip in
    match RegisterAccount username hashed targetIP db with
    | (inl err, db) => (inl err, db)
    | (inr accountID, db) => (inr (hashed, accountID), db)
    end
  end.

Definition Authenticate (a : Authenticator) (salt username password ip : gostring) (db : DB)
    : (auth_error + FindAccountRow) * DB :=
  match FindAccount username db with
  | NoRows =>
    if autoCreate a then
      match createAccount salt username password ip db with
      | (inl err, db) => (inl (ErrOther err), db)
      | (inr (hashedPwd, id), db) =>
        (inr {| ID := id; Name := username; Pwd := hashedPwd; AccessLevel := 0; LastServer := 0;
                Banned := false |}, db)
      end
    else (inl ErrAccountNotFound, db)
  | FindError err => (inl (ErrOther err), db)
  | Found account =>
    if negb (CompareHashAndPassword (Pwd account) password) then (inl ErrInvalidPassword, db)
    else if Banned account || (AccessLevel account <? 0) then (inl ErrAccountBanned, db)
    else
      let targetIP := ParseAddr ip in
      (inr account, UpdateAccountLastIPByName username targetIP db)
  end.

Definition UpdateLastServer (username : gostring) (serverID : Z) (db : DB) : DB :=
  UpdateAccountLastServer username serverID db.

(** * Properties *)

Context `{!BcryptLaws} (is_lower : gostring -> bool) `{!AccountStoreLaws DB is_lower}.

(** What a successful authentication says of the database before and after. *)
Lemma Authenticate_success a salt u p ip db row db' :
  is_lower u = true -> Authenticate a salt u p ip db = (inr row, db') ->
  CompareHashAndPassword (Pwd row) p = true /\ Banned row = false /\ 0 <= AccessLevel row /\
  FindAccount u db' = Found row /\
  (FindAccount u db = Found row \/ (FindAccount u db = NoRows /\ autoCreate a = true)) /\
  forall n, is_lower n = true -> n <> u -> FindAccount n db' = FindAccount n db.
Proof.
  intros Hu. unfold Authenticate, createAccount. destruct (FindAccount u db) as [acc| |err] eqn:Ef; [| |done].
  - destruct (CompareHashAndPassword (Pwd acc) p) eqn:Ec; [|done]. cbn [negb].
    destruct (Banned acc || (AccessLevel acc <? 0)) eqn:Eb; [done|].
    apply orb_false_iff in Eb as [Eb1 Eb2]. apply Z.ltb_ge in Eb2. intros [= <- <-].
    rewrite update_ip_find. split_and!; try done; [by left|]. intros. apply update_ip_find.
  - destruct (autoCreate a) eqn:Ea; [|done].
    destruct (GenerateFromPassword salt p) as [err|hash] eqn:Eg; [done|].
    destruct (RegisterAccount u hash (ParseAddr ip) db) as [[err|id] db1] eqn:Er; [done|].
    intros [= <- <-]. cbn [Pwd Banned AccessLevel].
    split_and!; [by eapply compare_generated|done|done| |by right|].
    + by rewrite (register_find u hash _ db id _ u Hu Hu Er), decide_True.
    + intros n Hn Hne. by rewrite (register_find u hash _ db id _ n Hu Hn Er), decide_False.
Qed.

(** C39: a successful authentication is real and lasts: the password matches the
    stored hash of an account that is neither banned nor blocked, which existed
    or was created just now by auto-creation; no other account is touched; and
    the same credentials are accepted again, for the same account. *)
Theorem authenticate_again a salt u p ip db row db' a2 salt2 ip2 :
  is_lower u = true -> Authenticate a salt u p ip db = (inr row, db') ->
  CompareHashAndPassword (Pwd row) p = true /\ Banned row = false /\ 0 <= AccessLevel row /\
  (FindAccount u db = Found row \/ (FindAccount u db = NoRows /\ autoCreate a = true)) /\
  (forall n, is_lower n = true -> n <> u -> FindAccount n db' = FindAccount n db) /\
  exists db2, Authenticate a2 salt2 u p ip2 db' = (inr row, db2) /\
    forall n, FindAccount n db2 = FindAccount n db'.
Proof.
  intros Hu E. destruct (Authenticate_success _ _ _ _ _ _ _ _ Hu E) as (Hc & Hb & Hl & Hf & Hor & Ho).
  split_and!; try done. unfold Authenticate. rewrite Hf, Hc, Hb. cbn [negb orb].
  destruct (Z.ltb_spec (AccessLevel row) 0); [lia|]. eexists. split; [done|].
  intros n. apply update_ip_find.
Qed.

(** C40: a failed authentication changes no account and creates none, and it gives
    away nothing about an account to those who do not know its password: with a
    wrong password the answer is the same whether the account is banned or not. *)
Theorem authenticate_failure a salt u p ip db err db' :
  Authenticate a salt u p ip db = (inl err, db') ->
  (forall n, FindAccount n db' = FindAccount n db) /\
  (forall row, FindAccount u db = Found row ->
     (err = ErrInvalidPassword <-> CompareHashAndPassword (Pwd row) p = false) /\
     (err = ErrAccountBanned <-> CompareHashAndPassword (Pwd row) p = true /\
        (Banned row = true \/ AccessLevel row < 0))) /\
  (FindAccount u db = NoRows -> autoCreate a = false -> err = ErrAccountNotFound).
Proof.
  unfold Authenticate, createAccount. destruct (FindAccount u db) as [acc| |e] eqn:Ef.
  - destruct (CompareHashAndPassword (Pwd acc) p) eqn:Ec; cbn [negb].
    + destruct (Banned acc || (AccessLevel acc <? 0)) eqn:Eb; [|done]. intros [= <- <-].
      split_and!; [done| |done]. intros row [= <-]. rewrite Ec. split; [done|].
      split; [|done]. intros _. split; [done|]. apply orb_true_iff in Eb as [|Eb%Z.ltb_lt]; auto.
    + intros [= <- <-]. split_and!; [done| |done]. intros row [= <-]. rewrite Ec.
      split; [done|]. split; [done|]. by intros [? _].
  - destruct (autoCreate a) eqn:Ea.
    + destruct (GenerateFromPassword salt p) as [e|hash] eqn:Eg; [by intros [= <- <-]|].
      destruct (RegisterAccount u hash (ParseAddr ip) db) as [[e|id] db1] eqn:Er; [|done].
      intros [= <- <-]. split_and!; [|done|done]. intros n. by eapply register_error.
    + by intros [= <- <-].
  - by intros [= <- <-].
Qed.
End Authenticator.

(** * An instance: the interfaces can be met

    Accounts in a finite map, ids counted up, and a transparent "hash". *)
Section Instance.
Record table := mkTable { rows : gmap gostring FindAccountRow; next_id : Z }.

#[local] Instance table_store : AccountStore table := {
  FindAccount name db := match rows db !! name with Some row => Found row | None => NoRows end;
  RegisterAccount name pwd _ db :=
    match rows db !! name with
    | Some _ => (inl "duplicate key"%string, db)
    | None => (inr (next_id db),
        {| rows := <[name := fresh_row (next_id db) name pwd]> (rows db); next_id := next_id db + 1 |})
    end;
  UpdateAccountLastIPByName _ _ db := db;
  UpdateAccountLastServer name srv db :=
    {| rows := alter (λ row, {| ID := ID row; Name := Name row; Pwd := Pwd row;
         AccessLevel := AccessLevel row; LastServer := srv; Banned := Banned row |}) name (rows db);
       next_id := next_id db |} }.

#[local] Instance table_laws : AccountStoreLaws table (λ _, true).
Proof.
  split; cbn.
  - intros name pwd ip db id db' n _ _. destruct (rows db !! name) eqn:E; [done|]. intros [= <- <-]. cbn.
    case_decide as Hn; [subst; by rewrite lookup_insert_eq|by rewrite lookup_insert_ne].
  - intros name pwd ip db err db' n. destruct (rows db !! name); [by intros [= _ <-]|done].
  - done.
  - intros name srv db n _ _. case_decide as Hn; [subst; rewrite lookup_alter_eq|by rewrite lookup_alter_ne].
    by destruct (rows db !! name).
Qed.

#[local] Instance plain_bcrypt : Bcrypt := {
  GenerateFromPassword _ p := inr p;
  CompareHashAndPassword h p := bool_decide (h = p) }.

#[local] Instance plain_laws : BcryptLaws.
Proof. split. intros salt p h [= <-]. by apply bool_decide_eq_true_2. Qed.

Definition empty_table : table := {| rows := ∅; next_id := 1 |}.
Definition ann_table : table :=
  (Authenticate (DB := table) (λ _, None) (NewAuthenticator true) [] (go_str "ann") (go_str "pw") [] empty_table).2.

Lemma authenticate_again_witness :
  let row := fresh_row 1 (go_str "ann") (go_str "pw") in
  CompareHashAndPassword (Pwd row) (go_str "pw") = true /\ Banned row = false /\ 0 <= AccessLevel row /\
  (FindAccount (go_str "ann") empty_table = Found row \/
    (FindAccount (go_str "ann") empty_table = NoRows /\ autoCreate (NewAuthenticator true) = true)) /\
  (forall n, true = true -> n <> go_str "ann" -> FindAccount n ann_table = FindAccount n empty_table) /\
  exists db2, Authenticate (λ _, None) (NewAuthenticator false) [] (go_str "ann") (go_str "pw") [] ann_table
    = (inr row, db2) /\ forall n, FindAccount n db2 = FindAccount n ann_table.
Proof.
  apply (authenticate_again (DB := table) (λ _, None) (λ _, true) (NewAuthenticator true) [] (go_str "ann")
    (go_str "pw") [] empty_table (fresh_row 1 (go_str "ann") (go_str "pw")) ann_table); reflexivity.
Defined.

Lemma authenticate_failure_witness :
  (forall n, FindAccount n ann_table = FindAccount n ann_table) /\
  (forall row, FindAccount (go_str "ann") ann_table = Found row ->
     (ErrInvalidPassword = ErrInvalidPassword <-> CompareHashAndPassword (Pwd row) (go_str "no") = false) /\
     (ErrInvalidPassword = ErrAccountBanned <-> CompareHashAndPassword (Pwd row) (go_str "no") = true /\
        (Banned row = true \/ AccessLevel row < 0))) /\
  (FindAccount (go_str "ann") ann_table = NoRows -> autoCreate (NewAuthenticator true) = false ->
     ErrInvalidPassword = ErrAccountNotFound).
Proof.
  apply (authenticate_failure (DB := table) (λ _, None) (λ _, true) (NewAuthenticator true) [] (go_str "ann")
    (go_str "no") [] ann_table ErrInvalidPassword ann_table). reflexivity.
Defined.
End Instance.

(** * [kicker.go]

    The manager calls whichever of its three callbacks are set; what a call does
    to the server, of state [W], is the callback's. *)
Record KickManager (W : Type) := mkKickManager {
  OnKickLS : option (gostring -> M W unit);
  OnKickGS : option (gostring -> Z -> M W unit);
  OnRequestChars : option (gostring -> Z -> M W unit) }.
Arguments mkKickManager {W} _ _ _.
Arguments OnKickLS {W} k.
Arguments OnKickGS {W} k.
Arguments OnRequestChars {W} k.

Definition NewKickManager {W} : KickManager W :=
  {| OnKickLS := None; OnKickGS := None; OnRequestChars := None |}.
Definition KickAccount {W} (m : KickManager W) (username : gostring) : M W unit :=
  match OnKickLS m with Some fn => fn username | None => mret tt end.
Definition KickFromGame {W} (m : KickManager W) (username : gostring) (serverID : Z) : M W unit :=
  match OnKickGS m with Some fn => fn username serverID | None => mret tt end.
Definition RequestCharacters {W} (m : KickManager W) (username : gostring) (accountID : Z) : M W unit :=
  match OnRequestChars m with Some fn => fn username accountID | None => mret tt end.
