(* ===== verification/Authentications.v ===== *)
(** [Authenticate] of internal/service/authenticator.go statement by statement: the
    login goroutines run it at the same time on one database, and between two of its
    queries others may have run theirs.  Authenticator.v has it in one step. *)
From stdpp Require Import base gmap list numbers strings.
From Stdlib Require Import Lia ZArith.
From S2P Require Import Prelude.
From S2P Require Import GoStd.
From S2P Require Import Authenticator.
Local Open Scope Z_scope.

(** Another law of the queries: registering takes a name that nobody has. *)
Class AccountStoreUnique (DB : Type) `{AccountStore DB} (is_lower : gostring -> bool) := {
  register_free name pwd ip db id db' :
    is_lower name = true -> RegisterAccount name pwd ip db = (inr id, db') -> FindAccount name db = NoRows }.

(** What an authentication is asked for, and the salt it will draw. *)
Record request := mkRequest { rq_salt : gostring; rq_username : gostring; rq_password : gostring; rq_ip : gostring }.

(** Where it is: before [FindAccount]; in [createAccount], before the hashing and before
    [RegisterAccount]; before the comparison of the hash; before the update of the last
    address; returned. *)
Inductive auth_pc :=
| AFind
| AHash
| ARegister (hashed : gostring)
| ACompare (account : FindAccountRow)
| ALastIP (account : FindAccountRow)
| ADone (answer : auth_error + FindAccountRow).

Section Steps.
Context {DB : Type} `{Bcrypt} `{AccountStore DB} (ParseAddr : gostring -> option Addr) (a : Authenticator).

Definition auth_step (q : request) (pc : auth_pc) (db : DB) : auth_pc * DB :=
  match pc with
  | AFind =>
    (match FindAccount (rq_username q) db with
     | NoRows => if autoCreate a then AHash else ADone (inl ErrAccountNotFound)
     | FindError err => ADone (inl (ErrOther err))
     | Found account => ACompare account
     end, db)
  | AHash =>
    (match GenerateFromPassword (rq_salt q) (rq_password q) with
     | inl err => ADone (inl (ErrOther err))
     | inr hashed => ARegister hashed
     end, db)
  | ARegister hashed =>
    match RegisterAccount (rq_username q) hashed (ParseAddr (rq_ip q)) db with
    | (inl err, db) => (ADone (inl (ErrOther err)), db)
    | (inr id, db) =>
      (ADone (inr {| ID := id; Name := rq_username q; Pwd := hashed; AccessLevel := 0; LastServer := 0;
                     Banned := false |}), db)
    end
  | ACompare account =>
    (if negb (CompareHashAndPassword (Pwd account) (rq_password q)) then ADone (inl ErrInvalidPassword)
     else if Banned account || (AccessLevel account <? 0) then ADone (inl ErrAccountBanned)
     else ALastIP account, db)
  | ALastIP account => (ADone (inr account), UpdateAccountLastIPByName (rq_username q) (ParseAddr (rq_ip q)) db)
  | ADone answer => (ADone answer, db)
  end.

(** The authentications in progress, and the database. *)
Definition auth_state : Type := list (request * auth_pc) * DB.
Inductive auth_action :=
| Auth (i : nat)
| LastServerOf (u : gostring) (srv : Z).

Definition auth_act (x : auth_action) (s : auth_state) : auth_state :=
  match x with
  | Auth i =>
    match s.1 !! i with
    | Some (q, pc) => let '(pc, db) := auth_step q pc s.2 in (<[i := (q, pc)]> s.1, db)
    | None => s
    end
  | LastServerOf u srv => (s.1, UpdateLastServer u srv s.2)
  end.
Definition auth_run (xs : list auth_action) (s : auth_state) : auth_state := foldl (λ s x, auth_act x s) s xs.
Definition asked (qs : list request) : list (request * auth_pc) := (λ q, (q, AFind)) <$> qs.

(** An authentication that nobody interferes with is the function of Authenticator.v. *)
Lemma authenticate_alone q db :
  auth_run [Auth 0; Auth 0; Auth 0] (asked [q], db)
  = let '(answer, db') := Authenticate ParseAddr a (rq_salt q) (rq_username q) (rq_password q) (rq_ip q) db in
    ([(q, ADone answer)], db').
Proof.
  unfold auth_run, asked, Authenticate, createAccount. cbn. 
  destruct (FindAccount (rq_username q) db) as [acc| |err]; cbn; [| |done].
  - destruct (negb _); cbn; [done|]. destruct (_ || _); cbn; done.
  - destruct (autoCreate a); cbn; [|done]. destruct (GenerateFromPassword _ _) as [err|hashed]; cbn; [done|].
    by destruct (RegisterAccount _ _ _ _) as [[err|id] db'].
Qed.

(** ** What interference cannot do *)

Context `{!BcryptLaws} (is_lower : gostring -> bool) `{!AccountStoreLaws DB is_lower} `{!AccountStoreUnique DB is_lower}.

(** The last server aside, which any login may change. *)
Definition same_account (r r' : FindAccountRow) : Prop :=
  ID r' = ID r /\ Name r' = Name r /\ Pwd r' = Pwd r /\ AccessLevel r' = AccessLevel r /\ Banned r' = Banned r.
Definition known_account (db : DB) (u : gostring) (r : FindAccountRow) : Prop :=
  exists r', FindAccount u db = Found r' /\ same_account r r'.
Definition good_account (q : request) (r : FindAccountRow) : Prop :=
  CompareHashAndPassword (Pwd r) (rq_password q) = true /\ Banned r = false /\ 0 <= AccessLevel r.

Definition auth_ok (db : DB) (t : request * auth_pc) : Prop :=
  let '(q, pc) := t in
  match pc with
  | AFind | AHash | ADone (inl _) => True
  | ARegister hashed => CompareHashAndPassword hashed (rq_password q) = true
  | ACompare r => known_account db (rq_username q) r
  | ALastIP r | ADone (inr r) => known_account db (rq_username q) r /\ good_account q r
  end.

Definition lasting (db db' : DB) : Prop :=
  forall u r, is_lower u = true -> known_account db u r -> known_account db' u r.

Lemma auth_ok_lasting db db' t : is_lower (rq_username t.1) = true -> lasting db db' -> auth_ok db t -> auth_ok db' t.
Proof. destruct t as [q [| | | | |[|]]]; cbn; intros Hu Hl; try done; [by apply Hl|..]; intros []; split; auto. Qed.

Lemma lasting_refl db : lasting db db.
Proof. by intros u r _. Qed.
Lemma lasting_register name pwd ip db : is_lower name = true -> lasting db (RegisterAccount name pwd ip db).2.
Proof.
  intros Hn u r Hu (r' & Hf & Hs). destruct (RegisterAccount name pwd ip db) as [[err|id] db'] eqn:Er.
  - exists r'. cbn. by rewrite (register_error _ _ _ _ _ _ u Er).
  - exists r'. cbn. rewrite (register_find _ _ _ _ _ _ u Hn Hu Er). destruct (decide (u = name)) as [->|]; [|done].
    by rewrite (register_free _ _ _ _ _ _ Hn Er) in Hf.
Qed.
Lemma lasting_last_ip name ip db : lasting db (UpdateAccountLastIPByName name ip db).
Proof. intros u r _ (r' & Hf & Hs). exists r'. by rewrite update_ip_find. Qed.
Lemma lasting_last_server name srv db : is_lower name = true -> lasting db (UpdateLastServer name srv db).
Proof.
  intros Hn u r Hu (r' & Hf & Hs). unfold UpdateLastServer, known_account. rewrite (update_server_find _ _ _ _ Hn Hu), Hf.
  destruct (decide _); [|by exists r']. eexists. split; [reflexivity|exact Hs].
Qed.

Lemma auth_step_ok q pc db :
  is_lower (rq_username q) = true -> auth_ok db (q, pc) ->
  let '(pc', db') := auth_step q pc db in lasting db db' /\ auth_ok db' (q, pc').
Proof.
  intros Hu Hok. destruct pc as [| |hashed|r|r|answer]; cbn [auth_step].
  - split; [apply lasting_refl|]. destruct (FindAccount _ _) as [r| |err] eqn:Ef; [| |done].
    + exists r. split; [done|by split_and!].
    + by destruct (autoCreate a).
  - split; [apply lasting_refl|]. destruct (GenerateFromPassword _ _) as [err|hashed] eqn:Eg; [done|]. by eapply compare_generated.
  - pose proof (lasting_register (rq_username q) hashed (ParseAddr (rq_ip q)) db Hu) as Hl.
    destruct (RegisterAccount _ _ _ _) as [[err|id] db'] eqn:Er; (split; [exact Hl|]); [done|].
    split; [|by split_and!]. eexists. rewrite (register_find _ _ _ _ _ _ _ Hu Hu Er), decide_True by done. split; [done|].
    by split_and!.
  - split; [apply lasting_refl|]. destruct (CompareHashAndPassword _ _) eqn:Ec; cbn [negb]; [|done].
    destruct (_ || _) eqn:Eb; [done|]. apply orb_false_iff in Eb as [Eb1 Eb2%Z.ltb_ge]. by split.
  - destruct Hok as [Hk Hg]. split; [apply lasting_last_ip|]. split; [|done]. by apply lasting_last_ip.
  - split; [apply lasting_refl|done].
Qed.

(** The names the server authenticates are in lower case: [decodeCredentials] lowers
    them. *)
Definition lower_action (x : auth_action) : Prop :=
  match x with Auth _ => True | LastServerOf u _ => is_lower u = true end.
Definition auths_ok (s : auth_state) : Prop :=
  Forall (λ t, is_lower (rq_username t.1) = true /\ auth_ok s.2 t) s.1.

Lemma auths_lasting db db' ts :
  lasting db db' -> Forall (λ t, is_lower (rq_username t.1) = true /\ auth_ok db t) ts ->
  Forall (λ t, is_lower (rq_username t.1) = true /\ auth_ok db' t) ts.
Proof. intros Hl Hts. eapply Forall_impl; [exact Hts|]. intros t [Hu Hok]. split; [done|]. by eapply auth_ok_lasting. Qed.

Lemma auth_act_ok x s : lower_action x -> auths_ok s -> auths_ok (auth_act x s).
Proof.
  destruct s as [ts db]. unfold auths_ok. destruct x as [i|u srv]; cbn [auth_act fst snd]; intros Hx Hok.
  - destruct (ts !! i) as [[q pc]|] eqn:Et; [|done]. destruct (Forall_lookup_1 _ _ _ _ Hok Et) as [Hu Hq]. cbn [fst] in Hu.
    pose proof (auth_step_ok q pc db Hu Hq) as Hs. destruct (auth_step q pc db) as [pc' db']. destruct Hs as [Hl Hq'].
    cbn [fst snd]. apply Forall_insert; [by eapply auths_lasting|]. by split.
  - eapply auths_lasting; [|exact Hok]. by apply lasting_last_server.
Qed.

Lemma auth_run_ok xs s : Forall lower_action xs -> auths_ok s -> auths_ok (auth_run xs s).
Proof.
  unfold auth_run. revert s. induction xs as [|x xs IH]; intros s Hx Hok; [done|].
  apply Forall_cons in Hx as [Hx Hxs]. cbn. apply IH; [done|]. by apply auth_act_ok.
Qed.

Lemma asked_ok qs db : Forall (λ q, is_lower (rq_username q) = true) qs -> auths_ok (asked qs, db).
Proof. intros Hq. unfold auths_ok, asked. apply Forall_fmap. eapply Forall_impl; [exact Hq|]. done. Qed.

Lemma asked_requests xs s : (auth_run xs s).1.*1 = s.1.*1.
Proof.
  unfold auth_run. revert s. induction xs as [|x xs IH]; intros s; [done|]. cbn. rewrite IH.
  destruct s as [ts db], x as [i|u srv]; cbn [auth_act fst snd]; [|done].
  destruct (ts !! i) as [[q pc]|] eqn:Et; [|done]. destruct (auth_step q pc db) as [pc' db']. cbn [fst].
  rewrite list_fmap_insert. cbn. apply list_insert_id. by rewrite list_lookup_fmap, Et.
Qed.

(** C22: concurrent logins cannot confuse the accounts: however the statements of the
    authentications in progress, and the updates of the last server, are interleaved,
    one that succeeds has a password that matches the hash of the account it returns,
    which is not blocked and is the one the database has under the name; so two that
    succeed for the same name, even if both were to create it, return the same account. *)
Theorem concurrent_logins_agree qs db xs :
  Forall (λ q, is_lower (rq_username q) = true) qs -> Forall lower_action xs ->
  let '(ts, db') := auth_run xs (asked qs, db) in
  ts.*1 = qs /\
  (forall i q r, ts !! i = Some (q, ADone (inr r)) ->
     CompareHashAndPassword (Pwd r) (rq_password q) = true /\ Banned r = false /\ 0 <= AccessLevel r /\
     exists r', FindAccount (rq_username q) db' = Found r' /\ same_account r r') /\
  (forall i j q1 q2 r1 r2, ts !! i = Some (q1, ADone (inr r1)) -> ts !! j = Some (q2, ADone (inr r2)) ->
     rq_username q1 = rq_username q2 -> same_account r1 r2).
Proof.
  intros Hq Hx. pose proof (auth_run_ok xs _ Hx (asked_ok qs db Hq)) as Hok.
  pose proof (asked_requests xs (asked qs, db)) as Hr. destruct (auth_run xs (asked qs, db)) as [ts db'].
  cbn [fst] in Hr.
  assert (forall i q r, ts !! i = Some (q, ADone (inr r)) -> known_account db' (rq_username q) r /\ good_account q r) as Hd.
  { intros i q r Hi. by destruct (Forall_lookup_1 _ _ _ _ Hok Hi) as [_ Ht]. }
  split_and!.
  - rewrite Hr. unfold asked. rewrite <- list_fmap_compose. apply list_fmap_id.
  - intros i q r Hi. destruct (Hd i q r Hi) as [Hk (Hc & Hb & Hl)]. by split_and!.
  - intros i j q1 q2 r1 r2 Hi Hj Hu. destruct (Hd i q1 r1 Hi) as [(r & Hf & Hs) _].
    destruct (Hd j q2 r2 Hj) as [(r' & Hf' & Hs') _]. rewrite Hu, Hf' in Hf. injection Hf as <-.
    unfold same_account in *. destruct Hs as (?&?&?&?&?), Hs' as (?&?&?&?&?). split_and!; congruence.
Qed.

(** C24: two first logins at once fail one another: with auto-creation, if two logins
    under a name that has no account yet both look it up before either registers it, the
    one that registers second is told of a system error, although it came with the same
    password; one after the other, both would have succeeded. *)
Theorem first_logins_collide q1 q2 db hash1 hash2 id db1 :
  rq_username q2 = rq_username q1 -> rq_password q2 = rq_password q1 -> is_lower (rq_username q1) = true ->
  autoCreate a = true -> FindAccount (rq_username q1) db = NoRows ->
  GenerateFromPassword (rq_salt q1) (rq_password q1) = inr hash1 ->
  GenerateFromPassword (rq_salt q2) (rq_password q2) = inr hash2 ->
  RegisterAccount (rq_username q1) hash1 (ParseAddr (rq_ip q1)) db = (inr id, db1) ->
  let account := fresh_row id (rq_username q1) hash1 in
  (exists err db2, auth_run [Auth 0; Auth 1; Auth 0; Auth 1; Auth 0; Auth 1] (asked [q1; q2], db)
     = ([(q1, ADone (inr account)); (q2, ADone (inl (ErrOther err)))], db2)) /\
  (exists db2, auth_run [Auth 0; Auth 0; Auth 0; Auth 1; Auth 1; Auth 1] (asked [q1; q2], db)
     = ([(q1, ADone (inr account)); (q2, ADone (inr account))], db2)).
Proof.
  intros Hu Hp Hl Ha Hf Hg1 Hg2 Hr account.
  assert (FindAccount (rq_username q1) db1 = Found account) as Hf1.
  { by rewrite (register_find _ _ _ _ _ _ _ Hl Hl Hr), decide_True. }
  unfold auth_run, asked. split.
  - cbn [foldl auth_act fmap list_fmap fst snd lookup list_lookup auth_step insert list_insert].
    rewrite Hu, Hf, Ha. cbn [foldl auth_act fst snd lookup list_lookup auth_step insert list_insert].
    rewrite Hg1. cbn [foldl auth_act fst snd lookup list_lookup auth_step insert list_insert].
    rewrite Hg2. cbn [foldl auth_act fst snd lookup list_lookup auth_step insert list_insert].
    rewrite Hr. cbn [foldl auth_act fst snd lookup list_lookup auth_step insert list_insert]. rewrite Hu.
    destruct (RegisterAccount _ hash2 _ db1) as [[err|id2] db2] eqn:Er; [by eexists _, _|].
    by rewrite (register_free _ _ _ _ _ _ Hl Er) in Hf1.
  - cbn [foldl auth_act fmap list_fmap fst snd lookup list_lookup auth_step insert list_insert].
    rewrite Hf, Ha. cbn [foldl auth_act fst snd lookup list_lookup auth_step insert list_insert].
    rewrite Hg1. cbn [foldl auth_act fst snd lookup list_lookup auth_step insert list_insert].
    rewrite Hr. cbn [foldl auth_act fst snd lookup list_lookup auth_step insert list_insert].
    rewrite Hu, Hf1. cbn [foldl auth_act fst snd lookup list_lookup auth_step insert list_insert].
    rewrite Hp. unfold account at 1. cbn [Pwd fresh_row]. rewrite (compare_generated _ _ _ Hg1).
    cbn [negb Banned AccessLevel account fresh_row orb Z.ltb foldl auth_act fst snd lookup list_lookup auth_step insert list_insert].
    by eexists.
Qed.
End Steps.

(** * An instance *)
Section Example.
#[local] Existing Instance table_store.
#[local] Existing Instance table_laws.
#[local] Existing Instance plain_bcrypt.
#[local] Existing Instance plain_laws.

#[local] Instance table_unique : AccountStoreUnique table (λ _, true).
Proof.
  split. cbn. intros name pwd ip db id db' _. by destruct (rows db !! name).
Qed.

Definition ann_request (salt : gostring) : request :=
  {| rq_salt := salt; rq_username := go_str "ann"; rq_password := go_str "pw"; rq_ip := [] |}.

Lemma concurrent_logins_agree_witness :
  let '(ts, db') := auth_run (DB := table) (λ _, None) (NewAuthenticator true)
    [Auth 0; Auth 0; Auth 1; LastServerOf (go_str "ann") 3; Auth 0; Auth 1; Auth 1]
    (asked [ann_request []; ann_request (go_str "s")], empty_table) in
  ts.*1 = [ann_request []; ann_request (go_str "s")] /\
  (forall i q r, ts !! i = Some (q, ADone (inr r)) ->
     CompareHashAndPassword (Pwd r) (rq_password q) = true /\ Banned r = false /\ 0 <= AccessLevel r /\
     exists r', FindAccount (rq_username q) db' = Found r' /\ same_account r r') /\
  (forall i j q1 q2 r1 r2, ts !! i = Some (q1, ADone (inr r1)) -> ts !! j = Some (q2, ADone (inr r2)) ->
     rq_username q1 = rq_username q2 -> same_account r1 r2).
Proof.
  apply (concurrent_logins_agree (DB := table) (λ _, None) (NewAuthenticator true) (λ _, true)
    [ann_request []; ann_request (go_str "s")] empty_table).
  - by repeat constructor.
  - by repeat constructor.
Defined.

Lemma first_logins_collide_witness :
  let account := fresh_row 1 (go_str "ann") (go_str "pw") in
  (exists err db2, auth_run (DB := table) (λ _, None) (NewAuthenticator true)
     [Auth 0; Auth 1; Auth 0; Auth 1; Auth 0; Auth 1] (asked [ann_request []; ann_request (go_str "s")], empty_table)
     = ([(ann_request [], ADone (inr account)); (ann_request (go_str "s"), ADone (inl (ErrOther err)))], db2)) /\
  (exists db2, auth_run (DB := table) (λ _, None) (NewAuthenticator true)
     [Auth 0; Auth 0; Auth 0; Auth 1; Auth 1; Auth 1] (asked [ann_request []; ann_request (go_str "s")], empty_table)
     = ([(ann_request [], ADone (inr account)); (ann_request (go_str "s"), ADone (inr account))], db2)).
Proof.
  by apply (first_logins_collide (DB := table) (λ _, None) (NewAuthenticator true) (λ _, true) (ann_request [])
    (ann_request (go_str "s")) empty_table (go_str "pw") (go_str "pw") 1
    {| rows := {[go_str "ann" := fresh_row 1 (go_str "ann") (go_str "pw")]}; next_id := 2 |}).
Defined.
End Example.
