(* ===== verification/Metrics.v ===== *)
(** [internal/metrics/metrics.go]: the gauge and the counters of the server.  The
    instruments belong to Prometheus; what the program asks of them is a log, as
    what it asks of the network is, and [reading] is the documented value of an
    instrument after it.  The histograms of durations are left out. *)
From stdpp Require Import base list numbers.
From Stdlib Require Import Lia ZArith.
From S2P Require Import Prelude.
Local Open Scope Z_scope.

Inductive metric :=
| ActiveConnections | ConnectionTotal
| LoginSuccess | LoginFailInvalidPwd | LoginFailNotFound | LoginFailBanned | LoginFailSystem.
#[export] Instance metric_eq_dec : EqDecision metric.
Proof. solve_decision. Defined.

(** [m.Inc()] and [m.Dec()]. *)
Inductive meter := Inc (m : metric) | Dec (m : metric).

Definition effect (m : metric) (x : meter) : Z :=
  match x with
  | Inc m' => if decide (m = m') then 1 else 0
  | Dec m' => if decide (m = m') then -1 else 0
  end.
Fixpoint reading (m : metric) (log : list meter) : Z :=
  match log with
  | [] => 0
  | x :: log => effect m x + reading m log
  end.

Lemma reading_app m log log' : reading m (log ++ log') = reading m log + reading m log'.
Proof. induction log as [|x log IH]; cbn [reading app]; lia. Qed.

(** What is counted elsewhere. *)
Lemma reading_other m m' log : m <> m' -> reading m (log ++ [Inc m']) = reading m log.
Proof. intros Hm. rewrite reading_app. cbn. by rewrite decide_False, Z.add_0_r by done. Qed.
