(* ===== verification/Queries.v ===== *)
(** [internal/db] ([l2auth.sql.go], [models.go], [db.go]), with the tables of
    [schemas/l2auth.sql]: each query is a function on the rows, its [WHERE], [SET]
    and [ON CONFLICT] clauses written out, with the constraints of the schema.
    The tables implement the interface the authenticator is proved against, and
    they keep the bans for the next start of the server. *)
From stdpp Require Import base gmap list numbers strings.
From coqutil Require Import Byte.
From Stdlib Require Import Lia ZArith.
From S2P Require Import Prelude.
From S2P Require Import GoStd.
From S2P Require Import Authenticator.
From S2P Require Import Authentications.
Local Open Scope Z_scope.

(** What PostgreSQL and the driver do with values: [lower] of the database's
    collation, a text value that is refused (invalid UTF-8), an address as [inet]
    ([None] is [NULL]), and the columns [TIMESTAMP WITHOUT TIME ZONE]: what the
    driver writes for a [time.Time] and reads back, and what the server makes of
    [now()] in such a column and of the column next to [now()]. *)
Class Postgres := {
  lower : gostring -> gostring;
  refused : gostring -> option error;
  inet : Addr -> option Addr;
  column : Time -> Z;
  scan : Z -> Time;
  timestamp : Time -> Z;
  timestamptz : Z -> Time }.

Module l2auth.
(** A row of [l2auth.account], [L2authAccount] in [models.go]. *)
Record account := mkAccount {
  id : Z; name : gostring; pwd : gostring; access_level : Z; last_server : Z; banned : bool;
  last_ip : option Addr; modify_date : Z; creation_date : Z }.
End l2auth.

(** A row of [l2auth.ip_banned] as it is scanned. *)
Record L2authIpBanned := mkIpBanned { Ip : Addr; ExpiryDate : Time; Reason : gostring }.

(** The database: the accounts and the sequence of their ids, the bans by their
    primary key, the clock, and why it cannot be reached, if it cannot. *)
Record database := mkDatabase {
  accounts : list l2auth.account;
  account_id_seq : Z;
  ip_banned : gmap Addr (Z * gostring);
  clock : Time;
  outage : option error }.

Definition unique_violation : error := "duplicate key value violates unique constraint"%string.
Definition not_null_violation : error := "null value violates not-null constraint"%string.
Definition sequence_exhausted : error := "nextval: reached maximum value of sequence"%string.

(** An empty schema. *)
Definition schema (now : Time) : database :=
  {| accounts := []; account_id_seq := 1; ip_banned := ∅; clock := now; outage := None |}.

Section Queries.
Context `{Postgres}.

(** Why a query with these text arguments is not executed, if it is not: the
    database is down, or it refuses one of them. *)
Definition refusal (down : option error) (texts : list gostring) : option error :=
  match down with
  | Some err => Some err
  | None => head (omap refused texts)
  end.

Definition with_accounts (f : list l2auth.account -> list l2auth.account) (db : database) : database :=
  {| accounts := f (accounts db); account_id_seq := account_id_seq db; ip_banned := ip_banned db;
     clock := clock db; outage := outage db |}.
Definition with_bans (f : gmap Addr (Z * gostring) -> gmap Addr (Z * gostring)) (db : database) : database :=
  {| accounts := accounts db; account_id_seq := account_id_seq db; ip_banned := f (ip_banned db);
     clock := clock db; outage := outage db |}.
Definition nextval (db : database) : database :=
  {| accounts := accounts db; account_id_seq := account_id_seq db + 1; ip_banned := ip_banned db;
     clock := clock db; outage := outage db |}.

(** The columns [FindAccount] selects. *)
Definition selected (a : l2auth.account) : FindAccountRow :=
  {| ID := l2auth.id a; Name := l2auth.name a; Pwd := l2auth.pwd a;
     AccessLevel := l2auth.access_level a; LastServer := l2auth.last_server a;
     Banned := l2auth.banned a |}.

(** [WHERE a.name = ... LIMIT 1]. *)
Definition find_row (n : gostring) (rows : list l2auth.account) : option l2auth.account :=
  head (filter (λ a, l2auth.name a = n) rows).

Definition FindAccount (username : gostring) (db : database) : find_answer :=
  match refusal (outage db) [username] with
  | Some err => FindError err
  | None =>
    match find_row (lower username) (accounts db) with
    | Some a => Found (selected a)
    | None => NoRows
    end
  end.

(** A row inserted with the column defaults of the schema. *)
Definition new_account (k : Z) (n p : gostring) (ip : option Addr) (now : Z) : l2auth.account :=
  {| l2auth.id := k; l2auth.name := n; l2auth.pwd := p; l2auth.access_level := 0;
     l2auth.last_server := 0; l2auth.banned := false; l2auth.last_ip := ip;
     l2auth.modify_date := now; l2auth.creation_date := now |}.

(** The id is drawn from the sequence before the unique index on [lower(name)] is
    checked. *)
Definition RegisterAccount (username password : gostring) (ip : option Addr) (db : database)
    : (error + Z) * database :=
  match refusal (outage db) [username; password] with
  | Some err => (inl err, db)
  | None =>
    if account_id_seq db >=? 2 ^ 63 then (inl sequence_exhausted, db)
    else
      let new := account_id_seq db in
      let db := nextval db in
      if existsb (λ a, bool_decide (lower (l2auth.name a) = lower username)) (accounts db)
      then (inl unique_violation, db)
      else (inr new, with_accounts (λ rows, rows ++
             [new_account new username password (ip ≫= inet) (timestamp (clock db))]) db)
  end.

(** [UPDATE l2auth.account SET ..., modify_date = now() WHERE name = $1]. *)
Definition update_account (username : gostring) (set : l2auth.account -> l2auth.account) (db : database)
    : database :=
  with_accounts (fmap (λ a, if decide (l2auth.name a = username) then set a else a)) db.

Definition set_last_ip (ip : option Addr) (now : Z) (a : l2auth.account) : l2auth.account :=
  {| l2auth.id := l2auth.id a; l2auth.name := l2auth.name a; l2auth.pwd := l2auth.pwd a;
     l2auth.access_level := l2auth.access_level a; l2auth.last_server := l2auth.last_server a;
     l2auth.banned := l2auth.banned a; l2auth.last_ip := ip; l2auth.modify_date := now;
     l2auth.creation_date := l2auth.creation_date a |}.
Definition set_last_server (srv now : Z) (a : l2auth.account) : l2auth.account :=
  {| l2auth.id := l2auth.id a; l2auth.name := l2auth.name a; l2auth.pwd := l2auth.pwd a;
     l2auth.access_level := l2auth.access_level a; l2auth.last_server := srv;
     l2auth.banned := l2auth.banned a; l2auth.last_ip := l2auth.last_ip a; l2auth.modify_date := now;
     l2auth.creation_date := l2auth.creation_date a |}.
Definition set_pwd (password : gostring) (now : Z) (a : l2auth.account) : l2auth.account :=
  {| l2auth.id := l2auth.id a; l2auth.name := l2auth.name a; l2auth.pwd := password;
     l2auth.access_level := l2auth.access_level a; l2auth.last_server := l2auth.last_server a;
     l2auth.banned := l2auth.banned a; l2auth.last_ip := l2auth.last_ip a; l2auth.modify_date := now;
     l2auth.creation_date := l2auth.creation_date a |}.

Definition UpdateAccountLastIPByName (username : gostring) (ip : option Addr) (db : database)
    : option error * database :=
  match refusal (outage db) [username] with
  | Some err => (Some err, db)
  | None => (None, update_account username (set_last_ip (ip ≫= inet) (timestamp (clock db))) db)
  end.

Definition UpdateAccountLastServer (username : gostring) (srv : Z) (db : database)
    : option error * database :=
  match refusal (outage db) [username] with
  | Some err => (Some err, db)
  | None => (None, update_account username (set_last_server srv (timestamp (clock db))) db)
  end.

Definition UpdateAccountPasswordByName (username password : gostring) (db : database)
    : option error * database :=
  match refusal (outage db) [username; password] with
  | Some err => (Some err, db)
  | None => (None, update_account username (set_pwd password (timestamp (clock db))) db)
  end.

(** [INSERT ... ON CONFLICT (ip) DO UPDATE]. *)
Definition AddIPBan (ip : Addr) (expiry : Time) (reason : gostring) (db : database)
    : option error * database :=
  match refusal (outage db) [reason] with
  | Some err => (Some err, db)
  | None =>
    match inet ip with
    | None => (Some not_null_violation, db)
    | Some key => (None, with_bans <[key := (column expiry, reason)]> db)
    end
  end.

(** [WHERE ip = NULL] matches no row. *)
Definition RemoveIPBan (ip : Addr) (db : database) : option error * database :=
  match refusal (outage db) [] with
  | Some err => (Some err, db)
  | None =>
    match inet ip with
    | None => (None, db)
    | Some key => (None, with_bans (delete key) db)
    end
  end.

(** The rows come in no particular order; this is one of them. *)
Definition GetActiveIPBans (db : database) : error + list L2authIpBanned :=
  match refusal (outage db) [] with
  | Some err => inl err
  | None =>
    inr ((λ '(ip, (expiry, reason)), {| Ip := ip; ExpiryDate := scan expiry; Reason := reason |}) <$>
         filter (λ '(_, (expiry, _)), clock db < timestamptz expiry) (map_to_list (ip_banned db)))
  end.

Definition IsIPBanned (ip : Addr) (db : database) : error + bool :=
  match refusal (outage db) [] with
  | Some err => inl err
  | None =>
    inr (match inet ip ≫= λ key, ip_banned db !! key with
         | Some (expiry, _) => clock db <? timestamptz expiry
         | None => false
         end)
  end.

(** * The authenticator's store *)

(** A row that the update leaves with its name is found as before, updated if it
    is the one that was meant. *)
Lemma find_update name set n rows :
  (forall a, l2auth.name (set a) = l2auth.name a) ->
  find_row n ((λ a, if decide (l2auth.name a = name) then set a else a) <$> rows)
  = (if decide (n = name) then set else λ a, a) <$> find_row n rows.
Proof.
  intros Hset. unfold find_row. induction rows as [|a rows IH]; [by case_decide|]. cbn [fmap list_fmap].
  assert (l2auth.name (if decide (l2auth.name a = name) then set a else a) = l2auth.name a) as Hn
    by (destruct (decide (l2auth.name a = name)); [apply Hset|done]).
  destruct (decide (l2auth.name a = n)) as [<-|Hne].
  - rewrite (filter_cons_True _ a) by done. rewrite filter_cons_True by exact Hn. cbn.
    by destruct (decide (l2auth.name a = name)).
  - rewrite (filter_cons_False _ a) by done. rewrite filter_cons_False by (by rewrite Hn). exact IH.
Qed.

Lemma find_app n rows rows' :
  find_row n (rows ++ rows') = match find_row n rows with Some a => Some a | None => find_row n rows' end.
Proof. unfold find_row. rewrite filter_app. by destruct (filter _ rows). Qed.

Lemma find_row_Some n rows a : find_row n rows = Some a -> a ∈ rows /\ l2auth.name a = n.
Proof.
  unfold find_row. intros Hh%head_Some_elem_of%list_elem_of_filter. tauto.
Qed.

Lemma find_row_None n rows a : find_row n rows = None -> a ∈ rows -> l2auth.name a <> n.
Proof.
  unfold find_row. intros Hh%head_None Ha Hn.
  assert (Hin : a ∈ filter (λ a, l2auth.name a = n) rows) by by apply list_elem_of_filter.
  rewrite Hh in Hin. by apply not_elem_of_nil in Hin.
Qed.

(** The unique index on [lower(name)], as the insertion checks it. *)
Lemma taken_spec n rows :
  existsb (λ a, bool_decide (lower (l2auth.name a) = lower n)) rows = true
  <-> exists a, a ∈ rows /\ lower (l2auth.name a) = lower n.
Proof.
  rewrite existsb_exists. by setoid_rewrite bool_decide_eq_true; setoid_rewrite list_elem_of_In.
Qed.

(** Every outcome of [RegisterAccount]. *)
Lemma RegisterAccount_inr n p ip db k db' :
  RegisterAccount n p ip db = (inr k, db') ->
  refusal (outage db) [n; p] = None /\ k = account_id_seq db /\ k < 2 ^ 63 /\
  (forall a, a ∈ accounts db -> lower (l2auth.name a) <> lower n) /\
  db' = with_accounts (λ rows, rows ++ [new_account k n p (ip ≫= inet) (timestamp (clock db))]) (nextval db).
Proof.
  unfold RegisterAccount. destruct (refusal (outage db) [n; p]); [done|].
  destruct (Z.geb_spec (account_id_seq db) (2 ^ 63)); [done|].
  destruct (existsb _ _) eqn:E; [done|]. intros [= <- <-]. split_and!; try done.
  intros a Ha He. enough (true = false) by done. rewrite <- E. symmetry. apply taken_spec. by exists a.
Qed.

Lemma RegisterAccount_inl n p ip db err db' :
  RegisterAccount n p ip db = (inl err, db') -> db' = db \/ db' = nextval db.
Proof. unfold RegisterAccount. repeat case_match; intros [= <- <-]; auto. Qed.

#[local] Instance queries_store : AccountStore database := {
  Authenticator.FindAccount := FindAccount;
  Authenticator.RegisterAccount := RegisterAccount;
  Authenticator.UpdateAccountLastIPByName n ip db := (UpdateAccountLastIPByName n ip db).2;
  Authenticator.UpdateAccountLastServer n srv db := (UpdateAccountLastServer n srv db).2 }.

Definition is_lower (n : gostring) : bool := bool_decide (lower n = n).

Lemma FindAccount_update n name set db :
  (forall a, l2auth.name (set a) = l2auth.name a) ->
  FindAccount n (update_account name set db)
  = match refusal (outage db) [n] with
    | Some err => FindError err
    | None => match find_row (lower n) (accounts db) with
              | Some a => Found (selected (if decide (lower n = name) then set a else a))
              | None => NoRows
              end
    end.
Proof.
  intros Hset. unfold FindAccount, update_account, refusal. cbn [accounts outage with_accounts].
  rewrite find_update by done. destruct (find_row _ _); [|done]. cbn. by case_decide.
Qed.

(** The tables keep what the authenticator expects of its store. *)
#[local] Instance queries_laws : AccountStoreLaws database is_lower.
Proof.
  unfold is_lower. split; cbn.
  - intros n p ip db k db' m Hn%bool_decide_eq_true Hm%bool_decide_eq_true Hr.
    apply RegisterAccount_inr in Hr as (Hu & -> & _ & Hfree & ->).
    unfold FindAccount at 1. unfold refusal in *. cbn in *. rewrite Hm.
    destruct (outage db) eqn:Eo; [done|]. destruct (refused n) eqn:En; [done|]. cbn in *.
    rewrite find_app. destruct (decide (m = n)) as [->|Hne].
    + rewrite En. cbn. destruct (find_row n (accounts db)) as [a|] eqn:Ef.
      { apply find_row_Some in Ef as [Ha <-]. by destruct (Hfree a Ha). }
      unfold find_row. by rewrite filter_cons_True.
    + unfold FindAccount, refusal. cbn. rewrite Eo. destruct (head _); [done|].
      rewrite Hm. destruct (find_row m (accounts db)); [done|].
      unfold find_row. rewrite filter_cons_False; [done|]. cbn. congruence.
  - intros n p ip db err db' m [->| ->]%RegisterAccount_inl; done.
  - intros n ip db m. unfold UpdateAccountLastIPByName. destruct (refusal (outage db) [n]); [done|]. cbn [snd].
    rewrite FindAccount_update by done. unfold FindAccount. destruct (refusal (outage db) [m]); [done|].
    destruct (find_row _ _); [|done]. by case_decide.
  - intros n srv db m Hn%bool_decide_eq_true Hm%bool_decide_eq_true.
    unfold UpdateAccountLastServer. destruct (refusal (outage db) [n]) eqn:Eu; cbn [snd].
    + case_decide; [subst|done]. unfold FindAccount. by rewrite Eu.
    + rewrite FindAccount_update by done. rewrite Hm. unfold FindAccount.
      destruct (refusal (outage db) [m]) eqn:Eu'; [by case_decide|]. rewrite Hm.
      destruct (find_row m _); [|by case_decide]. by case_decide.
Qed.

#[local] Instance queries_unique : AccountStoreUnique database is_lower.
Proof.
  unfold is_lower. split; cbn. intros n p ip db k db' Hn%bool_decide_eq_true Hr.
  apply RegisterAccount_inr in Hr as (Hu & _ & _ & Hfree & _). unfold FindAccount, refusal in *. cbn in *.
  destruct (outage db); [done|]. destruct (refused n); [done|]. cbn in *.
  destruct (find_row _ _) as [a|] eqn:Ef; [|done]. apply find_row_Some in Ef as [Ha Hna]. destruct (Hfree a Ha). congruence.
Qed.

(** * The tables as a directory

    The specification: the accounts by their name in lower case, and the next id. *)
Record directory := mkDirectory { by_name : gmap gostring l2auth.account; next : Z }.

Inductive query :=
| QFind (username : gostring)
| QRegister (username password : gostring) (ip : option Addr)
| QLastIP (username : gostring) (ip : option Addr)
| QLastServer (username : gostring) (srv : Z)
| QPassword (username password : gostring).

Inductive answer :=
| AFind (a : find_answer)
| ARegister (a : error + Z)
| AUpdate (a : option error).

(** A query as the tables execute it, with the clock at [now]. *)
Definition at_time (now : Time) (db : database) : database :=
  {| accounts := accounts db; account_id_seq := account_id_seq db; ip_banned := ip_banned db;
     clock := now; outage := outage db |}.

Definition exec_query (db : database) (q : Time * query) : answer * database :=
  let db := at_time q.1 db in
  match q.2 with
  | QFind n => (AFind (FindAccount n db), db)
  | QRegister n p ip => let '(a, db) := RegisterAccount n p ip db in (ARegister a, db)
  | QLastIP n ip => let '(a, db) := UpdateAccountLastIPByName n ip db in (AUpdate a, db)
  | QLastServer n srv => let '(a, db) := UpdateAccountLastServer n srv db in (AUpdate a, db)
  | QPassword n p => let '(a, db) := UpdateAccountPasswordByName n p db in (AUpdate a, db)
  end.

Definition dir_find (n : gostring) (d : directory) : find_answer :=
  match by_name d !! lower n with
  | Some a => if decide (l2auth.name a = lower n) then Found (selected a) else NoRows
  | None => NoRows
  end.
Definition dir_register (now : Time) (n p : gostring) (ip : option Addr) (d : directory)
    : (error + Z) * directory :=
  if next d >=? 2 ^ 63 then (inl sequence_exhausted, d)
  else match by_name d !! lower n with
       | Some _ => (inl unique_violation, {| by_name := by_name d; next := next d + 1 |})
       | None => (inr (next d), {| by_name := <[lower n := new_account (next d) n p (ip ≫= inet) (timestamp now)]> (by_name d);
                                   next := next d + 1 |})
       end.
Definition dir_update (n : gostring) (set : l2auth.account -> l2auth.account) (d : directory) : directory :=
  {| by_name := alter (λ a, if decide (l2auth.name a = n) then set a else a) (lower n) (by_name d);
     next := next d |}.

Definition spec_query (down : option error) (d : directory) (q : Time * query) : answer * directory :=
  let now := timestamp q.1 in
  match q.2 with
  | QFind n =>
    match refusal down [n] with
    | Some err => (AFind (FindError err), d)
    | None => (AFind (dir_find n d), d)
    end
  | QRegister n p ip =>
    match refusal down [n; p] with
    | Some err => (ARegister (inl err), d)
    | None => let '(a, d) := dir_register q.1 n p ip d in (ARegister a, d)
    end
  | QLastIP n ip =>
    match refusal down [n] with
    | Some err => (AUpdate (Some err), d)
    | None => (AUpdate None, dir_update n (set_last_ip (ip ≫= inet) now) d)
    end
  | QLastServer n srv =>
    match refusal down [n] with
    | Some err => (AUpdate (Some err), d)
    | None => (AUpdate None, dir_update n (set_last_server srv now) d)
    end
  | QPassword n p =>
    match refusal down [n; p] with
    | Some err => (AUpdate (Some err), d)
    | None => (AUpdate None, dir_update n (set_pwd p now) d)
    end
  end.

(** Runs of queries, with their answers. *)
Fixpoint answers {S} (step : S -> Time * query -> answer * S) (qs : list (Time * query)) (s : S)
    : list answer * S :=
  match qs with
  | [] => ([], s)
  | q :: qs => let '(a, s) := step s q in let '(l, s) := answers step qs s in (a :: l, s)
  end.

Definition keyed (a : l2auth.account) : gostring * l2auth.account := (lower (l2auth.name a), a).
Definition directory_of (db : database) : directory :=
  {| by_name := list_to_map (keyed <$> accounts db); next := account_id_seq db |}.

(** The constraints of the schema: no two names equal up to case, ids distinct
    and drawn from the sequence. *)
Definition schema_ok (db : database) : Prop :=
  NoDup ((λ a, lower (l2auth.name a)) <$> accounts db) /\
  NoDup (l2auth.id <$> accounts db) /\
  Forall (λ a, l2auth.id a < account_id_seq db) (accounts db).

Lemma keyed_fst rows : (keyed <$> rows).*1 = (λ a, lower (l2auth.name a)) <$> rows.
Proof. by rewrite <- list_fmap_compose. Qed.

Lemma by_name_spec db k a :
  schema_ok db ->
  by_name (directory_of db) !! k = Some a <-> a ∈ accounts db /\ lower (l2auth.name a) = k.
Proof.
  intros (Hn & _). cbn. rewrite <- elem_of_list_to_map by by rewrite keyed_fst.
  rewrite list_elem_of_fmap. unfold keyed. split.
  - intros (x & [= -> ->] & Hx). done.
  - intros [Ha <-]. by exists a.
Qed.

Lemma update_schema_ok n set db :
  (forall a, l2auth.name (set a) = l2auth.name a /\ l2auth.id (set a) = l2auth.id a) ->
  schema_ok db -> schema_ok (update_account n set db).
Proof.
  intros Hset (Hn & Hi & Hs). unfold schema_ok, update_account. cbn.
  rewrite <- !list_fmap_compose. split_and!.
  - erewrite list_fmap_ext; [exact Hn|]. intros i a _. cbn. destruct (Hset a). case_decide; [by f_equal|done].
  - erewrite list_fmap_ext; [exact Hi|]. intros i a _. cbn. destruct (Hset a). by case_decide.
  - apply Forall_fmap. eapply Forall_impl; [exact Hs|]. intros a Ha. cbn.
    destruct (Hset a) as [_ Hid]. case_decide; [by rewrite Hid|done].
Qed.

Lemma update_directory n set db :
  (forall a, l2auth.name (set a) = l2auth.name a /\ l2auth.id (set a) = l2auth.id a) ->
  schema_ok db -> directory_of (update_account n set db) = dir_update n set (directory_of db).
Proof.
  intros Hset Hok. unfold dir_update. cbn [next directory_of update_account with_accounts account_id_seq].
  unfold directory_of at 1. f_equal. pose proof (update_schema_ok n set db Hset Hok) as Hok'.
  apply map_eq. intros k. apply option_eq. intros a.
  change (list_to_map _ !! k = Some a) with (by_name (directory_of (update_account n set db)) !! k = Some a).
  rewrite by_name_spec by done. unfold update_account; cbn [accounts with_accounts].
  rewrite list_elem_of_fmap.
  assert (Hname : forall x, l2auth.name (if decide (l2auth.name x = n) then set x else x) = l2auth.name x).
  { intros x. destruct (Hset x). by case_decide. }
  destruct (decide (k = lower n)) as [->|Hk].
  - rewrite lookup_alter_eq, fmap_Some. setoid_rewrite (by_name_spec db); [|done]. split.
    + intros [(x & -> & Hx) Hl]. rewrite Hname in Hl. eauto.
    + intros (x & [Hx Hl] & ->). rewrite Hname. eauto.
  - rewrite lookup_alter_ne by done. rewrite by_name_spec by done. split.
    + intros [(x & -> & Hx) Hl]. rewrite Hname in Hl. case_decide; [congruence|done].
    + intros [Ha Hl]. split; [|done]. exists a. split; [|done]. case_decide; [congruence|done].
Qed.

Lemma directory_at now db : directory_of (at_time now db) = directory_of db.
Proof. done. Qed.

Lemma find_directory n db :
  (forall m, lower (lower m) = lower m) -> schema_ok db ->
  match find_row (lower n) (accounts db) with Some a => Found (selected a) | None => NoRows end
  = dir_find n (directory_of db).
Proof.
  intros Hl Hok. unfold dir_find. destruct (find_row _ _) as [a|] eqn:Ef.
  - apply find_row_Some in Ef as [Ha Hn].
    assert (Hk : by_name (directory_of db) !! lower n = Some a).
    { apply by_name_spec; [done|]. by rewrite Hn, Hl. }
    by rewrite Hk, decide_True.
  - destruct (by_name _ !! _) as [a|] eqn:Ek; [|done]. apply by_name_spec in Ek as [Ha _]; [|done].
    by rewrite decide_False by by eapply find_row_None.
Qed.

Lemma register_directory n p ip db :
  schema_ok db -> refusal (outage db) [n; p] = None ->
  let r := RegisterAccount n p ip db in
  (r.1, directory_of r.2) = dir_register (clock db) n p ip (directory_of db) /\ schema_ok r.2.
Proof.
  intros Hok Hu. unfold RegisterAccount, dir_register. rewrite Hu. change (next (directory_of db)) with (account_id_seq db).
  destruct (_ >=? _); [done|]. pose proof Hok as (Hn & Hi & Hs).
  destruct (by_name (directory_of db) !! lower n) as [a|] eqn:Ek.
  - pose proof Ek as Ek'. apply by_name_spec in Ek' as [Ha Hla]; [|done].
    destruct (existsb _ _) eqn:E; cbn.
    + split; [done|]. split_and!; [done|done|]. eapply Forall_impl; [exact Hs|]. cbn. lia.
    + enough (true = false) by done. rewrite <- E. symmetry. apply taken_spec. by exists a.
  - assert (Hfree : forall a, a ∈ accounts db -> lower (l2auth.name a) <> lower n).
    { intros a Ha Hl. enough (by_name (directory_of db) !! lower n = Some a) by congruence.
      by apply by_name_spec. }
    destruct (existsb _ _) eqn:E.
    { apply taken_spec in E as (a & Ha & Hl). by destruct (Hfree a Ha). }
    set (new := new_account _ _ _ _ _).
    assert (Hok' : schema_ok (with_accounts (λ rows, rows ++ [new]) (nextval db))).
    { unfold schema_ok. cbn. rewrite !fmap_app, !NoDup_app, Forall_app. cbn. split_and!; try done.
      - intros k (a & -> & Ha)%list_elem_of_fmap Hk%list_elem_of_singleton. by apply (Hfree a).
      - apply NoDup_singleton.
      - intros k (a & -> & Ha)%list_elem_of_fmap Hk%list_elem_of_singleton.
        rewrite Forall_forall in Hs. specialize (Hs a Ha). cbn in Hs, Hk. lia.
      - apply NoDup_singleton.
      - eapply Forall_impl; [exact Hs|]. cbn. lia.
      - apply Forall_singleton. cbn. lia. }
    split; [|exact Hok']. cbn [fst snd]. f_equal.
    unfold directory_of at 1. cbn [account_id_seq with_accounts nextval accounts]. f_equal.
    rewrite fmap_app. change (keyed <$> [new]) with [(lower n, new)].
    rewrite list_to_map_snoc; [done|]. rewrite keyed_fst.
    intros (a & Hl & Ha)%list_elem_of_fmap. by apply (Hfree a).
Qed.

Lemma exec_query_refines db q :
  (forall m, lower (lower m) = lower m) -> schema_ok db ->
  let r := exec_query db q in
  (r.1, directory_of r.2) = spec_query (outage db) (directory_of db) q /\
  schema_ok r.2 /\ outage r.2 = outage db.
Proof.
  intros Hl Hok. destruct q as [now q]. unfold exec_query, spec_query. cbn [fst snd].
  assert (Hat : schema_ok (at_time now db)) by done.
  destruct q as [n|n p ip|n ip|n srv|n p].
  - unfold FindAccount. cbn [outage at_time fst snd]. destruct (refusal (outage db) [n]); [done|].
    split; [|done]. by rewrite <- (find_directory n db).
  - destruct (refusal (outage db) [n; p]) eqn:Er.
    { unfold RegisterAccount. cbn [outage at_time]. by rewrite Er. }
    destruct (register_directory n p ip (at_time now db) Hat Er) as [Hr Hok'].
    cbn [clock at_time] in Hr. rewrite directory_at in Hr.
    assert (Ho : outage (RegisterAccount n p ip (at_time now db)).2 = outage db).
    { unfold RegisterAccount. by repeat case_match. }
    destruct (RegisterAccount n p ip (at_time now db)) as [a db']. rewrite <- Hr. by split_and!.
  - unfold UpdateAccountLastIPByName. cbn [outage at_time]. destruct (refusal (outage db) [n]); [done|].
    cbn [fst snd]. rewrite update_directory; [|done..]. split_and!; [done|by apply update_schema_ok|done].
  - unfold UpdateAccountLastServer. cbn [outage at_time]. destruct (refusal (outage db) [n]); [done|].
    cbn [fst snd]. rewrite update_directory; [|done..]. split_and!; [done|by apply update_schema_ok|done].
  - unfold UpdateAccountPasswordByName. cbn [outage at_time]. destruct (refusal (outage db) [n; p]); [done|].
    cbn [fst snd]. rewrite update_directory; [|done..]. split_and!; [done|by apply update_schema_ok|done].
Qed.

(** C8: the tables are a directory of the accounts by their name in lower case:
    from any rows that meet the constraints of the schema, every sequence of
    queries gives the answers of the directory, errors included, leaves the rows
    of the directory it leaves, and never breaks a constraint. *)
Theorem queries_refine db qs :
  (forall m, lower (lower m) = lower m) -> schema_ok db ->
  let '(replies, db') := answers exec_query qs db in
  (replies, directory_of db') = answers (spec_query (outage db)) qs (directory_of db) /\ schema_ok db'.
Proof.
  intros Hl. revert db. induction qs as [|q qs IH]; intros db Hok; [done|]. cbn [answers].
  destruct (exec_query_refines db q Hl Hok) as (Hq & Hok1 & Ho).
  destruct (exec_query db q) as [a db1]. cbn [fst snd] in *. rewrite <- Hq, <- Ho.
  specialize (IH db1 Hok1). destruct (answers exec_query qs db1) as [l db2].
  destruct IH as [IH Hok2]. by rewrite <- IH.
Qed.

(** ** Accounts whose name is not in lower case *)

Section Lockout.
Context `{Bcrypt} (ParseAddr : gostring -> option Addr).
Context (lower_lower : forall n, lower (lower n) = lower n).

Lemma mixed_case_not_found a u db :
  schema_ok db -> a ∈ accounts db -> lower (l2auth.name a) <> l2auth.name a ->
  lower u = lower (l2auth.name a) -> find_row (lower u) (accounts db) = None.
Proof.
  intros Hok Ha Hmixed Hu. destruct (find_row _ _) as [b|] eqn:Ef; [|done].
  apply find_row_Some in Ef as [Hb Hn]. exfalso.
  assert (Heq : Some a = Some b); [|injection Heq as ->; congruence].
  rewrite <- (proj2 (by_name_spec db (lower u) a Hok)) by done. apply by_name_spec; [done|].
  split; [done|]. by rewrite Hn.
Qed.

(** C23: an account whose stored name is not in lower case (one that was not
    registered through the server) can never log in: the query compares the
    stored name itself with the lower-case argument and misses it, and an
    automatic registration of the name runs into the unique index on the
    lower-case name; so whatever the password, the answer is an error, and no
    account is changed. *)
Theorem mixed_case_locked_out auth salt p ip a u db :
  schema_ok db -> a ∈ accounts db -> lower (l2auth.name a) <> l2auth.name a ->
  lower u = lower (l2auth.name a) ->
  let '(result, db') := Authenticate ParseAddr auth salt u p ip db in
  (exists err, result = inl err /\
    (refusal (outage db) [u] = None -> autoCreate auth = false -> err = ErrAccountNotFound)) /\
  (forall hash, refusal (outage db) [u; hash] = None -> GenerateFromPassword salt p = inr hash ->
     account_id_seq db < 2 ^ 63 -> autoCreate auth = true -> result = inl (ErrOther unique_violation)) /\
  accounts db' = accounts db.
Proof.
  intros Hok Ha Hmixed Hu. pose proof (mixed_case_not_found a u db Hok Ha Hmixed Hu) as Hnone.
  assert (Htaken : existsb (λ b, bool_decide (lower (l2auth.name b) = lower u)) (accounts db) = true).
  { apply taken_spec. by exists a. }
  unfold Authenticate, createAccount. cbn [Authenticator.FindAccount Authenticator.RegisterAccount queries_store].
  unfold FindAccount. rewrite Hnone. destruct (refusal (outage db) [u]) as [err|] eqn:Er.
  { split_and!; [eexists; split; [done|intros; congruence]| |done]. intros hash Hr. unfold refusal in *. destruct (outage db); [done|].
    cbn in *. by destruct (refused u). }
  destruct (autoCreate auth) eqn:Ea; [|split_and!; [eexists; split; [done|intros; congruence]|done|done]].
  destruct (GenerateFromPassword salt p) as [err|hash]; [split_and!; [eexists; split; [done|intros; congruence]|done|done]|].
  unfold RegisterAccount. destruct (refusal (outage db) [u; hash]) as [err|] eqn:Er2.
  { split_and!; [eexists; split; [done|intros; congruence]|congruence|done]. }
  destruct (Z.geb_spec (account_id_seq db) (2 ^ 63)); [split_and!; [eexists; split; [done|intros; congruence]|lia|done]|].
  cbn [accounts nextval]. rewrite Htaken. split_and!; [eexists; split; [done|intros; congruence]|done|done].
Qed.
End Lockout.

End Queries.

(** * An instance

    Letters of ASCII, every text accepted, microseconds, UTC. *)
Section Example.
Definition ascii_lower (b : Byte.byte) : Byte.byte :=
  let z := byte.unsigned b in if (65 <=? z) && (z <=? 90) then byte.of_Z (z + 32) else b.

#[local] Instance plain_postgres : Postgres := {
  lower := map ascii_lower;
  refused _ := None;
  inet ip := match ip with InvalidAddr => None | IPv6 a _ => Some (IPv6 a []) | IPv4 a => Some (IPv4 a) end;
  column t := t / 1000;
  scan c := c * 1000;
  timestamp t := t / 1000;
  timestamptz c := c * 1000 }.

#[local] Existing Instance plain_bcrypt.
#[local] Existing Instance queries_store.

Lemma plain_lower n : lower (lower n) = lower n.
Proof. cbn. rewrite map_map. apply map_ext. by intros []. Qed.

(** An administrator has inserted "Bob", the server has registered "ann". *)
Definition bob : l2auth.account := new_account 1 (go_str "Bob") (go_str "pw") None 0.
Definition ann : l2auth.account := new_account 2 (go_str "ann") (go_str "pw") None 0.
Definition sample_database : database :=
  {| accounts := [bob; ann]; account_id_seq := 3; ip_banned := ∅; clock := 0; outage := None |}.

Lemma sample_schema_ok : schema_ok sample_database.
Proof. unfold schema_ok. split_and!; [by apply (bool_decide_unpack _)|by apply (bool_decide_unpack _)|by apply (bool_decide_unpack _)]. Qed.

Lemma queries_refine_witness :
  let qs := [(5, QFind (go_str "ANN")); (6, QRegister (go_str "bob") (go_str "x") None);
             (7, QRegister (go_str "eve") (go_str "x") (Some (IPv4 9))); (8, QLastServer (go_str "eve") 2);
             (9, QFind (go_str "eve"))] in
  (let '(replies, db') := answers exec_query qs sample_database in
   (replies, directory_of db') = answers (spec_query None) qs (directory_of sample_database) /\ schema_ok db') /\
  (answers exec_query qs sample_database).1 =
    [AFind (Found (selected ann)); ARegister (inl unique_violation); ARegister (inr 4); AUpdate None;
     AFind (Found (selected (set_last_server 2 0 (new_account 4 (go_str "eve") (go_str "x") None 0))))].
Proof.
  intros qs. split; [|reflexivity].
  apply (queries_refine sample_database qs); [exact plain_lower|exact sample_schema_ok].
Defined.

Lemma mixed_case_locked_out_witness :
  let '(result, db') := Authenticate (λ _, None) (NewAuthenticator true) [] (go_str "bob") (go_str "pw") [] sample_database in
  (exists err, result = inl err /\
    (refusal (outage sample_database) [go_str "bob"] = None -> autoCreate (NewAuthenticator true) = false ->
       err = ErrAccountNotFound)) /\
  (forall hash, refusal (outage sample_database) [go_str "bob"; hash] = None ->
     GenerateFromPassword [] (go_str "pw") = inr hash -> account_id_seq sample_database < 2 ^ 63 ->
     autoCreate (NewAuthenticator true) = true -> result = inl (ErrOther unique_violation)) /\
  accounts db' = accounts sample_database.
Proof.
  apply (mixed_case_locked_out (λ _, None) plain_lower (NewAuthenticator true) [] (go_str "pw") [] bob (go_str "bob")).
  - exact sample_schema_ok.
  - by left.
  - discriminate.
  - reflexivity.
Defined.

End Example.
