(* ===== verification/BanStore.v ===== *)
(** The bans of [internal/service/ban_manager.go] in the table [l2auth.ip_banned]:
    what the goroutines of the manager leave there, and what the manager of the
    next start of the server makes of it. *)
From stdpp Require Import base gmap list numbers strings.
From Stdlib Require Import Lia ZArith.
From S2P Require Import Prelude.
From S2P Require Import GoStd.
From S2P Require Import BanManager.
From S2P Require Import Queries.
Local Open Scope Z_scope.

Section BanStore.
Context `{Postgres}.

(** The goroutines of the ban manager drop the errors of their queries. *)
Definition exec_call (db : database) (c : db_call) : database :=
  match c with
  | BanManager.AddIPBan ip expiry reason => (AddIPBan ip expiry reason db).2
  | BanManager.RemoveIPBan ip => (RemoveIPBan ip db).2
  end.
Definition exec_calls (cs : list db_call) (db : database) : database := foldl exec_call db cs.

(** What the manager does in memory when it starts a goroutine. *)
Definition mem_call (bans : gmap Addr Time) (c : db_call) : gmap Addr Time :=
  match c with
  | BanManager.AddIPBan ip expiry _ => <[ip := expiry]> bans
  | BanManager.RemoveIPBan ip => delete ip bans
  end.
Definition usual (c : db_call) : Prop :=
  match c with
  | BanManager.AddIPBan _ _ reason => reason = go_str "Too many login attempts"
  | BanManager.RemoveIPBan _ => True
  end.

(** The goroutines started are the journal of the bans in memory. *)
Lemma step_journal m o :
  exists cs, spawned (step m o) = spawned m ++ cs /\ Forall usual cs /\
    ipBans (step m o) = foldl mem_call (ipBans m) cs.
Proof.
  assert (Hnil : forall m', spawned m' = spawned m -> ipBans m' = ipBans m ->
    exists cs, spawned m' = spawned m ++ cs /\ Forall usual cs /\ ipBans m' = foldl mem_call (ipBans m) cs).
  { intros m' -> ->. exists []. by rewrite app_nil_r. }
  destruct o as [now ip|ip|now now' ip]; cbn [step].
  - unfold RecordFailure. destruct (IsLoopback ip); [by apply Hnil|]. case_match; [|by apply Hnil].
    eexists [_]. split_and!; [done|by constructor|done].
  - by apply Hnil.
  - unfold IsBanned, IsBanned_locked. destruct (IsBanned_read now ip m); [by apply Hnil|].
    destruct (ipBans m !! ip) as [u|]; [|by apply Hnil]. destruct (After now' u); [|by apply Hnil].
    eexists [_]. split_and!; [done|by constructor|done].
Qed.

Lemma run_journal ops m :
  exists cs, spawned (run ops m) = spawned m ++ cs /\ Forall usual cs /\
    ipBans (run ops m) = foldl mem_call (ipBans m) cs.
Proof.
  revert m. induction ops as [|o ops IH]; intros m.
  { exists []. by rewrite app_nil_r. }
  cbn [run foldl]. destruct (step_journal m o) as (cs & Hs & Hu & Hb).
  destruct (IH (step m o)) as (cs' & Hs' & Hu' & Hb'). exists (cs ++ cs').
  rewrite foldl_app, <- Hb, <- Hb', app_assoc, <- Hs. split_and!; [done|by apply Forall_app|done].
Qed.

(** The rows [NewBanManager] gets, in the order they come. *)
Definition loads (db : database) (rows : list (Addr * Time)) : Prop :=
  exists bans, GetActiveIPBans db = inr bans /\ rows ≡ₚ (λ b, (Ip b, ExpiryDate b)) <$> bans.

Lemma load_lookup rows n dur ip e :
  NoDup rows.*1 -> ipBans (NewBanManager (inr rows) n dur) !! ip = Some e <-> (ip, e) ∈ rows.
Proof.
  cbn [ipBans NewBanManager]. intros Hd. induction rows as [|[k u] rows IH] using rev_ind.
  { cbn. rewrite lookup_empty. set_solver. }
  rewrite foldl_app. cbn [foldl]. rewrite fmap_app in Hd. apply NoDup_app in Hd as (Hd1 & Hdis & _).
  rewrite elem_of_app, list_elem_of_singleton. destruct (decide (ip = k)) as [->|Hne].
  - rewrite lookup_insert_eq. split; [intros [= <-]; by right|]. intros [Hin|[= <-]]; [|done].
    destruct (Hdis k); [|by apply list_elem_of_singleton]. apply list_elem_of_fmap. by exists (k, e).
  - rewrite lookup_insert_ne by done. rewrite IH by done. split; [by left|]. intros [?|[= -> ->]]; done.
Qed.

Lemma active_spec db bans ip e :
  GetActiveIPBans db = inr bans ->
  (ip, e) ∈ (λ b, (Ip b, ExpiryDate b)) <$> bans <->
  exists c reason, ip_banned db !! ip = Some (c, reason) /\ clock db < timestamptz c /\ e = scan c.
Proof.
  unfold GetActiveIPBans. destruct (refusal (outage db) []); [done|]. intros [= <-].
  rewrite <- list_fmap_compose, list_elem_of_fmap. split.
  - intros ([k [c reason]] & [= -> ->] & [Hc Hin%elem_of_map_to_list]%list_elem_of_filter). by exists c, reason.
  - intros (c & reason & Hin & Hc & ->). exists (ip, (c, reason)). split; [done|].
    apply list_elem_of_filter. split; [done|]. by apply elem_of_map_to_list.
Qed.

Lemma active_NoDup db bans :
  GetActiveIPBans db = inr bans -> NoDup ((λ b, (Ip b, ExpiryDate b)) <$> bans).*1.
Proof.
  unfold GetActiveIPBans. destruct (refusal (outage db) []); [done|]. intros [= <-].
  rewrite <- !list_fmap_compose. erewrite (list_fmap_ext _ fst); [|by intros i [k [c reason]]].
  eapply sublist_NoDup; [apply (NoDup_fst_map_to_list (ip_banned db))|].
  apply fmap_sublist, sublist_filter.
Qed.

(** What a manager holds when it starts: the active bans of the tables. *)
Lemma loads_lookup db rows n dur ip e :
  loads db rows ->
  ipBans (NewBanManager (inr rows) n dur) !! ip = Some e <->
  exists c reason, ip_banned db !! ip = Some (c, reason) /\ clock db < timestamptz c /\ e = scan c.
Proof.
  intros (bans & Hb & Hp). rewrite load_lookup.
  - by rewrite Hp, active_spec.
  - rewrite Hp. by eapply active_NoDup.
Qed.

Section Restart.
(** The driver writes and reads a column to the microsecond, below, and both
    sides take it for UTC; the address is one that [inet] tells apart. *)
Context (scan_column : forall t, scan (column t) <= t < scan (column t) + 1000).
Context (in_utc : forall c, timestamptz c = scan c).
Context (reason_accepted : refused (go_str "Too many login attempts") = None).
Context (ip : Addr) (inet_ip : forall ip', inet ip' = Some ip <-> ip' = ip).

(** The ban of the address in memory and in the tables, for a manager that was
    started at [t0]. *)
Definition kept (t0 : Time) (bans : gmap Addr Time) (db : database) : Prop :=
  match (bans !! ip : option Time) with
  | Some e => exists c reason, ip_banned db !! ip = Some (c, reason) /\ scan c <= e < scan c + 1000
  | None => forall c reason, ip_banned db !! ip = Some (c, reason) -> scan c <= t0
  end.

Lemma call_kept t0 bans db c :
  outage db = None -> usual c -> kept t0 bans db ->
  kept t0 (mem_call bans c) (exec_call db c) /\ outage (exec_call db c) = None.
Proof.
  intros Ho Hu Hk. destruct c as [ip' e reason|ip']; cbn [mem_call exec_call usual] in *.
  - subst reason. unfold AddIPBan, with_bans, refusal. cbn [omap list_omap]. rewrite Ho, reason_accepted. cbn [head].
    destruct (decide (ip' = ip)) as [->|Hne].
    + rewrite (proj2 (inet_ip ip) eq_refl). cbn. split; [|done]. unfold kept. cbn [ip_banned]. rewrite !lookup_insert_eq.
      exists (column e), (go_str "Too many login attempts").
      split; [done|apply scan_column].
    + unfold kept in *. rewrite lookup_insert_ne by done. destruct (inet ip') as [key|] eqn:Ek; [|done].
      cbn. assert (Hkey : key <> ip) by (intros ->; apply Hne; by apply inet_ip). by rewrite lookup_insert_ne.
  - unfold RemoveIPBan, with_bans, refusal. rewrite Ho. cbn [omap list_omap head].
    destruct (decide (ip' = ip)) as [->|Hne].
    + rewrite (proj2 (inet_ip ip) eq_refl). cbn. split; [|done]. unfold kept. rewrite lookup_delete_eq. cbn [ip_banned].
      intros c reason. by rewrite lookup_delete_eq.
    + unfold kept in *. rewrite lookup_delete_ne by done. destruct (inet ip') as [key|] eqn:Ek; [|done].
      cbn. assert (Hkey : key <> ip) by (intros ->; apply Hne; by apply inet_ip). by rewrite lookup_delete_ne.
Qed.

Lemma calls_kept t0 cs bans db :
  outage db = None -> Forall usual cs -> kept t0 bans db ->
  kept t0 (foldl mem_call bans cs) (exec_calls cs db).
Proof.
  revert bans db. induction cs as [|c cs IH]; intros bans db Ho Hu Hk; [done|].
  inversion Hu as [|? ? Hc Hcs]; subst. destruct (call_kept t0 bans db c Ho Hc Hk) as [Hk' Ho'].
  by apply (IH (mem_call bans c) (exec_call db c)).
Qed.

Lemma banned_iff t m :
  IsLoopback ip = false ->
  (IsBanned t t ip m).1 = true <-> exists e, ipBans m !! ip = Some e /\ t <= e.
Proof.
  intros Hl. unfold IsBanned, IsBanned_read, IsBanned_locked. rewrite Hl.
  destruct (ipBans m !! ip) as [e|]; [|split; [done|by intros (? & ? & _)]].
  unfold After. destruct (Z.ltb_spec e t); cbn.
  - split; [done|]. intros (e' & [= <-] & ?). lia.
  - split; [|done]. intros _. by exists e.
Qed.

(** What a manager has loaded is what the tables say. *)
Lemma loaded_kept db rows n dur : loads db rows -> kept (clock db) (ipBans (NewBanManager (inr rows) n dur)) db.
Proof.
  intros Hl. unfold kept. destruct (ipBans _ !! ip) as [e|] eqn:E.
  - apply (loads_lookup db) in E as (c & reason & Hc & _ & ->); [|done]. exists c, reason. split; [done|lia].
  - intros c reason Hc. destruct (Z.le_gt_cases (scan c) (clock db)) as [|Hgt]; [done|].
    exfalso. enough (ipBans (NewBanManager (inr rows) n dur) !! ip = Some (scan c)) by congruence.
    apply (loads_lookup db); [done|]. exists c, reason. rewrite in_utc. by split_and!.
Qed.

(** The manager of the next start bans the address as the old one would. *)
Lemma kept_restart t0 m db rows n dur t :
  kept t0 (ipBans m) db -> loads db rows -> t0 <= clock db <= t ->
  let m' := NewBanManager (inr rows) n dur in
  ((IsBanned t t ip m').1 = true -> (IsBanned t t ip m).1 = true) /\
  ((IsBanned (t + 1000) (t + 1000) ip m).1 = true -> (IsBanned t t ip m').1 = true).
Proof.
  intros Hk Hl Ht m'. destruct (IsLoopback ip) eqn:Hloop.
  { unfold IsBanned, IsBanned_read. by rewrite Hloop. }
  assert (Hm' : forall e, ipBans m' !! ip = Some e <-> exists c reason,
    ip_banned db !! ip = Some (c, reason) /\ clock db < scan c /\ e = scan c).
  { intros e. unfold m'. rewrite (loads_lookup db) by done. by setoid_rewrite in_utc. }
  rewrite !banned_iff by done. setoid_rewrite Hm'. unfold kept in Hk.
  destruct (ipBans m !! ip) as [e|] eqn:E.
  - destruct Hk as (c & reason & Hc & Hs). split.
    + intros (e' & (c' & reason' & Hc' & Ht' & ->) & Hle). exists e. split; [done|].
      rewrite Hc in Hc'. injection Hc' as <- <-. lia.
    + intros (e' & [= <-] & Hle). exists (scan c). split; [|lia]. exists c, reason. split_and!; [done|lia|done].
  - split.
    + intros (e' & (c' & reason' & Hc' & Ht' & ->) & Hle). specialize (Hk _ _ Hc'). lia.
    + by intros (? & ? & _).
Qed.

(** The bans survive a restart: a manager is started on the tables, works
    through any calls, and the goroutines it started run, in their order; then
    the manager that a later start loads from the tables bans the address exactly
    as the old one still would, up to the microsecond of the column. *)
Theorem bans_survive_restart db0 rows0 n dur ops t1 rows1 n' dur' t :
  outage db0 = None -> loads db0 rows0 ->
  let m := run ops (NewBanManager (inr rows0) n dur) in
  let db := at_time t1 (exec_calls (spawned m) db0) in
  loads db rows1 -> clock db0 <= t1 -> t1 <= t ->
  let m' := NewBanManager (inr rows1) n' dur' in
  ((IsBanned t t ip m').1 = true -> (IsBanned t t ip m).1 = true) /\
  ((IsBanned (t + 1000) (t + 1000) ip m).1 = true -> (IsBanned t t ip m').1 = true).
Proof.
  intros Ho Hl0 m db Hl1 Ht1 Ht m'. apply (kept_restart (clock db0) m db); [|done|cbn; lia].
  destruct (run_journal ops (NewBanManager (inr rows0) n dur)) as (cs & Hs & Hu & Hb). fold m in Hs, Hb.
  rewrite Hb. cbn [spawned NewBanManager app] in Hs. unfold db. rewrite Hs.
  apply (calls_kept (clock db0) cs _ db0 Ho Hu). by apply loaded_kept.
Qed.
End Restart.

(** C31: nothing orders the goroutines: a ban that is found expired and a new
    failure that bans the address again start a deletion and an insertion, and if
    the insertion runs first, the database loses a ban that the manager holds, and
    the next start lets the address in. *)
Theorem ban_lost_to_reordering ip m (u t t' : Time) :
  IsLoopback ip = false -> inet ip = Some ip -> ipBans m !! ip = Some u -> u < t ->
  0 <= default 0 (attempts m !! ip) < 2 ^ 63 - 1 -> maxAttempts m <= default 0 (attempts m !! ip) + 1 ->
  t' <= t + banDuration m ->
  let m1 := run [OIsBanned t t ip; OFailure t ip] m in
  exists first second,
    spawned m1 = spawned m ++ [first; second] /\ (IsBanned t' t' ip m1).1 = true /\
    forall db rows n dur, loads (exec_calls [second; first] db) rows ->
      (IsBanned t' t' ip (NewBanManager (inr rows) n dur)).1 = false.
Proof.
  intros Hl Hi Hu Ht Ha Hm Ht' m1.
  exists (BanManager.RemoveIPBan ip), (BanManager.AddIPBan ip (Add t (banDuration m)) (go_str "Too many login attempts")).
  assert (H1 : (IsBanned t t ip m).2 = {| ipBans := delete ip (ipBans m); attempts := attempts m;
    banDuration := banDuration m; maxAttempts := maxAttempts m;
    spawned := spawned m ++ [BanManager.RemoveIPBan ip] |}).
  { unfold IsBanned, IsBanned_read, IsBanned_locked, After. rewrite Hl, Hu. by destruct (Z.ltb_spec u t); [|lia]. }
  assert (H2 : spawned m1 = (spawned m ++ [BanManager.RemoveIPBan ip]) ++
      [BanManager.AddIPBan ip (Add t (banDuration m)) (go_str "Too many login attempts")]
    /\ ipBans m1 !! ip = Some (Add t (banDuration m))).
  { unfold m1. cbn [run foldl step]. rewrite H1. unfold RecordFailure. cbn [attempts maxAttempts ipBans spawned banDuration].
    rewrite Hl, i64_small by (unfold is_i64; lia). destruct (Z.geb_spec (default 0 (attempts m !! ip) + 1) (maxAttempts m)); [|lia].
    cbn [ipBans spawned]. by rewrite lookup_insert_eq. }
  destruct H2 as [Hs Hb]. split_and!.
  - by rewrite Hs, <- app_assoc.
  - apply banned_iff; [done|]. exists (Add t (banDuration m)). split; [done|]. unfold Add. lia.
  - intros db rows n dur Hrows. apply not_true_iff_false. rewrite banned_iff by done.
    intros (e & He & _). apply (loads_lookup _ _ _ _ _ _ Hrows) in He as (c & reason & Hc & _).
    destruct Hrows as (bans & Hg & _). unfold exec_calls in Hc, Hg. cbn [foldl exec_call] in Hc, Hg.
    set (db1 := (AddIPBan ip _ _ db).2) in *. unfold RemoveIPBan in Hc, Hg.
    destruct (refusal (outage db1) []) as [err|] eqn:Er.
    { unfold GetActiveIPBans in Hg. cbn [snd] in Hg. by rewrite Er in Hg. }
    rewrite Hi in Hc. unfold with_bans in Hc. cbn [snd ip_banned] in Hc. by rewrite lookup_delete_eq in Hc.
Qed.
End BanStore.

(** * An instance *)
Section Example.
#[local] Existing Instance plain_postgres.

Lemma plain_column t : scan (column t) <= t < scan (column t) + 1000.
Proof. cbn. pose proof (Z.div_mod t 1000 ltac:(lia)). pose proof (Z.mod_pos_bound t 1000 ltac:(lia)). lia. Qed.

Lemma plain_inet a ip' : inet ip' = Some (IPv4 a) <-> ip' = IPv4 a.
Proof. destruct ip'; cbn; split; congruence. Qed.

(** A ban of the third failure, and a restart while it is in force. *)
Definition sample_calls : list op :=
  [OFailure 1000500 (IPv4 7); OFailure 1000600 (IPv4 7); OFailure 1000700 (IPv4 7)].

Lemma sample_loads : loads (at_time 2000000 (exec_calls (spawned (run sample_calls (NewBanManager (inr []) 3 5000000)))
  (schema 0))) [(IPv4 7, 6000000)].
Proof. eexists. split; [reflexivity|]. reflexivity. Qed.

Lemma bans_survive_restart_witness :
  let m := run sample_calls (NewBanManager (inr []) 3 5000000) in
  let m' := NewBanManager (inr [(IPv4 7, 6000000)]) 4 9 in
  ((IsBanned 3000000 3000000 (IPv4 7) m').1 = true -> (IsBanned 3000000 3000000 (IPv4 7) m).1 = true) /\
  ((IsBanned (3000000 + 1000) (3000000 + 1000) (IPv4 7) m).1 = true -> (IsBanned 3000000 3000000 (IPv4 7) m').1 = true).
Proof.
  apply (bans_survive_restart plain_column (λ _, eq_refl) eq_refl (IPv4 7) (plain_inet 7) (schema 0) [] 3 5000000
    sample_calls 2000000 [(IPv4 7, 6000000)] 4 9 3000000).
  - reflexivity.
  - exists []. by split.
  - exact sample_loads.
  - cbn. lia.
  - lia.
Defined.

Lemma ban_lost_to_reordering_witness :
  let m := NewBanManager (inr [(IPv4 7, 100)]) 1 50 in
  let m1 := run [OIsBanned 101 101 (IPv4 7); OFailure 101 (IPv4 7)] m in
  exists first second,
    spawned m1 = spawned m ++ [first; second] /\ (IsBanned 150 150 (IPv4 7) m1).1 = true /\
    forall db rows n dur, loads (exec_calls [second; first] db) rows ->
      (IsBanned 150 150 (IPv4 7) (NewBanManager (inr rows) n dur)).1 = false.
Proof.
  apply (ban_lost_to_reordering (IPv4 7) (NewBanManager (inr [(IPv4 7, 100)]) 1 50) 100 101 150);
    cbn [attempts NewBanManager maxAttempts banDuration]; rewrite ?lookup_empty; first [reflexivity|cbn; lia].
Defined.
End Example.
