(* ===== verification/Settings.v ===== *)
(** [config/config.go]: the settings, read from environment variables.  A value
    that is no number or no boolean is logged and used all the same, as what
    [strconv] returns next to the error. *)
From stdpp Require Import base gmap list numbers strings.
From coqutil Require Import Byte.
From Stdlib Require Import Lia ZArith.
From S2P Require Import Prelude.
Local Open Scope Z_scope.

(** * os and strconv *)

(** The environment, a list of variables of which the first of a name counts; a
    variable that is not set reads as the empty string. *)
Definition environ : Type := list (gostring * gostring).

Fixpoint Getenv (env : environ) (key : gostring) : gostring :=
  match env with
  | [] => []
  | (k, v) :: env => if decide (k = key) then v else Getenv env key
  end.

Inductive num_error := ErrSyntax | ErrRange.

Definition digit_of (c : byte) : option Z :=
  let z := byte.unsigned c in if (48 <=? z) && (z <=? 57) then Some (z - 48) else None.

(** [ParseUint(s, 10, 64)] on what follows the digits read so far: it stops at the
    first character that is no digit or that makes the value too large. *)
Fixpoint ParseUint (n : Z) (s : gostring) : Z * option num_error :=
  match s with
  | [] => (n, None)
  | c :: s =>
    match digit_of c with
    | None => (0, Some ErrSyntax)
    | Some d => if n * 10 + d >=? 2 ^ 64 then (2 ^ 64 - 1, Some ErrRange) else ParseUint (n * 10 + d) s
    end
  end.

(** The sign and the digits [Atoi] sees. *)
Definition split_sign (s : gostring) : bool * gostring :=
  match s with
  | c :: s' => if decide (c = Byte.x2d) then (true, s') else if decide (c = Byte.x2b) then (false, s') else (false, s)
  | [] => (false, s)
  end.

(** [strconv.Atoi], which is [ParseInt(s, 10, 0)] with a shortcut. *)
Definition Atoi (s : gostring) : Z * option num_error :=
  let '(neg, digits) := split_sign s in
  match digits with
  | [] => (0, Some ErrSyntax)
  | _ =>
    match ParseUint 0 digits with
    | (_, Some ErrSyntax) => (0, Some ErrSyntax)
    | (un, _) =>
      if negb neg && (un >=? 2 ^ 63) then (2 ^ 63 - 1, Some ErrRange)
      else if neg && (un >? 2 ^ 63) then (- 2 ^ 63, Some ErrRange)
      else (if neg then - un else un, None)
    end
  end.

Definition true_words : list gostring := go_str <$> ["1"; "t"; "T"; "TRUE"; "true"; "True"]%string.
Definition false_words : list gostring := go_str <$> ["0"; "f"; "F"; "FALSE"; "false"; "False"]%string.
Definition ParseBool (s : gostring) : bool * option num_error :=
  if decide (s ∈ true_words) then (true, None)
  else if decide (s ∈ false_words) then (false, None)
  else (false, Some ErrSyntax).

(** * The settings *)

Record Database := mkDatabase {
  Host : gostring; User : gostring; Pwd : gostring; Name : gostring; SSLMode : gostring; Port : gostring;
  MaxConn : Z; IdleConn : Z; MaxLifeTime : Z; MaxConnIdleTime : Z }.
Record Account := mkAccount { AttemptsLoginCount : Z; AutoCreateAcc : bool }.
Record Config := mkConfig {
  database : Database; account : Account;
  GameServerListenerPort : gostring; ClientListenerPort : gostring; LoginRateLimit : Z }.

(** The keys whose values are reported as invalid are the log. *)
Definition logged (A : Type) : Type := A * list gostring.
#[global] Instance logged_ret : MRet logged := λ A a, (a, []).
#[global] Instance logged_bind : MBind logged := λ A B k m,
  let '(a, l) := m in let '(b, l') := k a in (b, l ++ l').

Section Settings.
Context (env : environ).
Let getenv (key : String.string) : gostring := Getenv env (go_str key).

Definition mustAtoi (key : String.string) : logged Z :=
  let '(v, err) := Atoi (getenv key) in (v, match err with Some _ => [go_str key] | None => [] end).
Definition mustBool (key : String.string) : logged bool :=
  let '(v, err) := ParseBool (getenv key) in (v, match err with Some _ => [go_str key] | None => [] end).

Definition getAccountSettings : logged Account :=
  attempts ← mustAtoi "ATTEMPTS_LOGIN_COUNT";
  auto ← mustBool "AUTO_CREATE_ACCOUNT";
  mret {| AttemptsLoginCount := attempts; AutoCreateAcc := auto |}.

Definition getDatabaseSettings : logged Database :=
  max ← mustAtoi "DB_MAX_CONN";
  idle ← mustAtoi "DB_IDLE_CONN";
  life ← mustAtoi "DB_MAX_LIFETIME";
  idle_time ← mustAtoi "DB_MAX_CONN_IDLE_TIME";
  mret {| Host := getenv "DB_HOST"; User := getenv "DB_USER"; Pwd := getenv "DB_PWD";
          Port := getenv "DB_PORT"; Name := getenv "DB_NAME"; SSLMode := getenv "DB_SSL_MODE";
          MaxConn := max; IdleConn := idle; MaxLifeTime := life; MaxConnIdleTime := idle_time |}.

Definition New : logged Config :=
  limit ← mustAtoi "LOGIN_RATE_LIMIT";
  db ← getDatabaseSettings;
  acc ← getAccountSettings;
  mret {| GameServerListenerPort := getenv "GAMESERVER_LISTENER_PORT";
          ClientListenerPort := getenv "CLIENT_LISTENER_PORT";
          LoginRateLimit := limit; database := db; account := acc |}.
End Settings.

(** * Numerals *)

(** The reference: the value of a list of digits, the most significant first. *)
Definition value (ds : list Z) : Z := foldl (λ n d, n * 10 + d) 0 ds.
Definition digit_char (d : Z) : byte := byte.of_Z (48 + d).
Definition is_digit (d : Z) : Prop := 0 <= d <= 9.

Definition sign_text (neg plus : bool) : gostring :=
  if neg then [Byte.x2d] else if plus then [Byte.x2b] else [].
Definition signed (neg : bool) (n : Z) : Z := if neg then - n else n.

(** [s] is a decimal numeral of [v], with or without a sign. *)
Definition numeral (s : gostring) (v : Z) : Prop :=
  exists neg plus ds, s = sign_text neg plus ++ (digit_char <$> ds) /\ ds <> [] /\ Forall is_digit ds /\
    v = signed neg (value ds).

Lemma digit_of_char d : is_digit d -> digit_of (digit_char d) = Some d.
Proof.
  intros Hd. unfold is_digit in Hd. unfold digit_of, digit_char.
  rewrite byte_of_Z_unsigned by (unfold is_u8; lia).
  destruct (Z.leb_spec 48 (48 + d)), (Z.leb_spec (48 + d) 57); try lia. cbn. f_equal. lia.
Qed.

Lemma digit_of_Some c d : digit_of c = Some d -> is_digit d /\ c = digit_char d.
Proof.
  unfold digit_of. destruct (Z.leb_spec 48 (byte.unsigned c)), (Z.leb_spec (byte.unsigned c) 57); try done.
  intros [= <-]. split; [unfold is_digit; lia|]. unfold digit_char.
  replace (48 + (byte.unsigned c - 48)) with (byte.unsigned c) by lia. symmetry. apply byte.of_Z_unsigned.
Qed.

Lemma value_from n ds : Forall is_digit ds -> 0 <= n -> n <= foldl (λ n d, n * 10 + d) n ds.
Proof.
  intros Hds. revert n. induction Hds as [|d ds Hd Hds IH]; intros n Hn; cbn [foldl]; [lia|].
  unfold is_digit in Hd. specialize (IH (n * 10 + d) ltac:(lia)). lia.
Qed.

Lemma ParseUint_digits ds n :
  Forall is_digit ds -> 0 <= n < 2 ^ 64 ->
  let v := foldl (λ n d, n * 10 + d) n ds in
  ParseUint n (digit_char <$> ds) = if v <? 2 ^ 64 then (v, None) else (2 ^ 64 - 1, Some ErrRange).
Proof.
  intros Hds. revert n. induction Hds as [|d ds Hd Hds IH]; intros n Hn; cbn [foldl fmap list_fmap ParseUint].
  { destruct (Z.ltb_spec n (2 ^ 64)); [done|lia]. }
  rewrite digit_of_char by done. unfold is_digit in Hd.
  pose proof (value_from (n * 10 + d) ds Hds ltac:(lia)). destruct (Z.geb_spec (n * 10 + d) (2 ^ 64)).
  - destruct (Z.ltb_spec (foldl (λ n d, n * 10 + d) (n * 10 + d) ds) (2 ^ 64)); [lia|done].
  - apply IH. lia.
Qed.

(** Without a syntax error the text was digits up to where the value overflowed. *)
Lemma ParseUint_ok s n v :
  ParseUint n s = (v, None) -> exists ds, s = digit_char <$> ds /\ Forall is_digit ds.
Proof.
  revert n. induction s as [|c s IH]; intros n; cbn [ParseUint]; [by exists []|].
  destruct (digit_of c) as [d|] eqn:Ed; [|done]. destruct (_ >=? _); [done|].
  intros (ds & -> & Hds)%IH. apply digit_of_Some in Ed as [Hd ->]. exists (d :: ds). split; [done|by constructor].
Qed.

Lemma ParseUint_err s n v err : ParseUint n s = (v, Some err) -> v = match err with ErrSyntax => 0 | ErrRange => 2 ^ 64 - 1 end.
Proof.
  revert n. induction s as [|c s IH]; intros n; cbn [ParseUint]; [done|].
  destruct (digit_of c); [|by intros [= <- <-]]. destruct (_ >=? _); [by intros [= <- <-]|apply IH].
Qed.

Lemma split_sign_spec s : exists plus, s = sign_text (split_sign s).1 plus ++ (split_sign s).2.
Proof.
  destruct s as [|c s]; [by exists false|]. cbn [split_sign].
  destruct (decide (c = Byte.x2d)) as [->|]; [by exists false|].
  destruct (decide (c = Byte.x2b)) as [->|]; [by exists true|by exists false].
Qed.

Lemma split_sign_digits neg plus ds :
  ds <> [] -> Forall is_digit ds ->
  split_sign (sign_text neg plus ++ (digit_char <$> ds)) = (neg, digit_char <$> ds).
Proof.
  intros Hne Hds. destruct neg; [done|]. destruct plus; [done|].
  destruct ds as [|d ds]; [done|]. inversion Hds as [|? ? Hd _]; subst.
  pose proof (digit_of_char d Hd) as Hc. cbn [sign_text app fmap list_fmap split_sign].
  destruct (decide (digit_char d = Byte.x2d)) as [E|]; [by rewrite E in Hc|].
  destruct (decide (digit_char d = Byte.x2b)) as [E|]; [by rewrite E in Hc|done].
Qed.

(** A numeral reads as its value, clamped to the range of [int]. *)
Lemma Atoi_numeral s v :
  numeral s v ->
  Atoi s = (Z.max (- 2 ^ 63) (Z.min (2 ^ 63 - 1) v),
            if (- 2 ^ 63 <=? v) && (v <=? 2 ^ 63 - 1) then None else Some ErrRange).
Proof.
  intros (neg & plus & ds & -> & Hne & Hds & ->). unfold Atoi.
  rewrite split_sign_digits by done. destruct (digit_char <$> ds) as [|c l] eqn:El; [by apply fmap_nil_inv in El|].
  rewrite <- El, ParseUint_digits by (done || lia). fold (value ds).
  assert (Hv : 0 <= value ds) by by apply value_from.
  destruct (Z.ltb_spec (value ds) (2 ^ 64)).
  - destruct neg; cbn [negb andb signed].
    + destruct (Z.gtb_spec (value ds) (2 ^ 63)).
      * destruct (Z.leb_spec (- 2 ^ 63) (- value ds)); [lia|]. cbn [andb]. f_equal. lia.
      * destruct (Z.leb_spec (- 2 ^ 63) (- value ds)), (Z.leb_spec (- value ds) (2 ^ 63 - 1)); try lia. cbn [andb]. f_equal. lia.
    + destruct (Z.geb_spec (value ds) (2 ^ 63)).
      * destruct (Z.leb_spec (- 2 ^ 63) (value ds)), (Z.leb_spec (value ds) (2 ^ 63 - 1)); try lia. cbn [andb]. f_equal. lia.
      * destruct (Z.leb_spec (- 2 ^ 63) (value ds)), (Z.leb_spec (value ds) (2 ^ 63 - 1)); try lia. cbn [andb]. f_equal. lia.
  - destruct neg; cbn [negb andb signed].
    + destruct (Z.leb_spec (- 2 ^ 63) (- value ds)); [lia|]. change (2 ^ 64 - 1 >? 2 ^ 63) with true. cbn [andb]. f_equal. lia.
    + destruct (Z.leb_spec (- 2 ^ 63) (value ds)), (Z.leb_spec (value ds) (2 ^ 63 - 1)); try lia.
      change (2 ^ 64 - 1 >=? 2 ^ 63) with true. cbn [andb]. f_equal. lia.
Qed.

Lemma Atoi_None s v : Atoi s = (v, None) -> numeral s v.
Proof.
  unfold Atoi. destruct (split_sign_spec s) as [plus Hs]. destruct (split_sign s) as [neg digits].
  cbn [fst snd] in *. destruct digits as [|c l] eqn:El; [done|]. rewrite <- El in *.
  destruct (ParseUint 0 digits) as [un [[]|]] eqn:Ep; [done| |].
  - apply ParseUint_err in Ep as ->. destruct neg; cbn; done.
  - destruct (negb neg && _); [done|]. destruct (neg && _); [done|]. intros [= <-].
    destruct (ParseUint_ok _ _ _ Ep) as (ds & Hds & Hd). exists neg, plus, ds. split_and!; try done.
    + by rewrite <- Hds.
    + intros ->. cbn in Hds. congruence.
    + rewrite Hds in Ep. rewrite ParseUint_digits in Ep by (done || lia). unfold signed, value.
      destruct (_ <? _); [by injection Ep as <-|done].
Qed.

Lemma Atoi_Some s v err :
  Atoi s = (v, Some err) ->
  match err with ErrSyntax => v = 0 | ErrRange => v = 2 ^ 63 - 1 \/ v = - 2 ^ 63 end.
Proof.
  unfold Atoi. destruct (split_sign s) as [neg digits].
  destruct digits; [by intros [= <- <-]|]. destruct (ParseUint _ _) as [un [[]|]]; [by intros [= <- <-]|..];
    (destruct (negb neg && _); [intros [= <- <-]; by left|]);
    (destruct (neg && _); [intros [= <- <-]; by right|done]).
Qed.

(** * What the settings say *)

(** What an integer setting is read from its text, and whether that is logged. *)
Definition reads_int (text : gostring) (v : Z) (bad : bool) : Prop :=
  if bad
  then (v = 0 \/ v = 2 ^ 63 - 1 \/ v = - 2 ^ 63) /\
       forall v', numeral text v' -> ~ is_i64 v' /\ v = Z.max (- 2 ^ 63) (Z.min (2 ^ 63 - 1) v')
  else numeral text v /\ is_i64 v.
Definition reads_bool (text : gostring) (b bad : bool) : Prop :=
  if bad then b = false /\ (text ∉ true_words) /\ (text ∉ false_words)
  else text ∈ (if b then true_words else false_words).

Definition is_error {A} (p : A * option num_error) : bool := match p.2 with Some _ => true | None => false end.

Lemma Atoi_reads s : reads_int s (Atoi s).1 (is_error (Atoi s)).
Proof.
  unfold is_error. destruct (Atoi s) as [v [err|]] eqn:E; cbn [fst snd reads_int].
  - split.
    + apply Atoi_Some in E. destruct err; auto.
    + intros v' Hv. rewrite (Atoi_numeral _ _ Hv) in E. injection E as <- E. split; [|done].
      unfold is_i64. destruct (Z.leb_spec (- 2 ^ 63) v'), (Z.leb_spec v' (2 ^ 63 - 1)); cbn in E; (done || lia).
  - pose proof (Atoi_None _ _ E) as Hv. split; [done|]. rewrite (Atoi_numeral _ _ Hv) in E.
    injection E as Hc E. unfold is_i64.
    destruct (Z.leb_spec (- 2 ^ 63) v), (Z.leb_spec v (2 ^ 63 - 1)); cbn in E; (done || lia).
Qed.

Lemma ParseBool_reads s : reads_bool s (ParseBool s).1 (is_error (ParseBool s)).
Proof. unfold ParseBool, is_error. repeat case_decide; cbn; auto. Qed.

Lemma mustAtoi_eq env key :
  mustAtoi env key = ((Atoi (Getenv env (go_str key))).1,
                      if is_error (Atoi (Getenv env (go_str key))) then [go_str key] else []).
Proof. unfold mustAtoi, is_error. by destruct (Atoi _) as [v [err|]]. Qed.

Lemma mustBool_eq env key :
  mustBool env key = ((ParseBool (Getenv env (go_str key))).1,
                      if is_error (ParseBool (Getenv env (go_str key))) then [go_str key] else []).
Proof. unfold mustBool, is_error. by destruct (ParseBool _) as [v [err|]]. Qed.

Definition ints (c : Config) : list (String.string * Z) :=
  [("LOGIN_RATE_LIMIT", LoginRateLimit c); ("DB_MAX_CONN", MaxConn (database c));
   ("DB_IDLE_CONN", IdleConn (database c)); ("DB_MAX_LIFETIME", MaxLifeTime (database c));
   ("DB_MAX_CONN_IDLE_TIME", MaxConnIdleTime (database c));
   ("ATTEMPTS_LOGIN_COUNT", AttemptsLoginCount (account c))]%string.
Definition texts (c : Config) : list (String.string * gostring) :=
  [("GAMESERVER_LISTENER_PORT", GameServerListenerPort c); ("CLIENT_LISTENER_PORT", ClientListenerPort c);
   ("DB_HOST", Host (database c)); ("DB_USER", User (database c)); ("DB_PWD", Pwd (database c));
   ("DB_PORT", Port (database c)); ("DB_NAME", Name (database c)); ("DB_SSL_MODE", SSLMode (database c))]%string.

