(* ===== verification/Database.v ===== *)
(** [pkg/database/database.go]: opening the connection pool.  The pool itself is
    the driver's: parsing a connection string, creating a pool, pinging it are
    parameters; what the function writes into the configuration and what becomes
    of a pool it does not return are modelled. *)
From stdpp Require Import base gmap list numbers strings.
From Stdlib Require Import Lia ZArith.
From S2P Require Import Prelude.
From S2P Require Import GoStd.
Local Open Scope Z_scope.

Definition Minute : Z := 60 * Second.

(** The fields of [pgxpool.Config] the function sets; [rest] is what the driver
    has parsed besides. *)
Record PoolConfig (R : Type) := mkPoolConfig {
  MaxConns : Z; MinConns : Z; MaxConnLifetime : Z; MaxConnIdleTime : Z; HealthCheckPeriod : Z;
  CacheStatement : bool; RuntimeParams : gmap gostring gostring; rest : R }.
Arguments mkPoolConfig {R} _ _ _ _ _ _ _ _.
Arguments MaxConns {R}. Arguments MinConns {R}. Arguments MaxConnLifetime {R}.
Arguments MaxConnIdleTime {R}. Arguments HealthCheckPeriod {R}. Arguments CacheStatement {R}.
Arguments RuntimeParams {R}. Arguments rest {R}.

(** [errors.Join(errors.New(msg), err)]. *)
Definition join (msg : string) (err : error) : error :=
  (msg ++ String.String (Ascii.ascii_of_nat 10) EmptyString ++ err)%string.

Section OpenPool.
Context {R Pool : Type}.
(** The driver: [ParseConfig], [NewWithConfig] and [Ping]. *)
Context (ParseConfig : gostring -> error + PoolConfig R) (NewWithConfig : PoolConfig R -> error + Pool)
        (Ping : Pool -> option error).

Definition connection_string (host port user pwd name sslMode : gostring) : gostring :=
  go_str "host=" ++ host ++ go_str " port=" ++ port ++ go_str " user=" ++ user ++
  go_str " password=" ++ pwd ++ go_str " dbname=" ++ name ++ go_str " sslmode=" ++ sslMode.

(** The configuration as it is passed to the driver. *)
Definition configured (appName : gostring) (maxConnections maxConnIdleTime idleConnections maxLifeConnections : Z)
    (cfg : PoolConfig R) : PoolConfig R :=
  {| MaxConns := i32 maxConnections; MinConns := i32 idleConnections;
     MaxConnLifetime := i64 (i64 maxLifeConnections * Minute);
     MaxConnIdleTime := i64 (i64 maxConnIdleTime * Minute);
     HealthCheckPeriod := 30 * Second; CacheStatement := true;
     RuntimeParams :=
       <[go_str "idle_in_transaction_session_timeout" := go_str "30s"]>
       (<[go_str "statement_timeout" := go_str "30s"]>
       (<[go_str "lock_timeout" := go_str "3s"]>
       (<[go_str "application_name" := appName]> (RuntimeParams cfg))));
     rest := rest cfg |}.

(** The answer, and the pools that were created and those that were closed. *)
Record opened := mkOpened { answer : error + Pool; created : list Pool; closed : list Pool }.

Definition OpenPool (host port user pwd name sslMode appName : gostring)
    (maxConnections maxConnIdleTime idleConnections maxLifeConnections : Z) : opened :=
  match ParseConfig (connection_string host port user pwd name sslMode) with
  | inl err => {| answer := inl (join "failed to parse" err); created := []; closed := [] |}
  | inr cfg =>
    match NewWithConfig (configured appName maxConnections maxConnIdleTime idleConnections maxLifeConnections cfg) with
    | inl err => {| answer := inl (join "create pool" err); created := []; closed := [] |}
    | inr pool =>
      match Ping pool with
      | Some err => {| answer := inl (join "database ping failed" err); created := [pool]; closed := [pool] |}
      | None => {| answer := inr pool; created := [pool]; closed := [] |}
      end
    end
  end.

(** The pool is returned exactly if the string parses, the driver makes a pool
    of the configuration and the first ping succeeds, and then with the limits that
    were asked for as far as they fit their types; an error says which step failed,
    and a pool that is not returned has been closed. *)
Theorem OpenPool_spec host port user pwd name ssl app maxc idle_time idlec life :
  let r := OpenPool host port user pwd name ssl app maxc idle_time idlec life in
  let parsed := ParseConfig (connection_string host port user pwd name ssl) in
  (forall pool, answer r = inr pool <->
     exists cfg pc, parsed = inr cfg /\ NewWithConfig pc = inr pool /\ Ping pool = None /\
       pc = configured app maxc idle_time idlec life cfg /\
       (is_i32 maxc -> MaxConns pc = maxc) /\ (is_i32 idlec -> MinConns pc = idlec) /\
       (Z.abs life < 153722867 -> MaxConnLifetime pc = life * Minute) /\
       (Z.abs idle_time < 153722867 -> MaxConnIdleTime pc = idle_time * Minute)) /\
  (forall err, answer r = inl err ->
     (exists e, parsed = inl e /\ err = join "failed to parse" e) \/
     (exists e cfg, parsed = inr cfg /\
        NewWithConfig (configured app maxc idle_time idlec life cfg) = inl e /\ err = join "create pool" e) \/
     (exists e pool, created r = [pool] /\ Ping pool = Some e /\ err = join "database ping failed" e)) /\
  (forall pool, pool ∈ created r -> answer r = inr pool /\ closed r = [] \/ pool ∈ closed r).
Proof.
  intros r parsed. unfold r, OpenPool. fold parsed.
  assert (Hmin : forall m, Z.abs m < 153722867 -> i64 (i64 m * Minute) = m * Minute).
  { intros m Hm. unfold Minute, Second. rewrite (i64_small m) by (unfold is_i64; lia).
    apply i64_small. unfold is_i64. lia. }
  destruct parsed as [e|cfg] eqn:Ep; cbn [answer created closed].
  { split_and!.
    - intros pool. split; [done|]. by intros (? & ? & ? & _).
    - intros err [= <-]. left. eauto.
    - set_solver. }
  set (pc := configured app maxc idle_time idlec life cfg).
  destruct (NewWithConfig pc) as [e|pool] eqn:En; cbn [answer created closed].
  { split_and!.
    - intros pool. split; [done|]. intros (cfg' & pc' & [= <-] & Hn & _ & -> & _). unfold pc in En. congruence.
    - intros err [= <-]. right; left. by exists e, cfg.
    - set_solver. }
  destruct (Ping pool) as [e|] eqn:Ei; cbn [answer created closed].
  { split_and!.
    - intros p. split; [done|]. intros (cfg' & pc' & [= <-] & Hn & Hp & -> & _). unfold pc in En. congruence.
    - intros err [= <-]. right; right. by exists e, pool.
    - intros p Hp. by right. }
  split_and!.
  - intros p. split.
    + intros [= <-]. exists cfg, pc. split_and!; try done; intros Hz; cbn; [by apply i32_small..|by apply Hmin|by apply Hmin].
    + intros (cfg' & pc' & [= <-] & Hn & Hp & -> & _). unfold pc in En. congruence.
  - done.
  - intros p ->%list_elem_of_singleton. by left.
Qed.

(** The string is put together without quoting: a password with a space in it runs
    into the next parameter, and the settings cannot be told from others. *)
Theorem connection_string_ambiguous host port user pwd name1 name2 ssl :
  connection_string host port user (pwd ++ go_str " dbname=" ++ name1) name2 ssl
  = connection_string host port user pwd (name1 ++ go_str " dbname=" ++ name2) ssl.
Proof. unfold connection_string. by rewrite <- !app_assoc. Qed.
End OpenPool.
