(* ===== verification/Credentials.v ===== *)
(** [internal/packet/client/login.go], the part that reads credentials: the one
    or two RSA blocks of a login packet, and the account name and password at
    their fixed offsets in the plain text. *)
From stdpp Require Import base gmap list numbers strings.
From coqutil Require Import Byte Word.LittleEndianList.
From Stdlib Require Import Lia ZArith.
From S2P Require Import Prelude.
From S2P Require Import Unicode.
From S2P Require Import PacketReader.
From S2P Require Import PacketWriter.
From S2P Require Import PacketCodec.
From S2P Require Import Rsa.
Local Open Scope Z_scope.

(** [strings.ToLower]: byte by byte on ASCII, else [strings.Map] of
    [unicode.ToLower], here [to_lower]. *)
Definition is_ascii (c : byte) : bool := byte.unsigned c <? 0x80.
Definition lower_ascii (c : byte) : byte :=
  if within 0x41 0x5A (byte.unsigned c) then byte.of_Z (byte.unsigned c + 32) else c.
Definition ToLower (to_lower : Z -> Z) (s : gostring) : gostring :=
  if forallb is_ascii s then lower_ascii <$> s else string_of_runes (to_lower <$> runes s).

(** The second block is [nil] when the packet has only one. *)
Definition readLoginBlocks : M PacketReader (list byte * option (list byte)) :=
  block1 ← ReadBytes 128;
  readable ← ((λ r, (Val (ReadableBytes r), r)) : M PacketReader Z);
  if readable >=? 128 then block2 ← ReadBytes 128; mret (block1, Some block2)
  else mret (block1, None).

Definition blank (c : byte) : bool := (byte.unsigned c =? 0) || (byte.unsigned c =? 0x20).

(** The two loops; [n] bounds the number of iterations left. *)
Fixpoint scan_start (n start e : nat) (b : list byte) : nat :=
  match n with
  | O => start
  | S n => if (start <? e)%nat && blank (at_ b start) then scan_start n (S start) e b else start
  end.
Fixpoint scan_end (n start e : nat) (b : list byte) : nat :=
  match n with
  | O => e
  | S n => if (start <? e)%nat && blank (at_ b (e - 1)) then scan_end n start (e - 1) b else e
  end.

Definition cleanBytesToString (b : list byte) : gostring :=
  let e := length b in
  let start := scan_start e 0 e b in
  let e := scan_end e start e b in
  if (e <=? start)%nat then [] else slice start e b.

Definition decodeCredentials (to_lower : Z -> Z) (key : ScrambledKey) (block1 : list byte)
    (block2 : option (list byte)) : outcome (gostring * gostring) :=
  let decrypted := replicate 256 Byte.x00 in
  match RSADecrypt key block1 with
  | Fail err => Fail err
  | Panic => Panic
  | Val part1 =>
    let decrypted := splice 0 part1 decrypted in
    match block2 with
    | Some block2 =>
      match RSADecrypt key block2 with
      | Fail err => Fail err
      | Panic => Panic
      | Val part2 =>
        let decrypted := splice 128 part2 decrypted in
        let username := cleanBytesToString (slice 0x4E (0x4E + 50) decrypted)
                        ++ cleanBytesToString (slice 0xCE (0xCE + 14) decrypted) in
        let password := cleanBytesToString (slice 0xDC (0xDC + 16) decrypted) in
        Val (ToLower to_lower username, password)
      end
    | None =>
      let username := cleanBytesToString (slice 0x5E (0x5E + 14) decrypted) in
      let password := cleanBytesToString (slice 0x6C (0x6C + 16) decrypted) in
      Val (ToLower to_lower username, password)
    end
  end.

Example clean_sample : cleanBytesToString (go_str "  a b" ++ [Byte.x00; Byte.x20]) = go_str "a b".
Proof. reflexivity. Qed.
Example clean_blank : cleanBytesToString [Byte.x00; Byte.x20] = [].
Proof. reflexivity. Qed.
Example lower_sample : ToLower id (go_str "AnN-Z[") = go_str "ann-z[".
Proof. reflexivity. Qed.

(** * What a client puts in a field: its text, padded with NULs or spaces *)

(** No blank at either end. *)
Definition trimmed (s : gostring) : Prop :=
  (forall c, head s = Some c -> blank c = false) /\ (forall c, last s = Some c -> blank c = false).

Definition holds (s : gostring) (field : list byte) : Prop :=
  exists l r, field = l ++ s ++ r /\ Forall blank l /\ Forall blank r.

Lemma at_app_r (l m : list byte) i : (length l <= i)%nat -> at_ (l ++ m) i = at_ m (i - length l).
Proof. intros H. unfold at_. by apply app_nth2. Qed.
Lemma at_app_l (l m : list byte) i : (i < length l)%nat -> at_ (l ++ m) i = at_ l i.
Proof. intros H. unfold at_. by apply app_nth1. Qed.

Lemma blank_at l i : Forall blank l -> (i < length l)%nat -> blank (at_ l i) = true.
Proof.
  intros H Hi. unfold at_. destruct (lookup_lt_is_Some_2 l i Hi) as [c Hc].
  rewrite nth_lookup, Hc. cbn. apply Is_true_true. by eapply Forall_lookup_1 in H.
Qed.

(** The scans stop at the first byte that is not blank, or at each other. *)
Lemma scan_start_blank l m n e :
  Forall blank l -> (length l <= n)%nat -> (length l <= e)%nat ->
  (length l = e \/ blank (at_ m 0) = false) ->
  scan_start n 0 e (l ++ m) = length l.
Proof.
  intros Hl. cut (forall k n, (k <= length l)%nat -> (k <= n)%nat -> (length l <= e)%nat ->
    (length l = e \/ blank (at_ m 0) = false) -> scan_start n (length l - k) e (l ++ m) = length l).
  { intros H Hn He Hm. specialize (H (length l) n). rewrite Nat.sub_diag in H. by apply H. }
  clear n. induction k as [|k IH]; intros n Hk Hn He Hm; destruct n as [|n]; cbn [scan_start]; try lia.
  - rewrite Nat.sub_0_r. destruct (Nat.ltb_spec (length l) e); [|done].
    destruct Hm as [|Hm]; [lia|]. rewrite at_app_r, Nat.sub_diag, Hm by lia. done.
  - destruct (Nat.ltb_spec (length l - S k) e); [|lia].
    rewrite at_app_l, blank_at by (done || lia). cbn [andb].
    replace (S (length l - S k)) with (length l - k)%nat by lia. apply IH; (done || lia).
Qed.

Lemma scan_end_blank pre r n start :
  Forall blank r -> (length r <= n)%nat -> (start <= length pre)%nat ->
  (start = length pre \/ blank (at_ pre (length pre - 1)) = false) ->
  scan_end n start (length pre + length r) (pre ++ r) = length pre.
Proof.
  intros Hr Hn Hs Hp.
  cut (forall k n, (k <= length r)%nat -> (k <= n)%nat ->
    scan_end n start (length pre + k) (pre ++ r) = length pre); [intros H; by apply H|].
  clear n Hn. induction k as [|k IH]; intros n Hk Hn; destruct n as [|n]; cbn [scan_end]; try lia.
  - rewrite Nat.add_0_r. destruct (Nat.ltb_spec start (length pre)); [|done].
    destruct Hp as [|Hp]; [lia|]. by rewrite at_app_l, Hp by lia.
  - destruct (Nat.ltb_spec start (length pre + S k)); [|lia].
    replace (length pre + S k - 1)%nat with (length pre + k)%nat by lia.
    rewrite at_app_r, blank_at by (done || lia). cbn [andb]. apply IH; lia.
Qed.

Lemma last_at (s : list byte) : s <> [] -> last s = Some (at_ s (length s - 1)).
Proof.
  intros H. rewrite last_lookup. unfold at_. rewrite nth_lookup.
  destruct (lookup_lt_is_Some_2 s (length s - 1)) as [c Hc]; [destruct s; [done|cbn; lia]|].
  replace (pred (length s)) with (length s - 1)%nat by lia. by rewrite Hc.
Qed.

Lemma clean_holds s field : trimmed s -> holds s field -> cleanBytesToString field = s.
Proof.
  intros [Hh Ht] (l & r & -> & Hl & Hr). unfold cleanBytesToString.
  destruct (decide (s = [])) as [->|Hne].
  - cbn [app]. assert (Forall blank (l ++ r)) as Hb by by apply Forall_app.
    pose proof (scan_start_blank (l ++ r) [] (length (l ++ r)) (length (l ++ r)) Hb) as Hs.
    rewrite app_nil_r in Hs. rewrite Hs by (try lia; by left).
    assert (forall n, scan_end n (length (l ++ r)) (length (l ++ r)) (l ++ r) = length (l ++ r)) as ->.
    { intros [|n]; cbn [scan_end]; [done|]. by rewrite Nat.ltb_irrefl. }
    by rewrite Nat.leb_refl.
  - assert (0 < length s)%nat as Hpos by (destruct s; [done|cbn; lia]).
    rewrite scan_start_blank; [|done|rewrite !length_app; lia..|].
    2: { right. destruct s as [|c s']; [done|]. by apply Hh. }
    rewrite !length_app, app_assoc, Nat.add_assoc, <- length_app.
    rewrite scan_end_blank; [|done|lia|rewrite length_app; lia|].
    2: { right. rewrite length_app, at_app_r by lia.
         replace (length l + length s - 1 - length l)%nat with (length s - 1)%nat by lia.
         apply Ht. by apply last_at. }
    rewrite length_app. destruct (Nat.leb_spec (length l + length s) (length l)); [lia|].
    rewrite <- app_assoc. apply slice_app_mid.
Qed.

(** The plain text of a block is a number of that many big-endian bytes. *)
Lemma FillBytes_SetBytes bs : FillBytes (length bs) (SetBytes bs) = Val bs.
Proof.
  unfold FillBytes, SetBytes. pose proof (le_combine_bound (rev bs)) as Hb. rewrite length_rev in Hb.
  destruct (Z.ltb_spec (le_combine (rev bs)) (2 ^ (8 * Z.of_nat (length bs)))) as [_|Hge].
  - rewrite split_le_combine' by (by rewrite length_rev). by rewrite rev_involutive.
  - lia.
Qed.

Lemma SetBytes_nonneg bs : 0 <= SetBytes bs.
Proof. unfold SetBytes. pose proof (le_combine_bound (rev bs)). lia. Qed.

(** [ct] is what the client sends for [plain] under the public key. *)
Definition enciphers (key : ScrambledKey) (plain ct : list byte) : Prop :=
  length plain = RSAModulusSize /\ SetBytes plain < N (Private key) /\
  FillBytes RSAModulusSize (SetBytes plain ^ E (Private key) mod N (Private key)) = Val ct.

Lemma RSADecrypt_enciphers key plain ct :
  rsa_ok (Private key) -> enciphers key plain ct -> RSADecrypt key ct = Val plain.
Proof.
  intros Hk (Hl & Hlt & Hct). pose proof (SetBytes_nonneg plain).
  destruct (RSADecrypt_inverts key (SetBytes plain) ct Hk ltac:(lia) Hct) as [-> _].
  rewrite <- Hl. apply FillBytes_SetBytes.
Qed.

Lemma slice_app_left {A} a b (l m : list A) : (b <= length l)%nat -> slice a b (l ++ m) = slice a b l.
Proof.
  intros H. unfold slice. destruct (Nat.le_gt_cases a b) as [Hab|Hab].
  - rewrite drop_app_le by lia. by rewrite take_app_le by (rewrite length_drop; lia).
  - replace (b - a)%nat with 0%nat by lia. done.
Qed.


(** A key of 40 bits is enough for a password of one letter. *)
Definition sample_key : ScrambledKey :=
  {| Private := {| N := 1099532599387; E := 17; D := 258713059345; Prime0 := 1048583; Prime1 := 1048589;
                   Dp := 616813; Dq := 185045; Qinv := 174764 |};
     Modulus := [] |}.

Lemma sample_key_ok : rsa_ok (Private sample_key).
Proof. split; first [by apply (prime_check _ 1100) | reflexivity | done]. Qed.

Definition sample_block : list byte := replicate 123 Byte.x00 ++ go_str "x" ++ replicate 4 Byte.x00.
Definition sample_ct : list byte :=
  rev (le_split 128 (SetBytes sample_block ^ E (Private sample_key) mod N (Private sample_key))).


(** Whatever the packet holds, decoding ends with credentials or an error. *)
Lemma decodeCredentials_total to_lower key block1 block2 :
  rsa_ok (Private key) -> is_panic (decodeCredentials to_lower key block1 block2) = false.
Proof.
  intros Hk. unfold decodeCredentials. pose proof (RSADecrypt_value key block1 Hk) as H1.
  destruct (_ =? _)%nat in H1; [destruct H1 as (out & -> & _)|by rewrite H1].
  destruct block2 as [block2|]; [|done]. pose proof (RSADecrypt_value key block2 Hk) as H2.
  destruct (_ =? _)%nat in H2; [by destruct H2 as (out2 & -> & _)|by rewrite H2].
Qed.

(** ** A decoded name is short enough for any packet *)

Definition name_ok (u : gostring) : Prop := (length (utf16le u) <= 1024)%nat.

Lemma length_runes s : (length (runes s) <= length s)%nat.
Proof.
  apply (runes_ind (λ s rs, (length rs <= length s)%nat)); [done|]. clear s. intros s r n Hs Hd _ IH.
  pose proof (decode_rune_width s Hs) as Hw. rewrite Hd in Hw. cbn [length snd] in *.
  rewrite length_drop in IH. destruct s; [done|]. cbn [length] in *. lia.
Qed.

Lemma length_bind_le {A B} (f : A -> list B) k l :
  (forall a, (length (f a) <= k)%nat) -> (length (l ≫= f) <= k * length l)%nat.
Proof.
  intros Hf. induction l as [|a l IH]; [cbn; lia|].
  change ((a :: l) ≫= f) with (f a ++ (l ≫= f)). rewrite length_app. specialize (Hf a). cbn [length]. lia.
Qed.

Lemma length_utf16le s : (length (utf16le s) <= 4 * length s)%nat.
Proof.
  unfold utf16le. rewrite length_le_bytes. pose proof (length_runes s).
  assert (forall r, (length (utf16_units r) <= 2)%nat) as Hu.
  { intros r. unfold utf16_units. destruct (r <=? 0xFFFF); [cbn; lia|].
    destruct (utf16_encode_rune r). cbn. lia. }
  pose proof (length_bind_le utf16_units 2 (runes s) Hu). lia.
Qed.

Lemma length_ToLower to_lower s : (length (ToLower to_lower s) <= 4 * length s)%nat.
Proof.
  unfold ToLower. destruct (forallb is_ascii s); [rewrite length_fmap; lia|].
  assert (forall r, (length (encode_rune r) <= 4)%nat) as He.
  { intros r. unfold encode_rune. rewrite length_fmap. repeat case_match; cbn; lia. }
  pose proof (length_bind_le encode_rune 4 (to_lower <$> runes s) He) as Hb.
  rewrite length_fmap in Hb. pose proof (length_runes s). unfold string_of_runes. lia.
Qed.

Lemma length_clean b : (length (cleanBytesToString b) <= length b)%nat.
Proof.
  unfold cleanBytesToString. destruct (_ <=? _)%nat; [cbn; lia|].
  unfold slice. rewrite length_take, length_drop. lia.
Qed.

Lemma decodeCredentials_name to_lower key block1 block2 u p :
  decodeCredentials to_lower key block1 block2 = Val (u, p) -> name_ok u.
Proof.
  assert (forall s, (length s <= 64)%nat -> name_ok (ToLower to_lower s)) as Hok.
  { intros s Hs. unfold name_ok. pose proof (length_utf16le (ToLower to_lower s)).
    pose proof (length_ToLower to_lower s). lia. }
  assert (forall a n d, (length (cleanBytesToString (slice a (a + n) d)) <= n)%nat) as Hc.
  { intros a n d. pose proof (length_clean (slice a (a + n) d)) as Hl.
    unfold slice in Hl at 2. rewrite length_take in Hl. lia. }
  unfold decodeCredentials. destruct (RSADecrypt key block1) as [part1|e|]; [|done|done].
  destruct block2 as [block2|].
  - destruct (RSADecrypt key block2) as [part2|e|]; [|done|done]. intros [= <- _]. apply Hok.
    rewrite length_app. set (d := splice 128 _ _).
    pose proof (Hc 0x4E%nat 50%nat d). pose proof (Hc 0xCE%nat 14%nat d). cbn [Nat.add] in *. lia.
  - intros [= <- _]. apply Hok. set (d := splice 0 _ _).
    pose proof (Hc 0x5E%nat 14%nat d). cbn [Nat.add] in *. lia.
Qed.
