(* ===== verification/Logger.v ===== *)
(** [pkg/logger/logger.go]: the level of the log, set from the environment before
    [main] runs.  Where the entries go and how they look is zerolog's. *)
From stdpp Require Import base list numbers strings.
From coqutil Require Import Byte.
From Stdlib Require Import Lia ZArith.
From S2P Require Import Prelude.
From S2P Require Import Unicode.
From S2P Require Import Settings.
From S2P Require Import Credentials.
Local Open Scope Z_scope.

(** The levels of zerolog the program sets, and their order. *)
Inductive Level := DebugLevel | InfoLevel | WarnLevel | ErrorLevel.
#[export] Instance Level_eq_dec : EqDecision Level.
Proof. solve_decision. Defined.
Definition severity (l : Level) : Z :=
  match l with DebugLevel => 0 | InfoLevel => 1 | WarnLevel => 2 | ErrorLevel => 3 end.

(** The [switch] on the lower-cased value of [LOG_LEVEL]. *)
Definition named_level (s : gostring) : Level :=
  if bool_decide (s = go_str "debug") then DebugLevel
  else if bool_decide (s = go_str "info") then InfoLevel
  else if bool_decide (s = go_str "warn") then WarnLevel
  else if bool_decide (s = go_str "error") then ErrorLevel
  else DebugLevel.

Definition init (to_lower : Z -> Z) (env : environ) : Level :=
  named_level (ToLower to_lower (Getenv env (go_str "LOG_LEVEL"))).

(** The name of a level, in any case, selects it. *)
Definition level_name (l : Level) : gostring :=
  match l with
  | DebugLevel => go_str "debug" | InfoLevel => go_str "info"
  | WarnLevel => go_str "warn" | ErrorLevel => go_str "error"
  end.

Lemma init_named to_lower env l :
  let s := Getenv env (go_str "LOG_LEVEL") in
  forallb is_ascii s = true -> lower_ascii <$> s = level_name l -> init to_lower env = l.
Proof. intros s Ha Hs. unfold init, ToLower. fold s. rewrite Ha, Hs. by destruct l. Qed.

(** Any other value, and none, means the level that logs everything: a misspelled
    level never silences the log. *)
Lemma init_other to_lower env :
  (forall l, ToLower to_lower (Getenv env (go_str "LOG_LEVEL")) <> level_name l) ->
  init to_lower env = DebugLevel /\ forall l, severity (init to_lower env) <= severity l.
Proof.
  intros Hno. assert (init to_lower env = DebugLevel) as ->; [|by split; [|intros []; cbn; lia]].
  unfold init, named_level. set (s := ToLower _ _) in *.
  rewrite !bool_decide_false; [done|exact (Hno ErrorLevel)|exact (Hno WarnLevel)|exact (Hno InfoLevel)|exact (Hno DebugLevel)].
Qed.

Example init_warn : init id [(go_str "LOG_LEVEL", go_str "Warn")] = WarnLevel.
Proof. vm_compute. reflexivity. Qed.
Example init_unset : init id [] = DebugLevel.
Proof. vm_compute. reflexivity. Qed.
