(* ===== verification/Connections.v ===== *)
(** [internal/client/client.go], [internal/client/gs_client.go] and the state of
    the running server: the connections, the services they share and the
    goroutines that process logins.  The objects behind Go pointers live in heaps
    indexed by their connection, so that handlers, goroutines and the listeners'
    tables see each other's assignments. *)
From stdpp Require Import base gmap list numbers strings.
From coqutil Require Import Byte Word.LittleEndianList.
From Stdlib Require Import Lia ZArith.
From S2P Require Import Prelude.
From S2P Require Import Effects.
From S2P Require Import PacketReader.
From S2P Require Import PacketWriter.
From S2P Require Import PacketCodec.
From S2P Require Import Blowfish.
From S2P Require Import Crypt.
From S2P Require Import Keys.
From S2P Require Import Rsa.
From S2P Require Import GoStd.
From S2P Require Import Sharding.
From S2P Require Import SessionStore.
From S2P Require Import SessionRegistry.
From S2P Require Import RateLimiter.
From S2P Require Import ServerList.
From S2P Require Import BanManager.
From S2P Require Import Authenticator.
From S2P Require Import Metrics.
Import SessionKeys.
Local Open Scope Z_scope.

(** [t.UnixNano()]. *)
Definition unix_epoch : Time := 62135596800 * Second.
Definition UnixNano (t : Time) : Z := i64 (t - unix_epoch).

(** A [gnet.Conn]: connections are told apart, nothing else. *)
Definition Conn : Type := positive.

Inductive State := StateConnected | StateAuthedGG | StateAuthedLogin | StateServerList.
#[export] Instance State_eq_dec : EqDecision State.
Proof. solve_decision. Defined.

Record Client := mkClient {
  cl_Crypt : Crypt.Crypt; cl_ScrambledKey : ScrambledKey; cl_RemoteAddr : Addr;
  cl_RemoteIP : gostring; cl_Account : gostring; cl_lastActivity : Z; cl_AccountID : Z;
  cl_SessionKey : SessionKey; cl_LastServer : Z; cl_SessionID : Z; cl_State : State }.

Record GameServerClient := mkGameServerClient {
  gsc_RemoteIP : gostring; gsc_lastActivity : Z; gsc_ServerID : Z }.

(** Where a goroutine running [processLogin] is: what it has found out, and which
    statement comes next. *)
Inductive login_pc :=
| LWait (block1 : list byte) (block2 : option (list byte))
| LStart (block1 : list byte) (block2 : option (list byte))
| LFailed (err : auth_error)
| LFail (opcode reason : byte)
| LAdmit (username : gostring) (account : FindAccountRow)
| LKick (username : gostring) (account : FindAccountRow)
| LKickAt (serverID : Z) (username : gostring) (account : FindAccountRow)
| LReset (username : gostring) (account : FindAccountRow)
| LRegister (username : gostring) (account : FindAccountRow)
| LAccountID (username : gostring) (account : FindAccountRow)
| LAccount (username : gostring) (account : FindAccountRow)
| LState (account : FindAccountRow)
| LLastServer (account : FindAccountRow)
| LSendOK
| LRelease
| LDone.

(** What the server asks of the network. *)
Inductive net_event :=
| AsyncWrite (c : Conn) (data : list byte) (then_close : bool)
| Write (c : Conn) (data : list byte)
| Close (c : Conn)
| Discard (c : Conn) (n : nat).

(** What a step of the server gets from outside: the clock, the growth of
    [append], the buffers the pools hand out, random numbers, whether writing and
    closing fail, the order of map iterations and bcrypt's salt. *)
Record Env := mkEnv {
  e_now : Time; e_grow : nat -> nat -> nat; e_pool : nat -> PacketWriter; e_buf : list Z;
  e_xor : Z; e_write : option error; e_close : option error;
  e_order : list Conn -> list Conn; e_salt : gostring }.

(** The settings [main] passes to the constructors, and the parts of the
    standard library that are tables: address parsing, [unicode.ToLower] and the
    folding orbits of [unicode.SimpleFold]. *)
Record Config := mkConfig {
  workers : nat; auth : Authenticator; handoffTTL : Z; client_timeout : Z; gs_timeout : Z;
  ParseAddr : gostring -> option Addr; to_lower : Z -> Z; simple_fold : Z -> Z }.

Record World {DB : Type} := mkWorld {
  db : DB; bans : BanManager; limiter : RateLimiter; sessions : registry;
  serverList : ServerList; handoffs : store;
  keyPools : BlowfishKeys.pools; rsaPool : list ScrambledKey; rsaIdx : Z; globalSessionID : Z;
  heap : gmap Conn Client; clients : list Conn;
  gs_heap : gmap Conn GameServerClient; gs_clients : list Conn;
  tasks : list (Conn * login_pc); sem : nat; net : list net_event; meters : list meter }.
Arguments World DB : clear implicits.

Section Setters.
Context {DB : Type}.
Implicit Type w : World DB.

(** [w] with one field changed. *)
Definition upd_db (f : DB -> DB) w : World DB :=
  {| db := f (db w); bans := bans w; limiter := limiter w; sessions := sessions w;
     serverList := serverList w; handoffs := handoffs w; keyPools := keyPools w;
     rsaPool := rsaPool w; rsaIdx := rsaIdx w; globalSessionID := globalSessionID w;
     heap := heap w; clients := clients w; gs_heap := gs_heap w; gs_clients := gs_clients w;
     tasks := tasks w; sem := sem w; net := net w; meters := meters w |}.
Definition upd_bans (f : BanManager -> BanManager) w : World DB :=
  {| db := db w; bans := f (bans w); limiter := limiter w; sessions := sessions w;
     serverList := serverList w; handoffs := handoffs w; keyPools := keyPools w;
     rsaPool := rsaPool w; rsaIdx := rsaIdx w; globalSessionID := globalSessionID w;
     heap := heap w; clients := clients w; gs_heap := gs_heap w; gs_clients := gs_clients w;
     tasks := tasks w; sem := sem w; net := net w; meters := meters w |}.
Definition upd_limiter (f : RateLimiter -> RateLimiter) w : World DB :=
  {| db := db w; bans := bans w; limiter := f (limiter w); sessions := sessions w;
     serverList := serverList w; handoffs := handoffs w; keyPools := keyPools w;
     rsaPool := rsaPool w; rsaIdx := rsaIdx w; globalSessionID := globalSessionID w;
     heap := heap w; clients := clients w; gs_heap := gs_heap w; gs_clients := gs_clients w;
     tasks := tasks w; sem := sem w; net := net w; meters := meters w |}.
Definition upd_sessions (f : registry -> registry) w : World DB :=
  {| db := db w; bans := bans w; limiter := limiter w; sessions := f (sessions w);
     serverList := serverList w; handoffs := handoffs w; keyPools := keyPools w;
     rsaPool := rsaPool w; rsaIdx := rsaIdx w; globalSessionID := globalSessionID w;
     heap := heap w; clients := clients w; gs_heap := gs_heap w; gs_clients := gs_clients w;
     tasks := tasks w; sem := sem w; net := net w; meters := meters w |}.
Definition upd_serverList (f : ServerList -> ServerList) w : World DB :=
  {| db := db w; bans := bans w; limiter := limiter w; sessions := sessions w;
     serverList := f (serverList w); handoffs := handoffs w; keyPools := keyPools w;
     rsaPool := rsaPool w; rsaIdx := rsaIdx w; globalSessionID := globalSessionID w;
     heap := heap w; clients := clients w; gs_heap := gs_heap w; gs_clients := gs_clients w;
     tasks := tasks w; sem := sem w; net := net w; meters := meters w |}.
Definition upd_handoffs (f : store -> store) w : World DB :=
  {| db := db w; bans := bans w; limiter := limiter w; sessions := sessions w;
     serverList := serverList w; handoffs := f (handoffs w); keyPools := keyPools w;
     rsaPool := rsaPool w; rsaIdx := rsaIdx w; globalSessionID := globalSessionID w;
     heap := heap w; clients := clients w; gs_heap := gs_heap w; gs_clients := gs_clients w;
     tasks := tasks w; sem := sem w; net := net w; meters := meters w |}.
Definition upd_rsaIdx (f : Z -> Z) w : World DB :=
  {| db := db w; bans := bans w; limiter := limiter w; sessions := sessions w;
     serverList := serverList w; handoffs := handoffs w; keyPools := keyPools w;
     rsaPool := rsaPool w; rsaIdx := f (rsaIdx w); globalSessionID := globalSessionID w;
     heap := heap w; clients := clients w; gs_heap := gs_heap w; gs_clients := gs_clients w;
     tasks := tasks w; sem := sem w; net := net w; meters := meters w |}.
Definition upd_globalSessionID (f : Z -> Z) w : World DB :=
  {| db := db w; bans := bans w; limiter := limiter w; sessions := sessions w;
     serverList := serverList w; handoffs := handoffs w; keyPools := keyPools w;
     rsaPool := rsaPool w; rsaIdx := rsaIdx w; globalSessionID := f (globalSessionID w);
     heap := heap w; clients := clients w; gs_heap := gs_heap w; gs_clients := gs_clients w;
     tasks := tasks w; sem := sem w; net := net w; meters := meters w |}.
Definition upd_heap (f : gmap Conn Client -> gmap Conn Client) w : World DB :=
  {| db := db w; bans := bans w; limiter := limiter w; sessions := sessions w;
     serverList := serverList w; handoffs := handoffs w; keyPools := keyPools w;
     rsaPool := rsaPool w; rsaIdx := rsaIdx w; globalSessionID := globalSessionID w;
     heap := f (heap w); clients := clients w; gs_heap := gs_heap w; gs_clients := gs_clients w;
     tasks := tasks w; sem := sem w; net := net w; meters := meters w |}.
Definition upd_clients (f : list Conn -> list Conn) w : World DB :=
  {| db := db w; bans := bans w; limiter := limiter w; sessions := sessions w;
     serverList := serverList w; handoffs := handoffs w; keyPools := keyPools w;
     rsaPool := rsaPool w; rsaIdx := rsaIdx w; globalSessionID := globalSessionID w;
     heap := heap w; clients := f (clients w); gs_heap := gs_heap w; gs_clients := gs_clients w;
     tasks := tasks w; sem := sem w; net := net w; meters := meters w |}.
Definition upd_gs_heap (f : gmap Conn GameServerClient -> gmap Conn GameServerClient) w : World DB :=
  {| db := db w; bans := bans w; limiter := limiter w; sessions := sessions w;
     serverList := serverList w; handoffs := handoffs w; keyPools := keyPools w;
     rsaPool := rsaPool w; rsaIdx := rsaIdx w; globalSessionID := globalSessionID w;
     heap := heap w; clients := clients w; gs_heap := f (gs_heap w); gs_clients := gs_clients w;
     tasks := tasks w; sem := sem w; net := net w; meters := meters w |}.
Definition upd_gs_clients (f : list Conn -> list Conn) w : World DB :=
  {| db := db w; bans := bans w; limiter := limiter w; sessions := sessions w;
     serverList := serverList w; handoffs := handoffs w; keyPools := keyPools w;
     rsaPool := rsaPool w; rsaIdx := rsaIdx w; globalSessionID := globalSessionID w;
     heap := heap w; clients := clients w; gs_heap := gs_heap w; gs_clients := f (gs_clients w);
     tasks := tasks w; sem := sem w; net := net w; meters := meters w |}.
Definition upd_tasks (f : list (Conn * login_pc) -> list (Conn * login_pc)) w : World DB :=
  {| db := db w; bans := bans w; limiter := limiter w; sessions := sessions w;
     serverList := serverList w; handoffs := handoffs w; keyPools := keyPools w;
     rsaPool := rsaPool w; rsaIdx := rsaIdx w; globalSessionID := globalSessionID w;
     heap := heap w; clients := clients w; gs_heap := gs_heap w; gs_clients := gs_clients w;
     tasks := f (tasks w); sem := sem w; net := net w; meters := meters w |}.
Definition upd_sem (f : nat -> nat) w : World DB :=
  {| db := db w; bans := bans w; limiter := limiter w; sessions := sessions w;
     serverList := serverList w; handoffs := handoffs w; keyPools := keyPools w;
     rsaPool := rsaPool w; rsaIdx := rsaIdx w; globalSessionID := globalSessionID w;
     heap := heap w; clients := clients w; gs_heap := gs_heap w; gs_clients := gs_clients w;
     tasks := tasks w; sem := f (sem w); net := net w; meters := meters w |}.
Definition upd_net (f : list net_event -> list net_event) w : World DB :=
  {| db := db w; bans := bans w; limiter := limiter w; sessions := sessions w;
     serverList := serverList w; handoffs := handoffs w; keyPools := keyPools w;
     rsaPool := rsaPool w; rsaIdx := rsaIdx w; globalSessionID := globalSessionID w;
     heap := heap w; clients := clients w; gs_heap := gs_heap w; gs_clients := gs_clients w;
     tasks := tasks w; sem := sem w; net := f (net w); meters := meters w |}.
Definition upd_meters (f : list meter -> list meter) w : World DB :=
  {| db := db w; bans := bans w; limiter := limiter w; sessions := sessions w;
     serverList := serverList w; handoffs := handoffs w; keyPools := keyPools w;
     rsaPool := rsaPool w; rsaIdx := rsaIdx w; globalSessionID := globalSessionID w;
     heap := heap w; clients := clients w; gs_heap := gs_heap w; gs_clients := gs_clients w;
     tasks := tasks w; sem := sem w; net := net w; meters := f (meters w) |}.
End Setters.

(** [c.Field = v] on the object behind the pointer. *)
Section ClientFields.
Implicit Type cl : Client.
Definition set_Crypt (v : Crypt.Crypt) cl : Client :=
  {| cl_Crypt := v; cl_ScrambledKey := cl_ScrambledKey cl; cl_RemoteAddr := cl_RemoteAddr cl;
     cl_RemoteIP := cl_RemoteIP cl; cl_Account := cl_Account cl; cl_lastActivity := cl_lastActivity cl;
     cl_AccountID := cl_AccountID cl; cl_SessionKey := cl_SessionKey cl;
     cl_LastServer := cl_LastServer cl; cl_SessionID := cl_SessionID cl; cl_State := cl_State cl |}.
Definition set_Account (v : gostring) cl : Client :=
  {| cl_Crypt := cl_Crypt cl; cl_ScrambledKey := cl_ScrambledKey cl; cl_RemoteAddr := cl_RemoteAddr cl;
     cl_RemoteIP := cl_RemoteIP cl; cl_Account := v; cl_lastActivity := cl_lastActivity cl;
     cl_AccountID := cl_AccountID cl; cl_SessionKey := cl_SessionKey cl;
     cl_LastServer := cl_LastServer cl; cl_SessionID := cl_SessionID cl; cl_State := cl_State cl |}.
Definition set_lastActivity (v : Z) cl : Client :=
  {| cl_Crypt := cl_Crypt cl; cl_ScrambledKey := cl_ScrambledKey cl; cl_RemoteAddr := cl_RemoteAddr cl;
     cl_RemoteIP := cl_RemoteIP cl; cl_Account := cl_Account cl; cl_lastActivity := v;
     cl_AccountID := cl_AccountID cl; cl_SessionKey := cl_SessionKey cl;
     cl_LastServer := cl_LastServer cl; cl_SessionID := cl_SessionID cl; cl_State := cl_State cl |}.
Definition set_AccountID (v : Z) cl : Client :=
  {| cl_Crypt := cl_Crypt cl; cl_ScrambledKey := cl_ScrambledKey cl; cl_RemoteAddr := cl_RemoteAddr cl;
     cl_RemoteIP := cl_RemoteIP cl; cl_Account := cl_Account cl; cl_lastActivity := cl_lastActivity cl;
     cl_AccountID := v; cl_SessionKey := cl_SessionKey cl;
     cl_LastServer := cl_LastServer cl; cl_SessionID := cl_SessionID cl; cl_State := cl_State cl |}.
Definition set_LastServer (v : Z) cl : Client :=
  {| cl_Crypt := cl_Crypt cl; cl_ScrambledKey := cl_ScrambledKey cl; cl_RemoteAddr := cl_RemoteAddr cl;
     cl_RemoteIP := cl_RemoteIP cl; cl_Account := cl_Account cl; cl_lastActivity := cl_lastActivity cl;
     cl_AccountID := cl_AccountID cl; cl_SessionKey := cl_SessionKey cl;
     cl_LastServer := v; cl_SessionID := cl_SessionID cl; cl_State := cl_State cl |}.
Definition set_State (v : State) cl : Client :=
  {| cl_Crypt := cl_Crypt cl; cl_ScrambledKey := cl_ScrambledKey cl; cl_RemoteAddr := cl_RemoteAddr cl;
     cl_RemoteIP := cl_RemoteIP cl; cl_Account := cl_Account cl; cl_lastActivity := cl_lastActivity cl;
     cl_AccountID := cl_AccountID cl; cl_SessionKey := cl_SessionKey cl;
     cl_LastServer := cl_LastServer cl; cl_SessionID := cl_SessionID cl; cl_State := v |}.
End ClientFields.

(** The bytes of an encrypted packet, and the cipher state after it. *)
Definition encrypt_packet (e : Env) (c : Crypt.Crypt) (fields : list field)
    : outcome (Crypt.Crypt * list byte) :=
  let w := foldl (λ w f, write_field (e_grow e) f w) (GetPacketWriter (e_grow e) (e_pool e 0%nat)) fields in
  match Encrypt (e_xor e) c w with
  | None => Panic
  | Some (c, w) =>
    match PrependLength w with
    | Val w => Val (c, Bytes w)
    | Fail err => Fail err
    | Panic => Panic
    end
  end.

Section Operations.
Context {DB : Type} (e : Env).
Implicit Type c : Conn.
Let W := World DB.

(** The object behind the context of the connection; an unset context is [nil]
    and the type assertion panics. *)
Definition client c : M W Client := λ w,
  match heap w !! c with Some cl => (Val cl, w) | None => (Panic, w) end.
Definition upd_client c (f : Client -> Client) : M W unit := modify (upd_heap (alter f c)).
Definition emit (ev : net_event) : M W unit := modify (upd_net (λ evs, evs ++ [ev])).
Definition tally (x : meter) : M W unit := modify (upd_meters (λ log, log ++ [x])).

(** [Client.Touch], [LastActivityNanos], [SetAccount], [AccountName], [Close]. *)
Definition Touch c : M W unit := upd_client c (set_lastActivity (UnixNano (e_now e))).
Definition LastActivityNanos (cl : Client) : Z := cl_lastActivity cl.
Definition SetAccount (account : gostring) c : M W unit := upd_client c (set_Account account).
Definition AccountName (cl : Client) : gostring := cl_Account cl.
Definition close_conn c : M W (option error) := _ ← emit (Close c); mret (e_close e).

(** Both senses: the error the Go method returns is the value. *)
Definition send_packet c (opcode : byte) (fields : list field) (then_close : bool) : M W (option error) :=
  cl ← client c;
  match encrypt_packet e (cl_Crypt cl) (FByte opcode :: fields) with
  | Panic => panic
  | Fail err => fail err
  | Val (crypt, out) =>
    _ ← upd_client c (set_Crypt crypt);
    match e_write e with
    | Some err => mret (Some err)
    | None => _ ← emit (AsyncWrite c out then_close); mret None
    end
  end.
Definition SendAsync c (opcode : byte) (fields : list field) : M W (option error) :=
  send_packet c opcode fields false.
Definition SendAndCloseAsync c (opcode : byte) (fields : list field) : M W (option error) :=
  send_packet c opcode fields true.

(** [GameServerClient]: [Send] with the [i]-th buffer the pool hands out. *)
Definition gs_client c : M W GameServerClient := λ w,
  match gs_heap w !! c with Some gsc => (Val gsc, w) | None => (Panic, w) end.
Definition gs_Touch c : M W unit :=
  modify (upd_gs_heap (alter (λ gsc, {| gsc_RemoteIP := gsc_RemoteIP gsc;
    gsc_lastActivity := UnixNano (e_now e); gsc_ServerID := gsc_ServerID gsc |}) c)).
Definition gs_Send (i : nat) c (opcode : byte) (fields : list field) : M W (option error) :=
  match build_packet (e_grow e) (e_pool e i) (FByte opcode :: fields) with
  | Panic => panic
  | Fail err => fail err
  | Val w =>
    match e_write e with
    | Some err => mret (Some err)
    | None => _ ← emit (Write c (Bytes w)); _ ← gs_Touch c; mret None
    end
  end.
Definition gs_SendAndClose (i : nat) c (opcode : byte) (fields : list field) : M W (option error) :=
  _ ← gs_Send i c opcode fields; close_conn c.
End Operations.

(** * What the peer gets *)

Lemma fields_writer grow pooled fs :
  let w := foldl (λ w f, write_field grow f w) (GetPacketWriter grow pooled) fs in
  writer_ok w /\ wlen w = packet_size fs /\ drop 2 (Bytes w) = fs ≫= field_bytes.
Proof.
  destruct (GetPacketWriter_spec grow pooled) as [Hb Ho].
  destruct (write_fields_spec grow fs _ Ho) as [Hb1 Ho1]. rewrite Hb in Hb1.
  cbn zeta in *. split_and!; [done| |by rewrite Hb1].
  rewrite <- (length_Bytes _ Ho1), Hb1. unfold packet_size. by rewrite length_app.
Qed.

Lemma PrependLength_spec w :
  writer_ok w -> (2 <= wlen w)%nat -> Z.of_nat (wlen w) <= 65535 ->
  exists w', PrependLength w = Val w' /\
    Bytes w' = le_split 2 (Z.of_nat (wlen w)) ++ drop 2 (Bytes w) /\ length (Bytes w') = wlen w.
Proof.
  intros Ho H2 Hs. unfold PrependLength.
  destruct (Z.gtb_spec (Z.of_nat (wlen w)) 65535); [lia|].
  destruct (Nat.ltb_spec (wcap w) 2); [unfold writer_ok in Ho; lia|].
  destruct (put_uint_spec 2 0 (Z.of_nat (wlen w)) w Ho ltac:(lia)) as (Hp & _).
  assert (Bytes (put_uint 2 0 (Z.of_nat (wlen w)) w)
    = le_split 2 (Z.of_nat (wlen w)) ++ drop 2 (Bytes w)) as E.
  { rewrite Hp. unfold splice. by rewrite length_le_split. }
  eexists. split; [done|]. split; [exact E|].
  rewrite E, length_app, length_le_split, length_drop, length_Bytes by done. lia.
Qed.

(** What a peer that knows the session's cipher reads from a packet body: after
    the first packet of the session, just the deciphered text. *)
Definition peer_reads (c : Crypt.Crypt) (data : list byte) : option (list byte) :=
  plain ← peer_decipher (cipher c) data;
  Some (if updatedKey c then plain else decXorPass plain (length plain)).

Definition mark_updated (c : Crypt.Crypt) : Crypt.Crypt := {| cipher := cipher c; updatedKey := true |}.

Lemma encrypt_packet_spec e c fs :
  crypt_ok c -> is_u32 (e_xor e) -> Z.of_nat (packet_size fs) <= 65500 ->
  exists data plain, encrypt_packet e c fs = Val (mark_updated c, data) /\
    take 2 data = le_split 2 (Z.of_nat (length data)) /\
    ((length data - 2) mod 8 = 0)%nat /\ (packet_size fs <= length data <= packet_size fs + 24)%nat /\
    peer_reads c data = Some plain /\ take (length (fs ≫= field_bytes)) plain = fs ≫= field_bytes.
Proof.
  intros Hc Hx Hsz. unfold encrypt_packet.
  destruct (fields_writer (e_grow e) (e_pool e 0%nat) fs) as (Hw & Hl & Hb).
  set (w := foldl _ _ fs) in *. set (body := fs ≫= field_bytes) in *.
  assert (2 <= wlen w)%nat as H2 by (unfold packet_size in Hl; lia).
  assert (Z.of_nat (wlen w) + 24 < 2 ^ 32) as Hlt by lia.
  assert (length body = wlen w - 2)%nat as Hbl by (unfold packet_size in Hl; fold body in Hl; lia).
  assert (exists w' p, Encrypt (e_xor e) c w = Some (mark_updated c, w') /\
    ((length (Bytes w') - 2) mod 8 = 0)%nat /\ peer_decipher (cipher c) (Bytes w') = Some p /\
    take (length body) (if updatedKey c then p else decXorPass p (length p)) = body)
    as (w' & p & E & Ha & Hp & Ht).
  { destruct c as [cph []]; cbn [cipher updatedKey] in *.
    - destruct (Encrypt_later_spec (e_xor e) cph w Hc Hw H2 Hlt) as (w' & st & E & _ & Ha & _ & Hp & _).
      exists w', (body ++ st). split_and!; [done|done|by rewrite Hp, Hb|apply take_app_length].
    - destruct (Encrypt_first_spec (e_xor e) cph w Hc Hw H2 Hlt Hx) as (w' & p & E & _ & Ha & Hp & Ht).
      exists w', p. split_and!; [done|done|done|]. by rewrite Hbl, Ht, Hb. }
  destruct (Encrypt_shape _ _ _ _ _ Hw H2 E) as (_ & Hw' & Hl').
  rewrite E. destruct (PrependLength_spec w' Hw') as (w2 & E2 & Hb2 & Hl2); [lia..|].
  rewrite E2. exists (Bytes w2), (if updatedKey c then p else decXorPass p (length p)).
  split; [done|]. rewrite Hl2. split_and!.
  - by rewrite Hb2, take_app_le, take_ge by (rewrite length_le_split; lia).
  - rewrite <- (length_Bytes w') by done. done.
  - lia.
  - lia.
  - unfold peer_reads, peer_decipher in *.
    assert (drop 2 (Bytes w2) = drop 2 (Bytes w')) as ->.
    { by rewrite Hb2, drop_app_ge, length_le_split by (rewrite length_le_split; lia). }
    by rewrite Hp.
  - done.
Qed.

Lemma send_packet_spec {DB} e (w : World DB) c cl opcode fields then_close :
  heap w !! c = Some cl -> crypt_ok (cl_Crypt cl) -> is_u32 (e_xor e) ->
  Z.of_nat (packet_size (FByte opcode :: fields)) <= 65500 ->
  let bytes := opcode :: (fields ≫= field_bytes) in
  let w1 := upd_heap (alter (set_Crypt (mark_updated (cl_Crypt cl))) c) w in
  exists data plain,
    take 2 data = le_split 2 (Z.of_nat (length data)) /\ ((length data - 2) mod 8 = 0)%nat /\
    peer_reads (cl_Crypt cl) data = Some plain /\ take (length bytes) plain = bytes /\
    send_packet e c opcode fields then_close w =
      match e_write e with
      | Some err => (Val (Some err), w1)
      | None => (Val None, upd_net (λ evs, evs ++ [AsyncWrite c data then_close]) w1)
      end.
Proof.
  intros Hcl Hc Hx Hsz bytes w1.
  destruct (encrypt_packet_spec e (cl_Crypt cl) (FByte opcode :: fields) Hc Hx Hsz)
    as (data & plain & E & Ht & Ha & _ & Hp & Hb).
  exists data, plain. split_and!; [done|done|done|exact Hb|].
  unfold send_packet, mbind, M_bind, client. rewrite Hcl, E. unfold upd_client, modify, emit.
  by destruct (e_write e).
Qed.

(** C26: what the server sends to a client arrives: whatever fields are sent, through
    any pooled buffer and in any state of the session's cipher, the connection is
    handed one packet, of whole cipher blocks after a length header that is the
    packet's length, from which the client, deciphering it (and undoing the xor pass
    of the first packet), reads the opcode and the fields; only the cipher's state
    changes, or, when the write fails, the error is returned. *)
Theorem send_delivers {DB} e (w : World DB) c cl opcode fields then_close :
  heap w !! c = Some cl -> crypt_ok (cl_Crypt cl) -> is_u32 (e_xor e) ->
  Z.of_nat (packet_size (FByte opcode :: fields)) <= 65500 ->
  let bytes := opcode :: (fields ≫= field_bytes) in
  let w1 := upd_heap (alter (set_Crypt (mark_updated (cl_Crypt cl))) c) w in
  exists data plain,
    take 2 data = le_split 2 (Z.of_nat (length data)) /\ ((length data - 2) mod 8 = 0)%nat /\
    peer_reads (cl_Crypt cl) data = Some plain /\ take (length bytes) plain = bytes /\
    send_packet e c opcode fields then_close w =
      match e_write e with
      | Some err => (Val (Some err), w1)
      | None => (Val None, upd_net (λ evs, evs ++ [AsyncWrite c data then_close]) w1)
      end.
Proof. apply send_packet_spec. Qed.

Definition sample_env : Env :=
  {| e_now := unix_epoch + 1000 * Second; e_grow := λ _ n, n; e_pool := λ _, NewPacketWriter;
     e_buf := fresh_decode_buf; e_xor := 7; e_write := None; e_close := None; e_order := id; e_salt := [] |}.
Definition sample_client : Client :=
  {| cl_Crypt := NewCrypt (go_str "k"); cl_ScrambledKey := small_key; cl_RemoteAddr := IPv4 0x0a000001;
     cl_RemoteIP := go_str "10.0.0.1"; cl_Account := []; cl_lastActivity := 0; cl_AccountID := 0;
     cl_SessionKey := mkSessionKey 1 2 3 4; cl_LastServer := 0; cl_SessionID := 77;
     cl_State := StateConnected |}.
(** What [main] reads before it starts: two settings, and the bans in force. *)
Record Startup := mkStartup {
  AttemptsLoginCount : Z; LoginRateLimit : Z; GetActiveIPBans : error + list (Addr * Time) }.

(** A freshly started server, on a database [d] and the key pools. *)
Definition new_world {DB} (s : Startup) (d : DB) (keys : BlowfishKeys.pools) (pool : list ScrambledKey) : World DB :=
  {| db := d; bans := NewBanManager (GetActiveIPBans s) (AttemptsLoginCount s) (300 * Second);
     limiter := NewRateLimiter (LoginRateLimit s) (30 * Second);
     sessions := NewSessionRegistry; serverList := NewServerList; handoffs := empty_store;
     keyPools := keys; rsaPool := pool; rsaIdx := 0; globalSessionID := 0; heap := ∅; clients := [];
     gs_heap := ∅; gs_clients := []; tasks := []; sem := 0; net := []; meters := [] |}.
Definition sample_startup : Startup :=
  {| AttemptsLoginCount := 5; LoginRateLimit := 100; GetActiveIPBans := inr [] |}.
Definition sample_world : World unit :=
  upd_heap <[1%positive := sample_client]> (new_world sample_startup tt BlowfishKeys.zero_pools [small_key]).

Lemma send_delivers_witness :
  let bytes := Byte.x0b :: [FInt32 77] ≫= field_bytes in
  let w1 := upd_heap (alter (set_Crypt (mark_updated (cl_Crypt sample_client))) 1%positive) sample_world in
  exists data plain,
    take 2 data = le_split 2 (Z.of_nat (length data)) /\ ((length data - 2) mod 8 = 0)%nat /\
    peer_reads (cl_Crypt sample_client) data = Some plain /\ take (length bytes) plain = bytes /\
    send_packet sample_env 1%positive Byte.x0b [FInt32 77] false sample_world =
      (Val None, upd_net (λ evs, evs ++ [AsyncWrite 1%positive data false]) w1).
Proof.
  apply (send_delivers sample_env sample_world 1%positive sample_client Byte.x0b [FInt32 77] false).
  - reflexivity.
  - apply NewCrypt_ok.
  - done.
  - vm_compute. discriminate.
Defined.
