(* ===== verification/ClientHandlers.v ===== *)
(** [internal/packet/client/]: the packets of a game client.  A handler runs on
    the packet's reader and the state of the server; [HandleLogin] hands the login
    over to a goroutine, whose statements are the steps of [login_step], so that
    anything may happen between two of them. *)
From stdpp Require Import base gmap list numbers strings.
From coqutil Require Import Byte Word.LittleEndianList.
From Stdlib Require Import Lia ZArith.
From S2P Require Import Prelude.
From S2P Require Import Effects.
From S2P Require Import Unicode.
From S2P Require Import PacketReader.
From S2P Require Import PacketWriter.
From S2P Require Import PacketCodec.
From S2P Require Import Crypt.
From S2P Require Import Keys.
From S2P Require Import Rsa.
From S2P Require Import GoStd.
From S2P Require Import Sharding.
From S2P Require Import SessionStore.
From S2P Require Import SessionRegistry.
From S2P Require Import ServerList.
From S2P Require Import BanManager.
From S2P Require Import Authenticator.
From S2P Require Import Metrics.
From S2P Require Import Credentials.
From S2P Require Import Connections.
Import SessionKeys.
Local Open Scope Z_scope.

(** Opcodes. *)
Definition ClientLogin : byte := Byte.x00.
Definition ClientGameServerLogin : byte := Byte.x02.
Definition ClientServerList : byte := Byte.x05.
Definition ClientAuthGG : byte := Byte.x07.
Definition ServerInit : byte := Byte.x00.
Definition ServerLoginFail : byte := Byte.x01.
Definition ServerLoginBanned : byte := Byte.x02.
Definition ServerLoginOK : byte := Byte.x03.
Definition ServerServerList : byte := Byte.x04.
Definition ServerPlayOK : byte := Byte.x07.
Definition ServerAuthGG : byte := Byte.x0b.

Definition ErrUnknownOpcode : error :=
  "received unhandled or invalid network protocol opcode"%string.
Definition ErrUnauthorizedState : error :=
  "client attempted to read server list prior to successful authentication login state"%string.
Definition err_invalid_password : error := "invalid password"%string.

(** [As4] of an address that [Is4]. *)
Definition As4 (a : Z) : list byte := rev (le_split 4 a).

Section Handlers.
Context {DB : Type} `{Bcrypt} `{AccountStore DB} (cfg : Config) (kicker : KickManager (World DB)).

(** * [handler.go]: the flat array of handlers *)

Definition Handler : Type := Env -> Conn -> M (PacketReader * World DB) unit.
Definition Registry : Type := list (option Handler).
Definition NewRegistry : Registry := replicate 256 None.
Definition Register (opcode : byte) (handler : Handler) (reg : Registry) : Registry :=
  <[Z.to_nat (byte.unsigned opcode) := Some handler]> reg.
Definition Handle (reg : Registry) (e : Env) (c : Conn) (opcode : byte)
    : M (PacketReader * World DB) unit :=
  match nth (Z.to_nat (byte.unsigned opcode)) reg None with
  | None => fail ErrUnknownOpcode
  | Some handler => handler e c
  end.

(** * [auth_gg.go] *)

Definition AuthGG : Handler := λ e c,
  sessionID ← on_fst ReadInt32;
  cl ← on_snd (client c);
  if negb (sessionID =? cl_SessionID cl) then
    _ ← on_snd (SendAndCloseAsync e c ServerLoginFail [FByte Byte.x01]);
    mret tt
  else
    _ ← on_snd (upd_client c (set_State StateAuthedGG));
    _ ← on_snd (SendAsync e c ServerAuthGG [FInt32 (cl_SessionID cl)]);
    mret tt.

(** * [login.go] *)

Definition sendLoginFail (e : Env) (c : Conn) (reason : byte) : M (World DB) (option error) :=
  SendAndCloseAsync e c ServerLoginFail [FByte reason].

Definition getFailReasonFromError (err : auth_error) : byte :=
  match err with
  | ErrInvalidPassword => Byte.x02
  | ErrAccountNotFound => Byte.x01
  | _ => Byte.x01
  end.

Definition failCounter (err : auth_error) : metric :=
  match err with
  | ErrInvalidPassword => LoginFailInvalidPwd
  | ErrAccountNotFound => LoginFailNotFound
  | ErrAccountBanned => LoginFailBanned
  | _ => LoginFailSystem
  end.

Definition HandleLogin : Handler := λ e c,
  cl ← on_snd (client c);
  if negb (bool_decide (cl_State cl = StateAuthedGG)) then
    err ← on_snd (sendLoginFail e c Byte.x01); ret_err err
  else
    blocks ← try (on_fst readLoginBlocks);
    match blocks with
    | inl _ => err ← on_snd (sendLoginFail e c Byte.x01); ret_err err
    | inr (block1, block2) =>
      on_snd (modify (upd_tasks (λ ts, ts ++ [(c, LWait block1 block2)])))
    end.

(** One statement of [processLogin]; [LWait] is [ctrl.sem <- struct{}{}], which
    blocks while the channel is full, and [LRelease] the deferred receive.
    [Authenticate] is one step. *)
Definition login_step (e : Env) (c : Conn) (pc : login_pc) : M (World DB) login_pc :=
  match pc with
  | LWait block1 block2 =>
    w ← get;
    if (sem w <? workers cfg)%nat
    then _ ← modify (upd_sem (λ n, n + 1)%nat); mret (LStart block1 block2)
    else mret (LWait block1 block2)
  | LStart block1 block2 =>
    cl ← client c;
    match decodeCredentials (to_lower cfg) (cl_ScrambledKey cl) block1 block2 with
    | Panic => panic
    | Fail _ => mret (LFail ServerLoginFail Byte.x01)
    | Val (username, password) =>
      w ← get;
      let '(answer, d) := Authenticate (ParseAddr cfg) (auth cfg) (e_salt e) username password
                            (cl_RemoteIP cl) (db w) in
      _ ← modify (upd_db (λ _, d));
      mret (match answer with inl err => LFailed err | inr account => LAdmit username account end)
    end
  | LFailed err =>
    cl ← client c;
    _ ← tally (Inc (failCounter err));
    _ ← modify (upd_bans (RecordFailure (e_now e) (cl_RemoteAddr cl)));
    mret (match err with
          | ErrAccountBanned => LFail ServerLoginBanned Byte.x20
          | _ => LFail ServerLoginFail (getFailReasonFromError err)
          end)
  | LFail opcode reason =>
    _ ← SendAndCloseAsync e c opcode [FByte reason];
    mret LRelease
  | LAdmit username account =>
    _ ← tally (Inc LoginSuccess);
    w ← get;
    let '((kickOld, allow), r) := TryRegister (e_now e) username (sessions w) in
    _ ← modify (upd_sessions (λ _, r));
    mret (if negb allow then LFail ServerLoginFail Byte.x07
          else if kickOld then LKick username account else LReset username account)
  | LKick username account =>
    w ← get;
    mret (match Get username (sessions w) with
          | Some sess => LKickAt (SessionRegistry.ServerID sess) username account
          | None => LReset username account
          end)
  | LKickAt serverID username account =>
    _ ← (if serverID =? 0 then KickAccount kicker username
         else KickFromGame kicker username serverID);
    mret (LReset username account)
  | LReset username account =>
    cl ← client c;
    _ ← modify (upd_bans (ResetAttempts (cl_RemoteAddr cl)));
    mret (LRegister username account)
  | LRegister username account =>
    cl ← client c;
    _ ← modify (upd_sessions (SessionRegistry.Register (e_now e) username (cl_SessionID cl)));
    mret (LAccountID username account)
  | LAccountID username account =>
    _ ← upd_client c (set_AccountID (Authenticator.ID account));
    mret (LAccount username account)
  | LAccount username account =>
    _ ← SetAccount username c;
    mret (LState account)
  | LState account =>
    _ ← upd_client c (set_State StateAuthedLogin);
    mret (LLastServer account)
  | LLastServer account =>
    _ ← upd_client c (set_LastServer (LastServer account));
    mret LSendOK
  | LSendOK =>
    cl ← client c;
    _ ← SendAsync e c ServerLoginOK
          ([FInt32 (LoginOkID1 (cl_SessionKey cl)); FInt32 (LoginOkID2 (cl_SessionKey cl));
            FInt32 0; FInt32 0; FInt32 0x3ea; FInt32 0; FInt32 0; FInt32 0]
           ++ replicate 4 (FInt32 0));
    mret LRelease
  | LRelease => _ ← modify (upd_sem (λ n, n - 1)%nat); mret LDone
  | LDone => mret LDone
  end.

(** [processLogin] run by itself. *)
Fixpoint run_login (n : nat) (e : Env) (c : Conn) (pc : login_pc) : M (World DB) login_pc :=
  match n with
  | O => mret pc
  | S n => pc ← login_step e c pc; run_login n e c pc
  end.
Definition processLogin (e : Env) (c : Conn) (block1 : list byte) (block2 : option (list byte))
    : M (World DB) login_pc :=
  run_login 13 e c (LWait block1 block2).

(** * [server_list.go] *)

(** What the loops of the builder write for one server. *)
Definition server_fields (srv : Server) : list field :=
  [FByte (byte.of_Z (ServerList.ID srv))] ++
  (match ParseAddr cfg (IP srv) with
   | Some (IPv4 a) => FByte <$> As4 a
   | _ => []
   end) ++
  [FInt32 (Port srv); FByte Byte.x00;
   FByte (if Pvp srv then Byte.x01 else Byte.x00);
   FInt16 (CurrentPlayers srv); FInt16 (MaxPlayers srv);
   FByte (byte.of_Z (if CurrentPlayers srv >=? MaxPlayers srv then 0 else Status srv));
   FInt32 (ServerType srv);
   FByte (if Brackets srv then Byte.x01 else Byte.x00)].
Definition chars_fields (charCounts : list byte) (hasChars : bool) (srv : Server) : list field :=
  [FByte (byte.of_Z (ServerList.ID srv));
   FByte (if hasChars && (0 <=? ServerList.ID srv) && (ServerList.ID srv <? MaxSupportedServers)
          then nth (Z.to_nat (ServerList.ID srv)) charCounts Byte.x00 else Byte.x00)].
Definition list_fields (snap : ServerSnapshot) (lastServer : Z) (charCounts : list byte)
    (hasChars : bool) : list field :=
  let srvs := take (Count snap) (Servers snap) in
  [FByte (byte.of_Z (Z.of_nat (Count snap))); FByte (byte.of_Z lastServer)] ++
  (srvs ≫= server_fields) ++ [FInt16 0; FInt16 0xA4] ++
  (srvs ≫= chars_fields charCounts hasChars).

Definition HandleServerList : Handler := λ e c,
  cl ← on_snd (client c);
  if negb (bool_decide (cl_State cl = StateAuthedLogin)) then fail ErrUnauthorizedState else
  loginOK1 ← on_fst ReadInt32;
  loginOK2 ← on_fst ReadInt32;
  if negb (CheckLoginPair (cl_SessionKey cl) loginOK1 loginOK2) then
    _ ← on_snd (close_conn e c); fail err_invalid_password
  else
    _ ← on_snd (upd_client c (set_State StateServerList));
    w ← on_snd get;
    let snap := GetServers (serverList w) in
    let '(charCounts, hasChars) := GetCharCounts (cl_Account cl) (serverList w) in
    _ ← (if negb hasChars
         then on_snd (RequestCharacters kicker (cl_Account cl) (cl_AccountID cl)) else mret tt);
    _ ← on_snd (SendAsync e c ServerServerList
          (list_fields snap (cl_LastServer cl) charCounts hasChars));
    mret tt.

(** * [gs_login.go] *)

Definition GameServerLogin : Handler := λ e c,
  cl ← on_snd (client c);
  if negb (bool_decide (cl_State cl = StateServerList)) then mret tt else
  loginOK1 ← on_fst ReadInt32;
  loginOK2 ← on_fst ReadInt32;
  serverID ← on_fst ReadInt32;
  if (serverID <? 0) || (serverID >=? MaxSupportedServers) then
    err ← on_snd (close_conn e c); ret_err err
  else if negb (CheckLoginPair (cl_SessionKey cl) loginOK1 loginOK2) then
    err ← on_snd (close_conn e c); ret_err err
  else
    _ ← (if negb (cl_LastServer cl =? serverID) then
           _ ← on_snd (upd_client c (set_LastServer serverID));
           on_snd (modify (upd_db (UpdateLastServer (cl_Account cl) serverID)))
         else mret tt);
    let s := {| ExpiresAt := Add (e_now e) (handoffTTL cfg); Key := cl_SessionKey cl;
                SessionStore.ServerID := serverID; AccountID := cl_AccountID cl;
                Account := cl_Account cl |} in
    _ ← on_snd (modify (upd_handoffs (Put (LoginOkID1 (cl_SessionKey cl)) s)));
    err ← on_snd (SendAsync e c ServerPlayOK
            [FInt32 (PlayOkID1 (cl_SessionKey cl)); FInt32 (PlayOkID2 (cl_SessionKey cl))]);
    ret_err err.

(** The handlers [NewClientListener] registers. *)
Definition client_registry : Registry :=
  Register ClientGameServerLogin GameServerLogin
    (Register ClientServerList HandleServerList
      (Register ClientLogin HandleLogin
        (Register ClientAuthGG AuthGG NewRegistry))).
End Handlers.

(** * The contract of the kicker

    A callback may close connections, drop clients from the listener's table,
    and send to game servers: everything else is as before. *)
Definition calm {DB} (w w' : World DB) : Prop :=
  db w' = db w /\ bans w' = bans w /\ limiter w' = limiter w /\ sessions w' = sessions w /\
  serverList w' = serverList w /\ handoffs w' = handoffs w /\ keyPools w' = keyPools w /\
  rsaPool w' = rsaPool w /\ rsaIdx w' = rsaIdx w /\ globalSessionID w' = globalSessionID w /\
  heap w' = heap w /\ tasks w' = tasks w /\ sem w' = sem w /\ meters w' = meters w /\
  (exists evs, net w' = net w ++ evs) /\ (forall c, c ∈ clients w' -> c ∈ clients w) /\
  gs_clients w' = gs_clients w /\
  (forall g, gsc_ServerID <$> gs_heap w' !! g = gsc_ServerID <$> gs_heap w !! g).

#[export] Instance calm_preorder {DB} : PreOrder (@calm DB).
Proof.
  split.
  - intros w. unfold calm. split_and!; try done. exists []. by rewrite app_nil_r.
  - intros w1 w2 w3. unfold calm. intros (A1&A2&A3&A4&A5&A6&A7&A8&A9&A10&A11&A12&A13&Am&[ev1 A14]&A15&A16&A17)
      (B1&B2&B3&B4&B5&B6&B7&B8&B9&B10&B11&B12&B13&Bm&[ev2 B14]&B15&B16&B17).
    split_and!; try congruence.
    + exists (ev1 ++ ev2). by rewrite B14, A14, app_assoc.
    + auto.
Qed.

Class KickerLaws {DB} (kicker : KickManager (World DB)) := {
  kick_account u w : exists w', KickAccount kicker u w = (Val tt, w') /\ calm w w';
  kick_from_game u id w : name_ok u ->
    exists w', KickFromGame kicker u id w = (Val tt, w') /\ calm w w';
  request_characters u id w : name_ok u ->
    exists w', RequestCharacters kicker u id w = (Val tt, w') /\ calm w w' }.

(** Without callbacks nothing happens. *)
#[export] Instance no_kicker_laws {DB} : KickerLaws (@NewKickManager (World DB)).
Proof. split; intros; eexists; (split; [reflexivity|reflexivity]). Qed.

(** * A login run by itself *)

(** The packet the client reads. *)
Definition carries (cr : Crypt.Crypt) (data : list byte) (opcode : byte) (fields : list field) : Prop :=
  let bytes := opcode :: (fields ≫= field_bytes) in
  exists plain, peer_reads cr data = Some plain /\ take (length bytes) plain = bytes.

Definition login_ok_fields (k : SessionKey) : list field :=
  [FInt32 (LoginOkID1 k); FInt32 (LoginOkID2 k); FInt32 0; FInt32 0; FInt32 0x3ea; FInt32 0; FInt32 0;
   FInt32 0] ++ replicate 4 (FInt32 0).

(** The fields a login fills in. *)
Definition logged_in (u : gostring) (row : FindAccountRow) (cl : Client) : Client :=
  set_LastServer (LastServer row) (set_State StateAuthedLogin (set_Account u
    (set_AccountID (Authenticator.ID row) cl))).

(** What a failed authentication is answered. *)
Definition failure_packet (err : auth_error) : byte * byte :=
  match err with
  | ErrAccountBanned => (ServerLoginBanned, Byte.x20)
  | ErrInvalidPassword => (ServerLoginFail, Byte.x02)
  | _ => (ServerLoginFail, Byte.x01)
  end.

Section Login.
Context {DB : Type} `{Bcrypt} `{AccountStore DB} (cfg : Config) (kicker : KickManager (World DB)).
Context `{!KickerLaws kicker} (e : Env) (c : Conn).
Implicit Type w : World DB.

Lemma run_login_step n pc pc' w w' :
  login_step cfg kicker e c pc w = (Val pc', w') ->
  run_login cfg kicker (S n) e c pc w = run_login cfg kicker n e c pc' w'.
Proof. intros E. cbn [run_login]. unfold mbind, M_bind. by rewrite E. Qed.

Lemma run_login_done n w : run_login cfg kicker n e c LDone w = (Val LDone, w).
Proof. induction n as [|n IH]; [done|]. by rewrite (run_login_step _ _ LDone _ w). Qed.

Context (cl : Client) (Hc : crypt_ok (cl_Crypt cl)) (Hx : is_u32 (e_xor e)) (He : e_write e = None).

(** The last steps of every refusal. *)
Lemma run_login_fail n op reason w :
  heap w !! c = Some cl -> (0 < sem w)%nat ->
  exists w' data, run_login cfg kicker (S (S n)) e c (LFail op reason) w = (Val LDone, w') /\
    carries (cl_Crypt cl) data op [FByte reason] /\
    w' = upd_sem (λ k, k - 1)%nat (upd_net (λ evs, evs ++ [AsyncWrite c data true])
           (upd_heap (alter (set_Crypt (mark_updated (cl_Crypt cl))) c) w)).
Proof.
  intros Hcl Hs.
  destruct (send_packet_spec e w c cl op [FByte reason] true Hcl Hc Hx) as (data & plain & _ & _ & Hp & Hb & E).
  { vm_compute. discriminate. }
  rewrite He in E. eexists _, data. split; [|split; [by exists plain|reflexivity]].
  erewrite run_login_step.
  2: { cbn [login_step]. unfold SendAndCloseAsync, mbind at 1, M_bind at 1. rewrite E. reflexivity. }
  erewrite run_login_step; [|reflexivity]. apply run_login_done.
Qed.

(** The four assignments to the client's fields. *)
Lemma run_login_assign n u row w :
  heap w !! c = Some cl ->
  run_login cfg kicker (S (S (S (S n)))) e c (LAccountID u row) w =
  run_login cfg kicker n e c LSendOK (upd_heap (<[c := logged_in u row cl]>) w).
Proof.
  intros Hcl. do 4 (erewrite run_login_step; [|reflexivity]). f_equal.
  unfold upd_heap. cbn. f_equal.
  rewrite <- (insert_id (heap w) c cl Hcl) at 1. by rewrite !alter_insert_eq.
Qed.

Lemma run_login_send n cl' w :
  heap w !! c = Some cl' -> cl_Crypt cl' = cl_Crypt cl -> cl_SessionKey cl' = cl_SessionKey cl ->
  exists data, run_login cfg kicker (S (S n)) e c LSendOK w =
    (Val LDone, upd_sem (λ k, k - 1)%nat (upd_net (λ evs, evs ++ [AsyncWrite c data false])
       (upd_heap (alter (set_Crypt (mark_updated (cl_Crypt cl))) c) w))) /\
    carries (cl_Crypt cl) data ServerLoginOK (login_ok_fields (cl_SessionKey cl)).
Proof.
  intros Hcl Hcr Hsk.
  destruct (send_packet_spec e w c cl' ServerLoginOK (login_ok_fields (cl_SessionKey cl)) false)
    as (data & plain & _ & _ & Hp & Hb & E); [done|by rewrite Hcr|done|vm_compute; discriminate|].
  rewrite He, Hcr in E. rewrite Hcr in Hp. exists data. split; [|by exists plain].
  erewrite run_login_step.
  2: { cbn [login_step]. unfold SendAsync, client. unfold mbind at 1, M_bind at 1. rewrite Hcl, Hsk.
       fold (login_ok_fields (cl_SessionKey cl)). unfold mbind, M_bind. rewrite E. reflexivity. }
  erewrite run_login_step; [|reflexivity]. apply run_login_done.
Qed.

(** From the admission on. *)
Lemma run_login_admitted n u row w :
  heap w !! c = Some cl -> (0 < sem w)%nat ->
  exists w' data, run_login cfg kicker (S (S (S (S (S (S (S (S n)))))))) e c (LReset u row) w = (Val LDone, w') /\
    carries (cl_Crypt cl) data ServerLoginOK (login_ok_fields (cl_SessionKey cl)) /\
    db w' = db w /\ bans w' = ResetAttempts (cl_RemoteAddr cl) (bans w) /\
    sessions w' = SessionRegistry.Register (e_now e) u (cl_SessionID cl) (sessions w) /\
    serverList w' = serverList w /\ handoffs w' = handoffs w /\
    heap w' = <[c := set_Crypt (mark_updated (cl_Crypt cl)) (logged_in u row cl)]> (heap w) /\
    tasks w' = tasks w /\ sem w' = (sem w - 1)%nat /\ meters w' = meters w /\
    net w' = net w ++ [AsyncWrite c data false].
Proof.
  intros Hcl Hs.
  erewrite run_login_step.
  2: { cbn [login_step]. unfold mbind, M_bind, client. rewrite Hcl. reflexivity. }
  erewrite run_login_step.
  2: { cbn [login_step]. unfold mbind, M_bind, client. cbn [heap upd_bans]. rewrite Hcl. reflexivity. }
  rewrite run_login_assign by exact Hcl.
  match goal with |- context [run_login _ _ _ _ _ LSendOK ?x] => set (w1 := x) end.
  assert (heap w1 = <[c := logged_in u row cl]> (heap w)) as Hh by reflexivity.
  destruct (run_login_send n (logged_in u row cl) w1) as (data & E & Hd);
    [by rewrite Hh, lookup_insert_eq|reflexivity|reflexivity|].
  eexists _, data. split; [exact E|]. split; [exact Hd|].
  cbn [db bans sessions serverList handoffs heap tasks sem net meters upd_sem upd_net upd_heap].
  rewrite Hh, alter_insert_eq. split_and!; reflexivity.
Qed.

(** The world after a login that was refused with [reason]. *)
Definition refused (w w' : World DB) (op reason : byte) : Prop :=
  heap w' = <[c := set_Crypt (mark_updated (cl_Crypt cl)) cl]> (heap w) /\
  exists data, net w' = net w ++ [AsyncWrite c data true] /\ carries (cl_Crypt cl) data op [FByte reason].

(** The world after a login that was accepted. *)
Definition accepted (w w' : World DB) (u : gostring) (row : FindAccountRow) (kick : bool) : Prop :=
  heap w' = <[c := set_Crypt (mark_updated (cl_Crypt cl)) (logged_in u row cl)]> (heap w) /\
  exists kicks data, net w' = net w ++ kicks ++ [AsyncWrite c data false] /\
    (kick = false -> kicks = []) /\
    carries (cl_Crypt cl) data ServerLoginOK (login_ok_fields (cl_SessionKey cl)).

(** A refusal, from the step that finds it. *)
Lemma refuse n op reason w w1 :
  heap w !! c = Some cl -> heap w1 = heap w -> net w1 = net w -> sem w1 = (sem w + 1)%nat ->
  exists w', run_login cfg kicker (S (S n)) e c (LFail op reason) w1 = (Val LDone, w') /\
    refused w w' op reason /\ db w' = db w1 /\ bans w' = bans w1 /\ sessions w' = sessions w1 /\
    serverList w' = serverList w1 /\ handoffs w' = handoffs w1 /\ tasks w' = tasks w1 /\ sem w' = sem w /\
    meters w' = meters w1.
Proof.
  intros Hcl Hh Hn Hs. destruct (run_login_fail n op reason w1) as (w' & data & E & Hd & ->);
    [congruence|lia|].
  eexists. split; [exact E|]. split.
  - split; [|exists data; split; [|done]]; cbn; rewrite ?Hn; [|done].
    rewrite Hh. rewrite <- (insert_id (heap w) c cl Hcl) at 1. apply alter_insert_eq.
  - cbn. split_and!; (done || lia).
Qed.

(** The kick, if one is due, leaves all but the network as it was. *)
Lemma run_login_kick n u row w :
  name_ok u -> exists k w', (k <= 2)%nat /\ calm w w' /\
    run_login cfg kicker (S (S n)) e c (LKick u row) w = run_login cfg kicker (n + 2 - k) e c (LReset u row) w'.
Proof.
  intros Hu. destruct (Get u (sessions w)) as [sess|] eqn:Eg.
  - assert (exists w', (if SessionRegistry.ServerID sess =? 0 then KickAccount kicker u
      else KickFromGame kicker u (SessionRegistry.ServerID sess)) w = (Val tt, w') /\ calm w w') as (w' & E & Hk).
    { destruct (_ =? _); [apply kick_account|by apply kick_from_game]. }
    exists 2%nat, w'. split_and!; [lia|done|]. replace (n + 2 - 2)%nat with n by lia.
    erewrite run_login_step; [|cbn [login_step]; unfold mbind, M_bind, get; rewrite Eg; reflexivity].
    erewrite run_login_step; [reflexivity|]. cbn [login_step]. unfold mbind, M_bind. by rewrite E.
  - exists 1%nat, w. split_and!; [lia|reflexivity|]. replace (n + 2 - 1)%nat with (S n) by lia.
    erewrite run_login_step; [reflexivity|]. cbn [login_step]. unfold mbind, M_bind, get. by rewrite Eg.
Qed.

(** The first two statements. *)
Lemma login_start n block1 block2 w u p :
  heap w !! c = Some cl -> (sem w < workers cfg)%nat ->
  decodeCredentials (to_lower cfg) (cl_ScrambledKey cl) block1 block2 = Val (u, p) ->
  let '(answer, d) := Authenticate (ParseAddr cfg) (auth cfg) (e_salt e) u p (cl_RemoteIP cl) (db w) in
  run_login cfg kicker (S (S n)) e c (LWait block1 block2) w =
  run_login cfg kicker n e c (match answer with inl err => LFailed err | inr row => LAdmit u row end)
    (upd_db (λ _, d) (upd_sem (λ n, n + 1)%nat w)).
Proof.
  intros Hcl Hs Ed. destruct (Authenticate _ _ _ _ _ _ _) as [answer d] eqn:Ea.
  erewrite run_login_step.
  2: { cbn [login_step]. unfold mbind, M_bind, get. destruct (Nat.ltb_spec (sem w) (workers cfg)); [|lia].
       reflexivity. }
  erewrite run_login_step; [reflexivity|].
  cbn [login_step]. unfold mbind, M_bind, client. cbn [heap upd_sem]. rewrite Hcl, Ed.
  unfold get. cbn [db upd_sem]. by rewrite Ea.
Qed.

Lemma login_failed n err w :
  heap w !! c = Some cl ->
  run_login cfg kicker (S n) e c (LFailed err) w =
  run_login cfg kicker n e c (LFail (failure_packet err).1 (failure_packet err).2)
    (upd_bans (RecordFailure (e_now e) (cl_RemoteAddr cl))
      (upd_meters (λ log, log ++ [Inc (failCounter err)]) w)).
Proof.
  intros Hcl. erewrite run_login_step; [reflexivity|].
  cbn [login_step]. unfold mbind, M_bind, client. rewrite Hcl. by destruct err.
Qed.

Lemma login_admit n u row w :
  let '((kick, allow), r) := TryRegister (e_now e) u (sessions w) in
  run_login cfg kicker (S n) e c (LAdmit u row) w =
  run_login cfg kicker n e c
    (if negb allow then LFail ServerLoginFail Byte.x07 else if kick then LKick u row else LReset u row)
    (upd_sessions (λ _, r) (upd_meters (λ log, log ++ [Inc LoginSuccess]) w)).
Proof.
  destruct (TryRegister (e_now e) u (sessions w)) as [[kick allow] r] eqn:Et.
  erewrite run_login_step; [reflexivity|].
  cbn [login_step]. unfold mbind, M_bind, get, tally, modify. cbn [sessions upd_meters]. by rewrite Et.
Qed.

(** The rest of an accepted login, the kick included. *)
Lemma login_accepted (kick : bool) u row w w1 :
  name_ok u -> heap w !! c = Some cl -> heap w1 = heap w -> net w1 = net w -> sem w1 = (sem w + 1)%nat ->
  exists w', run_login cfg kicker 10 e c (if kick then LKick u row else LReset u row) w1 = (Val LDone, w') /\
    accepted w w' u row kick /\ db w' = db w1 /\ bans w' = ResetAttempts (cl_RemoteAddr cl) (bans w1) /\
    sessions w' = SessionRegistry.Register (e_now e) u (cl_SessionID cl) (sessions w1) /\
    serverList w' = serverList w1 /\ handoffs w' = handoffs w1 /\ tasks w' = tasks w1 /\ sem w' = sem w /\
    meters w' = meters w1.
Proof.
  intros Hu Hcl Hh Hn Hs.
  assert (exists n w2, calm w1 w2 /\ (kick = false -> w2 = w1) /\
    run_login cfg kicker 10 e c (if kick then LKick u row else LReset u row) w1
    = run_login cfg kicker (S (S (S (S (S (S (S (S n)))))))) e c (LReset u row) w2) as (n & w2 & Hk & Hk2 & ->).
  { destruct kick.
    - destruct (run_login_kick 8 u row w1 Hu) as (k & w2 & Hk & Hc2 & E). rewrite E.
      destruct k as [|[|[|k]]]; [exists 2%nat, w2|exists 1%nat, w2|exists 0%nat, w2|lia]; by split_and!.
    - exists 2%nat, w1. split_and!; [reflexivity|done|done]. }
  pose proof Hk as (K1&K2&_&K4&K5&K6&_&_&_&_&K11&K12&K13&Km&[kicks K14]&_).
  destruct (run_login_admitted n u row w2) as (w' & data & E & Hd & ? & ? & ? & ? & ? & Hh' & ? & ? & ? & Hn');
    [congruence|lia|].
  exists w'. split; [exact E|]. split; [|split_and!; congruence || lia].
  split; [congruence|]. exists kicks, data. split_and!; [by rewrite Hn', K14, Hn, app_assoc| |done].
  intros Hf. rewrite (Hk2 Hf) in K14. rewrite <- (app_nil_r (net w1)) in K14 at 1. by apply app_inv_head in K14.
Qed.

(** Ends a login with the lemma about its remaining steps, taken at the world the
    goal has reached. *)
Ltac at_world lem :=
  match goal with
  | |- context [run_login _ _ _ _ _ _ ?w1] =>
    let l := lem w1 in
    destruct l as (w' & E & Hr); [done..|];
    exists w'; destruct Hr as (Hr & ? & ? & ? & ? & ? & ? & ? & ?); by split_and!
  end.

(** What a login does, case by case. *)
Definition login_spec (block1 : list byte) (block2 : option (list byte)) (w w' : World DB) : Prop :=
  match decodeCredentials (to_lower cfg) (cl_ScrambledKey cl) block1 block2 with
  | Val (u, p) =>
    match Authenticate (ParseAddr cfg) (auth cfg) (e_salt e) u p (cl_RemoteIP cl) (db w) with
    | (inl err, d) =>
      db w' = d /\ bans w' = RecordFailure (e_now e) (cl_RemoteAddr cl) (bans w) /\
      sessions w' = sessions w /\ meters w' = meters w ++ [Inc (failCounter err)] /\
      refused w w' (failure_packet err).1 (failure_packet err).2
    | (inr row, d) =>
      db w' = d /\ meters w' = meters w ++ [Inc LoginSuccess] /\
      match TryRegister (e_now e) u (sessions w) with
      | ((kick, true), r) =>
        bans w' = ResetAttempts (cl_RemoteAddr cl) (bans w) /\
        sessions w' = SessionRegistry.Register (e_now e) u (cl_SessionID cl) r /\
        accepted w w' u row kick
      | ((_, false), r) =>
        bans w' = bans w /\ sessions w' = r /\ refused w w' ServerLoginFail Byte.x07
      end
    end
  | _ => db w' = db w /\ bans w' = bans w /\ sessions w' = sessions w /\ meters w' = meters w /\
         refused w w' ServerLoginFail Byte.x01
  end.

Lemma processLogin_spec block1 block2 w :
  heap w !! c = Some cl -> rsa_ok (Private (cl_ScrambledKey cl)) -> (sem w < workers cfg)%nat ->
  exists w', processLogin cfg kicker e c block1 block2 w = (Val LDone, w') /\
    sem w' = sem w /\ tasks w' = tasks w /\ handoffs w' = handoffs w /\ serverList w' = serverList w /\
    login_spec block1 block2 w w'.
Proof.
  intros Hcl Hk Hs. unfold processLogin, login_spec. set (w0 := upd_sem (λ n, n + 1)%nat w).
  pose proof (decodeCredentials_total (to_lower cfg) (cl_ScrambledKey cl) block1 block2 Hk) as Hp.
  destruct (decodeCredentials _ _ _ _) as [[u p]|err|] eqn:Ed; [|clear Hp|done].
  - pose proof (decodeCredentials_name _ _ _ _ _ _ Ed) as Hu.
    pose proof (login_start 11 block1 block2 w u p Hcl Hs Ed) as E0.
    destruct (Authenticate _ _ _ _ _ _ _) as [[err|row] d]; rewrite E0.
    + rewrite login_failed by done.
      at_world ltac:(fun w1 => constr:(refuse 8 (failure_packet err).1 (failure_packet err).2 w w1)).
    + pose proof (login_admit 10 u row (upd_db (λ _, d) w0)) as E1. fold w0. cbn [sessions upd_db w0 upd_sem] in E1.
      destruct (TryRegister _ _ _) as [[kick allow] r]; rewrite E1. destruct allow; cbn [negb].
      * at_world ltac:(fun w1 => constr:(login_accepted kick u row w w1)).
      * at_world ltac:(fun w1 => constr:(refuse 8 ServerLoginFail Byte.x07 w w1)).
  - erewrite run_login_step.
    2: { cbn [login_step]. unfold mbind, M_bind, get. destruct (Nat.ltb_spec (sem w) (workers cfg)); [|lia].
         reflexivity. }
    erewrite run_login_step.
    2: { cbn [login_step]. unfold mbind, M_bind, client. cbn [heap upd_sem]. rewrite Hcl, Ed. reflexivity. }
    at_world ltac:(fun w1 => constr:(refuse 9 ServerLoginFail Byte.x01 w w1)).
Qed.

(** C4: a login run by itself ends, releases its worker slot, and ends as it should:
    undecodable credentials, a failed authentication (with the reason the client is
    told, and the failure counted against its address) and an account in use are
    refused with one packet and the connection is closed after it; otherwise the
    address's failures are forgotten, the session is registered under the
    connection's session id, the client's identity is filled in, a kick is made
    exactly when the registry asked for it, and the client gets the login key
    pair; and every authentication counts once, under the metric of its
    outcome. *)
Theorem login_outcome block1 block2 w :
  heap w !! c = Some cl -> rsa_ok (Private (cl_ScrambledKey cl)) -> (sem w < workers cfg)%nat ->
  exists w', processLogin cfg kicker e c block1 block2 w = (Val LDone, w') /\
    sem w' = sem w /\ tasks w' = tasks w /\ handoffs w' = handoffs w /\ serverList w' = serverList w /\
    login_spec block1 block2 w w'.
Proof. apply processLogin_spec. Qed.
End Login.

Definition sample_config : Config :=
  {| workers := 8; auth := NewAuthenticator true; handoffTTL := 30 * Second; client_timeout := 30 * Second;
     gs_timeout := 30 * Second; ParseAddr := λ _, Some (IPv4 0x0a000001); to_lower := id; simple_fold := id |}.
Definition sample_server : World table :=
  upd_heap <[1%positive := sample_client]> (new_world sample_startup empty_table BlowfishKeys.zero_pools [small_key]).

Lemma login_outcome_witness : exists w',
  @processLogin table plain_bcrypt table_store sample_config NewKickManager sample_env 1%positive
    (replicate 128 Byte.x00) None sample_server = (Val LDone, w') /\
  sem w' = 0%nat /\ tasks w' = [] /\ handoffs w' = empty_store /\ serverList w' = NewServerList /\
  @login_spec table plain_bcrypt table_store sample_config sample_env 1%positive sample_client
    (replicate 128 Byte.x00) None sample_server w'.
Proof.
  apply (@login_outcome table plain_bcrypt table_store sample_config NewKickManager no_kicker_laws sample_env
    1%positive sample_client (NewCrypt_ok _)).
  - done.
  - reflexivity.
  - reflexivity.
  - apply small_key_ok.
  - vm_compute. lia.
Defined.

(** * Safety *)

(** What is true of every client: its cipher and its RSA key are usable, and the
    account name is short. *)
Definition client_ok (cl : Client) : Prop :=
  crypt_ok (cl_Crypt cl) /\ rsa_ok (Private (cl_ScrambledKey cl)) /\ name_ok (cl_Account cl).
Definition pc_ok (pc : login_pc) : Prop :=
  match pc with
  | LAdmit u _ | LKick u _ | LKickAt _ u _ | LReset u _ | LRegister u _ | LAccountID u _
  | LAccount u _ => name_ok u
  | _ => True
  end.
Definition server_ok {DB} (w : World DB) : Prop :=
  map_Forall (λ _ cl, client_ok cl) (heap w) /\
  Forall (λ t, pc_ok t.2 /\ is_Some (heap w !! t.1)) (tasks w).

(** What the handlers of connection [c] keep true. *)
Definition serving {DB} (c : Conn) (w : World DB) : Prop := server_ok w /\ is_Some (heap w !! c).

Lemma safe_keeps {A} (m : M PacketReader A) : safe_read m -> keeps reader_ok (λ _, True) m.
Proof.
  intros Hm r Hr. specialize (Hm r Hr). unfold ends.
  destruct (m r) as [[a|e|] r']; cbn [fst snd is_panic] in *; [by destruct Hm as (_ & ? & _)|by destruct Hm as (_ & ? & _)|by destruct Hm].
Qed.

Lemma server_ok_heap {DB} (w w' : World DB) c f :
  (forall cl, client_ok cl -> client_ok (f cl)) -> heap w' = alter f c (heap w) -> tasks w' = tasks w ->
  server_ok w -> server_ok w'.
Proof.
  intros Hf Hh Ht [H1 H2]. split.
  - rewrite Hh. intros c' cl. rewrite lookup_alter. destruct (decide (c = c')) as [->|Hne].
    + intros (cl0 & Hcl & ->)%fmap_Some. apply Hf. by eapply H1.
    + apply H1.
  - rewrite Ht. eapply Forall_impl; [exact H2|]. intros [c' pc] [Hpc Hs]. split; [done|]. cbn in *.
    rewrite Hh, lookup_alter_is_Some. done.
Qed.

Section Safety.
Context {DB : Type} (c : Conn) (e : Env) (He : is_u32 (e_xor e)).
Implicit Type w : World DB.

Lemma keeps_client : keeps (@serving DB c) client_ok (client c).
Proof.
  intros w [Hok [cl Hcl]]. unfold ends, client. rewrite Hcl. split; [by split|].
  by eapply (proj1 Hok).
Qed.

Lemma keeps_upd_client f :
  (forall cl, client_ok cl -> client_ok (f cl)) -> keeps (@serving DB c) (λ _, True) (upd_client c f).
Proof.
  intros Hf. apply keeps_modify. intros w [Hok Hc]. split; [by eapply server_ok_heap|].
  cbn. by rewrite lookup_alter_is_Some.
Qed.

(** Changes elsewhere. *)
Lemma keeps_elsewhere (f : World DB -> World DB) :
  (forall w, heap (f w) = heap w /\ tasks (f w) = tasks w) -> keeps (@serving DB c) (λ _, True) (modify f).
Proof.
  intros Hf. apply keeps_modify. intros w [[H1 H2] Hc]. destruct (Hf w) as [Hh Ht].
  unfold serving, server_ok. by rewrite Hh, Ht.
Qed.

Lemma keeps_calm (m : M (World DB) unit) :
  (forall w, exists w', m w = (Val tt, w') /\ calm w w') -> keeps (@serving DB c) (λ _, True) m.
Proof.
  intros Hm w Hs. destruct (Hm w) as (w' & E & Hk). unfold ends. rewrite E. split; [|done].
  destruct Hk as (_&_&_&_&_&_&_&_&_&_&Hh&Ht&_). unfold serving, server_ok in *. by rewrite Hh, Ht.
Qed.

Lemma keeps_send opcode fields close :
  Z.of_nat (packet_size (FByte opcode :: fields)) <= 65500 ->
  keeps (@serving DB c) (λ _, True) (send_packet e c opcode fields close).
Proof.
  intros Hsz w [Hok [cl Hcl]]. destruct ((proj1 Hok) c cl Hcl) as (Hc & Hk & Hn).
  destruct (send_packet_spec e w c cl opcode fields close Hcl Hc He Hsz) as (data & plain & _ & _ & _ & _ & E).
  set (w1 := upd_heap (alter (set_Crypt (mark_updated (cl_Crypt cl))) c) w) in *.
  assert (serving c w1) as Hs.
  { split; [eapply (server_ok_heap w w1 c); [|done|done|done]|cbn; rewrite lookup_alter_is_Some; by eexists].
    intros cl' (? & ? & ?). split_and!; done. }
  unfold ends. rewrite E. by destruct (e_write e).
Qed.

Lemma keeps_close : keeps (@serving DB c) (λ _, True) (close_conn e c).
Proof.
  eapply keeps_bind; [by apply keeps_elsewhere|]. intros _ _. by apply keeps_ret.
Qed.
End Safety.

(** ** The server list fits in a packet *)

Lemma length_bind_bind {A B C} (f : A -> list B) (g : B -> list C) k l :
  (forall a, (length (f a ≫= g) <= k)%nat) -> (length ((l ≫= f) ≫= g) <= k * length l)%nat.
Proof.
  intros Hf. induction l as [|a l IH]; [cbn; lia|].
  change ((a :: l) ≫= f) with (f a ++ (l ≫= f)). rewrite bind_app, length_app.
  specialize (Hf a). cbn [length]. lia.
Qed.

Lemma GetServers_Count s : (Count (GetServers s) <= 32)%nat.
Proof.
  unfold GetServers. change 32%nat with slots.
  apply (for_range_ind (λ i snap, (Count snap <= i)%nat)); [cbn; lia|].
  intros i snap _ Hc. unfold snapshot_step. destruct (nth i (active s) false); cbn [Count]; lia.
Qed.

Lemma length_FBytes l : length ((FByte <$> l) ≫= field_bytes) = length l.
Proof. induction l as [|b l IH]; [done|]. cbn in *. by rewrite IH. Qed.

Lemma server_fields_size cfg srv : (length (server_fields cfg srv ≫= field_bytes) <= 32)%nat.
Proof.
  unfold server_fields. rewrite !bind_app, !length_app.
  assert (length ((match ParseAddr cfg (IP srv) with
    | Some (IPv4 a) => FByte <$> As4 a | _ => [] end) ≫= field_bytes) <= 4)%nat as Ho
    by (repeat case_match; try (cbn; lia); rewrite length_FBytes; unfold As4; by rewrite length_rev, length_le_split).
  assert (forall n v, length (le_split n v) = n) as Hl by (intros; apply length_le_split).
  cbn [mbind list_bind field_bytes]. rewrite !length_app, !Hl. cbn [length]. lia.
Qed.

Lemma chars_fields_size counts has srv : (length (chars_fields counts has srv ≫= field_bytes) <= 2)%nat.
Proof. cbn. lia. Qed.

Lemma list_fields_size cfg snap lastServer counts has op :
  (Count snap <= 32)%nat -> Z.of_nat (packet_size (FByte op :: list_fields cfg snap lastServer counts has)) <= 65500.
Proof.
  intros Hc. unfold packet_size, list_fields. set (srvs := take _ _).
  assert (length srvs <= 32)%nat as Hl by (unfold srvs; rewrite length_take; lia).
  change (FByte op :: ?l) with ([FByte op] ++ l). rewrite !bind_app, !length_app.
  pose proof (length_bind_bind (server_fields cfg) field_bytes 32 srvs (server_fields_size cfg)).
  pose proof (length_bind_bind (chars_fields counts has) field_bytes 2 srvs (chars_fields_size counts has)).
  cbn [mbind list_bind field_bytes]. rewrite !length_app, !length_le_split. cbn [length]. lia.
Qed.

Section HandlerSafety.
Context {DB : Type} `{Bcrypt} `{AccountStore DB} (cfg : Config) (kicker : KickManager (World DB)).
Context `{!KickerLaws kicker} (c : Conn) (e : Env) (He : is_u32 (e_xor e)).

(** What a handler keeps true. *)
Definition handling (p : PacketReader * World DB) : Prop := reader_ok p.1 /\ serving c p.2.

Definition fine {A} (m : M (PacketReader * World DB) A) : Prop := keeps handling (λ _, True) m.

Lemma fine_bind {A B} (P : A -> Prop) (m : M _ A) (k : A -> M _ B) :
  keeps handling P m -> (forall a, P a -> fine (k a)) -> fine (m ≫= k).
Proof. apply keeps_bind. Qed.

Lemma fine_read {A B} (m : M PacketReader A) (k : A -> M _ B) :
  safe_read m -> (forall a, fine (k a)) -> fine (on_fst m ≫= k).
Proof.
  intros Hm Hk. eapply fine_bind; [apply (keeps_on_fst reader_ok (serving c)), safe_keeps, Hm|auto].
Qed.

Lemma fine_world {A B} (P : A -> Prop) (m : M (World DB) A) (k : A -> M _ B) :
  keeps (serving c) P m -> (forall a, P a -> fine (k a)) -> fine (on_snd m ≫= k).
Proof. intros Hm Hk. eapply fine_bind; [apply (keeps_on_snd reader_ok (serving c)), Hm|exact Hk]. Qed.

Lemma fine_fail {A} err : fine (fail (A := A) err).
Proof. apply keeps_fail. Qed.
Lemma fine_ret {A} (a : A) : fine (mret a).
Proof. by apply keeps_ret. Qed.

(** The state is not reset to something the client must not be in. *)
Lemma set_State_ok s cl : client_ok cl -> client_ok (set_State s cl).
Proof. done. Qed.
Lemma set_LastServer_ok s cl : client_ok cl -> client_ok (set_LastServer s cl).
Proof. done. Qed.

Lemma keeps_fail_packet op reason : keeps (serving c) (λ _, True) (SendAndCloseAsync (DB := DB) e c op [FByte reason]).
Proof. apply keeps_send; [done|]. vm_compute. discriminate. Qed.

Lemma fine_AuthGG : fine (AuthGG e c).
Proof.
  apply fine_read; [apply safe_ReadInt32|]. intros sessionID.
  eapply fine_world; [apply keeps_client|]. intros cl _.
  destruct (negb _).
  - eapply fine_world; [apply keeps_fail_packet|]. intros _ _. apply fine_ret.
  - eapply fine_world; [apply keeps_upd_client, set_State_ok|]. intros _ _.
    eapply fine_world; [apply keeps_send; [done|vm_compute; discriminate]|]. intros _ _. apply fine_ret.
Qed.

Lemma safe_readLoginBlocks : safe_read readLoginBlocks.
Proof.
  apply safe_bind; [apply safe_ReadBytes; unfold MaxPacketSize; lia|]. intros block1.
  apply safe_bind; [intros r Hr; split_and!; cbn; (done || lia)|]. intros readable.
  destruct (_ >=? _); [|apply safe_ret].
  apply safe_bind; [apply safe_ReadBytes; unfold MaxPacketSize; lia|]. intros block2. apply safe_ret.
Qed.

Lemma fine_HandleLogin : fine (HandleLogin e c).
Proof.
  eapply fine_world; [apply keeps_client|]. intros cl _.
  assert (forall reason, fine (err ← on_snd (sendLoginFail e c reason); ret_err err)) as Hf.
  { intros reason. eapply fine_world; [apply keeps_fail_packet|]. intros err _. apply keeps_ret_err. }
  destruct (negb _); [apply Hf|].
  eapply fine_bind; [apply keeps_try, (keeps_on_fst reader_ok (serving c)), safe_keeps, safe_readLoginBlocks|].
  intros [err|[block1 block2]] _; [apply Hf|].
  apply (keeps_on_snd reader_ok (serving c)), keeps_modify. intros w [[H1 H2] Hc].
  split; [split|]; cbn; [done| |done]. apply Forall_app. split; [done|]. by constructor.
Qed.

Lemma fine_HandleServerList : fine (HandleServerList cfg kicker e c).
Proof.
  eapply fine_world; [apply keeps_client|]. intros cl (_ & _ & Hn). destruct (negb _); [apply fine_fail|].
  apply fine_read; [apply safe_ReadInt32|]. intros l1.
  apply fine_read; [apply safe_ReadInt32|]. intros l2. destruct (negb _).
  { eapply fine_world; [apply keeps_close|]. intros err _. apply fine_fail. }
  eapply fine_world; [apply keeps_upd_client, set_State_ok|]. intros _ _.
  eapply fine_world; [apply keeps_get|]. intros w _.
  destruct (GetCharCounts _ _) as [counts has].
  eapply fine_bind with (P := λ _, True).
  { destruct (negb has); [|apply fine_ret]. apply (keeps_on_snd reader_ok (serving c)), keeps_calm.
    intros w'. by apply request_characters. }
  intros _ _. eapply fine_world; [apply keeps_send; [done|apply list_fields_size, GetServers_Count]|].
  intros _ _. apply fine_ret.
Qed.

Lemma fine_GameServerLogin : fine (GameServerLogin cfg e c).
Proof.
  eapply fine_world; [apply keeps_client|]. intros cl _. destruct (negb _); [apply fine_ret|].
  apply fine_read; [apply safe_ReadInt32|]. intros l1.
  apply fine_read; [apply safe_ReadInt32|]. intros l2.
  apply fine_read; [apply safe_ReadInt32|]. intros serverID.
  assert (fine (err ← on_snd (close_conn e c); ret_err err)) as Hclose.
  { eapply fine_world; [apply keeps_close|]. intros err _. apply keeps_ret_err. }
  destruct (_ || _); [exact Hclose|]. destruct (negb _); [exact Hclose|].
  eapply fine_bind with (P := λ _, True).
  { destruct (negb _); [|apply fine_ret].
    eapply fine_world; [apply keeps_upd_client, set_LastServer_ok|]. intros _ _.
    apply (keeps_on_snd reader_ok (serving c)). by apply keeps_elsewhere. }
  intros _ _. eapply fine_world; [by apply keeps_elsewhere|]. intros _ _.
  eapply fine_world; [apply keeps_send; [done|vm_compute; discriminate]|]. intros err _. apply keeps_ret_err.
Qed.

(** Dispatch: each opcode finds the handler registered for it. *)
Lemma Handle_registered opcode :
  Handle (client_registry cfg kicker) e c opcode =
  if bool_decide (opcode = ClientAuthGG) then AuthGG e c
  else if bool_decide (opcode = ClientLogin) then HandleLogin e c
  else if bool_decide (opcode = ClientServerList) then HandleServerList cfg kicker e c
  else if bool_decide (opcode = ClientGameServerLogin) then GameServerLogin cfg e c
  else fail ErrUnknownOpcode.
Proof. by destruct opcode. Qed.

Lemma fine_Handle opcode : fine (Handle (client_registry cfg kicker) e c opcode).
Proof.
  rewrite Handle_registered. repeat case_bool_decide;
    auto using fine_AuthGG, fine_HandleLogin, fine_HandleServerList, fine_GameServerLogin, fine_fail.
Qed.

Lemma keeps_login_step pc :
  pc_ok pc -> keeps (serving c) pc_ok (login_step cfg kicker e c pc).
Proof.
  intros Hpc. destruct pc as [b1 b2|b1 b2|err|op r|u row|u row|id u row|u row|u row|u row|u row|row|row| | |];
    cbn [login_step pc_ok] in *.
  - eapply keeps_bind; [apply keeps_get|]. intros w _. destruct (_ <? _)%nat; [|by apply keeps_ret].
    eapply keeps_bind; [by apply keeps_elsewhere|]. intros _ _. by apply keeps_ret.
  - eapply keeps_bind; [apply keeps_client|]. intros cl (_ & Hk & _).
    pose proof (decodeCredentials_total (to_lower cfg) (cl_ScrambledKey cl) b1 b2 Hk) as Hp.
    destruct (decodeCredentials _ _ _ _) as [[u p]|err|] eqn:Ed; [|by apply keeps_ret|done].
    apply decodeCredentials_name in Ed.
    eapply keeps_bind; [apply keeps_get|]. intros w _. destruct (Authenticate _ _ _ _ _ _ _) as [answer d].
    eapply keeps_bind; [by apply keeps_elsewhere|]. intros _ _. apply keeps_ret. by destruct answer.
  - eapply keeps_bind; [apply keeps_client|]. intros cl _.
    do 2 (eapply keeps_bind; [by apply keeps_elsewhere|]; intros _ _). apply keeps_ret. by destruct err.
  - eapply keeps_bind; [apply keeps_fail_packet|]. intros _ _. by apply keeps_ret.
  - eapply keeps_bind; [by apply keeps_elsewhere|]. intros _ _.
    eapply keeps_bind; [apply keeps_get|]. intros w _. destruct (TryRegister _ _ _) as [[kick allow] r].
    eapply keeps_bind; [by apply keeps_elsewhere|]. intros _ _. apply keeps_ret. by destruct allow, kick.
  - eapply keeps_bind; [apply keeps_get|]. intros w _. apply keeps_ret. by destruct (Get u _).
  - eapply keeps_bind with (P := λ _, True); [|intros _ _; by apply keeps_ret].
    apply keeps_calm. intros w. destruct (_ =? _); [apply kick_account|by apply kick_from_game].
  - eapply keeps_bind; [apply keeps_client|]. intros cl _.
    eapply keeps_bind; [by apply keeps_elsewhere|]. intros _ _. by apply keeps_ret.
  - eapply keeps_bind; [apply keeps_client|]. intros cl _.
    eapply keeps_bind; [by apply keeps_elsewhere|]. intros _ _. by apply keeps_ret.
  - eapply keeps_bind; [apply keeps_upd_client; by intros cl|]. intros _ _. by apply keeps_ret.
  - eapply keeps_bind; [apply keeps_upd_client; by intros cl (? & ? & ?)|]. intros _ _. by apply keeps_ret.
  - eapply keeps_bind; [apply keeps_upd_client, set_State_ok|]. intros _ _. by apply keeps_ret.
  - eapply keeps_bind; [apply keeps_upd_client, set_LastServer_ok|]. intros _ _. by apply keeps_ret.
  - eapply keeps_bind; [apply keeps_client|]. intros cl _.
    eapply keeps_bind; [apply keeps_send; [done|vm_compute; discriminate]|]. intros _ _. by apply keeps_ret.
  - eapply keeps_bind; [by apply keeps_elsewhere|]. intros _ _. by apply keeps_ret.
  - by apply keeps_ret.
Qed.
End HandlerSafety.

(** no client can crash the server from a handler: whatever the opcode and the
    bytes of a packet, and whatever statement a login goroutine of the connection has
    reached, with other steps in between or not, the code returns or reports an
    error; a reply always fits in a packet; and every client's cipher, key and
    account name stay usable, so that this remains so. *)
Theorem client_never_panics {DB} `{Bcrypt} `{AccountStore DB} cfg (kicker : KickManager (World DB))
    `{!KickerLaws kicker} c e opcode payload r (w : World DB) :
  is_u32 (e_xor e) -> serving c w -> GetPacketReader payload = Val r ->
  (let '(o, (_, w')) := Handle (client_registry cfg kicker) e c opcode (r, w) in
   is_panic o = false /\ serving c w') /\
  (forall pc, (c, pc) ∈ tasks w ->
   let '(o, w') := login_step cfg kicker e c pc w in
   is_panic o = false /\ serving c w' /\ forall pc', o = Val pc' -> pc_ok pc').
Proof.
  intros He Hs Hr. split.
  - pose proof (fine_Handle cfg kicker c e He opcode (r, w)) as Hf.
    specialize (Hf ltac:(split; [by eapply GetPacketReader_ok|exact Hs])). unfold ends, handling in Hf.
    destruct (Handle _ e c opcode (r, w)) as [[a|err|] [r' w']]; [by destruct Hf as [[_ Hf] _]|by destruct Hf|done].
  - intros pc Hin. pose proof (proj1 (Forall_forall _ _) (proj2 (proj1 Hs)) _ Hin) as [Hpc _].
    pose proof (keeps_login_step cfg kicker c e He pc Hpc w Hs) as Hf. unfold ends in Hf.
    destruct (login_step cfg kicker e c pc w) as [[a|err|] w']; [|by split_and!|done].
    destruct Hf as [Hf Ha]. split_and!; [done|done|]. by intros pc' [= <-].
Qed.

Lemma sample_server_heap : heap sample_server = <[1%positive := sample_client]> ∅.
Proof. reflexivity. Qed.

Lemma sample_server_serving : serving 1%positive sample_server.
Proof.
  unfold serving, server_ok. rewrite sample_server_heap.
  split; [split|rewrite lookup_insert_eq; by eexists].
  - intros c cl Hcl. apply lookup_insert_Some in Hcl as [[_ <-]|[_ Hcl]].
    + split_and!; [apply NewCrypt_ok|apply small_key_ok|]. unfold name_ok. cbn. lia.
    + by rewrite lookup_empty in Hcl.
  - constructor.
Qed.

Lemma client_never_panics_witness :
  let '(o, (_, w')) := Handle (@client_registry table table_store sample_config NewKickManager)
    sample_env 1%positive ClientAuthGG ({| rbuf := le_split 4 77; pos := 0 |}, sample_server) in
  is_panic o = false /\ serving 1%positive w'.
Proof.
  assert (is_u32 (e_xor sample_env)) as Hx by (cbn; unfold is_u32; lia).
  assert (GetPacketReader (le_split 4 77) = Val {| rbuf := le_split 4 77; pos := 0 |}) as Hr by reflexivity.
  destruct (@client_never_panics table plain_bcrypt table_store sample_config NewKickManager no_kicker_laws
    1%positive sample_env ClientAuthGG _ _ sample_server Hx sample_server_serving Hr) as [Ho _].
  exact Ho.
Defined.
