(* ===== verification/Listeners.v ===== *)
(** [internal/listener/]: the two listeners.  A callback of gnet is a definition
    on the state of the server; what gnet hands over (the connection, the
    buffered bytes, the address) is an argument.  The table of a listener is the
    list of its keys; the object of a key is in the heap. *)
From stdpp Require Import base gmap list numbers strings.
From coqutil Require Import Byte Word.LittleEndianList.
From Stdlib Require Import Lia ZArith.
From S2P Require Import Prelude.
From S2P Require Import Effects.
From S2P Require Import PacketReader.
From S2P Require Import PacketWriter.
From S2P Require Import PacketCodec.
From S2P Require Import Blowfish.
From S2P Require Import Crypt.
From S2P Require Import Keys.
From S2P Require Import Rsa.
From S2P Require Import GoStd.
From S2P Require Import Sharding.
From S2P Require Import SessionStore.
From S2P Require Import SessionRegistry.
From S2P Require Import RateLimiter.
From S2P Require Import ServerList.
From S2P Require Import BanManager.
From S2P Require Import GsHandlers.
From S2P Require Import Authenticator.
From S2P Require Import Metrics.
From S2P Require Import Credentials.
From S2P Require Import Connections.
From S2P Require Import ClientHandlers.
Import BlowfishKeys.
Import SessionKeys.
Local Open Scope Z_scope.

(** [gnet.None] and [gnet.Close]. *)
Inductive Action := ANone | AClose.

(** Opcodes of the packets to a game server. *)
Definition KickPlayer : byte := Byte.x04.
Definition RequestCharactersOp : byte := Byte.x05.

(** [size := int(uint16(buf[0]) | uint16(buf[1])<<8)]. *)
Definition frame_size (b0 b1 : byte) : Z :=
  Z.lor (byte.unsigned b0) (u16 (Z.shiftl (byte.unsigned b1) 8)).

Section Listeners.
Context {DB : Type} `{Bcrypt} `{AccountStore DB} (cfg : Config).
Let W := World DB.

(** Iteration over a listener's map, in the order of the environment. *)
Definition client_entries (e : Env) (w : W) : list (Conn * Client) :=
  omap (λ c, (c,.) <$> heap w !! c) (e_order e (clients w)).
Definition gs_entries (e : Env) (w : W) : list (Conn * GameServerClient) :=
  omap (λ g, (g,.) <$> gs_heap w !! g) (e_order e (gs_clients w)).

(** [delete(m, c)] and [m[c] = v] on the keys. *)
Definition remove_key (c : Conn) (l : list Conn) : list Conn := filter (λ c', c' <> c) l.
Definition insert_key (c : Conn) (l : list Conn) : list Conn := c :: remove_key c l.

(** * [client_listener.go] *)

Definition generateSessionID (e : Env) : M W Z :=
  _ ← modify (upd_globalSessionID (λ n, i32 (n + 1)));
  w ← get;
  mret (Z.lxor (globalSessionID w) (i32 (UnixNano (e_now e)))).

(** The fields of the Init packet. *)
Definition init_fields (sessionID : Z) (modulus secretKey : list byte) : list field :=
  [FByte ServerInit; FInt32 sessionID; FInt32 0xc621; FBytes modulus;
   FUint32 0x29DD954E; FUint32 0x77C39CFC; FUint32 0x97ADB620; FUint32 0x07BDE0F7;
   FBytes secretKey; FByte Byte.x00].

(** [OnOpen]; [ip] is [getIP(c)] and [entropy] what [rand.Read] delivers. *)
Definition OnOpen (e : Env) (c : Conn) (ip : gostring) (entropy : error + list byte)
    : M W (option (list byte) * Action) :=
  let ipAddr := default InvalidAddr (ParseAddr cfg ip) in
  w ← get;
  let '(allowed, lim) := Allow (UnixNano (e_now e)) ipAddr (limiter w) in
  _ ← modify (upd_limiter (λ _, lim));
  if negb allowed then mret (None, AClose) else
  w ← get;
  let '(banned, bm) := IsBanned (e_now e) (e_now e) ipAddr (bans w) in
  _ ← modify (upd_bans (λ _, bm));
  if banned then mret (None, AClose) else
  sessionID ← generateSessionID e;
  match GenerateSessionKey entropy with
  | inl _ => mret (None, AClose)
  | inr sessionKey =>
    w ← get;
    let '(key, idx) := GetScrambledKey (rsaPool w) (rsaIdx w) in
    _ ← modify (upd_rsaIdx (λ _, idx));
    match key with
    | Fail _ => mret (None, AClose)
    | Panic => panic
    | Val scrambledKey =>
      let secretKey := GetRandomBlowFishKey sessionID (keyPools w) in
      let cl :=
        {| cl_Crypt := NewCrypt secretKey; cl_ScrambledKey := scrambledKey; cl_RemoteAddr := ipAddr;
           cl_RemoteIP := ip; cl_Account := []; cl_lastActivity := UnixNano (e_now e);
           cl_AccountID := 0; cl_SessionKey := sessionKey; cl_LastServer := 0;
           cl_SessionID := sessionID; cl_State := StateConnected |} in
      _ ← modify (upd_heap <[c := cl]>);
      _ ← modify (upd_clients (insert_key c));
      _ ← tally (Inc ActiveConnections);
      _ ← tally (Inc ConnectionTotal);
      let pw := foldl (λ w f, write_field (e_grow e) f w) (GetPacketWriter (e_grow e) (e_pool e 0%nat))
                  (init_fields sessionID (Modulus scrambledKey) secretKey) in
      match EncryptStatic (e_xor e) pw with
      | None => panic
      | Some pw =>
        match PrependLength pw with
        | Val pw => mret (Some (Bytes pw), ANone)
        | Fail err => fail err
        | Panic => panic
        end
      end
    end
  end.

(** The body of the loop of [OnTraffic] from [payload := buf[2:size]] on: decrypt,
    dispatch, and whether to go on. *)
Definition client_frame (reg : Registry) (e : Env) (c : Conn) (size : nat) (payload : list byte)
    : M W Action :=
  cl ← client c;
  match Decrypt (cl_Crypt cl) payload (Z.of_nat (length payload)) with
  | None => panic
  | Some (false, _) => mret AClose
  | Some (true, payload) =>
    match payload with
    | [] => mret AClose
    | opcode :: body =>
      match GetPacketReader body with
      | Val reader =>
        handled ← try (λ w, let '(o, (_, w')) := Handle reg e c opcode (reader, w) in (o, w'));
        match handled with
        | inl _ => mret AClose
        | inr _ =>
          _ ← Touch e c;
          _ ← emit (Discard c size);
          mret ANone
        end
      | _ => mret AClose
      end
    end
  end.

(** The loop on the frames of [OnTraffic], the same in both listeners but for the
    handling of a frame; every iteration consumes at least its header. *)
Fixpoint frame_loop (frame : nat -> list byte -> M W Action) (fuel : nat) (buf : list byte) : M W Action :=
  match fuel with
  | O => mret ANone
  | S fuel =>
    match buf with
    | b0 :: b1 :: _ =>
      let size := frame_size b0 b1 in
      if (size <? MinPacketSize) || (size >? MaxPacketSize) then mret AClose
      else if Z.of_nat (length buf) <? size then mret ANone
      else if size <? 2 then panic
      else
        action ← frame (Z.to_nat size) (slice 2 (Z.to_nat size) buf);
        match action with
        | AClose => mret AClose
        | ANone => frame_loop frame fuel (drop (Z.to_nat size) buf)
        end
    | _ => mret ANone
    end
  end.

(** [OnTraffic]; [buf] is what [c.Next(-1)] yields. *)
Definition OnTraffic (reg : Registry) (e : Env) (c : Conn) (buf : list byte) : M W Action :=
  _ ← client c;
  frame_loop (client_frame reg e c) (1 + length buf) buf.

Definition OnClose (c : Conn) : M W unit :=
  w ← get;
  if negb (bool_decide (c ∈ clients w)) then mret tt else
  _ ← modify (upd_clients (remove_key c));
  cl ← client c;
  let account := AccountName cl in
  _ ← (if bool_decide (account = []) then mret tt else
       match Get account (sessions w) with
       | Some sess =>
         if SessionID sess =? cl_SessionID cl then
           if SessionRegistry.ServerID sess =? 0 then
             _ ← modify (upd_sessions (λ r, (SessionRegistry.Unregister account (cl_SessionID cl) r).2));
             modify (upd_serverList (RemoveAccount account))
           else mret tt
         else mret tt
       | None => mret tt
       end);
  tally (Dec ActiveConnections).

Definition OnTick (e : Env) : M W unit :=
  w ← get;
  let nowNanos := UnixNano (e_now e) in
  for_each (λ _ '(c, cl),
    if i64 (nowNanos - LastActivityNanos cl) >? client_timeout cfg
    then _ ← emit (Close c); _ ← modify (upd_clients (remove_key c)); tally (Dec ActiveConnections)
    else mret tt) 0 (client_entries e w).

(** The loop of [KickAccount], left at the first match. *)
Fixpoint kick_loop (username : gostring) (entries : list (Conn * Client)) : M W unit :=
  match entries with
  | [] => mret tt
  | (c, cl) :: entries =>
    if bool_decide (AccountName cl = username)
    then _ ← emit (Close c); modify (upd_clients (remove_key c))
    else kick_loop username entries
  end.
Definition ls_KickAccount (e : Env) (username : gostring) : M W unit :=
  w ← get; kick_loop username (client_entries e w).

(** * [gs_listener.go] *)

Definition gs_OnOpen (e : Env) (g : Conn) (ip : gostring) : M W Action :=
  let gsc := {| gsc_RemoteIP := ip; gsc_lastActivity := UnixNano (e_now e); gsc_ServerID := 0 |} in
  _ ← modify (upd_gs_heap <[g := gsc]>);
  _ ← modify (upd_gs_clients (insert_key g));
  mret ANone.

(** A handler of [GsHandlers] on the state of the server. *)
Definition gs_view (gsc : GameServerClient) (r : PacketReader) (w : W) : gs_state :=
  {| gs_rd := r; gs_servers := serverList w; gs_sessions := sessions w; gs_handoffs := handoffs w;
     gs_id := gsc_ServerID gsc; gs_sent := [] |}.
Definition gs_merge (e : Env) (g : Conn) (s : gs_state) (w : W) : W :=
  let sent := match e_write e with Some _ => [] | None => Write g <$> gs_sent s end in
  upd_serverList (λ _, gs_servers s) (upd_sessions (λ _, gs_sessions s)
    (upd_handoffs (λ _, gs_handoffs s)
      (upd_gs_heap (alter (λ gsc, {| gsc_RemoteIP := gsc_RemoteIP gsc;
         gsc_lastActivity := gsc_lastActivity gsc; gsc_ServerID := gs_id s |}) g)
        (upd_net (λ evs, evs ++ sent) w)))).
Definition gs_handle (e : Env) (g : Conn) (opcode : byte) (r : PacketReader) : M W unit := λ w,
  match gs_heap w !! g with
  | None => (Panic, w)
  | Some gsc =>
    let '(o, s) := GsHandlers.Handle (e_grow e) (e_pool e 0%nat) (e_buf e) (e_now e) (simple_fold cfg)
                     opcode (gs_view gsc r w) in
    (o, gs_merge e g s w)
  end.

Definition gs_frame (e : Env) (g : Conn) (size : nat) (payload : list byte) : M W Action :=
  match payload with
  | [] => panic
  | opcode :: body =>
    match GetPacketReader body with
    | Val reader =>
      handled ← try (gs_handle e g opcode reader);
      match handled with
      | inl _ => mret AClose
      | inr _ =>
        _ ← gs_Touch e g;
        _ ← emit (Discard g size);
        mret ANone
      end
    | _ => mret AClose
    end
  end.

Definition gs_OnTraffic (e : Env) (g : Conn) (buf : list byte) : M W Action :=
  _ ← gs_client g;
  frame_loop (gs_frame e g) (1 + length buf) buf.

Definition gs_OnClose (g : Conn) : M W unit :=
  w ← get;
  if negb (bool_decide (g ∈ gs_clients w)) then mret tt else
  _ ← modify (upd_gs_clients (remove_key g));
  gsc ← gs_client g;
  if gsc_ServerID gsc =? 0 then mret tt else
  _ ← modify (upd_serverList (ServerList.Unregister (gsc_ServerID gsc)));
  modify (upd_sessions (ClearServer (gsc_ServerID gsc))).

Definition gs_OnTick (e : Env) : M W unit :=
  w ← get;
  let nowNanos := UnixNano (e_now e) in
  for_each (λ _ '(g, gsc),
    if i64 (nowNanos - gsc_lastActivity gsc) >? gs_timeout cfg
    then _ ← emit (Close g); modify (upd_gs_clients (remove_key g))
    else mret tt) 0 (gs_entries e w).

(** The loop of [KickAccount]: the first game server with the id. *)
Fixpoint gs_kick_loop (e : Env) (username : gostring) (serverID : Z)
    (entries : list (Conn * GameServerClient)) : M W unit :=
  match entries with
  | [] => mret tt
  | (g, gsc) :: entries =>
    if gsc_ServerID gsc =? serverID
    then _ ← gs_Send e 1 g KickPlayer [FString username]; mret tt
    else gs_kick_loop e username serverID entries
  end.
Definition gs_KickAccount (e : Env) (username : gostring) (serverID : Z) : M W unit :=
  w ← get; gs_kick_loop e username serverID (gs_entries e w).

Definition gs_RequestCharacters (e : Env) (username : gostring) (accountID : Z) : M W unit :=
  w ← get;
  for_each (λ i '(g, _),
    _ ← gs_Send e i g RequestCharactersOp [FString username; FInt64 accountID]; mret tt)
    1 (gs_entries e w).

(** * [cmd/main.go]: the kick manager is wired to the listeners *)
Definition kick_manager (e : Env) : KickManager W :=
  {| OnKickLS := Some (ls_KickAccount e); OnKickGS := Some (gs_KickAccount e);
     OnRequestChars := Some (gs_RequestCharacters e) |}.
End Listeners.

(** * Frames *)

(** A frame on the wire, and the rest of a buffer from which no frame can be cut:
    one that is not complete, and one whose header says less than its own length. *)
Definition wire (payload : list byte) : list byte :=
  le_split 2 (Z.of_nat (2 + length payload)) ++ payload.
Definition partial (rest : list byte) : bool :=
  match rest with
  | b0 :: b1 :: _ => Z.of_nat (length rest) <? frame_size b0 b1
  | _ => true
  end.
Definition short (rest : list byte) : bool :=
  match rest with
  | b0 :: b1 :: _ => frame_size b0 b1 <? 2
  | _ => false
  end.
Definition cut (payloads : list (list byte)) (rest buf : list byte) : Prop :=
  buf = (payloads ≫= wire) ++ rest /\ Forall (λ p, Z.of_nat (length p) + 2 <= 65535) payloads /\
  (partial rest || short rest) = true.

(** The frames one after the other, until one ends the connection. *)
Fixpoint run_frames {DB} (frame : nat -> list byte -> M (World DB) Action) (payloads : list (list byte))
    (last : M (World DB) Action) : M (World DB) Action :=
  match payloads with
  | [] => last
  | p :: payloads =>
    action ← frame (2 + length p)%nat p;
    match action with AClose => mret AClose | ANone => run_frames frame payloads last end
  end.

Lemma frame_size_le b0 b1 : frame_size b0 b1 = le_combine [b0; b1].
Proof.
  unfold frame_size. change (le_combine [b0; b1]) with
    (Z.lor (byte.unsigned b0) (Z.shiftl (Z.lor (byte.unsigned b1) 0) 8)). rewrite Z.lor_0_r.
  f_equal. apply u16_small. pose proof (byte_unsigned_range b1) as Hb. unfold is_u8, is_u16 in *.
  rewrite Z.shiftl_mul_pow2 by lia. lia.
Qed.

Lemma frame_size_range b0 b1 : 0 <= frame_size b0 b1 < 65536.
Proof. rewrite frame_size_le. apply (le_combine_bound [b0; b1]). Qed.

Lemma wire_header p :
  Z.of_nat (length p) + 2 <= 65535 ->
  exists b0 b1, wire p = b0 :: b1 :: p /\ frame_size b0 b1 = Z.of_nat (length p) + 2.
Proof.
  intros Hp. destruct (le_combine_pair (Z.of_nat (2 + length p))) as (b0 & b1 & E & Hc & _);
    [unfold is_u16; lia|].
  exists b0, b1. unfold wire. rewrite E. split; [done|]. rewrite frame_size_le, Hc. lia.
Qed.

(** Every buffer can be cut. *)
Lemma cut_exists buf : exists payloads rest, cut payloads rest buf.
Proof.
  remember (length buf) as n eqn:Hn. revert buf Hn. induction (lt_wf n) as [n _ IH]. intros buf ->.
  destruct (partial buf || short buf) eqn:Ec; [by exists [], buf|].
  apply orb_false_iff in Ec as [Ep Es]. destruct buf as [|b0 [|b1 buf]]; [done|done|].
  cbn [partial short] in *. apply Z.ltb_ge in Ep, Es. pose proof (frame_size_range b0 b1) as Hr.
  set (k := Z.to_nat (frame_size b0 b1 - 2)). cbn [length] in Ep.
  destruct (IH (length (drop k buf))) with (buf := drop k buf) as (ps & rest & E & Hf & Hc);
    [rewrite length_drop; cbn [length]; lia|done|].
  assert (length (take k buf) = k) as Hl by (rewrite length_take; lia).
  exists (take k buf :: ps), rest. split_and!; [|constructor; [lia|done]|done].
  change ((take k buf :: ps) ≫= wire) with (wire (take k buf) ++ (ps ≫= wire)).
  rewrite <- app_assoc, <- E. unfold wire. rewrite Hl, <- app_assoc, take_drop.
  replace (Z.of_nat (2 + k)) with (le_combine [b0; b1]) by (rewrite <- frame_size_le; lia).
  by rewrite split_le_combine' by done.
Qed.

(** The loop handles the frames in order and then stops, or panics, at the rest. *)
Lemma frame_loop_cut {DB} (frame : nat -> list byte -> M (World DB) Action) payloads rest buf fuel w :
  cut payloads rest buf -> (length buf < fuel)%nat ->
  frame_loop frame fuel buf w =
  run_frames frame payloads (if partial rest then mret ANone else panic) w.
Proof.
  intros (-> & Hf & Hc). revert fuel w. induction Hf as [|p ps Hp _ IH]; intros fuel w Hfuel.
  - cbn [mbind list_bind app] in *. destruct fuel as [|fuel]; [lia|]. cbn [frame_loop run_frames].
    destruct rest as [|b0 [|b1 rest]]; [done|done|]. cbn [partial short] in *.
    pose proof (frame_size_range b0 b1). unfold MinPacketSize, MaxPacketSize.
    destruct (Z.ltb_spec (frame_size b0 b1) 0); [lia|].
    destruct (Z.gtb_spec (frame_size b0 b1) 65536); [lia|]. cbn [orb].
    destruct (_ <? _); [done|]. cbn [orb] in Hc. by rewrite Hc.
  - change ((p :: ps) ≫= wire) with (wire p ++ (ps ≫= wire)) in *. rewrite <- app_assoc in *.
    destruct (wire_header p Hp) as (b0 & b1 & E & Hs). rewrite E in *. cbn [app] in *.
    destruct fuel as [|fuel]; [lia|]. cbn [frame_loop run_frames]. rewrite Hs.
    unfold MinPacketSize, MaxPacketSize.
    destruct (Z.ltb_spec (Z.of_nat (length p) + 2) 0); [lia|].
    destruct (Z.gtb_spec (Z.of_nat (length p) + 2) 65536); [lia|]. cbn [orb].
    destruct (Z.ltb_spec (Z.of_nat (length (b0 :: b1 :: p ++ (ps ≫= wire) ++ rest))) (Z.of_nat (length p) + 2));
      [cbn [length] in *; rewrite length_app in *; lia|].
    destruct (Z.ltb_spec (Z.of_nat (length p) + 2) 2); [lia|].
    replace (Z.to_nat (Z.of_nat (length p) + 2)) with (2 + length p)%nat by lia.
    change (slice 2 (2 + length p) (b0 :: b1 :: p ++ (ps ≫= wire) ++ rest))
      with (take (2 + length p - 2) (p ++ (ps ≫= wire) ++ rest)).
    replace (2 + length p - 2)%nat with (length p) by lia. rewrite take_app_length.
    change (drop (2 + length p) (b0 :: b1 :: p ++ (ps ≫= wire) ++ rest))
      with (drop (length p) (p ++ (ps ≫= wire) ++ rest)). rewrite drop_app_length.
    unfold mbind, M_bind. destruct (frame (2 + length p)%nat p w) as [[[]|err|] w']; try done.
    apply IH. cbn [length] in Hfuel. rewrite length_app in Hfuel. lia.
Qed.

(** * The wired kick manager keeps its contract *)

(** Code that returns, and changes only what a kick may change. *)
Definition quiet {DB A} (m : M (World DB) A) : Prop :=
  forall w, exists a w', m w = (Val a, w') /\ calm w w'.

Section Quiet.
Context {DB : Type}.
Implicit Type w : World DB.

Lemma quiet_ret {A} (a : A) : quiet (DB := DB) (mret a).
Proof. intros w. by exists a, w. Qed.

Lemma quiet_bind {A B} (m : M (World DB) A) (k : A -> M (World DB) B) :
  quiet m -> (forall a, quiet (k a)) -> quiet (m ≫= k).
Proof.
  intros Hm Hk w. destruct (Hm w) as (a & w1 & E & H1). destruct (Hk a w1) as (b & w2 & E2 & H2).
  exists b, w2. split; [by rewrite (M_bind_val _ _ _ _ _ E)|by etrans].
Qed.

Lemma quiet_modify (f : World DB -> World DB) : (forall w, calm w (f w)) -> quiet (modify f).
Proof. intros Hf w. by exists tt, (f w). Qed.

Lemma quiet_for_each {A} (body : nat -> A -> M (World DB) unit) xs i :
  (forall i x, quiet (body i x)) -> quiet (for_each body i xs).
Proof.
  intros Hb. revert i. induction xs as [|x xs IH]; intros i; [apply quiet_ret|].
  apply quiet_bind; [apply Hb|intros _; apply IH].
Qed.

Lemma calm_net (f : list net_event -> list net_event) w :
  (exists evs, f (net w) = net w ++ evs) -> calm w (upd_net f w).
Proof. intros [evs Hf]. unfold calm. split_and!; try done. by exists evs. Qed.

Lemma quiet_emit ev : quiet (DB := DB) (emit ev).
Proof. apply quiet_modify. intros w. apply calm_net. by exists [ev]. Qed.

Lemma quiet_remove_client c : quiet (DB := DB) (modify (upd_clients (remove_key c))).
Proof.
  apply quiet_modify. intros w. unfold calm. split_and!; try done; cbn.
  - exists []. by rewrite app_nil_r.
  - intros c' Hin. by apply list_elem_of_filter in Hin as [_ Hin].
Qed.

Lemma quiet_gs_Touch e g : quiet (DB := DB) (gs_Touch e g).
Proof.
  apply quiet_modify. intros w. unfold calm. split_and!; try done; cbn.
  - exists []. by rewrite app_nil_r.
  - intros g'. rewrite lookup_alter. case_decide; subst; [|done]. by destruct (gs_heap w !! g').
Qed.

Lemma quiet_gs_Send e i g op fields :
  Z.of_nat (packet_size (FByte op :: fields)) <= 65535 -> quiet (DB := DB) (gs_Send e i g op fields).
Proof.
  intros Hs. unfold gs_Send. destruct (build_packet_spec (e_grow e) (e_pool e i) _ Hs) as (pw & -> & _).
  destruct (e_write e); [apply quiet_ret|].
  apply quiet_bind; [apply quiet_emit|]. intros _.
  apply quiet_bind; [apply quiet_gs_Touch|]. intros _. apply quiet_ret.
Qed.

Lemma quiet_get : quiet (DB := DB) get.
Proof. intros w. by exists w, w. Qed.

Lemma quiet_unit (m : M (World DB) unit) w : quiet m -> exists w', m w = (Val tt, w') /\ calm w w'.
Proof. intros Hm. destruct (Hm w) as ([] & w' & ?). by exists w'. Qed.
End Quiet.

(** A name that is short enough for any packet. *)
Lemma name_packet_size u fields op :
  name_ok u -> (length (fields ≫= field_bytes) <= 1000)%nat ->
  Z.of_nat (packet_size (FByte op :: FString u :: fields)) <= 65535.
Proof.
  unfold name_ok, packet_size. intros Hu Hf.
  change ((FByte op :: FString u :: fields) ≫= field_bytes)
    with ([op] ++ (utf16le u ++ [Byte.x00; Byte.x00]) ++ (fields ≫= field_bytes)).
  rewrite !length_app. cbn [length]. lia.
Qed.

#[export] Instance kick_manager_laws {DB} e : KickerLaws (kick_manager (DB := DB) e).
Proof.
  split.
  - intros u w. apply quiet_unit, quiet_bind; [apply quiet_get|]. intros w0.
    generalize (client_entries e w0). intros l. induction l as [|[c cl] l IH]; [apply quiet_ret|].
    cbn [kick_loop]. case_bool_decide; [|exact IH].
    apply quiet_bind; [apply quiet_emit|intros _; apply quiet_remove_client].
  - intros u id w Hu. apply quiet_unit, quiet_bind; [apply quiet_get|]. intros w0.
    generalize (gs_entries e w0). intros l. induction l as [|[g gsc] l IH]; [apply quiet_ret|].
    cbn [gs_kick_loop]. destruct (_ =? _); [|exact IH].
    apply quiet_bind; [|intros _; apply quiet_ret]. apply quiet_gs_Send, name_packet_size; [done|cbn; lia].
  - intros u id w Hu. apply quiet_unit, quiet_bind; [apply quiet_get|]. intros w0.
    apply quiet_for_each. intros i [g gsc].
    apply quiet_bind; [|intros _; apply quiet_ret]. apply quiet_gs_Send, name_packet_size; [done|].
    cbn [mbind list_bind field_bytes]. rewrite length_app, length_le_split. cbn. lia.
Qed.

(** * Safety of the callbacks *)

Definition env_ok (e : Env) : Prop :=
  is_u32 (e_xor e) /\ (1024 <= length (e_buf e))%nat /\ forall l, e_order e l ≡ₚ l.

Section Safety.
Context {DB : Type} `{Bcrypt} `{AccountStore DB} (cfg : Config) (e : Env) (He : env_ok e).
Let reg : Registry (DB := DB) := client_registry cfg (kick_manager e).

Lemma Decrypt_total c data :
  crypt_ok c -> Z.of_nat (length data) < 2 ^ 63 ->
  exists ok data', Decrypt c data (Z.of_nat (length data)) = Some (ok, data').
Proof.
  intros Hc Hl. unfold Decrypt. destruct (_ || _); [by eexists _, _|].
  destruct (DecipherRange_inverse (cipher c) data 0 (Z.of_nat (length data)) Hc) as (data' & Hd & _);
    [unfold is_i64; lia..|].
  rewrite Hd. by eexists _, _.
Qed.

Lemma keeps_client_frame c size payload :
  Z.of_nat (length payload) + 2 <= 65535 ->
  keeps (serving c) (λ _, True) (client_frame reg e c size payload).
Proof.
  intros Hl. unfold client_frame. eapply keeps_bind; [apply keeps_client|]. intros cl (Hc & _ & _).
  destruct (Decrypt_total (cl_Crypt cl) payload Hc ltac:(lia)) as (ok & data & ->).
  destruct ok; [|by apply keeps_ret]. destruct data as [|opcode body]; [by apply keeps_ret|].
  destruct (GetPacketReader body) as [reader|err|] eqn:Er; [|by apply keeps_ret..].
  apply GetPacketReader_ok in Er.
  eapply keeps_bind with (P := λ _, True).
  - eapply keeps_weaken; [apply (keeps_try _ (λ _, True))|done].
    intros w Hw. pose proof (fine_Handle cfg (kick_manager e) c e (proj1 He) opcode (reader, w)) as Hf.
    specialize (Hf ltac:(by split)). unfold ends, handling in *. fold reg in Hf.
    destruct (Handle reg e c opcode (reader, w)) as [[a|err|] [r' w']];
      [destruct Hf as [[_ Hf] _]; by split|by destruct Hf|done].
  - intros [err|[]] _; [by apply keeps_ret|].
    eapply keeps_bind; [apply keeps_upd_client; by intros ? (? & ? & ?)|]. intros _ _.
    eapply keeps_bind; [by apply keeps_elsewhere|]. intros _ _. by apply keeps_ret.
Qed.

Lemma keeps_run_frames c frame payloads last :
  (forall p, p ∈ payloads -> keeps (@serving DB c) (λ _, True) (frame (2 + length p)%nat p)) ->
  keeps (serving c) (λ _, True) last -> keeps (serving c) (λ _, True) (run_frames frame payloads last).
Proof.
  intros Hf Hl. induction payloads as [|p ps IH]; [done|]. cbn [run_frames].
  eapply keeps_bind; [apply Hf; by left|]. intros [] _; [|by apply keeps_ret].
  apply IH. intros p' Hp. apply Hf. by right.
Qed.

(** A game server's frame that has an opcode. *)
Lemma gs_frame_no_panic g size payload w :
  payload <> [] -> Z.of_nat (length payload) + 2 <= 65535 -> is_Some (gs_heap w !! g) ->
  exists a w', gs_frame (DB := DB) cfg e g size payload w = (Val a, w') /\ is_Some (gs_heap w' !! g).
Proof.
  intros Hne Hl [gsc Hg]. destruct payload as [|opcode body]; [done|]. cbn [gs_frame].
  destruct (GetPacketReader body) as [reader|err|] eqn:Er; [|by eexists _, _..].
  pose proof (GsHandlers.Handle_no_panic (e_grow e) (e_pool e 0%nat) (e_buf e) (e_now e) (simple_fold cfg)
    opcode body (gs_view gsc reader w) reader (proj1 (proj2 He))) as Hp.
  specialize (Hp ltac:(unfold MaxPayload; cbn [length] in Hl; lia) Er).
  change (set_rd reader (gs_view gsc reader w)) with (gs_view gsc reader w) in Hp.
  unfold mbind, M_bind, try, gs_handle. rewrite Hg.
  destruct (GsHandlers.Handle _ _ _ _ _ opcode _) as [[a|err|] s]; [| |done].
  - eexists _, _. split; [reflexivity|]. cbn. rewrite !lookup_alter_is_Some. by eexists.
  - eexists _, _. split; [reflexivity|]. cbn. rewrite lookup_alter_is_Some. by eexists.
Qed.

Lemma gs_frames_panic g payloads last w :
  is_Some (gs_heap w !! g) -> Forall (λ p, Z.of_nat (length p) + 2 <= 65535) payloads ->
  is_panic (run_frames (gs_frame (DB := DB) cfg e g) payloads last w).1 = true ->
  [] ∈ payloads \/ exists w', is_panic (last w').1 = true.
Proof.
  intros Hg Hf. revert w Hg. induction Hf as [|p ps Hp _ IH]; intros w Hg Hpan; [right; by exists w|].
  destruct (decide (p = [])) as [->|Hne]; [left; by left|].
  destruct (gs_frame_no_panic g (2 + length p) p w Hne Hp Hg) as (a & w1 & E & Hg1).
  cbn [run_frames] in Hpan. unfold mbind, M_bind in Hpan. rewrite E in Hpan.
  destruct a; [|done]. destruct (IH w1 Hg1 Hpan) as [?|?]; [left; by right|by right].
Qed.

Lemma OnTraffic_frames c payloads rest buf (w : World DB) :
  cut payloads rest buf -> is_Some (heap w !! c) ->
  OnTraffic reg e c buf w =
  run_frames (client_frame reg e c) payloads (if partial rest then mret ANone else panic) w.
Proof.
  intros Hc [cl Hcl]. unfold OnTraffic, client. unfold mbind at 1, M_bind at 1. rewrite Hcl.
  apply frame_loop_cut; [done|lia].
Qed.

Lemma gs_OnTraffic_frames g payloads rest buf (w : World DB) :
  cut payloads rest buf -> is_Some (gs_heap w !! g) ->
  gs_OnTraffic cfg e g buf w =
  run_frames (gs_frame cfg e g) payloads (if partial rest then mret ANone else panic) w.
Proof.
  intros Hc [gsc Hg]. unfold gs_OnTraffic, gs_client. unfold mbind at 1, M_bind at 1. rewrite Hg.
  apply frame_loop_cut; [done|lia].
Qed.

(** C17: frames are handled in order, whole, and nothing else is: any buffer is a
    sequence of frames and a rest, and both listeners treat it as such: they run
    the handler of frame after frame, stopping at the first that ends the
    connection; a rest that is not a complete frame is left out without any effect,
    and one whose header is too small panics. *)
Theorem traffic_in_order buf :
  (exists payloads rest, cut payloads rest buf) /\
  forall payloads rest, cut payloads rest buf ->
    (forall c (w : World DB), is_Some (heap w !! c) ->
       OnTraffic reg e c buf w =
       run_frames (client_frame reg e c) payloads (if partial rest then mret ANone else panic) w) /\
    (forall g (w : World DB), is_Some (gs_heap w !! g) ->
       gs_OnTraffic cfg e g buf w =
       run_frames (gs_frame cfg e g) payloads (if partial rest then mret ANone else panic) w).
Proof.
  split; [apply cut_exists|]. intros payloads rest Hc.
  split; intros; [by apply OnTraffic_frames|by apply gs_OnTraffic_frames].
Qed.

(** a header that is too small is the only thing on the wire that can crash the
    server: if handling what a connection sent panics, then the bytes contain a
    frame header that announces less than the two bytes of the header itself, or,
    from a game server, exactly these two. Such a header does crash it. *)
Theorem only_short_headers_panic buf payloads rest :
  cut payloads rest buf ->
  (forall c (w : World DB), serving c w ->
     (is_panic (OnTraffic reg e c buf w).1 = true -> short rest = true) /\
     (payloads = [] -> partial rest = false -> is_panic (OnTraffic reg e c buf w).1 = true)) /\
  (forall g (w : World DB), is_Some (gs_heap w !! g) ->
     (is_panic (gs_OnTraffic cfg e g buf w).1 = true -> short rest = true \/ [] ∈ payloads) /\
     (payloads = [] -> partial rest = false -> is_panic (gs_OnTraffic cfg e g buf w).1 = true) /\
     (head payloads = Some [] -> is_panic (gs_OnTraffic cfg e g buf w).1 = true)).
Proof.
  intros Hc. pose proof Hc as (_ & Hf & Hps).
  assert (forall A (m : M (World DB) A) w, is_panic ((if partial rest then m else panic) w).1 = true ->
    is_panic (m w).1 = false -> short rest = true) as Hlast.
  { intros A m w. destruct (partial rest); [congruence|]. by rewrite orb_false_l in Hps. }
  split.
  - intros c w Hs. rewrite (OnTraffic_frames c payloads rest buf w Hc (proj2 Hs)). split.
    + intros Hp. destruct (partial rest) eqn:Ep; [|by rewrite orb_false_l in Hps]. exfalso.
      pose proof (keeps_run_frames c (client_frame reg e c) payloads (mret ANone)) as Hk.
      rewrite (ends_no_panic _ _ _ _ (Hk ltac:(intros p Hin; apply keeps_client_frame;
        by eapply (proj1 (Forall_forall _ _)) in Hf) ltac:(by apply keeps_ret) w Hs)) in Hp. done.
    + intros -> ->. done.
  - intros g w Hg. rewrite (gs_OnTraffic_frames g payloads rest buf w Hc Hg). split_and!.
    + intros Hp. apply gs_frames_panic in Hp as [?|[w' Hp]]; [by right| |done|done]. left.
      by apply (Hlast _ (mret ANone) w').
    + by intros -> ->.
    + destruct payloads as [|p ps]; [done|]. by intros [= ->].
Qed.
End Safety.

Lemma sample_env_ok : env_ok sample_env.
Proof. split_and!; [cbn; unfold is_u32; lia|cbn; lia|by intros l]. Qed.

Lemma traffic_in_order_witness :
  @OnTraffic table (@client_registry table table_store sample_config (kick_manager sample_env))
    sample_env 1%positive [Byte.x05; Byte.x00; Byte.x07] sample_server = (Val ANone, sample_server).
Proof.
  assert (cut [] [Byte.x05; Byte.x00; Byte.x07] [Byte.x05; Byte.x00; Byte.x07]) as Hc by (by split_and!).
  assert (is_Some (heap sample_server !! 1%positive)) as Hs by apply sample_server_serving.
  rewrite (proj1 (proj2 (@traffic_in_order table table_store sample_config sample_env _) _ _ Hc)
    1%positive sample_server Hs).
  reflexivity.
Defined.

Lemma only_short_headers_panic_witness :
  is_panic (@OnTraffic table (@client_registry table table_store sample_config (kick_manager sample_env))
    sample_env 1%positive [Byte.x01; Byte.x00] sample_server).1 = true.
Proof.
  assert (cut [] [Byte.x01; Byte.x00] [Byte.x01; Byte.x00]) as Hc by (by split_and!).
  apply (@only_short_headers_panic table table_store sample_config sample_env sample_env_ok
    _ _ _ Hc); [apply sample_server_serving|reflexivity|reflexivity].
Defined.
