(* ===== verification/Timeouts.v ===== *)
(** What a timeout leaves behind.  The tick of a listener (internal/listener) closes the
    connections that have been silent for too long and takes them off the listener's
    table itself; when gnet then reports the close, the clean-up of [OnClose] finds no
    entry and is skipped. *)
From stdpp Require Import base gmap list numbers strings.
From coqutil Require Import Byte.
From Stdlib Require Import Lia ZArith.
From S2P Require Import Prelude.
From S2P Require Import Effects.
From S2P Require Import GoStd.
From S2P Require Import Sharding.
From S2P Require Import SessionRegistry.
From S2P Require Import ServerList.
From S2P Require Import Authenticator.
From S2P Require Import Metrics.
From S2P Require Import Connections.
From S2P Require Import ClientHandlers.
From S2P Require Import Listeners.
Local Open Scope Z_scope.

Section Timeouts.
Context {DB : Type} (cfg : Config) (e : Env).
Implicit Type w : World DB.

(** The connection is in the table and has been silent for longer than allowed. *)
Definition timed_out (c : Conn) (cl : Client) w : Prop :=
  c ∈ clients w /\ heap w !! c = Some cl /\ i64 (UnixNano (e_now e) - LastActivityNanos cl) > client_timeout cfg.
Definition gs_timed_out (g : Conn) (gsc : GameServerClient) w : Prop :=
  g ∈ gs_clients w /\ gs_heap w !! g = Some gsc /\ i64 (UnixNano (e_now e) - gsc_lastActivity gsc) > gs_timeout cfg.

(** What both ticks leave alone. *)
Definition spared w w' : Prop :=
  sessions w' = sessions w /\ serverList w' = serverList w /\ heap w' = heap w /\ gs_heap w' = gs_heap w /\
  (forall c, c ∈ clients w' -> c ∈ clients w) /\ (forall g, g ∈ gs_clients w' -> g ∈ gs_clients w).
#[local] Instance spared_preorder : PreOrder spared.
Proof.
  split; [by intros w|]. intros w1 w2 w3 (A1&A2&A3&A4&A5&A6) (B1&B2&B3&B4&B5&B6). split_and!; [congruence..| |]; auto.
Qed.

Local Ltac spared_steps :=
  repeat first
    [ apply frame_bind; [apply _| |intros ?]
    | apply frame_ret; apply _ | apply frame_get; apply _
    | apply frame_modify; intros ?; split_and!; try done; cbn; let Hl := fresh in intros ? Hl; by apply list_elem_of_filter in Hl as [_ Hl]
    | match goal with |- frame _ (if ?x then _ else _) => destruct x end ].


Lemma entries_timed_out c cl w : (forall l, e_order e l ≡ₚ l) -> timed_out c cl w -> (c, cl) ∈ client_entries e w.
Proof.
  intros Ho (Hc & Hcl & _). unfold client_entries. apply list_elem_of_omap. exists c. by rewrite Ho, Hcl.
Qed.
Lemma gs_entries_timed_out g gsc w :
  (forall l, e_order e l ≡ₚ l) -> gs_timed_out g gsc w -> (g, gsc) ∈ gs_entries e w.
Proof.
  intros Ho (Hg & Hgsc & _). unfold gs_entries. apply list_elem_of_omap. exists g. by rewrite Ho, Hgsc.
Qed.

(** A loop that removes what a condition holds of removes it, whatever else it does. *)
Lemma loop_removes {A} (body : nat -> Conn * A -> M (World DB) unit) (table : World DB -> list Conn) i l x w :
  (forall i x, frame spared (body i x)) -> (forall w w', spared w w' -> forall c, c ∈ table w' -> c ∈ table w) ->
  (forall i w, exists w', body i x w = (Val tt, w') /\ x.1 ∉ table w') -> 
  (forall i y w, exists w', body i y w = (Val tt, w')) -> x ∈ l ->
  spared w (for_each body i l w).2 /\ x.1 ∉ table (for_each body i l w).2.
Proof.
  intros Hb Ht Hx Hall Hin. split; [by apply frame_for_each; [apply _|]|]. revert i w Hin.
  induction l as [|y l IH]; intros i w; [by intros ?%elem_of_nil|]. cbn [for_each]. intros Hin.
  destruct (Hall i y w) as [w1 E]. rewrite (M_bind_val _ _ w tt w1 E).
  apply elem_of_cons in Hin as [<-|Hin]; [|by apply IH].
  destruct (Hx i w) as (w2 & E2 & Hn). rewrite E in E2. injection E2 as <-. intros Hc. apply Hn.
  eapply Ht; [|exact Hc]. by apply frame_for_each; [apply _|].
Qed.

Lemma OnTick_removes c cl w :
  (forall l, e_order e l ≡ₚ l) -> timed_out c cl w ->
  spared w (OnTick cfg e w).2 /\ c ∉ clients (OnTick cfg e w).2.
Proof.
  intros Ho Ht. pose proof (entries_timed_out c cl w Ho Ht) as Hin. destruct Ht as (_ & _ & Hlate).
  unfold OnTick. rewrite (M_bind_val get _ w w w eq_refl). cbv zeta.
  apply (loop_removes _ clients 0 _ (c, cl) w); [| | | |exact Hin].
  - intros i [c' cl']. unfold emit, tally. spared_steps.
  - by intros w1 w2 (_ & _ & _ & _ & Hc & _).
  - intros i w1. destruct (Z.gtb_spec (i64 (UnixNano (e_now e) - LastActivityNanos cl)) (client_timeout cfg)); [|lia].
    eexists. split; [reflexivity|]. cbn. by intros [? _]%list_elem_of_filter.
  - intros i [c' cl'] w1. destruct (_ >? _); by eexists.
Qed.

Lemma gs_OnTick_removes g gsc w :
  (forall l, e_order e l ≡ₚ l) -> gs_timed_out g gsc w ->
  spared w (gs_OnTick cfg e w).2 /\ g ∉ gs_clients (gs_OnTick cfg e w).2.
Proof.
  intros Ho Ht. pose proof (gs_entries_timed_out g gsc w Ho Ht) as Hin. destruct Ht as (_ & _ & Hlate).
  unfold gs_OnTick. rewrite (M_bind_val get _ w w w eq_refl). cbv zeta.
  apply (loop_removes _ gs_clients 0 _ (g, gsc) w); [| | | |exact Hin].
  - intros i [g' gsc']. unfold emit. spared_steps.
  - by intros w1 w2 (_ & _ & _ & _ & _ & Hg).
  - intros i w1. destruct (Z.gtb_spec (i64 (UnixNano (e_now e) - gsc_lastActivity gsc)) (gs_timeout cfg)); [|lia].
    eexists. split; [reflexivity|]. cbn. by intros [? _]%list_elem_of_filter.
  - intros i [g' gsc'] w1. destruct (_ >? _); by eexists.
Qed.

(** Closing a connection the table does not have does nothing. *)
Lemma OnClose_absent c w : c ∉ clients w -> OnClose c w = (Val tt, w).
Proof. intros Hc. unfold OnClose. rewrite (M_bind_val get _ w w w eq_refl). by rewrite bool_decide_false. Qed.
Lemma gs_OnClose_absent g w : g ∉ gs_clients w -> gs_OnClose g w = (Val tt, w).
Proof. intros Hg. unfold gs_OnClose. rewrite (M_bind_val get _ w w w eq_refl). by rewrite bool_decide_false. Qed.

(** A client that times out stays logged in: when a logged-in client closes its
    connection, its account is free again and the next login under it is admitted; when
    the connection is closed for its silence, the account stays registered for it, and
    the next login, of whoever it is, is turned away. *)
Theorem timeout_keeps_session c cl sess now w :
  (forall l, e_order e l ≡ₚ l) -> shards_ok (sessions w) -> timed_out c cl w ->
  AccountName cl <> [] -> Get (AccountName cl) (sessions w) = Some sess ->
  SessionID sess = cl_SessionID cl -> SessionRegistry.ServerID sess = 0 ->
  IsZero (LastRejectionTime sess) = true ->
  (let w1 := (OnClose c w).2 in
   Get (AccountName cl) (sessions w1) = None /\ (TryRegister now (AccountName cl) (sessions w1)).1 = (false, true)) /\
  (let w1 := (OnClose c (OnTick cfg e w).2).2 in
   (c ∉ clients w1) /\ sessions w1 = sessions w /\
   (TryRegister now (AccountName cl) (sessions w1)).1 = (false, false)).
Proof.
  intros Ho Hsh Ht Ha Hg Hid Hsrv Hz. split.
  - destruct Ht as (Hc & Hcl & _). cbv zeta.
    assert (sessions (OnClose c w).2 = sh_delete (AccountName cl) (sessions w)) as Hs.
    { unfold OnClose. rewrite (M_bind_val get _ w w w eq_refl), bool_decide_true by done. cbn [negb].
      rewrite (M_bind_val (modify _) _ w tt (upd_clients (remove_key c) w) eq_refl). set (w1 := upd_clients _ w).
      rewrite (M_bind_val (client c) _ w1 cl w1) by (unfold client; cbn [heap w1 upd_clients]; by rewrite Hcl).
      cbv zeta. rewrite bool_decide_false by done. change (sessions w1) with (sessions w). rewrite Hg, Hid, Z.eqb_refl, Hsrv.
      cbn [Z.eqb]. unfold mbind, M_bind, modify, tally. unfold modify. cbn [snd sessions upd_meters upd_serverList upd_sessions].
      change (sessions w1) with (sessions w). unfold SessionRegistry.Unregister. unfold Get in Hg.
      by rewrite Hg, Hid, Z.eqb_refl. }
    assert (Get (AccountName cl) (sessions (OnClose c w).2) = None) as Hn.
    { rewrite Hs. unfold Get. rewrite sh_get_delete by done. by rewrite decide_True. }
    split; [exact Hn|]. unfold TryRegister. unfold Get in Hn. by rewrite Hn.
  - destruct (OnTick_removes c cl w Ho Ht) as [(Hs & _) Hn]. cbv zeta. rewrite OnClose_absent by done. cbn [snd].
    split_and!; [done|done|]. unfold TryRegister. rewrite Hs. unfold Get in Hg. rewrite Hg, Hz. cbn [negb andb].
    by destruct (_ && _).
Qed.

(** A game server that times out stays in the list: its entry, and the accounts that
    are on it, are left as they are, so clients are still sent to it and its players
    cannot be logged in anew; a server that closes its connection is removed with them. *)
Theorem timeout_keeps_server g gsc w :
  (forall l, e_order e l ≡ₚ l) -> gs_timed_out g gsc w -> gsc_ServerID gsc <> 0 ->
  (let w1 := (gs_OnClose g w).2 in
   serverList w1 = ServerList.Unregister (gsc_ServerID gsc) (serverList w) /\
   sessions w1 = ClearServer (gsc_ServerID gsc) (sessions w)) /\
  (let w1 := (gs_OnClose g (gs_OnTick cfg e w).2).2 in
   (g ∉ gs_clients w1) /\ serverList w1 = serverList w /\ sessions w1 = sessions w).
Proof.
  intros Ho Ht Hid. split.
  - destruct Ht as (Hg & Hgsc & _). cbv zeta. unfold gs_OnClose.
    rewrite (M_bind_val get _ w w w eq_refl), bool_decide_true by done. cbn [negb].
    rewrite (M_bind_val (modify _) _ w tt (upd_gs_clients (remove_key g) w) eq_refl). set (w1 := upd_gs_clients _ w).
    rewrite (M_bind_val (gs_client g) _ w1 gsc w1) by (unfold gs_client; cbn [gs_heap w1 upd_gs_clients]; by rewrite Hgsc).
    destruct (Z.eqb_spec (gsc_ServerID gsc) 0); [done|]. done.
  - destruct (gs_OnTick_removes g gsc w Ho Ht) as [(Hs & Hl & _) Hn]. cbv zeta. rewrite gs_OnClose_absent by done. done.
Qed.
End Timeouts.
