(* ===== verification/System.v ===== *)
(** The server as a whole: what may happen to it is an [input], handled by the
    callback or the statement that the input triggers, in a state that all parts
    share; a run is a sequence of inputs. *)
From stdpp Require Import base gmap list numbers strings.
From coqutil Require Import Byte Word.LittleEndianList.
From Stdlib Require Import Lia ZArith.
From S2P Require Import Prelude.
From S2P Require Import Effects.
From S2P Require Import Unicode.
From S2P Require Import PacketReader.
From S2P Require Import PacketWriter.
From S2P Require Import PacketCodec.
From S2P Require Import Crypt.
From S2P Require Import Keys.
From S2P Require Import Rsa.
From S2P Require Import GoStd.
From S2P Require Import Sharding.
From S2P Require Import SessionStore.
From S2P Require Import SessionRegistry.
From S2P Require Import RateLimiter.
From S2P Require Import ServerList.
From S2P Require Import BanManager.
From S2P Require Import GsHandlers.
From S2P Require Import Authenticator.
From S2P Require Import Metrics.
From S2P Require Import Credentials.
From S2P Require Import Connections.
From S2P Require Import ClientHandlers.
From S2P Require Import Listeners.
Import SessionKeys.
Local Open Scope Z_scope.

(** A callback of gnet on either port, a statement of the [n]-th login goroutine,
    the part of a collector's tick under one lock. *)
Inductive input :=
| IOpen (c : Conn) (ip : gostring) (entropy : error + list byte)
| ITraffic (c : Conn) (buf : list byte)
| IClose (c : Conn)
| ITick
| ILogin (n : nat)
| IGsOpen (g : Conn) (ip : gostring)
| IGsTraffic (g : Conn) (buf : list byte)
| IGsClose (g : Conn)
| IGsTick
| IHandoffGc (i : nat)
| ILimiterGc (i : nat).

Section System.
Context {DB : Type} `{Bcrypt} `{AccountStore DB} (cfg : Config).
Let W := World DB.

Definition registry_of (e : Env) : Registry (DB := DB) := client_registry cfg (kick_manager e).

Definition login_task (e : Env) (n : nat) : M W unit :=
  w ← get;
  match tasks w !! n with
  | Some (c, pc) =>
    pc ← login_step cfg (kick_manager e) e c pc;
    modify (upd_tasks (<[n := (c, pc)]>))
  | None => mret tt
  end.

Definition exec (e : Env) (i : input) : M W unit :=
  match i with
  | IOpen c ip entropy => _ ← OnOpen cfg e c ip entropy; mret tt
  | ITraffic c buf => _ ← OnTraffic (registry_of e) e c buf; mret tt
  | IClose c => OnClose c
  | ITick => OnTick cfg e
  | ILogin n => login_task e n
  | IGsOpen g ip => _ ← gs_OnOpen e g ip; mret tt
  | IGsTraffic g buf => _ ← gs_OnTraffic cfg e g buf; mret tt
  | IGsClose g => gs_OnClose g
  | IGsTick => gs_OnTick cfg e
  | IHandoffGc i => modify (upd_handoffs (gc_shard (e_now e) i))
  | ILimiterGc i => modify (upd_limiter (λ r, cleanup_shard (cutoff (UnixNano (e_now e)) r) i r))
  end.

(** A connection that is opened is a new one. *)
Definition enabled (i : input) (w : W) : bool :=
  match i with
  | IOpen c _ _ => bool_decide (heap w !! c = None)
  | IGsOpen g _ => bool_decide (gs_heap w !! g = None)
  | _ => true
  end.

(** What happens to a server; [None] when it has crashed. *)
Fixpoint run (ins : list (Env * input)) (w : W) : option W :=
  match ins with
  | [] => Some w
  | (e, i) :: ins =>
    if enabled i w then
      let '(o, w') := exec e i w in
      if is_panic o then None else run ins w'
    else None
  end.

Lemma server_run_app ins1 ins2 w : run (ins1 ++ ins2) w = run ins1 w ≫= run ins2.
Proof.
  revert w. induction ins1 as [|[e i] ins1 IH]; intros w; [done|]. cbn [run app].
  destruct (enabled i w); [|done]. destruct (exec e i w) as [o w']. by destruct (is_panic o).
Qed.

(** ** Whose login succeeded *)

(** The next statement of a login finds the credentials received on [c] to be
    those of [u]. *)
Definition authenticates (e : Env) (c : Conn) (pc : login_pc) (w : W) (u : gostring) (row : FindAccountRow) : Prop :=
  exists b1 b2 cl p,
    pc = LStart b1 b2 /\ heap w !! c = Some cl /\
    decodeCredentials (to_lower cfg) (cl_ScrambledKey cl) b1 b2 = Val (u, p) /\
    (Authenticate (ParseAddr cfg) (auth cfg) (e_salt e) u p (cl_RemoteIP cl) (db w)).1 = inr row.
Definition granted (e : Env) (i : input) (w : W) (c : Conn) (u : gostring) (row : FindAccountRow) : Prop :=
  exists n pc, i = ILogin n /\ tasks w !! n = Some (c, pc) /\ authenticates e c pc w u row.

(** In the course of a run from [w0], a login of [u] succeeded on [c]. *)
Definition has_logged_in (w0 : W) (ins : list (Env * input)) (c : Conn) (u : gostring)
    (row : FindAccountRow) : Prop :=
  exists before e i after w, ins = before ++ (e, i) :: after /\ run before w0 = Some w /\ granted e i w c u row.
End System.

(** * Identities *)

(** Which logins succeeded. *)
Abbreviation log := (Conn -> gostring -> FindAccountRow -> Prop).
Definition named (L : log) (c : Conn) (u : gostring) : Prop := exists row, L c u row.
Definition identified (L : log) (c : Conn) (id : Z) : Prop := exists u row, L c u row /\ Authenticator.ID row = id.

(** The fields of a client that say who he is. *)
Definition ids (cl : Client) : gostring * Z * SessionKey * State :=
  (cl_Account cl, cl_AccountID cl, cl_SessionKey cl, cl_State cl).
Definition authed (s : State) : bool := match s with StateAuthedLogin | StateServerList => true | _ => false end.

Section Identities.
Context {DB : Type} (L : log).
Implicit Type w : World DB.

(** [c] is a client with session key [k] who is called [u] and has account [id],
    both by a login of his. *)
Definition known (c : Conn) (k : SessionKey) (u : gostring) (id : Z) w : Prop :=
  (exists cl, heap w !! c = Some cl /\ cl_SessionKey cl = k) /\ named L c u /\ identified L c id.

Definition task_ok w (t : Conn * login_pc) : Prop :=
  exists cl, heap w !! t.1 = Some cl /\
  match t.2 with
  | LAdmit u row | LKick u row | LKickAt _ u row | LReset u row | LRegister u row
  | LAccountID u row => L t.1 u row
  | LAccount u row => L t.1 u row /\ identified L t.1 (cl_AccountID cl)
  | LState _ => named L t.1 (cl_Account cl) /\ identified L t.1 (cl_AccountID cl)
  | _ => True
  end.

(** Whoever is logged in, or has a hand-off, is who he is by logins that
    succeeded on his connection. *)
Record identities w : Prop := {
  id_shards : shards_ok (handoffs w);
  id_handoffs id s : sh_get id (handoffs w) = Some s ->
    LoginOkID1 (Key s) = id /\ exists c, known c (Key s) (Account s) (AccountID s) w;
  id_clients c cl : heap w !! c = Some cl -> authed (cl_State cl) = true ->
    named L c (cl_Account cl) /\ identified L c (cl_AccountID cl);
  id_tasks : Forall (task_ok w) (tasks w) }.

(** What most code leaves alone. *)
Definition same_ids w w' : Prop :=
  handoffs w' = handoffs w /\ tasks w' = tasks w /\ forall c, ids <$> heap w' !! c = ids <$> heap w !! c.
End Identities.

(** ** Code that leaves identities alone *)

#[export] Instance same_ids_preorder {DB} : PreOrder (@same_ids DB).
Proof.
  split; [done|]. intros w1 w2 w3 (A1 & A2 & A3) (B1 & B2 & B3). split_and!; [congruence..|].
  intros c. by rewrite B3.
Qed.

Create HintDb ids.

Section Frames.
Context {DB : Type}.
Implicit Type w : World DB.

Lemma same_ids_heap w w' : handoffs w' = handoffs w -> tasks w' = tasks w -> heap w' = heap w -> same_ids w w'.
Proof. intros ? ? Hh. split_and!; [done..|]. intros c. by rewrite Hh. Qed.

Lemma frame_elsewhere (f : World DB -> World DB) :
  (forall w, handoffs (f w) = handoffs w /\ tasks (f w) = tasks w /\ heap (f w) = heap w) ->
  frame same_ids (modify f).
Proof. intros Hf. apply frame_modify. intros w. by apply same_ids_heap; apply Hf. Qed.

Lemma frame_upd_client c (f : Client -> Client) :
  (forall cl, ids (f cl) = ids cl) -> frame (@same_ids DB) (upd_client c f).
Proof.
  intros Hf. apply frame_modify. intros w. split_and!; [done..|]. intros c'. cbn. rewrite lookup_alter.
  case_decide; subst; [|done]. destruct (heap w !! c'); [|done]. cbn. by rewrite Hf.
Qed.

Lemma frame_client c : frame (@same_ids DB) (client c).
Proof. intros w. unfold client. by destruct (heap w !! c). Qed.
Lemma frame_gs_client g : frame (@same_ids DB) (gs_client g).
Proof. intros w. unfold gs_client. by destruct (gs_heap w !! g). Qed.
End Frames.

(** Takes code apart, statement by statement. *)
Ltac frame_steps :=
  repeat first
    [ solve [auto with ids]
    | apply frame_bind; [apply _| |intros ?]
    | apply frame_ret; apply _ | apply frame_fail; apply _ | apply frame_panic; apply _
    | apply frame_get; apply _ | apply frame_ret_err; apply _
    | apply frame_client | apply frame_gs_client
    | apply frame_elsewhere; by intros ?
    | apply frame_upd_client; by intros ?
    | apply frame_for_each; [apply _|]; intros ? [? ?]
    | progress cbv zeta
    | match goal with |- frame _ (match ?x with _ => _ end) => destruct x end ].

Section ServerFrames.
Context {DB : Type} (cfg : Config) (e : Env).
Abbreviation quiet_ids := (frame (@same_ids DB)).

Lemma frame_emit ev : quiet_ids (emit ev).
Proof. by apply frame_elsewhere. Qed.
Lemma frame_Touch c : quiet_ids (Touch e c).
Proof. by apply frame_upd_client. Qed.
Lemma frame_gs_Touch g : quiet_ids (gs_Touch e g).
Proof. by apply frame_elsewhere. Qed.
#[local] Hint Resolve frame_emit frame_Touch frame_gs_Touch : ids.
Lemma frame_close c : quiet_ids (close_conn e c).
Proof. unfold close_conn. frame_steps. Qed.
Lemma frame_send c op fields close : quiet_ids (send_packet e c op fields close).
Proof. unfold send_packet. frame_steps. Qed.
Lemma frame_gs_Send i g op fields : quiet_ids (gs_Send e i g op fields).
Proof. unfold gs_Send. frame_steps. Qed.
#[local] Hint Resolve frame_close frame_send frame_gs_Send : ids.

Lemma frame_ls_KickAccount u : quiet_ids (ls_KickAccount e u).
Proof.
  unfold ls_KickAccount. frame_steps. induction (client_entries _ _) as [|[c cl] l IH]; cbn [kick_loop]; frame_steps.
Qed.
Lemma frame_gs_KickAccount u id : quiet_ids (gs_KickAccount e u id).
Proof.
  unfold gs_KickAccount. frame_steps. induction (gs_entries _ _) as [|[g gsc] l IH]; cbn [gs_kick_loop]; frame_steps.
Qed.
Lemma frame_gs_RequestCharacters u id : quiet_ids (gs_RequestCharacters e u id).
Proof. unfold gs_RequestCharacters. frame_steps. Qed.

Lemma frame_OnClose c : quiet_ids (OnClose c).
Proof. unfold OnClose. frame_steps. Qed.
Lemma frame_OnTick : quiet_ids (OnTick cfg e).
Proof. unfold OnTick. frame_steps. Qed.
Lemma frame_gs_OnOpen g ip : quiet_ids (gs_OnOpen e g ip).
Proof. unfold gs_OnOpen. frame_steps. Qed.
Lemma frame_gs_OnClose g : quiet_ids (gs_OnClose g).
Proof. unfold gs_OnClose. frame_steps. Qed.
Lemma frame_gs_OnTick : quiet_ids (gs_OnTick cfg e).
Proof. unfold gs_OnTick. frame_steps. Qed.
End ServerFrames.
#[export] Hint Resolve frame_emit frame_Touch frame_gs_Touch frame_close frame_send frame_gs_Send
  frame_ls_KickAccount frame_gs_KickAccount frame_gs_RequestCharacters frame_OnClose frame_OnTick
  frame_gs_OnOpen frame_gs_OnClose frame_gs_OnTick : ids.

(** ** The invariant *)

Section Invariant.
Context {DB : Type} (L : log).
Implicit Type w : World DB.

Lemma known_mono (L' : log) c k u id w :
  (forall c u row, L c u row -> L' c u row) -> known L c k u id w -> known L' c k u id w.
Proof.
  intros HL (Hh & [row Hn] & (u' & row' & Hi & Hid)). split_and!; [done|exists row; auto|]. exists u', row'. auto.
Qed.

(** Looking a client up on either side. *)
Lemma same_ids_client w w' c cl :
  same_ids w w' -> heap w !! c = Some cl -> exists cl', heap w' !! c = Some cl' /\ ids cl' = ids cl.
Proof.
  intros (_ & _ & Hs) Hcl. specialize (Hs c). rewrite Hcl in Hs. apply fmap_Some in Hs as (cl' & ? & ?). eauto.
Qed.

Lemma same_ids_sym w w' : same_ids w w' -> same_ids w' w.
Proof. by intros (? & ? & ?). Qed.

Lemma known_same c k u id w w' : same_ids w w' -> known L c k u id w -> known L c k u id w'.
Proof.
  intros Hs ((cl & Hcl & Hk) & Hn & Hi). split_and!; [|done..].
  destruct (same_ids_client _ _ _ _ Hs Hcl) as (cl' & Hcl' & [= _ _ E _]). exists cl'. split; [done|congruence].
Qed.

Lemma task_ok_same t w w' : same_ids w w' -> task_ok L w t -> task_ok L w' t.
Proof.
  intros Hs (cl & Hcl & Ht). destruct (same_ids_client _ _ _ _ Hs Hcl) as (cl' & Hcl' & [= E1 E2 _ _]).
  exists cl'. split; [done|]. by rewrite E1, E2.
Qed.

Lemma identities_same w w' : same_ids w w' -> identities L w -> identities L w'.
Proof.
  intros Hs [H1 H2 H3 H4]. pose proof Hs as (Eh & Et & _). split.
  - by rewrite Eh.
  - intros id s Hg. rewrite Eh in Hg. destruct (H2 id s Hg) as (Hid & c & Hk). split; [done|]. exists c.
    by eapply known_same.
  - intros c cl' Hcl' Ha. destruct (same_ids_client _ _ _ _ (same_ids_sym _ _ Hs) Hcl') as (cl & Hcl & [= E1 E2 _ E4]).
    rewrite <- E1, <- E2. eapply H3; [done|]. by rewrite E4.
  - rewrite Et. eapply Forall_impl; [exact H4|]. intros t. by apply task_ok_same.
Qed.

(** An assignment to a client's fields. *)
Lemma identities_upd_client w c f :
  (forall cl, cl_SessionKey (f cl) = cl_SessionKey cl) ->
  (forall cl, heap w !! c = Some cl -> authed (cl_State (f cl)) = true ->
     named L c (cl_Account (f cl)) /\ identified L c (cl_AccountID (f cl))) ->
  (forall cl, heap w !! c = Some cl -> named L c (cl_Account cl) -> named L c (cl_Account (f cl))) ->
  (forall cl, heap w !! c = Some cl -> identified L c (cl_AccountID cl) -> identified L c (cl_AccountID (f cl))) ->
  identities L w -> identities L (upd_heap (alter f c) w).
Proof.
  intros Hk Ha Hn Hi [H1 H2 H3 H4].
  assert (forall c0 cl0, heap w !! c0 = Some cl0 -> exists cl', heap (upd_heap (alter f c) w) !! c0 = Some cl' /\
    (cl' = cl0 \/ c = c0 /\ cl' = f cl0)) as Hl.
  { intros c0 cl0 Hcl0. cbn. destruct (decide (c = c0)) as [->|].
    - rewrite lookup_alter_eq, Hcl0. eexists. split; [done|by right].
    - rewrite lookup_alter_ne by done. eexists. split; [done|by left]. }
  split; [done| | |].
  - intros id s Hg. destruct (H2 id s Hg) as (Hid & c0 & (cl & Hcl & Hcl2) & Hr). split; [done|]. exists c0.
    split; [|done]. destruct (Hl _ _ Hcl) as (cl' & Hcl' & E). exists cl'. split; [done|].
    destruct E as [->|[_ ->]]; [done|by rewrite Hk].
  - intros c0 cl' Hcl' Hau. cbn in Hcl'. rewrite lookup_alter in Hcl'. case_decide; subst; [|by eapply H3].
    apply fmap_Some in Hcl' as (cl & Hcl & ->). auto.
  - eapply Forall_impl; [exact H4|]. intros [c0 pc] (cl & Hcl & Hpc). cbn [fst snd] in *.
    destruct (Hl _ _ Hcl) as (cl' & Hcl' & E). exists cl'. split; [done|]. destruct E as [->|[<- ->]]; [done|].
    destruct pc; try done; destruct Hpc; split; cbn [fst snd]; eauto.
Qed.

Lemma identities_tasks f w :
  identities L w -> Forall (task_ok L w) (f (tasks w)) -> identities L (upd_tasks f w).
Proof. intros [H1 H2 H3 H4] Hf. by split. Qed.

(** A new connection. *)
Lemma identities_open w c cl :
  heap w !! c = None -> authed (cl_State cl) = false -> identities L w -> identities L (upd_heap <[c := cl]> w).
Proof.
  intros Hc Ha [H1 H2 H3 H4].
  assert (forall c0 cl0, heap w !! c0 = Some cl0 -> heap (upd_heap <[c := cl]> w) !! c0 = Some cl0) as Hl.
  { intros c0 cl0 Hcl0. cbn. rewrite lookup_insert_ne; [done|]. intros ->. congruence. }
  split; [done| | |].
  - intros id s Hg. destruct (H2 id s Hg) as (Hid & c0 & (cl0 & Hcl0 & Hk) & Hr). split; [done|]. exists c0.
    split; [|done]. exists cl0. auto.
  - intros c0 cl0 Hcl0. cbn in Hcl0. apply lookup_insert_Some in Hcl0 as [[_ <-]|[_ Hcl0]]; [congruence|by apply H3].
  - eapply Forall_impl; [exact H4|]. intros t (cl0 & Hcl0 & Ht). exists cl0. auto.
Qed.

(** Hand-offs that are made or go away. *)
Lemma identities_handoffs st w :
  identities L w -> shards_ok st ->
  (forall id s, sh_get id st = Some s -> sh_get id (handoffs w) = Some s \/
     LoginOkID1 (Key s) = id /\ exists c, known L c (Key s) (Account s) (AccountID s) w) ->
  identities L (upd_handoffs (λ _, st) w).
Proof.
  intros [H1 H2 H3 H4] Hok Hst. split; [done| |done|done].
  intros id s Hg. destruct (Hst id s Hg) as [Hg'|?]; [by apply H2|done].
Qed.

Lemma identities_mono (L' : log) w :
  (forall c u row, L c u row -> L' c u row) -> identities L w -> identities L' w.
Proof.
  intros HL [H1 H2 H3 H4].
  assert (forall c u, named L c u -> named L' c u) as Hn by (intros c u [row ?]; exists row; auto).
  assert (forall c id, identified L c id -> identified L' c id) as Hi
    by (intros c id (u & row & ? & ?); exists u, row; auto).
  split; [done| | |].
  - intros id s Hg. destruct (H2 id s Hg) as (? & c & ?). split; [done|]. exists c. by eapply known_mono.
  - intros c cl Hcl Ha. destruct (H3 c cl Hcl Ha). auto.
  - eapply Forall_impl; [exact H4|]. intros [c pc] (cl & Hcl & Hpc). exists cl. split; [done|].
    destruct pc; cbn in *; intuition auto.
Qed.
End Invariant.

(** ** Every input keeps it *)

(** A game server's packet can only use hand-offs up. *)
Definition fewer_handoffs (s s' : gs_state) : Prop :=
  shards_ok (gs_handoffs s) -> shards_ok (gs_handoffs s') /\
  forall id sess, sh_get id (gs_handoffs s') = Some sess -> sh_get id (gs_handoffs s) = Some sess.

#[export] Instance fewer_handoffs_preorder : PreOrder fewer_handoffs.
Proof.
  split; [by intros s Hs|]. intros s1 s2 s3 H1 H2 Hs. destruct (H1 Hs) as [Hs2 H12]. destruct (H2 Hs2) as [Hs3 H23].
  auto.
Qed.

Section GsFrames.
Context (grow : nat -> nat -> nat) (pooled : PacketWriter) (pBuf : list Z) (now : Time) (simple_fold : Z -> Z).

Lemma same_handoffs s s' : gs_handoffs s' = gs_handoffs s -> fewer_handoffs s s'.
Proof. unfold fewer_handoffs. intros ->. auto. Qed.

Lemma fewer_rd {A} (m : M PacketReader A) : frame fewer_handoffs (rd m).
Proof. intros s. unfold rd. destruct (m (gs_rd s)). by apply same_handoffs. Qed.
Lemma fewer_servers f : frame fewer_handoffs (on_servers f).
Proof. intros s. by apply same_handoffs. Qed.
Lemma fewer_sessions f : frame fewer_handoffs (on_sessions f).
Proof. intros s. by apply same_handoffs. Qed.
Lemma fewer_id id : frame fewer_handoffs (set_id id).
Proof. intros s. by apply same_handoffs. Qed.
Lemma fewer_Send op fields : frame fewer_handoffs (Send grow pooled op fields).
Proof. intros s. unfold Send. destruct (build_packet _ _ _); by apply same_handoffs. Qed.

Lemma fewer_validate id : frame fewer_handoffs (validate_handoff now id).
Proof.
  intros s Hs. unfold validate_handoff. destruct (ValidateAndDelete now id (gs_handoffs s)) as [found st] eqn:E.
  cbn [snd gs_handoffs]. pose proof (step_ok (gs_handoffs s) (OValidate now id) Hs) as Hst. cbn in Hst.
  pose proof (ValidateAndDelete_get now id (gs_handoffs s)) as Hg. rewrite E in Hst, Hg. split; [done|].
  intros id' sess. cbn [snd] in Hg. rewrite (Hg id' Hs). by case_decide.
Qed.

Ltac fewer_steps :=
  repeat first
    [ apply frame_bind; [apply _| |intros ?]
    | apply frame_ret; apply _ | apply frame_fail; apply _
    | apply fewer_rd | apply fewer_servers | apply fewer_sessions | apply fewer_id | apply fewer_Send
    | apply fewer_validate | assumption
    | progress cbv zeta
    | match goal with |- frame _ (if ?x then _ else _) => destruct x end ].

Lemma fewer_Handle opcode : frame fewer_handoffs (GsHandlers.Handle grow pooled pBuf now simple_fold opcode).
Proof.
  rewrite gs_Handle_registered. unfold HandleInit, HandlePlayerInGame, HandlePlayerLogout, HandleReplyCharacters,
    HandleStatus, HandleValidate.
  assert (forall n, frame fewer_handoffs (skip_strings n)) as Hskip
    by (induction n as [|n IH]; cbn [skip_strings]; fewer_steps).
  assert (forall n, frame fewer_handoffs (in_game_loop pBuf n)) as Hgame
    by (induction n as [|n IH]; cbn [in_game_loop]; fewer_steps).
  assert (forall n, frame fewer_handoffs (status_loop n)) as Hstatus
    by (induction n as [|n IH]; cbn [status_loop]; fewer_steps).
  fewer_steps; auto.
Qed.
End GsFrames.

Section Preservation.
Context {DB : Type} `{Bcrypt} `{AccountStore DB} (cfg : Config) (L : log) (e : Env).
Abbreviation keeps_ids := (stays (@identities DB L) (λ _, True)).

Lemma ids_frame {A} (m : M (World DB) A) : frame same_ids m -> keeps_ids m.
Proof. intros Hm. eapply stays_frame; [exact Hm|]. intros. by eapply identities_same. Qed.

Lemma ids_bind {A B} (m : M (World DB) A) (k : A -> M (World DB) B) :
  keeps_ids m -> (forall a, keeps_ids (k a)) -> keeps_ids (m ≫= k).
Proof. intros Hm Hk. eapply stays_bind; [exact Hm|]. auto. Qed.

Lemma ids_gs_handle g opcode r : keeps_ids (gs_handle cfg e g opcode r).
Proof.
  intros w Hw. split; [|done]. unfold gs_handle. destruct (gs_heap w !! g) as [gsc|]; [|done].
  pose proof (fewer_Handle (e_grow e) (e_pool e 0%nat) (e_buf e) (e_now e) (simple_fold cfg) opcode
    (gs_view gsc r w)) as Hf.
  destruct (GsHandlers.Handle _ _ _ _ _ _ _) as [o s]. cbn [snd] in *.
  destruct (Hf (id_shards L w Hw)) as [Hok Hget]. unfold gs_view in Hget. cbn [gs_handoffs] in Hget.
  apply (identities_same L (upd_handoffs (λ _, gs_handoffs s) w)); [by apply same_ids_heap|].
  apply identities_handoffs; [done..|]. intros id sess Hs. left. by apply Hget.
Qed.

(** The loop on the frames keeps what the handling of a frame keeps. *)
Lemma stays_frame_loop (I : World DB -> Prop) frame fuel buf :
  (forall n p, stays I (λ _, True) (frame n p)) -> stays I (λ _, True) (frame_loop frame fuel buf).
Proof.
  intros Hf. revert buf. induction fuel as [|fuel IH]; intros buf; cbn [frame_loop]; [by apply stays_ret|].
  destruct buf as [|b0 [|b1 buf]]; [by apply stays_ret..|]. cbv zeta.
  destruct (_ || _); [by apply stays_ret|]. destruct (_ <? _); [by apply stays_ret|].
  destruct (_ <? _); [apply stays_panic|]. eapply stays_bind; [apply Hf|]. intros [] _; [apply IH|by apply stays_ret].
Qed.

Lemma ids_gs_OnTraffic g buf : keeps_ids (gs_OnTraffic cfg e g buf).
Proof.
  unfold gs_OnTraffic. apply ids_bind; [apply ids_frame; frame_steps|]. intros _. apply stays_frame_loop.
  intros n payload. unfold gs_frame. destruct payload as [|opcode body]; [apply stays_panic|].
  destruct (GetPacketReader body) as [reader|err|]; [|by apply stays_ret..].
  apply ids_bind; [eapply stays_try, ids_gs_handle|]. intros [err|[]]; [by apply stays_ret|].
  apply ids_frame. frame_steps.
Qed.

(** *** Clients *)

Definition present (c : Conn) (w : World DB) : Prop := identities L w /\ is_Some (heap w !! c).
(** While a handler works with what it has read from the client. *)
Definition settled (c : Conn) (w : World DB) : Prop :=
  exists cl, heap w !! c = Some cl /\ named L c (cl_Account cl) /\ identified L c (cl_AccountID cl).
Definition proven (c : Conn) (k : SessionKey) (u : gostring) (id : Z) (w : World DB) : Prop :=
  identities L w /\ known L c k u id w /\ settled c w.

Lemma present_same c w w' : same_ids w w' -> present c w -> present c w'.
Proof.
  intros Hs [Hw [cl Hcl]]. split; [by eapply identities_same|].
  destruct (same_ids_client _ _ _ _ Hs Hcl) as (cl' & ? & _). eauto.
Qed.

Lemma settled_same c w w' : same_ids w w' -> settled c w -> settled c w'.
Proof.
  intros Hs (cl & Hcl & Hs1). destruct (same_ids_client _ _ _ _ Hs Hcl) as (cl' & Hcl' & [= E1 E2 _ _]).
  exists cl'. by rewrite E1, E2.
Qed.

Lemma proven_same c k u id w w' : same_ids w w' -> proven c k u id w -> proven c k u id w'.
Proof.
  intros Hs (Hw & Hk & Hst). split_and!; [by eapply identities_same|by eapply known_same|by eapply settled_same].
Qed.

Lemma proven_present c k u id w : proven c k u id w -> present c w.
Proof. intros (Hw & ((cl & Hcl & _) & _) & _). split; [done|by exists cl]. Qed.

Section OnPackets.
Context (c : Conn) (I : World DB -> Prop) (HI : forall w w', same_ids w w' -> I w -> I w').
Abbreviation stays_I := (stays (λ p : PacketReader * World DB, I p.2) (λ _, True)).

Lemma packet_read {A B} (m : M PacketReader A) (k : A -> M _ B) :
  (forall a, stays_I (k a)) -> stays_I (on_fst m ≫= k).
Proof. intros Hk. eapply stays_bind; [apply stays_fst|]. auto. Qed.

Lemma packet_world {A B} (m : M (World DB) A) (k : A -> M _ B) :
  stays I (λ _, True) m -> (forall a, stays_I (k a)) -> stays_I (on_snd m ≫= k).
Proof. intros Hm Hk. eapply stays_bind; [apply stays_snd, Hm|]. auto. Qed.

Lemma packet_frame {A B} (m : M (World DB) A) (k : A -> M _ B) :
  frame same_ids m -> (forall a, stays_I (k a)) -> stays_I (on_snd m ≫= k).
Proof. intros Hm. apply packet_world. by eapply stays_frame. Qed.
End OnPackets.

Ltac packet_steps :=
  repeat first
    [ apply stays_fail | apply stays_ret_err | by apply stays_ret
    | apply packet_read; intros ?
    | apply packet_frame; [by intros ? ? ?; (apply present_same || apply proven_same)|solve [frame_steps]|intros ?]
    | progress cbv zeta
    | match goal with |- stays _ _ (if ?x then _ else _) => destruct x end ].

Abbreviation keeps_present c := (stays (λ p : PacketReader * World DB, present c p.2) (λ _, True)).

Lemma present_upd_client c f :
  (forall w : World DB, identities L w -> identities L (upd_heap (alter f c) w)) ->
  stays (present c) (λ _, True) (upd_client c f).
Proof.
  intros Hf. apply stays_modify. intros w [Hw Hc]. split; [by apply Hf|]. cbn. by rewrite lookup_alter_is_Some.
Qed.

(** A handler that starts by reading the client. *)
Lemma present_client {A} c (k : Client -> M (PacketReader * World DB) A) :
  (forall cl w r, present c w -> heap w !! c = Some cl -> present c (k cl (r, w)).2.2) ->
  keeps_present c (on_snd (client c) ≫= k).
Proof.
  intros Hk [r w] [Hw [cl Hcl]]. split; [|done]. unfold mbind, M_bind, on_snd, client. cbn in Hw, Hcl. rewrite Hcl.
  apply Hk; [split; eauto|done].
Qed.

Lemma ids_AuthGG c : keeps_present c (AuthGG e c).
Proof.
  unfold AuthGG. apply packet_read. intros sessionID.
  apply packet_frame; [intros ? ?; apply present_same|frame_steps|]. intros cl.
  destruct (negb _); [packet_steps|].
  apply packet_world; [|intros _; packet_steps]. apply present_upd_client. intros w.
  by apply identities_upd_client.
Qed.

Lemma ids_HandleLogin c : keeps_present c (HandleLogin e c).
Proof.
  unfold HandleLogin. apply packet_frame; [intros ? ?; apply present_same|frame_steps|]. intros cl.
  assert (forall reason, keeps_present c (err ← on_snd (sendLoginFail e c reason); ret_err err)) as Hf.
  { intros reason. unfold sendLoginFail, SendAndCloseAsync. packet_steps. }
  destruct (negb _); [apply Hf|].
  eapply stays_bind; [eapply stays_try, stays_fst|]. intros [err|[b1 b2]] _; [apply Hf|].
  apply stays_snd, stays_modify. intros w [Hw [cl' Hcl]]. split; [|by exists cl'].
  apply identities_tasks; [done|]. apply Forall_app. split; [apply (id_tasks L w Hw)|].
  constructor; [|done]. exists cl'. done.
Qed.

Lemma proven_start c cl w :
  identities L w -> heap w !! c = Some cl -> authed (cl_State cl) = true ->
  proven c (cl_SessionKey cl) (cl_Account cl) (cl_AccountID cl) w.
Proof.
  intros Hw Hcl Ha. pose proof (id_clients L w Hw c cl Hcl Ha) as [Hn Hi].
  split_and!; [done| |by exists cl]. split_and!; [by exists cl|done..].
Qed.

(** From there on, code that keeps [proven]. *)
Lemma proven_then {A} c cl w r (m : M (PacketReader * World DB) A) :
  identities L w -> heap w !! c = Some cl -> authed (cl_State cl) = true ->
  stays (λ p, proven c (cl_SessionKey cl) (cl_Account cl) (cl_AccountID cl) p.2) (λ _, True) m ->
  present c (m (r, w)).2.2.
Proof. intros Hw Hcl Ha Hm. eapply proven_present. apply (Hm (r, w)). by apply proven_start. Qed.

Lemma proven_upd_client c k u id f :
  (forall cl, cl_SessionKey (f cl) = cl_SessionKey cl /\ cl_Account (f cl) = cl_Account cl /\
     cl_AccountID (f cl) = cl_AccountID cl) ->
  stays (proven c k u id) (λ _, True) (upd_client c f).
Proof.
  intros Hf. apply stays_modify. intros w (Hw & ((cl & Hcl & Hk) & Hnu) & (cl' & Hcl' & Hn & Hi)).
  rewrite Hcl in Hcl'. injection Hcl' as <-. destruct (Hf cl) as (E1 & E2 & E3).
  assert (heap (upd_heap (alter f c) w) !! c = Some (f cl)) as Hl by (cbn; by rewrite lookup_alter_eq, Hcl).
  split_and!.
  - apply identities_upd_client; [intros cl0; by destruct (Hf cl0) as (? & ? & ?)|..|done];
      intros cl0 Hcl0; rewrite Hcl in Hcl0; injection Hcl0 as <-; by rewrite ?E2, ?E3.
  - split; [|done]. exists (f cl). by rewrite E1.
  - exists (f cl). by rewrite E2, E3.
Qed.

Lemma ids_HandleServerList c : keeps_present c (HandleServerList cfg (kick_manager e) e c).
Proof.
  unfold HandleServerList. apply present_client. intros cl w r Hw Hcl.
  case_bool_decide as Hst; cbn [negb]; [|done].
  apply (proven_then c cl); [apply Hw|done|by rewrite Hst|].
  do 2 (apply packet_read; intros ?). destruct (negb _); [packet_steps|].
  apply packet_world; [by apply proven_upd_client|]. intros _.
  apply packet_frame; [intros ? ?; apply proven_same|frame_steps|]. intros w1.
  destruct (GetCharCounts _ _) as [counts has].
  eapply stays_bind with (P := λ _, True).
  { destruct (negb has); [|by apply stays_ret]. apply stays_snd. eapply stays_frame; [|intros ? ?; apply proven_same].
    unfold RequestCharacters, kick_manager. cbn [OnRequestChars]. frame_steps. }
  intros _ _. unfold SendAsync. packet_steps.
Qed.

Lemma ids_GameServerLogin c : keeps_present c (GameServerLogin cfg e c).
Proof.
  unfold GameServerLogin. apply present_client. intros cl w r Hw Hcl.
  case_bool_decide as Hst; cbn [negb]; [|done].
  apply (proven_then c cl); [apply Hw|done|by rewrite Hst|].
  do 3 (apply packet_read; intros ?). destruct (_ || _); [packet_steps|]. destruct (negb _); [packet_steps|].
  eapply stays_bind with (P := λ _, True).
  { destruct (negb _); [|by apply stays_ret]. apply packet_world; [by apply proven_upd_client|]. intros _.
    apply stays_snd. eapply stays_frame; [|intros ? ?; apply proven_same]. frame_steps. }
  intros _ _. cbv zeta. apply packet_world; [|intros _; unfold SendAsync; packet_steps].
  apply stays_modify. intros w1 (Hw1 & Hk & Hs). split_and!; [|done..].
  pose proof (id_shards L w1 Hw1) as Hok. unfold upd_handoffs, Put.
  apply (identities_handoffs L (sh_put _ _ (handoffs w1))); [done|by apply sh_put_ok|].
  intros id s Hg. rewrite sh_get_put in Hg by done. case_decide as E; [|by left].
  injection Hg as <-. cbn [Key Account AccountID]. right. split; [done|]. by exists c.
Qed.

Lemma ids_Handle c opcode : keeps_present c (Handle (registry_of cfg e) e c opcode).
Proof.
  unfold registry_of. rewrite Handle_registered. repeat case_bool_decide;
    auto using ids_AuthGG, ids_HandleLogin, ids_HandleServerList, ids_GameServerLogin, stays_fail.
Qed.

Lemma ids_OnTraffic c buf : keeps_ids (OnTraffic (registry_of cfg e) e c buf).
Proof.
  cut (stays (present c) (λ _, True) (frame_loop (client_frame (registry_of cfg e) e c) (1 + length buf) buf)).
  { intros Hl w Hw. split; [|done]. unfold OnTraffic, mbind, M_bind, client.
    destruct (heap w !! c) as [cl|] eqn:Hcl; [|done]. cbn [snd].
    apply (Hl w). split; [done|by exists cl]. }
  apply stays_frame_loop. intros n payload. unfold client_frame.
  assert (forall A (m : M (World DB) A), frame same_ids m -> stays (present c) (λ _, True) m) as Hf
    by (intros A m Hm; eapply stays_frame; [exact Hm|intros ? ?; apply present_same]).
  eapply stays_bind; [apply Hf; frame_steps|]. intros cl _.
  destruct (Decrypt _ _ _) as [[[] data]|]; [|by apply stays_ret|apply stays_panic].
  destruct data as [|opcode body]; [by apply stays_ret|].
  destruct (GetPacketReader body) as [reader|err|]; [|by apply stays_ret..].
  eapply stays_bind.
  { eapply (stays_try _ (λ _, True)). intros w Hw. destruct (ids_Handle c opcode (reader, w) Hw) as [Hh _].
    by destruct (Handle _ _ _ _ _) as [o [r' w']]. }
  intros [err|[]] _; [by apply stays_ret|]. apply Hf. frame_steps.
Qed.

(** *** A new connection *)

Definition opens (c : Conn) {A} (m : M (World DB) A) : Prop :=
  forall w, identities L w -> heap w !! c = None -> identities L (m w).2.

Lemma opens_frame {A B} c (m : M (World DB) A) (k : A -> M (World DB) B) :
  frame same_ids m -> (forall a, opens c (k a)) -> opens c (m ≫= k).
Proof.
  intros Hm Hk w Hw Hc. specialize (Hm w). unfold mbind, M_bind.
  assert (identities L (m w).2) as Hw' by by eapply identities_same.
  destruct Hm as (_ & _ & Hh). specialize (Hh c). rewrite Hc in Hh.
  destruct (m w) as [[a|err|] w']; [|done|done]. apply Hk; [done|]. by apply fmap_None in Hh.
Qed.

Lemma opens_keeps {A} c (m : M (World DB) A) : keeps_ids m -> opens c m.
Proof. intros Hm w Hw _. by apply Hm. Qed.

Lemma opens_insert {A} c cl (k : unit -> M (World DB) A) :
  authed (cl_State cl) = false -> keeps_ids (k tt) -> opens c (modify (upd_heap <[c := cl]>) ≫= k).
Proof. intros Ha Hk w Hw Hc. apply Hk. by apply identities_open. Qed.

Lemma ids_OnOpen c ip entropy : opens c (OnOpen cfg e c ip entropy).
Proof.
  unfold OnOpen, generateSessionID. cbv zeta.
  apply opens_frame; [frame_steps|]. intros w. destruct (Allow _ _ _) as [allowed lim].
  apply opens_frame; [frame_steps|]. intros _. destruct (negb allowed); [by apply opens_keeps, stays_ret|].
  apply opens_frame; [frame_steps|]. intros w1. destruct (IsBanned _ _ _ _) as [banned bm].
  apply opens_frame; [frame_steps|]. intros _. destruct banned; [by apply opens_keeps, stays_ret|].
  apply opens_frame; [frame_steps|]. intros sessionID.
  destruct (GenerateSessionKey entropy) as [err|key]; [by apply opens_keeps, stays_ret|].
  apply opens_frame; [frame_steps|]. intros w2. destruct (GetScrambledKey _ _) as [sk idx].
  apply opens_frame; [frame_steps|]. intros _.
  destruct sk as [sk|err|]; [|by apply opens_keeps, stays_ret|apply opens_keeps, stays_panic].
  apply opens_insert; [done|]. apply ids_frame. set (pw := foldl _ _ _). clearbody pw.
  apply frame_bind; [apply _|frame_steps|]. intros _.
  destruct (EncryptStatic _ _) as [pw'|]; [|frame_steps]. destruct (PrependLength pw'); frame_steps.
Qed.

(** *** Login goroutines *)

(** Statements other than assignments to the client's fields. *)
Lemma frame_login_step c pc :
  match pc with LAccountID _ _ | LAccount _ _ | LState _ => False | _ => True end ->
  frame same_ids (login_step cfg (kick_manager e) e c pc).
Proof.
  intros Hpc. destruct pc; try done; clear Hpc; cbn [login_step]; unfold SendAsync, SendAndCloseAsync, KickAccount,
    KickFromGame, kick_manager; cbn [OnKickLS OnKickGS]; frame_steps.
Qed.

(** What code returns, whatever it does. *)
Definition yields {A} (P : A -> Prop) (m : M (World DB) A) : Prop := forall w a w', m w = (Val a, w') -> P a.

Lemma yields_ret {A} (P : A -> Prop) a : P a -> yields P (mret a).
Proof. by intros HP w a' w' [= <- _]. Qed.

Lemma yields_bind {A B} (P : B -> Prop) (m : M (World DB) A) k : (forall a, yields P (k a)) -> yields P (m ≫= k).
Proof.
  intros Hk w b w'. unfold mbind, M_bind. destruct (m w) as [[a|err|] w1]; [|done|done]. apply Hk.
Qed.

(** The account a goroutine works for. *)
Definition carried (pc : login_pc) : option (gostring * FindAccountRow) :=
  match pc with
  | LAdmit u row | LKick u row | LKickAt _ u row | LReset u row | LRegister u row | LAccountID u row => Some (u, row)
  | _ => None
  end.
Definition assigns (pc : login_pc) : bool := match pc with LAccountID _ _ | LAccount _ _ | LState _ => true | _ => false end.
(** A next statement that needs no more than before. *)
Definition follows (a : option (gostring * FindAccountRow)) (pc : login_pc) : Prop :=
  (carried pc = None \/ carried pc = a) /\ match pc with LAccount _ _ | LState _ => False | _ => True end.

Lemma login_step_follows c pc :
  assigns pc = false -> match pc with LStart _ _ => False | _ => True end ->
  yields (follows (carried pc)) (login_step cfg (kick_manager e) e c pc).
Proof.
  intros Ha Hpc. destruct pc; try done; clear Ha Hpc; cbn [login_step];
    repeat first
      [ apply yields_ret; split; [by (left + right)|done]
      | apply yields_bind; intros ?
      | match goal with |- yields _ (match ?x with _ => _ end) => destruct x eqn:? end
      | match goal with |- yields _ (mret (match ?x with _ => _ end)) => destruct x eqn:? end ].
Qed.

Lemma login_start_follows c b1 b2 w pc' w' :
  login_step cfg (kick_manager e) e c (LStart b1 b2) w = (Val pc', w') ->
  match pc' with LAccount _ _ | LState _ => False | _ => True end /\
  forall u row, carried pc' = Some (u, row) -> authenticates cfg e c (LStart b1 b2) w u row.
Proof.
  cbn [login_step]. unfold mbind, M_bind, client. destruct (heap w !! c) as [cl|] eqn:Hcl; [|done].
  destruct (decodeCredentials _ _ _ _) as [[u p]|err|] eqn:Ed; [|by intros [= <- _]|done].
  unfold get. destruct (Authenticate _ _ _ _ _ _ _) as [[err|row] d] eqn:Ea; intros [= <- _]; [done|].
  split; [done|]. intros u' row' [= <- <-]. exists b1, b2, cl, p. split_and!; [done..|]. by rewrite Ea.
Qed.

(** A statement keeps the invariant, and the next one is in order. *)
Lemma ids_login_step c pc w :
  (forall u row, authenticates cfg e c pc w u row -> L c u row) ->
  identities L w -> task_ok L w (c, pc) ->
  let '(o, w') := login_step cfg (kick_manager e) e c pc w in
  identities L w' /\ tasks w' = tasks w /\ forall pc', o = Val pc' -> task_ok L w' (c, pc').
Proof.
  intros Hg Hw Ht. destruct (assigns pc) eqn:Ea.
  - destruct pc as [| | | | | | | | |u row|u row|row| | | |]; try done; clear Ea Hg;
      destruct Ht as (cl & Hcl & Ht); cbn [fst snd] in *; cbn [login_step];
      unfold SetAccount, upd_client, modify, mbind, M_bind; cbn [mret M_ret].
    + split_and!; [|done|].
      * apply identities_upd_client; try done; [|by intros; exists u, row].
        intros cl0 Hcl0 Ha. destruct (id_clients L w Hw c cl0 Hcl0 Ha). split; [done|by exists u, row].
      * intros pc' [= <-]. exists (set_AccountID (Authenticator.ID row) cl). cbn.
        rewrite lookup_alter_eq, Hcl. split_and!; [done|done|]. by exists u, row.
    + destruct Ht as [Hl Hid]. split_and!; [|done|].
      * apply identities_upd_client; try done; [|by intros; exists row].
        intros cl0 Hcl0 Ha. destruct (id_clients L w Hw c cl0 Hcl0 Ha). split; [by exists row|done].
      * intros pc' [= <-]. exists (set_Account u cl). cbn.
        rewrite lookup_alter_eq, Hcl. split_and!; [done| |done]. by exists row.
    + destruct Ht as [Hn Hid]. split_and!; [|done|].
      * apply identities_upd_client; try done. intros cl0 Hcl0 _. rewrite Hcl in Hcl0. by injection Hcl0 as <-.
      * intros pc' [= <-]. exists (set_State StateAuthedLogin cl). cbn. by rewrite lookup_alter_eq, Hcl.
  - pose proof (frame_login_step c pc) as Hf. specialize (Hf ltac:(by destruct pc) w).
    destruct (login_step cfg (kick_manager e) e c pc w) as [o w'] eqn:E. cbn [snd] in Hf.
    split_and!; [by eapply identities_same|apply Hf|]. intros pc' ->.
    destruct Ht as (cl & Hcl & Ht). destruct (same_ids_client _ _ _ _ Hf Hcl) as (cl' & Hcl' & _).
    exists cl'. split; [done|]. cbn [fst snd] in *.
    assert (match pc' with LAccount _ _ | LState _ => False | _ => True end /\
      forall u row, carried pc' = Some (u, row) -> L c u row) as [Hn Hc].
    { destruct pc as [|b1 b2| | | | | | | | | | | | | |]; try done;
        [|by apply login_start_follows in E as [? Hc]; split; [|intros u row ?; apply Hg, Hc]|..];
        apply login_step_follows in E as [[Hc|Hc] ?]; try done;
        (split; [done|]); intros u' row' Hc'; rewrite Hc in Hc'; cbn in *; congruence || (by injection Hc' as <- <-). }
    destruct pc'; try done; by apply Hc.
Qed.

Lemma ids_exec i w :
  enabled i w = true -> (forall c u row, granted cfg e i w c u row -> L c u row) ->
  identities L w -> identities L (exec cfg e i w).2.
Proof.
  intros Hen Hg Hw.
  assert (forall A (m : M (World DB) A), frame same_ids m -> identities L (m w).2) as Hf
    by (intros A m Hm; by apply ids_frame).
  assert (forall A (m : M (World DB) A), identities L (m w).2 -> identities L ((_ ← m; mret tt) w).2) as Hr.
  { intros A m. unfold mbind, M_bind. by destruct (m w) as [[a|err|] w']. }
  destruct i as [c ip entropy|c buf|c| |n|g ip|g buf|g| |i|i]; cbn [exec enabled] in *.
  - apply Hr, ids_OnOpen; [done|]. by apply bool_decide_eq_true in Hen.
  - apply Hr. by apply ids_OnTraffic.
  - apply Hf. frame_steps.
  - apply Hf. frame_steps.
  - unfold login_task, get. unfold mbind at 1, M_bind at 1.
    destruct (tasks w !! n) as [[c pc]|] eqn:Et; [|done].
    pose proof (ids_login_step c pc w) as Hs. unfold mbind at 1, M_bind at 1.
    destruct (login_step cfg (kick_manager e) e c pc w) as [o w'].
    destruct Hs as (Hw' & Ht & Hn); [|done|by eapply Forall_lookup_1; [apply (id_tasks L w Hw)|]|].
    { intros u row Ha. apply Hg. by exists n, pc. }
    destruct o as [pc'|err|]; [|done..]. apply identities_tasks; [done|].
    apply Forall_insert; [apply (id_tasks L w' Hw')|auto].
  - apply Hr, Hf. frame_steps.
  - apply Hr. by apply ids_gs_OnTraffic.
  - apply Hf. frame_steps.
  - apply Hf. frame_steps.
  - apply (identities_handoffs L (gc_shard (e_now e) i (handoffs w))); [done| |].
    + apply sweep_shard_ok, (id_shards L w Hw).
    + intros id s. unfold gc_shard. rewrite sh_get_sweep_shard by apply (id_shards L w Hw).
      case_decide; [|by left]. intros Hs. left. by apply keep_if_Some in Hs as [Hs _].
  - apply Hf. frame_steps.
Qed.
End Preservation.

Section Reachable.
Context {DB : Type} `{Bcrypt} `{AccountStore DB} (cfg : Config).
Implicit Type w : World DB.

Lemma new_world_identities (s : Startup) (d : DB) keys pool L : identities L (new_world s d keys pool).
Proof.
  split; cbn [handoffs heap tasks new_world].
  - apply empty_shards_ok.
  - intros id sess. unfold empty_store. by rewrite sh_get_empty.
  - intros c cl. by rewrite lookup_empty.
  - constructor.
Qed.

Lemma run_identities s d keys pool ins w :
  run cfg ins (new_world s d keys pool) = Some w ->
  identities (has_logged_in cfg (new_world s d keys pool) ins) w.
Proof.
  revert w. induction ins as [|[e i] ins IH] using rev_ind; intros w.
  - intros [= <-]. apply new_world_identities.
  - rewrite server_run_app. destruct (run cfg ins _) as [w1|] eqn:E; [|done]. cbn [mbind option_bind run].
    destruct (enabled i w1) eqn:Hen; [|done]. destruct (exec cfg e i w1) as [o w'] eqn:Ex.
    destruct (is_panic o); [done|]. intros [= <-]. specialize (IH w1 eq_refl).
    pose proof (ids_exec cfg (has_logged_in cfg (new_world s d keys pool) (ins ++ [(e, i)])) e i w1 Hen) as Hx.
    rewrite Ex in Hx. apply Hx.
    + intros c u row Hg. by exists ins, e, i, [], w1.
    + eapply identities_mono; [|exact IH].
      intros c u row (before & e' & i' & after & w2 & -> & Hr & Hg). exists before, e', i', (after ++ [(e, i)]), w2.
      split_and!; [|done..]. by rewrite <- app_assoc.
Qed.

(** A game server's frame. *)
Lemma gs_frame_traffic e g p w :
  Z.of_nat (length p) + 2 <= 65535 -> is_Some (gs_heap w !! g) ->
  exec cfg e (IGsTraffic g (wire p)) w =
  (_ ← run_frames (gs_frame cfg e g) [p] (mret ANone); mret tt) w.
Proof.
  intros Hp Hg. cbn [exec]. unfold mbind at 1, M_bind at 1.
  rewrite (gs_OnTraffic_frames cfg e g [p] [] (wire p) w); [done| |done].
  split_and!; [cbn; by rewrite !app_nil_r|by constructor|done].
Qed.

Lemma GetPacketReader_body body :
  Z.of_nat (length body) <= MaxPayload -> GetPacketReader body = Val {| rbuf := body; pos := 0 |}.
Proof.
  intros Hl. unfold GetPacketReader, MinPacketSize, MaxPacketSize, MaxPayload in *.
  destruct (Z.ltb_spec (Z.of_nat (length body)) 0); [lia|].
  destruct (Z.ltb_spec 65536 (Z.of_nat (length body))); [lia|done].
Qed.

(** The frame of a validation request. *)
Lemma validate_traffic e g account l1 l2 p1 p2 w :
  let request := byte.of_Z PlayerAuthRequest :: (validate_request account l1 l2 p1 p2 ≫= field_bytes) in
  let found := (ValidateAndDelete (e_now e) l1 (handoffs w)).1 in
  let answer := validate_answer account l1 (verdict (simple_fold cfg) found account l1 l2 p1 p2) in
  is_Some (gs_heap w !! g) -> (1024 <= length (e_buf e))%nat -> e_write e = None ->
  Forall field_ok (validate_request account l1 l2 p1 p2) -> Z.of_nat (length request) + 2 <= 65535 ->
  exists w', exec cfg e (IGsTraffic g (wire request)) w = (Val tt, w') /\
    net w' = net w ++ [Write g (le_split 2 (Z.of_nat (packet_size answer)) ++ (answer ≫= field_bytes));
                       Discard g (2 + length request)].
Proof.
  intros request found answer [gsc Hg] Hb He Hok Hlen. rewrite gs_frame_traffic by (done || by exists gsc).
  unfold request in *. set (body := validate_request _ _ _ _ _ ≫= field_bytes) in *. cbn [run_frames gs_frame length] in *.
  assert (Z.of_nat (length body) <= MaxPayload) as Hl by (unfold MaxPayload; lia).
  rewrite GetPacketReader_body by done. set (r := {| rbuf := body; pos := 0 |}).
  destruct (HandleValidate_spec (e_grow e) (e_pool e 0%nat) (e_buf e) (e_now e) (simple_fold cfg)
    (gs_view gsc r w) account l1 l2 p1 p2 Hb Hok) as (s' & E & Hsent & _).
  - split; [|by rewrite app_nil_r]. unfold MaxPayload in Hl. unfold r, reader_ok, rlen, MaxPacketSize. cbn [gs_view gs_rd rbuf pos]. lia.
  - done.
  - eexists. split; [|].
    + unfold mbind, M_bind, try, gs_handle. rewrite Hg.
      rewrite gs_Handle_registered.
      change (byte.unsigned (byte.of_Z PlayerAuthRequest)) with PlayerAuthRequest. cbv zeta.
      change (PlayerAuthRequest =? PlayerAuthRequest) with true.
      change (PlayerAuthRequest =? PlayerLogout) with false.
      change (PlayerAuthRequest =? PlayerInGame) with false.
      change (PlayerAuthRequest =? GameServerAuth) with false. cbn iota.
      rewrite E. reflexivity.
    + unfold gs_merge. rewrite He, Hsent. cbn. rewrite <- !app_assoc. reflexivity.
Qed.

(** C1: whoever a game server lets in has logged in here: at any time in the life
    of a server, however many connections, logins, packets and collections went
    before and in whatever order, a validation request of a game server is answered,
    and answered positively only if the four identifiers are those this server gave
    to a client connection, on which a login with the name of the requested account
    (letter case aside) had succeeded, and the account id in the answer is of an
    account whose login succeeded on that connection. *)
Theorem admission_requires_login s d keys pool ins w e g account l1 l2 p1 p2 :
  let w0 := new_world s d keys pool in
  let request := byte.of_Z PlayerAuthRequest :: (validate_request account l1 l2 p1 p2 ≫= field_bytes) in
  run cfg ins w0 = Some w -> is_Some (gs_heap w !! g) ->
  (1024 <= length (e_buf e))%nat -> e_write e = None ->
  Forall field_ok (validate_request account l1 l2 p1 p2) -> Z.of_nat (length request) + 2 <= 65535 ->
  exists accepted w',
    let answer := validate_answer account l1 accepted in
    exec cfg e (IGsTraffic g (wire request)) w = (Val tt, w') /\
    net w' = net w ++ [Write g (le_split 2 (Z.of_nat (packet_size answer)) ++ (answer ≫= field_bytes));
                       Discard g (2 + length request)] /\
    forall id, accepted = Some id -> exists c cl u row u' row',
      heap w !! c = Some cl /\ cl_SessionKey cl = mkSessionKey l1 l2 p1 p2 /\
      has_logged_in cfg w0 ins c u row /\ EqualFold (simple_fold cfg) u account = true /\
      has_logged_in cfg w0 ins c u' row' /\ Authenticator.ID row' = id.
Proof.
  intros w0 request Hrun Hg Hb He Hok Hlen. apply run_identities in Hrun as Hids.
  destruct (validate_traffic e g account l1 l2 p1 p2 w Hg Hb He Hok Hlen) as (w' & E & Hn).
  eexists _, w'. split_and!; [exact E|exact Hn|]. clear E Hn. intros id Hv.
  unfold verdict, ValidateAndDelete in Hv. destruct (sh_get l1 (handoffs w)) as [sess|] eqn:Hs; [|done].
  destruct (After _ _); [done|]. cbn [fst] in Hv. destruct (EqualFold _ _ _) eqn:Ef; [|done].
  case_bool_decide as Hk; [|done]. injection Hv as <-.
  destruct (id_handoffs _ _ Hids l1 sess Hs) as (_ & c & (cl & Hcl & Hck) & [row Hl] & (u' & row' & Hl' & Hid)).
  exists c, cl, (Account sess), row, u', row'. split_and!; (done || congruence).
Qed.
End Reachable.

(** * Two logins on one connection *)

Section Torn.
Context {DB : Type} `{Bcrypt} `{AccountStore DB} (cfg : Config) (e : Env) (c : Conn).
Implicit Type w : World DB.

(** A statement takes a client, the accounts and the registry from one state to
    the next, whatever the rest. *)
Definition moves (pc pc' : login_pc) (cl cl' : Client) (D D' : DB) (S S' : registry) : Prop :=
  forall w, heap w !! c = Some cl -> db w = D -> sessions w = S ->
  exists w', login_step cfg (kick_manager e) e c pc w = (Val pc', w') /\ tasks w' = tasks w /\
    heap w' !! c = Some cl' /\ db w' = D' /\ sessions w' = S'.

Lemma moves_start b1 b2 cl u p row D D' S :
  decodeCredentials (to_lower cfg) (cl_ScrambledKey cl) b1 b2 = Val (u, p) ->
  Authenticate (ParseAddr cfg) (auth cfg) (e_salt e) u p (cl_RemoteIP cl) D = (inr row, D') ->
  moves (LStart b1 b2) (LAdmit u row) cl cl D D' S S.
Proof.
  intros Ed Ea w Hcl <- <-. exists (upd_db (λ _, D') w). cbn [login_step].
  unfold mbind, M_bind, client. rewrite Hcl, Ed. unfold get. by rewrite Ea.
Qed.

Lemma moves_admit u row cl D S S' :
  TryRegister (e_now e) u S = ((false, true), S') -> moves (LAdmit u row) (LReset u row) cl cl D D S S'.
Proof.
  intros Et w Hcl <- <-.
  exists (upd_sessions (λ _, S') (upd_meters (λ log, log ++ [Inc LoginSuccess]) w)). cbn [login_step].
  unfold mbind, M_bind, get, tally, modify. cbn [sessions upd_meters]. by rewrite Et.
Qed.

Lemma moves_reset u row cl D S : moves (LReset u row) (LRegister u row) cl cl D D S S.
Proof.
  intros w Hcl <- <-. exists (upd_bans (ResetAttempts (cl_RemoteAddr cl)) w). cbn [login_step].
  unfold mbind, M_bind, client. by rewrite Hcl.
Qed.

Lemma moves_register u row cl D S :
  moves (LRegister u row) (LAccountID u row) cl cl D D S (SessionRegistry.Register (e_now e) u (cl_SessionID cl) S).
Proof.
  intros w Hcl <- <-. exists (upd_sessions (SessionRegistry.Register (e_now e) u (cl_SessionID cl)) w).
  cbn [login_step]. unfold mbind, M_bind, client. by rewrite Hcl.
Qed.

Lemma moves_assign pc pc' f cl D S :
  login_step cfg (kick_manager e) e c pc = (_ ← upd_client c f; mret pc') -> moves pc pc' cl (f cl) D D S S.
Proof.
  intros E w Hcl <- <-. exists (upd_heap (alter f c) w). rewrite E. split_and!; try done.
  cbn. by rewrite lookup_alter_eq, Hcl.
Qed.

(** Two goroutines between which a schedule may choose. *)
Record two (n m : nat) (pn pm : login_pc) (cl : Client) (D : DB) (S : registry) w : Prop := {
  two_client : heap w !! c = Some cl; two_db : db w = D; two_sessions : sessions w = S;
  two_n : tasks w !! n = Some (c, pn); two_m : tasks w !! m = Some (c, pm) }.

Lemma two_step n m pn pm pn' cl cl' D D' S S' w rest :
  n <> m -> two n m pn pm cl D S w -> moves pn pn' cl cl' D D' S S' ->
  exists w', run cfg ((e, ILogin n) :: rest) w = run cfg rest w' /\ two m n pm pn' cl' D' S' w'.
Proof.
  intros Hne [H1 H2 H3 H4 H5] Hm. destruct (Hm w H1 H2 H3) as (w1 & E & Ht & Hh & Hd & Hs).
  exists (upd_tasks <[n := (c, pn')]> w1). split.
  - cbn [run enabled exec]. unfold login_task, get. unfold mbind at 1, M_bind at 1. rewrite H4.
    unfold mbind, M_bind. rewrite E. reflexivity.
  - split; try done; cbn; rewrite Ht.
    + by rewrite list_lookup_insert_ne.
    + apply list_lookup_insert_eq. by eapply lookup_lt_Some.
Qed.

Lemma two_swap n m pn pm cl D S w : two n m pn pm cl D S w -> two m n pm pn cl D S w.
Proof. by intros []. Qed.

(** The registry admits two attempts on two accounts nobody is on. *)
Lemma admits_two now u1 u2 S :
  shards_ok S -> u1 <> u2 -> Get u1 S = None -> Get u2 S = None ->
  exists S1 S2, TryRegister now u1 S = ((false, true), S1) /\ TryRegister now u2 S1 = ((false, true), S2).
Proof.
  intros Hok Hu H1 H2. unfold Get in *. unfold TryRegister at 1. rewrite H1. eexists _, _. split; [done|].
  unfold TryRegister. rewrite sh_get_put, decide_False by done. rewrite H2. done.
Qed.

(** C28: who a client is can be torn: [HandleLogin] accepts a second login while the
    first is still being processed, and the two goroutines assign the account's id and
    name without regard to each other. Whenever two logins of different accounts are in
    progress on one connection, both with the right password and both accounts free,
    the scheduler may leave the client logged in under
    the name of the first account with the id of the second. *)
Theorem torn_identity w cl i j a1 a2 b1 b2 u1 p1 row1 u2 p2 row2 D1 D2 :
  heap w !! c = Some cl -> i <> j ->
  tasks w !! i = Some (c, LStart a1 a2) -> tasks w !! j = Some (c, LStart b1 b2) ->
  decodeCredentials (to_lower cfg) (cl_ScrambledKey cl) a1 a2 = Val (u1, p1) ->
  decodeCredentials (to_lower cfg) (cl_ScrambledKey cl) b1 b2 = Val (u2, p2) ->
  Authenticate (ParseAddr cfg) (auth cfg) (e_salt e) u1 p1 (cl_RemoteIP cl) (db w) = (inr row1, D1) ->
  Authenticate (ParseAddr cfg) (auth cfg) (e_salt e) u2 p2 (cl_RemoteIP cl) D1 = (inr row2, D2) ->
  shards_ok (sessions w) -> u1 <> u2 -> Get u1 (sessions w) = None -> Get u2 (sessions w) = None ->
  exists schedule w' cl', Forall (λ n, n = i \/ n = j) schedule /\
    run cfg ((λ n, (e, ILogin n)) <$> schedule) w = Some w' /\
    heap w' !! c = Some cl' /\ cl_State cl' = StateAuthedLogin /\
    cl_Account cl' = u1 /\ cl_AccountID cl' = Authenticator.ID row2.
Proof.
  intros Hcl Hij Hi Hj Ea Eb Ha Hb Hok Hu Hg1 Hg2.
  destruct (admits_two (e_now e) u1 u2 (sessions w) Hok Hu Hg1 Hg2) as (S1 & S2 & Ht1 & Ht2). exists [i; j; i; j; i; j; i; j; i; j; j; i; i].
  assert (two i j (LStart a1 a2) (LStart b1 b2) cl (db w) (sessions w) w) as Hs by done.
  clear Hcl Hi Hj. cbn [fmap list_fmap].
  assert (j <> i) as Hji by done.
  edestruct two_step as (w1 & -> & H1); [exact Hij|exact Hs|eapply moves_start; eassumption|].
  edestruct two_step as (w2 & -> & H2); [exact Hji|exact H1|eapply moves_start; eassumption|].
  edestruct two_step as (w3 & -> & H3); [exact Hij|exact H2|eapply moves_admit; eassumption|].
  edestruct two_step as (w4 & -> & H4); [exact Hji|exact H3|eapply moves_admit; eassumption|].
  edestruct two_step as (w5 & -> & H5); [exact Hij|exact H4|apply moves_reset|].
  edestruct two_step as (w6 & -> & H6); [exact Hji|exact H5|apply moves_reset|].
  edestruct two_step as (w7 & -> & H7); [exact Hij|exact H6|apply moves_register|].
  edestruct two_step as (w8 & -> & H8); [exact Hji|exact H7|apply moves_register|].
  edestruct two_step as (w9 & -> & H9); [exact Hij|exact H8|by eapply moves_assign|].
  edestruct two_step as (w10 & -> & H10); [exact Hji|exact H9|by eapply moves_assign|].
  edestruct two_step as (w11 & -> & H11); [exact Hji|apply two_swap, H10|by eapply moves_assign|].
  edestruct two_step as (w12 & -> & H12); [exact Hij|exact H11|by eapply moves_assign|].
  edestruct two_step as (w13 & -> & H13); [exact Hij|apply two_swap, H12|by eapply moves_assign|].
  eexists w13, _. split_and!; [repeat (apply Forall_cons; split; [auto|]); by apply Forall_nil|done|apply (two_client _ _ _ _ _ _ _ _ H13)|done..].
Qed.
End Torn.

(** ** Samples *)

#[local] Existing Instance plain_bcrypt.
#[local] Existing Instance table_store.

Lemma admission_requires_login_witness :
  let w0 := new_world sample_startup empty_table BlowfishKeys.zero_pools [small_key] in
  let request := byte.of_Z PlayerAuthRequest :: (validate_request (go_str "ann") 1 2 3 4 ≫= field_bytes) in
  exists w accepted w', run sample_config [(sample_env, IGsOpen 9%positive (go_str "10.0.0.9"))] w0 = Some w /\
    exec sample_config sample_env (IGsTraffic 9%positive (wire request)) w = (Val tt, w') /\
    net w' = net w ++ [Write 9%positive (le_split 2 (Z.of_nat (packet_size (validate_answer (go_str "ann") 1 accepted)))
                         ++ (validate_answer (go_str "ann") 1 accepted ≫= field_bytes));
                       Discard 9%positive (2 + length request)].
Proof.
  intros w0 request.
  set (w := upd_gs_clients (insert_key 9%positive) (upd_gs_heap <[9%positive := mkGameServerClient (go_str "10.0.0.9") (UnixNano (e_now sample_env)) 0]> w0)).
  assert (run sample_config [(sample_env, IGsOpen 9%positive (go_str "10.0.0.9"))] w0 = Some w) as Hr by reflexivity.
  destruct (@admission_requires_login table plain_bcrypt table_store sample_config sample_startup empty_table BlowfishKeys.zero_pools
    [small_key] [(sample_env, IGsOpen 9%positive (go_str "10.0.0.9"))] w sample_env 9%positive (go_str "ann") 1 2 3 4)
    as (accepted & w' & E & Hn & _).
  - exact Hr.
  - eexists. reflexivity.
  - vm_compute. lia.
  - reflexivity.
  - repeat constructor; vm_compute; try discriminate; try done; repeat constructor; discriminate.
  - vm_compute. discriminate.
  - exists w, accepted, w'. split_and!; [exact Hr|exact E|exact Hn].
Defined.

Definition sample_block (m : Z) : list byte :=
  match FillBytes RSAModulusSize (m ^ 17 mod 3233) with Val b => b | _ => [] end.
Definition sample_racing : World table :=
  upd_tasks (λ _, [(1%positive, LStart (sample_block 97) (Some (replicate 128 Byte.x00)));
                   (1%positive, LStart (sample_block 98) (Some (replicate 128 Byte.x00)))]) sample_server.

Lemma torn_identity_witness :
  exists schedule w' cl', run sample_config ((λ n, (sample_env, ILogin n)) <$> schedule) sample_racing = Some w' /\
    heap w' !! 1%positive = Some cl' /\ cl_State cl' = StateAuthedLogin /\
    cl_Account cl' = go_str "a" /\ cl_AccountID cl' = 2.
Proof.
  assert (heap sample_racing !! 1%positive = Some sample_client) as Hcl by reflexivity.
  set (auth1 := Authenticate (ParseAddr sample_config) (auth sample_config) [] (go_str "a") [] (go_str "10.0.0.1") empty_table).
  set (auth2 := Authenticate (ParseAddr sample_config) (auth sample_config) [] (go_str "b") [] (go_str "10.0.0.1") auth1.2).
  assert (auth1 = (inr (fresh_row 1 (go_str "a") []), auth1.2)) as E1 by (vm_compute; reflexivity).
  assert (auth2 = (inr (fresh_row 2 (go_str "b") []), auth2.2)) as E2 by (vm_compute; reflexivity).
  destruct (torn_identity sample_config sample_env 1%positive sample_racing sample_client 0 1
    (sample_block 97) (Some (replicate 128 Byte.x00)) (sample_block 98) (Some (replicate 128 Byte.x00))
    (go_str "a") [] (fresh_row 1 (go_str "a") []) (go_str "b") [] (fresh_row 2 (go_str "b") []) auth1.2 auth2.2)
    as (schedule & w' & cl' & _ & E & Hcl' & Hs & Ha & Hid).
  - exact Hcl.
  - done.
  - reflexivity.
  - reflexivity.
  - vm_compute. reflexivity.
  - vm_compute. reflexivity.
  - exact E1.
  - exact E2.
  - apply empty_shards_ok.
  - done.
  - apply (sh_get_empty (go_str "a")).
  - apply (sh_get_empty (go_str "b")).
  - exists schedule, w', cl'. split_and!; [exact E|exact Hcl'|exact Hs|exact Ha|exact Hid].
Defined.
