(* ===== verification/Goroutines.v ===== *)
(** The goroutine a login runs in ([processLogin], internal/packet/client/login.go)
    as a program of its own: its statements do not look at the other goroutines, so
    scheduling it alone is running [processLogin], whatever else is waiting. *)
From stdpp Require Import base gmap list numbers strings.
From Stdlib Require Import Lia ZArith.
From S2P Require Import Prelude.
From S2P Require Import Effects.
From S2P Require Import PacketCodec.
From S2P Require Import Crypt.
From S2P Require Import Rsa.
From S2P Require Import GoStd.
From S2P Require Import Authenticator.
From S2P Require Import Credentials.
From S2P Require Import Connections.
From S2P Require Import ClientHandlers.
From S2P Require Import Listeners.
From S2P Require Import System.
Local Open Scope Z_scope.

(** * Code that does not look at a part of the state

    [commutes T m]: [T] changes something [m] neither reads nor writes. *)
Definition commutes {S A} (T : S -> S) (m : M S A) : Prop := forall s, m (T s) = ((m s).1, T (m s).2).

Create HintDb commutes.

Section Commutes.
Context {S : Type} (T : S -> S).

Lemma commutes_ret {A} (a : A) : commutes T (mret a).
Proof. done. Qed.
Lemma commutes_panic {A} : commutes T (A := A) panic.
Proof. done. Qed.
Lemma commutes_fail {A} err : commutes T (A := A) (fail err).
Proof. done. Qed.
Lemma commutes_modify f : (forall s, f (T s) = T (f s)) -> commutes T (modify f).
Proof. intros Hf s. unfold modify. cbn. by rewrite Hf. Qed.
Lemma commutes_bind {A B} (m : M S A) (k : A -> M S B) :
  commutes T m -> (forall a, commutes T (k a)) -> commutes T (m ≫= k).
Proof. intros Hm Hk s. unfold mbind, M_bind. rewrite Hm. by destruct (m s) as [[a|err|] s']; cbn; rewrite ?Hk. Qed.
(** Reading the state, as long as only the rest of it is used. *)
Lemma commutes_get {A} (k : S -> M S A) :
  (forall s, k (T s) = k s) -> (forall s, commutes T (k s)) -> commutes T (get ≫= k).
Proof. intros Hk Hc s. unfold mbind, M_bind, get. by rewrite Hk, Hc. Qed.
Lemma commutes_for_each {A} (body : nat -> A -> M S unit) i xs :
  (forall i x, commutes T (body i x)) -> commutes T (for_each body i xs).
Proof.
  intros Hb. revert i. induction xs as [|x xs IH]; intros i; cbn [for_each]; [apply commutes_ret|].
  by apply commutes_bind.
Qed.
End Commutes.

Ltac commutes_step :=
  lazymatch goal with
  | |- commutes _ (mret _) => apply commutes_ret
  | |- commutes _ panic => apply commutes_panic
  | |- commutes _ (fail _) => apply commutes_fail
  | |- commutes _ (modify _) => apply commutes_modify; by intros ?
  | |- commutes _ (get ≫= _) => apply commutes_get; [by intros ?|intros ?]
  | |- commutes _ (_ ≫= _) => apply commutes_bind; [|intros ?]
  | |- commutes _ (for_each _ _ _) => apply commutes_for_each; intros ? [? ?]
  | |- commutes _ (let _ := _ in _) => cbv zeta
  | |- commutes _ (match ?x with _ => _ end) => destruct x
  | |- _ => solve [auto with commutes]
  end.
Ltac commutes_steps := repeat commutes_step.

Section Goroutines.
Context {DB : Type} `{Bcrypt} `{AccountStore DB} (cfg : Config) (e : Env).
Implicit Type w : World DB.

Section Statements.
Context (f : list (Conn * login_pc) -> list (Conn * login_pc)).
Abbreviation blind := (commutes (upd_tasks (DB := DB) f)).

Lemma blind_client c : blind (client c).
Proof. intros w. unfold client. cbn. by destruct (heap w !! c). Qed.
Lemma blind_gs_client g : blind (gs_client g).
Proof. intros w. unfold gs_client. cbn. by destruct (gs_heap w !! g). Qed.
Lemma blind_emit ev : blind (emit ev).
Proof. apply commutes_modify. by intros ?. Qed.
Lemma blind_tally x : blind (tally x).
Proof. apply commutes_modify. by intros ?. Qed.
Lemma blind_gs_Touch g : blind (gs_Touch e g).
Proof. apply commutes_modify. by intros ?. Qed.
#[local] Hint Resolve blind_client blind_gs_client blind_emit blind_tally blind_gs_Touch : commutes.
Lemma blind_upd_client c g : blind (upd_client c g).
Proof. apply commutes_modify. by intros ?. Qed.
#[local] Hint Resolve blind_upd_client : commutes.
Lemma blind_send c op fields close : blind (send_packet e c op fields close).
Proof. unfold send_packet. commutes_steps. Qed.
Lemma blind_gs_Send i g op fields : blind (gs_Send e i g op fields).
Proof. unfold gs_Send. commutes_steps. Qed.
#[local] Hint Resolve blind_send blind_gs_Send : commutes.

Lemma blind_ls_KickAccount u : blind (ls_KickAccount e u).
Proof.
  unfold ls_KickAccount. commutes_steps.
  induction (client_entries _ _) as [|[c cl] l IH]; cbn [kick_loop]; commutes_steps.
Qed.
Lemma blind_gs_KickAccount u id : blind (gs_KickAccount e u id).
Proof.
  unfold gs_KickAccount. commutes_steps.
  induction (gs_entries _ _) as [|[g gsc] l IH]; cbn [gs_kick_loop]; commutes_steps.
Qed.
#[local] Hint Resolve blind_ls_KickAccount blind_gs_KickAccount : commutes.

Lemma blind_login_step c pc : blind (login_step cfg (kick_manager e) e c pc).
Proof.
  destruct pc; cbn [login_step]; unfold KickAccount, KickFromGame; cbn [kick_manager OnKickLS OnKickGS];
    unfold SendAndCloseAsync, SendAsync, SetAccount; commutes_steps.
Qed.
End Statements.

(** The goroutine's own entry changes, the others do not. *)
Lemma step_alone n c pc w w1 pc1 rest :
  tasks w !! n = Some (c, pc) -> login_step cfg (kick_manager e) e c pc w = (Val pc1, w1) ->
  run cfg ((e, ILogin n) :: rest) w = run cfg rest (upd_tasks <[n := (c, pc1)]> w1).
Proof.
  intros Ht E. cbn [run enabled exec]. unfold login_task, get. unfold mbind at 1, M_bind at 1. rewrite Ht.
  unfold mbind, M_bind. by rewrite E.
Qed.

Lemma upd_tasks_twice f g w : upd_tasks f (upd_tasks g w) = upd_tasks (λ l, f (g l)) w.
Proof. done. Qed.

Lemma shape_tasks c pc w : tasks (login_step cfg (kick_manager e) e c pc w).2 = tasks w.
Proof.
  pose proof (blind_login_step (λ _, tasks w) c pc w) as E.
  assert (upd_tasks (λ _, tasks w) w = w) as Hw by (by destruct w).
  rewrite Hw in E. rewrite E at 1. by destruct (login_step _ _ _ _ _ w).
Qed.

(** [k] statements in a row are [run_login k]; in a state whose entry of the
    goroutine is set, the entry is set to where it has got. *)
Lemma run_alone k n c pc w pc' w' rest :
  (n < length (tasks w))%nat ->
  run_login cfg (kick_manager e) k e c pc w = (Val pc', w') ->
  run cfg (replicate k (e, ILogin n) ++ rest) (upd_tasks <[n := (c, pc)]> w)
  = run cfg rest (upd_tasks <[n := (c, pc')]> w').
Proof.
  revert pc w. induction k as [|k IH]; intros pc w Hn; cbn [run_login replicate app].
  { by intros [= <- <-]. }
  intros Hr. apply M_bind_inv in Hr as (pc1 & w1 & E & Hr).
  pose proof (blind_login_step <[n := (c, pc)]> c pc w) as Hb. rewrite E in Hb. cbn [fst snd] in Hb.
  erewrite step_alone; [|cbn [tasks upd_tasks]; by apply list_lookup_insert_eq|exact Hb].
  rewrite upd_tasks_twice.
  assert (upd_tasks (λ l, <[n := (c, pc1)]> (<[n := (c, pc)]> l)) w1 = upd_tasks <[n := (c, pc1)]> w1) as ->.
  { unfold upd_tasks. f_equal. apply list_insert_insert_eq. }
  apply IH; [|done]. pose proof (shape_tasks c pc w) as Ht. rewrite E in Ht. cbn [snd] in Ht. by rewrite Ht.
Qed.

Lemma goroutine_runs n c block1 block2 w w' rest :
  tasks w !! n = Some (c, LWait block1 block2) ->
  processLogin cfg (kick_manager e) e c block1 block2 w = (Val LDone, w') ->
  run cfg (replicate 13 (e, ILogin n) ++ rest) w = run cfg rest (upd_tasks <[n := (c, LDone)]> w').
Proof.
  intros Hn Hp. rewrite <- (run_alone 13 n c (LWait block1 block2) w LDone w' rest); [| |exact Hp].
  - assert (upd_tasks <[n := (c, LWait block1 block2)]> w = w) as ->; [|done].
    unfold upd_tasks. rewrite list_insert_id by done. by destruct w.
  - by eapply lookup_lt_Some.
Qed.

End Goroutines.

#[local] Existing Instance plain_bcrypt.
#[local] Existing Instance table_store.

