(* ===== verification/Safety.v ===== *)
(** What every run of the server keeps true, and what can stop it: the opening of
    a connection, the invariant of the whole state, and the only inputs that make
    the server panic. *)
From stdpp Require Import base gmap list numbers strings.
From coqutil Require Import Byte Word.LittleEndianList.
From Stdlib Require Import Lia ZArith.
From S2P Require Import Prelude.
From S2P Require Import Effects.
From S2P Require Import PacketReader.
From S2P Require Import PacketWriter.
From S2P Require Import PacketCodec.
From S2P Require Import Blowfish.
From S2P Require Import Crypt.
From S2P Require Import Keys.
From S2P Require Import Rsa.
From S2P Require Import GoStd.
From S2P Require Import Sharding.
From S2P Require Import SessionStore.
From S2P Require Import SessionRegistry.
From S2P Require Import RateLimiter.
From S2P Require Import ServerList.
From S2P Require Import BanManager.
From S2P Require Import GsHandlers.
From S2P Require Import Authenticator.
From S2P Require Import Metrics.
From S2P Require Import Credentials.
From S2P Require Import Connections.
From S2P Require Import ClientHandlers.
From S2P Require Import Listeners.
From S2P Require Import System.
Import BlowfishKeys.
Import SessionKeys.
Local Open Scope Z_scope.

(** * What no code ever does

    The key pools do not change, an object stays in its heap, and only a callback
    that opens a connection adds to a listener's table. *)
Definition shape {DB} (w w' : World DB) : Prop :=
  rsaPool w' = rsaPool w /\ keyPools w' = keyPools w /\
  (forall c, is_Some (heap w !! c) -> is_Some (heap w' !! c)) /\
  (forall g, is_Some (gs_heap w !! g) -> is_Some (gs_heap w' !! g)) /\
  (forall c, c ∈ clients w' -> c ∈ clients w) /\ (forall g, g ∈ gs_clients w' -> g ∈ gs_clients w).

#[export] Instance shape_preorder {DB} : PreOrder (@shape DB).
Proof.
  split; [by intros w|]. intros w1 w2 w3 (A1&A2&A3&A4&A5&A6) (B1&B2&B3&B4&B5&B6).
  split_and!; [congruence..| | | |]; auto.
Qed.

(** Most code, besides, neither adds to nor removes from the clients' table, and
    does not touch the gauge of the connections. *)
Definition routine {DB} (w w' : World DB) : Prop :=
  shape w w' /\ clients w' = clients w /\
  reading ActiveConnections (meters w') = reading ActiveConnections (meters w).

#[export] Instance routine_preorder {DB} : PreOrder (@routine DB).
Proof.
  split; [by intros w|]. intros w1 w2 w3 (A1 & A2 & A3) (B1 & B2 & B3). split_and!; [by etrans|congruence..].
Qed.

(** The same of a packet handler, packet included. *)
Definition packet_routine {DB} (p q : PacketReader * World DB) : Prop := routine p.2 q.2.
#[export] Instance packet_routine_preorder {DB} : PreOrder (@packet_routine DB).
Proof. split; [by intros p|]. intros p q r. unfold packet_routine. by intros ->. Qed.

Lemma routine_shape {DB A} (m : M (World DB) A) : frame routine m -> frame shape m.
Proof. apply frame_weaken. by intros w w' []. Qed.

(** A change of one field, or of the object of a connection. *)
Ltac shape_fields :=
  unfold shape; split_and!; try done; cbn; intros ?; rewrite ?lookup_alter_is_Some; try done; intros Hin;
    by apply list_elem_of_filter in Hin as [_ Hin].
Ltac shape_leaf :=
  apply frame_modify; intros ?;
  lazymatch goal with
  | |- shape _ _ => shape_fields
  | |- routine _ _ => split_and!; [shape_fields|done|try done; cbn; by rewrite reading_other]
  end.

Ltac shape_steps :=
  repeat first
    [ apply frame_bind; [apply _| |intros ?]
    | apply frame_ret; apply _ | apply frame_fail; apply _ | apply frame_panic; apply _
    | apply frame_get; apply _ | apply frame_ret_err; apply _
    | apply frame_try
    | shape_leaf
    | apply frame_on_fst; by intros ? ? ?
    | apply (frame_on_snd routine)
    | apply frame_for_each; [apply _|]; intros ? [? ?]
    | intros ?; unfold client, gs_client; match goal with |- _ ?w (match ?x with _ => _ end).2 => by destruct x end
    | progress cbv zeta
    | match goal with |- frame _ (match ?x with _ => _ end) => destruct x end ].

Section Shapes.
Context {DB : Type} `{Bcrypt} `{AccountStore DB} (cfg : Config) (e : Env).
Abbreviation shaped := (frame (@shape DB)).
Abbreviation ordinary := (frame (@routine DB)).

Lemma routine_send c op fields close : ordinary (send_packet e c op fields close).
Proof. unfold send_packet, emit, upd_client. shape_steps. Qed.
Lemma routine_gs_Send i g op fields : ordinary (gs_Send e i g op fields).
Proof. unfold gs_Send, emit, gs_Touch. shape_steps. Qed.

Lemma shape_ls_KickAccount u : shaped (ls_KickAccount e u).
Proof.
  unfold ls_KickAccount, emit. shape_steps.
  induction (client_entries _ _) as [|[c cl] l IH]; cbn [kick_loop]; unfold emit; shape_steps; done.
Qed.
Lemma routine_gs_KickAccount u id : ordinary (gs_KickAccount e u id).
Proof.
  unfold gs_KickAccount. apply frame_bind; [apply _|shape_steps|]. intros w.
  induction (gs_entries _ _) as [|[g gsc] l IH]; cbn [gs_kick_loop]; [shape_steps|].
  destruct (_ =? _); [|done]. apply frame_bind; [apply _|apply routine_gs_Send|]. intros err. shape_steps.
Qed.

Lemma routine_AuthGG c : frame (@packet_routine DB) (AuthGG e c).
Proof. unfold AuthGG, SendAndCloseAsync, SendAsync, send_packet, upd_client, emit. shape_steps. Qed.
Lemma routine_HandleLogin c : frame (@packet_routine DB) (HandleLogin e c).
Proof. unfold HandleLogin, sendLoginFail, SendAndCloseAsync, send_packet, upd_client, emit. shape_steps. Qed.
Lemma routine_HandleServerList c : frame (@packet_routine DB) (HandleServerList cfg (kick_manager e) e c).
Proof.
  unfold HandleServerList, SendAsync, send_packet, upd_client, close_conn, emit, RequestCharacters, kick_manager.
  cbn [OnRequestChars]. unfold gs_RequestCharacters, gs_Send, emit, gs_Touch. shape_steps.
Qed.
Lemma routine_GameServerLogin c : frame (@packet_routine DB) (GameServerLogin cfg e c).
Proof. unfold GameServerLogin, SendAsync, send_packet, upd_client, close_conn, emit. shape_steps. Qed.

Lemma routine_Handle c opcode : frame (@packet_routine DB) (Handle (registry_of cfg e) e c opcode).
Proof.
  unfold registry_of. rewrite Handle_registered. repeat case_bool_decide;
    auto using routine_AuthGG, routine_HandleLogin, routine_HandleServerList, routine_GameServerLogin.
  apply frame_fail, _.
Qed.

Lemma frame_frame_loop (R : World DB -> World DB -> Prop) `{!PreOrder R} frm fuel buf :
  (forall n p, frame R (frm n p)) -> frame R (frame_loop frm fuel buf).
Proof.
  intros Hf. revert buf. induction fuel as [|fuel IH]; intros buf; cbn [frame_loop]; [by apply frame_ret|].
  destruct buf as [|b0 [|b1 buf]]; [by apply frame_ret..|]. cbv zeta.
  destruct (_ || _); [by apply frame_ret|]. destruct (_ <? _); [by apply frame_ret|].
  destruct (_ <? _); [by apply frame_panic|]. apply frame_bind; [done|apply Hf|].
  intros []; [apply IH|by apply frame_ret].
Qed.

Lemma routine_OnTraffic c buf : ordinary (OnTraffic (registry_of cfg e) e c buf).
Proof.
  unfold OnTraffic. apply frame_bind; [apply _|shape_steps|]. intros cl. apply frame_frame_loop; [apply _|].
  intros n payload. unfold client_frame. apply frame_bind; [apply _|shape_steps|]. intros cl'.
  destruct (Decrypt _ _ _) as [[[] data]|]; [|shape_steps..].
  destruct data as [|opcode body]; [shape_steps|]. destruct (GetPacketReader body) as [reader|err|]; [|shape_steps..].
  apply frame_bind; [apply _| |intros []; unfold Touch, upd_client, emit; shape_steps].
  apply frame_try. intros w. pose proof (routine_Handle c opcode (reader, w)) as Hh.
  by destruct (Handle _ _ _ _ _) as [o [r' w']].
Qed.

(** Only the kick of an account that is still on this server takes a client off
    the table. *)
Definition kicks (pc : login_pc) : option gostring :=
  match pc with LKickAt srv u _ => if srv =? 0 then Some u else None | _ => None end.

Lemma routine_login_step c pc :
  kicks pc = None -> ordinary (login_step cfg (kick_manager e) e c pc).
Proof.
  intros Hk. destruct pc; cbn [login_step]; unfold SetAccount, SendAsync, SendAndCloseAsync, send_packet, upd_client,
    emit, tally, KickAccount, KickFromGame, kick_manager; cbn [OnKickLS OnKickGS]; try solve [shape_steps].
  - apply frame_bind; [apply _|shape_steps|]. intros cl. apply frame_bind; [apply _| |intros _; shape_steps].
    apply frame_modify. intros w. split_and!; [done..|]. cbn. by destruct err; rewrite reading_other.
  - cbn [kicks] in Hk. destruct (serverID =? 0); [done|].
    apply frame_bind; [apply _|apply routine_gs_KickAccount|]. intros _. shape_steps.
Qed.

Lemma shape_login_step c pc : shaped (login_step cfg (kick_manager e) e c pc).
Proof.
  destruct (kicks pc) eqn:Hk; [|by apply routine_shape, routine_login_step]. destruct pc; try done.
  cbn [kicks login_step] in *. destruct (serverID =? 0); [|done].
  apply frame_bind; [apply _|apply shape_ls_KickAccount|]. intros _. shape_steps.
Qed.

(** A packet of a game server touches neither clients nor goroutines. *)
Definition apart (w w' : World DB) : Prop := shape w w' /\ heap w' = heap w /\ tasks w' = tasks w.
#[export] Instance apart_preorder : PreOrder apart.
Proof.
  split; [by intros w|]. intros w1 w2 w3 (A1 & A2 & A3) (B1 & B2 & B3). split_and!; [by etrans|congruence..].
Qed.

(** Nor the clients' table and the metrics. *)
Definition aside (w w' : World DB) : Prop := apart w w' /\ clients w' = clients w /\ meters w' = meters w.
#[export] Instance aside_preorder : PreOrder aside.
Proof.
  split; [by intros w|]. intros w1 w2 w3 (A1 & A2 & A3) (B1 & B2 & B3). split_and!; [by etrans|congruence..].
Qed.

Lemma aside_gs_OnTraffic g buf : frame aside (gs_OnTraffic cfg e g buf).
Proof.
  unfold gs_OnTraffic.
  apply frame_bind; [apply _|intros w; unfold gs_client; by destruct (gs_heap w !! g)|]. intros gsc.
  apply frame_frame_loop; [apply _|]. intros n payload. unfold gs_frame.
  destruct payload as [|opcode body]; [by intros w|]. destruct (GetPacketReader body) as [reader|err|]; [|by intros w..].
  assert (forall f, (forall w, aside w (f w)) -> frame aside (modify f)) as Hm by (intros; by apply frame_modify).
  assert (forall gsf w, aside w (upd_gs_heap (alter gsf g) w)) as Ha.
  { intros gsf w. split; [|done]. split; [|done]. unfold shape. split_and!; try done. intros g'. cbn.
    by rewrite lookup_alter_is_Some. }
  apply frame_bind; [apply _| |].
  - apply frame_try. intros w. unfold gs_handle. destruct (gs_heap w !! g) as [gsc'|]; [|done].
    destruct (GsHandlers.Handle _ _ _ _ _ _ _) as [o s]. cbn [snd]. split; [|done]. split; [|done].
    unfold shape. split_and!; try done. intros g'. cbn. by rewrite lookup_alter_is_Some.
  - intros []; [by intros w|]. unfold gs_Touch, emit.
    apply frame_bind; [apply _|apply Hm; intros; apply Ha|]. intros _.
    apply frame_bind; [apply _|by apply Hm|]. by intros _ w.
Qed.
Lemma apart_gs_OnTraffic g buf : frame apart (gs_OnTraffic cfg e g buf).
Proof. eapply frame_weaken; [|apply aside_gs_OnTraffic]. by intros w w' []. Qed.
End Shapes.

(** * Opening a connection *)

(** The pooled RSA keys, as [InitRSAPool] makes them. *)
Definition key_ok (k : ScrambledKey) : Prop := rsa_ok (Private k) /\ length (Modulus k) = RSAModulusSize.

(** The cipher of the first packet, which every client knows. *)
Definition static_crypt : Crypt.Crypt := {| cipher := staticCipher; updatedKey := false |}.

Lemma static_packet e fs :
  is_u32 (e_xor e) -> Z.of_nat (packet_size fs) <= 65500 ->
  let w := foldl (λ w f, write_field (e_grow e) f w) (GetPacketWriter (e_grow e) (e_pool e 0%nat)) fs in
  exists w1 w2 plain, EncryptStatic (e_xor e) w = Some w1 /\ PrependLength w1 = Val w2 /\
    peer_reads static_crypt (Bytes w2) = Some plain /\ take (length (fs ≫= field_bytes)) plain = fs ≫= field_bytes.
Proof.
  intros Hx Hsz w.
  destruct (encrypt_packet_spec e static_crypt fs staticCipher_ok Hx Hsz)
    as (data & plain & E & _ & _ & _ & Hp & Ht). unfold encrypt_packet in E. fold w in E.
  rewrite EncryptStatic_Encrypt. fold static_crypt.
  destruct (Encrypt (e_xor e) static_crypt w) as [[cr w1]|]; [|done].
  destruct (PrependLength w1) as [w2|err|] eqn:Ep; [|done..]. injection E as _ <-.
  exists w1, w2, plain. by split_and!.
Qed.

Lemma secret_key_length idx p : pools_ok p -> length (GetRandomBlowFishKey idx p) = 16%nat.
Proof.
  intros [[Hl Hf] _]. unfold GetRandomBlowFishKey. rewrite nth_lookup.
  destruct (lookup_lt_is_Some_2 (loginCryptKeys p) (pool_index idx)) as [k Hk]; [rewrite Hl; apply pool_index_lt|].
  rewrite Hk. cbn. by eapply Forall_lookup_1 in Hf.
Qed.

Lemma init_packet_size sid modulus secret :
  length modulus = RSAModulusSize -> length secret = 16%nat ->
  packet_size (init_fields sid modulus secret) = 172%nat.
Proof.
  intros Hm Hs. unfold packet_size, init_fields. cbn [mbind list_bind field_bytes].
  rewrite !length_app, !length_le_split, Hm, Hs. reflexivity.
Qed.

Section Opening.
Context {DB : Type} (cfg : Config) (e : Env).
Implicit Type w : World DB.

(** The client of a new connection. *)
Definition new_client (ip : gostring) (addr : Addr) (secret : list byte) (sk : ScrambledKey) (key : SessionKey)
    (sid : Z) : Client :=
  {| cl_Crypt := NewCrypt secret; cl_ScrambledKey := sk; cl_RemoteAddr := addr; cl_RemoteIP := ip;
     cl_Account := []; cl_lastActivity := UnixNano (e_now e); cl_AccountID := 0; cl_SessionKey := key;
     cl_LastServer := 0; cl_SessionID := sid; cl_State := StateConnected |}.
(** Its session id. *)
Definition next_session w : Z := Z.lxor (i32 (globalSessionID w + 1)) (i32 (UnixNano (e_now e))).

(** What a client is told when it is let in, and what is remembered of it. *)
Definition welcomed w (c : Conn) (ip : gostring) (addr : Addr) (key : SessionKey) (out : list byte) (w' : World DB) : Prop :=
  let sid := next_session w in
  let secret := GetRandomBlowFishKey sid (keyPools w) in
  exists sk, sk ∈ rsaPool w /\
    heap w' = <[c := new_client ip addr secret sk key sid]> (heap w) /\ clients w' = insert_key c (clients w) /\
    meters w' = meters w ++ [Inc ActiveConnections; Inc ConnectionTotal] /\
    carries static_crypt out ServerInit (tail (init_fields sid (Modulus sk) secret)).

(** What opening a connection does, and what it leaves alone. *)
Definition open_spec (c : Conn) (ip : gostring) (entropy : error + list byte) w
    (out : option (list byte)) (action : Action) (w' : World DB) : Prop :=
  let addr := default InvalidAddr (ParseAddr cfg ip) in
  let '(allowed, lim) := Allow (UnixNano (e_now e)) addr (limiter w) in
  let '(banned, bm) := IsBanned (e_now e) (e_now e) addr (bans w) in
  limiter w' = lim /\ bans w' = (if allowed then bm else bans w) /\
  (tasks w' = tasks w /\ handoffs w' = handoffs w /\ sessions w' = sessions w /\ db w' = db w /\ net w' = net w /\
   sem w' = sem w /\ rsaPool w' = rsaPool w /\ keyPools w' = keyPools w /\ gs_heap w' = gs_heap w /\
   gs_clients w' = gs_clients w) /\
  match allowed && negb banned, GenerateSessionKey entropy, rsaPool w with
  | true, inr key, _ :: _ => exists data, out = Some data /\ action = ANone /\ welcomed w c ip addr key data w'
  | _, _, _ => out = None /\ action = AClose /\ heap w' = heap w /\ clients w' = clients w /\ meters w' = meters w
  end.

Lemma OnOpen_spec c ip entropy w :
  is_u32 (e_xor e) -> Forall key_ok (rsaPool w) -> pools_ok (keyPools w) ->
  exists out action w', OnOpen cfg e c ip entropy w = (Val (out, action), w') /\ open_spec c ip entropy w out action w'.
Proof.
  intros Hx Hk Hp. unfold OnOpen, open_spec. set (addr := default InvalidAddr (ParseAddr cfg ip)).
  destruct (Allow _ _ _) as [allowed lim] eqn:Ea. destruct (IsBanned _ _ _ _) as [banned bm] eqn:Eb.
  unfold generateSessionID, mbind, M_bind, get, modify, mret, M_ret. cbv beta iota. rewrite Ea.
  destruct allowed; cbn [negb andb]; [|eexists _, _, _; split; [reflexivity|by split_and!]].
  cbn [bans upd_limiter]. rewrite Eb. destruct banned; cbn [negb]; [eexists _, _, _; split; [reflexivity|by split_and!]|].
  destruct (GenerateSessionKey entropy) as [err|key]; [eexists _, _, _; split; [reflexivity|by split_and!]|].
  cbn [rsaPool rsaIdx globalSessionID upd_globalSessionID upd_bans upd_limiter].
  destruct (rsaPool w) as [|k0 ks] eqn:Epool; [eexists _, _, _; split; [reflexivity|by split_and!]|]. rewrite <- Epool in *.
  destruct (GetScrambledKey_pick (rsaPool w) (rsaIdx w)) as (sk & Hsk & Eg); [by rewrite Epool|]. rewrite Eg.
  assert (sk ∈ rsaPool w) as Hin by by eapply list_elem_of_lookup_2.
  destruct (proj1 (Forall_forall _ _) Hk sk Hin) as [_ Hm].
  cbn [keyPools globalSessionID upd_rsaIdx upd_globalSessionID upd_bans upd_limiter].
  fold (next_session w). set (sid := next_session w). set (secret := GetRandomBlowFishKey sid (keyPools w)).
  assert (length secret = 16%nat) as Hsl by by apply secret_key_length.
  destruct (static_packet e (init_fields sid (Modulus sk) secret) Hx) as (w1 & w2 & plain & E1 & E2 & Hpl & Ht).
  { rewrite init_packet_size by done. lia. }
  fold (new_client ip addr secret sk key sid). set (cl := new_client ip addr secret sk key sid).
  rewrite E1, E2.
  eexists _, _, _. split; [reflexivity|]. split_and!; try done.
  exists (Bytes w2). split_and!; [done|done|]. exists sk. split_and!; [done..| |by exists plain].
  cbn. by rewrite <- app_assoc.
Qed.

(** C27: who may connect is welcomed properly: a new connection is refused exactly
    when its address is over the rate limit or banned, or the server has no random
    numbers or no keys, and then nothing but the limiter and the bans has changed;
    otherwise it becomes a client with a fresh session key, an unused identity and the
    state before authorisation, and is sent an Init packet from which, with the cipher
    every client knows, it reads the session id, the RSA modulus of a pooled key and the
    cipher key of the session, and is counted. *)
Theorem open_outcome c ip entropy w :
  is_u32 (e_xor e) -> Forall key_ok (rsaPool w) -> pools_ok (keyPools w) ->
  exists out action w', OnOpen cfg e c ip entropy w = (Val (out, action), w') /\ open_spec c ip entropy w out action w'.
Proof. apply OnOpen_spec. Qed.
End Opening.

Definition padded_key : ScrambledKey := {| Private := Private small_key; Modulus := replicate 128 Byte.x00 |}.
Definition padded_world : World table := new_world sample_startup empty_table zero_pools [padded_key].

Lemma padded_key_ok : key_ok padded_key.
Proof. split; [apply small_key_ok|reflexivity]. Qed.

Lemma open_outcome_witness :
  exists out action w',
    OnOpen sample_config sample_env 1%positive (go_str "10.0.0.1") (inr (replicate 16 Byte.x07)) padded_world
      = (Val (out, action), w') /\
    open_spec sample_config sample_env 1%positive (go_str "10.0.0.1") (inr (replicate 16 Byte.x07)) padded_world
      out action w'.
Proof.
  apply (open_outcome sample_config sample_env).
  - apply sample_env_ok.
  - constructor; [exact padded_key_ok|constructor].
  - exact zero_pools_ok.
Defined.

(** * The invariant of the whole state *)

Record sound {DB} (w : World DB) : Prop := {
  sound_server : server_ok w;
  sound_rsa : Forall key_ok (rsaPool w);
  sound_keys : pools_ok (keyPools w);
  sound_clients c : c ∈ clients w -> is_Some (heap w !! c);
  sound_servers g : g ∈ gs_clients w -> is_Some (gs_heap w !! g) }.

Section Sound.
Context {DB : Type}.
Implicit Type w : World DB.

Lemma sound_shape w w' : shape w w' -> server_ok w' -> sound w -> sound w'.
Proof.
  intros (E1 & E2 & Hh & Hg & Hc & Hgc) Hok [_ H2 H3 H4 H5]. split; [done|by rewrite E1|by rewrite E2|auto..].
Qed.

Lemma server_ok_same w w' : heap w' = heap w -> tasks w' = tasks w -> server_ok w -> server_ok w'.
Proof. unfold server_ok. by intros -> ->. Qed.

Lemma sound_apart w w' : apart w w' -> sound w -> sound w'.
Proof. intros (Hs & Hh & Ht) Hw. eapply sound_shape; [done| |done]. by eapply server_ok_same, sound_server. Qed.

(** With an object that is known to be there. *)
Definition sound_with (c : Conn) w : Prop := sound w /\ is_Some (heap w !! c).
Definition sound_with_gs (g : Conn) w : Prop := sound w /\ is_Some (gs_heap w !! g).

Lemma sound_with_apart c w w' : apart w w' -> sound_with c w -> sound_with c w'.
Proof. intros Ha [Hw Hc]. split; [by eapply sound_apart|]. by apply Ha. Qed.
Lemma sound_with_gs_apart g w w' : apart w w' -> sound_with_gs g w -> sound_with_gs g w'.
Proof. intros Ha [Hw Hg]. split; [by eapply sound_apart|]. by apply Ha. Qed.

Lemma apart_leaf (f : World DB -> World DB) :
  (forall w, rsaPool (f w) = rsaPool w /\ keyPools (f w) = keyPools w /\ heap (f w) = heap w /\
    gs_heap (f w) = gs_heap w /\ tasks (f w) = tasks w /\
    (forall c, c ∈ clients (f w) -> c ∈ clients w) /\ (forall g, g ∈ gs_clients (f w) -> g ∈ gs_clients w)) ->
  forall w, apart w (f w).
Proof.
  intros Hf w. destruct (Hf w) as (E1 & E2 & E3 & E4 & E5 & Hc & Hg). split; [|done].
  unfold shape. rewrite E1, E2, E3, E4. by split_and!.
Qed.

Lemma keeps_apart I (f : World DB -> World DB) :
  (forall w w', apart w w' -> I w -> I w') -> (forall w, apart w (f w)) -> keeps I (λ _, True) (modify f).
Proof. intros HI Hf. apply keeps_modify. intros w. by apply HI. Qed.

Lemma keeps_read (I : World DB -> Prop) : keeps I (λ _, True) get.
Proof. by intros w Hw. Qed.
End Sound.

Ltac apart_leaf :=
  apply apart_leaf; intros ?; split_and!; try done; let Hl := fresh in intros ? Hl; by apply list_elem_of_filter in Hl as [_ Hl].
(** Statements that keep an invariant closed under [apart]. *)
Ltac apart_steps closed :=
  repeat first
    [ by apply keeps_ret
    | apply keeps_apart; [exact closed|apart_leaf]
    | eapply keeps_bind with (P := λ _, True); [|intros ? _]
    | apply keeps_read
    | apply keeps_for_each; intros ? [? ?]
    | match goal with |- keeps _ _ (match ?x with _ => _ end) => destruct x end ].

Section Callbacks.
Context {DB : Type} `{Bcrypt} `{AccountStore DB} (cfg : Config) (e : Env).
Implicit Type w : World DB.
Abbreviation steady := (keeps (@sound DB) (λ _, True)).

Lemma steady_OnTick : steady (OnTick cfg e).
Proof. unfold OnTick, emit. apart_steps (@sound_apart DB). Qed.
Lemma steady_gs_OnTick : steady (gs_OnTick cfg e).
Proof. unfold gs_OnTick, emit. apart_steps (@sound_apart DB). Qed.

(** From a stronger invariant. *)
Lemma ends_with (I : World DB -> Prop) {A} (m : M (World DB) A) w :
  (forall w', I w' -> sound w') -> I w -> keeps I (λ _, True) m -> ends sound m w (λ _ w', sound w' /\ True).
Proof.
  intros HI Hw Hm. specialize (Hm w Hw). unfold ends in *.
  destruct (m w) as [[a|err|] w']; [destruct Hm; auto|auto|done].
Qed.

Lemma steady_OnClose c : steady (OnClose c).
Proof.
  intros w Hw. unfold OnClose. apply ends_bind, ends_get. case_bool_decide as Hin; cbn [negb]; [|by apply ends_ret].
  apply (ends_with (sound_with c)); [by intros ? []|split; [done|by apply (sound_clients w Hw)]|].
  eapply keeps_bind with (P := λ _, True); [apart_steps (@sound_with_apart DB c)|]. intros _ _.
  eapply keeps_bind with (P := λ _, True).
  { intros w1 Hw1. unfold ends, client. by destruct (proj2 Hw1) as [cl ->]. }
  intros cl _. cbv zeta. apart_steps (@sound_with_apart DB c).
Qed.

Lemma steady_gs_OnClose g : steady (gs_OnClose g).
Proof.
  intros w Hw. unfold gs_OnClose. apply ends_bind, ends_get. case_bool_decide as Hin; cbn [negb]; [|by apply ends_ret].
  apply (ends_with (sound_with_gs g)); [by intros ? []|split; [done|by apply (sound_servers w Hw)]|].
  eapply keeps_bind with (P := λ _, True); [apart_steps (@sound_with_gs_apart DB g)|]. intros _ _.
  eapply keeps_bind with (P := λ _, True).
  { intros w1 Hw1. unfold ends, gs_client. by destruct (proj2 Hw1) as [gsc ->]. }
  intros gsc _. apart_steps (@sound_with_gs_apart DB g).
Qed.

Lemma sound_gs_OnOpen g ip w : sound w -> sound (gs_OnOpen e g ip w).2.
Proof.
  intros [H1 H2 H3 H4 H5]. split; try done. intros g' Hin.
  assert (exists gsc, gs_heap (gs_OnOpen e g ip w).2 = <[g := gsc]> (gs_heap w)) as [gsc ->] by (eexists; reflexivity).
  apply elem_of_cons in Hin as [->|Hin]; [rewrite lookup_insert_eq; by eexists|].
  apply list_elem_of_filter in Hin as [_ Hin]. apply lookup_insert_is_Some'. right. by apply H5.
Qed.

Lemma new_client_ok ip addr secret sk key sid : key_ok sk -> client_ok (new_client e ip addr secret sk key sid).
Proof. intros [Hk _]. split_and!; [apply NewCrypt_ok|exact Hk|]. unfold name_ok. cbn [cl_Account new_client]. cbn. lia. Qed.

Lemma sound_OnOpen c ip entropy w :
  is_u32 (e_xor e) -> heap w !! c = None -> sound w -> ends sound (OnOpen cfg e c ip entropy) w (λ _ w', sound w').
Proof.
  intros Hx Hc [H1 H2 H3 H4 H5]. destruct (OnOpen_spec cfg e c ip entropy w Hx H2 H3) as (out & action & w' & E & Ho).
  unfold ends. rewrite E. unfold open_spec in Ho.
  destruct (Allow _ _ _) as [allowed lim]. destruct (IsBanned _ _ _ _) as [banned bm].
  destruct Ho as (_ & _ & (Ht & _ & _ & _ & _ & _ & Er & Ek & Eg & Egc) & Hm).
  assert (heap w' = heap w /\ clients w' = clients w /\ meters w' = meters w -> sound w') as Hsame.
  { intros (Eh & Ec & _). split; rewrite ?Er, ?Ek, ?Eg, ?Egc, ?Ec, ?Eh; try done. by eapply server_ok_same. }
  destruct (allowed && negb banned); [|by apply Hsame; destruct Hm as (_ & _ & ?)].
  destruct (GenerateSessionKey entropy) as [err|key]; [by apply Hsame; destruct Hm as (_ & _ & ?)|].
  destruct (rsaPool w) as [|k0 ks] eqn:Epool; [by apply Hsame; destruct Hm as (_ & _ & ?)|].
  destruct Hm as (data & _ & _ & sk & Hsk & Eh & Ec & _). rewrite Epool in Hsk.
  set (cl := new_client _ _ _ _ _ _ _) in Eh.
  assert (client_ok cl) as Hcl by (apply new_client_ok; by eapply (proj1 (Forall_forall _ _) H2)). clearbody cl.
  assert (forall c', is_Some (heap w !! c') -> is_Some (heap w' !! c')) as Hsome.
  { intros c' Hc'. rewrite Eh. apply lookup_insert_is_Some'. by right. }
  split; [split| | | |]; rewrite ?Er, ?Ek, ?Eg, ?Egc; try done.
  - rewrite Eh. apply map_Forall_insert_2; [done|apply H1].
  - rewrite Ht. eapply Forall_impl; [apply H1|]. intros t [Hpc Hs]. auto.
  - rewrite Ec. intros c' Hin. apply elem_of_cons in Hin as [->|Hin]; [rewrite Eh, lookup_insert_eq; by eexists|].
    apply list_elem_of_filter in Hin as [_ Hin]. auto.
Qed.
End Callbacks.

(** * Runs *)

Lemma keeps_stays {S A} (I : S -> Prop) (P : A -> Prop) (m : M S A) : keeps I P m -> stays I P m.
Proof.
  intros Hm s Hs. specialize (Hm s Hs). unfold ends in Hm.
  destruct (m s) as [[a|err|] s']; [|by split|done]. destruct Hm. split; [done|]. by intros ? [= <-].
Qed.

Lemma stays_run_frames {DB} (I : World DB -> Prop) frm payloads last :
  (forall p, p ∈ payloads -> stays I (λ _, True) (frm (2 + length p)%nat p)) ->
  stays I (λ _, True) last -> stays I (λ _, True) (run_frames frm payloads last).
Proof.
  intros Hf Hl. induction payloads as [|p ps IH]; [done|]. cbn [run_frames].
  eapply stays_bind; [apply Hf; by left|]. intros [] _; [|by apply stays_ret].
  apply IH. intros p' Hp. apply Hf. by right.
Qed.

(** Headers on the wire that announce less than what every frame has. *)
Definition crashing {DB} (i : input) (w : World DB) : Prop :=
  match i with
  | ITraffic c buf =>
    heap w !! c = None \/ exists payloads rest, cut payloads rest buf /\ short rest = true
  | IGsTraffic g buf =>
    gs_heap w !! g = None \/ exists payloads rest, cut payloads rest buf /\ (short rest = true \/ [] ∈ payloads)
  | _ => False
  end.

Section Runs.
Context {DB : Type} `{Bcrypt} `{AccountStore DB} (cfg : Config).
Implicit Type w : World DB.

(** An input that leaves the invariant true, and panics only for a reason. *)
Definition weathers {A} (m : M (World DB) A) w (P : Prop) : Prop := sound (m w).2 /\ (is_panic (m w).1 = true -> P).

Lemma weathers_ends {A} (m : M (World DB) A) w P : ends sound m w (λ _ w', sound w') -> weathers m w P.
Proof. unfold ends, weathers. by destruct (m w) as [[a|err|] w']. Qed.

Lemma weathers_steady {A} (m : M (World DB) A) w P : sound w -> keeps sound (λ _, True) m -> weathers m w P.
Proof. intros Hw Hm. apply weathers_ends. eapply ends_mono; [by apply Hm|]. by intros a w' []. Qed.

Lemma weathers_unit {A} (m : M (World DB) A) w P : weathers m w P -> weathers (_ ← m; mret tt) w P.
Proof. unfold weathers, mbind, M_bind. by destruct (m w) as [[a|err|] w']. Qed.

Lemma weathers_traffic e c buf w :
  env_ok e -> sound w -> weathers (OnTraffic (registry_of cfg e) e c buf) w (crashing (ITraffic c buf) w).
Proof.
  intros He Hw. destruct (heap w !! c) as [cl|] eqn:Hcl.
  2: { unfold weathers, OnTraffic, mbind, M_bind, client. rewrite Hcl. by split; [|left]. }
  destruct (cut_exists buf) as (payloads & rest & Hcut). pose proof Hcut as (_ & Hsz & Hps).
  assert (serving c w) as Hs by (split; [apply Hw|by exists cl]).
  pose proof (routine_shape _ (routine_OnTraffic cfg e c buf) w) as Hsh. unfold registry_of in *.
  unfold weathers. rewrite (OnTraffic_frames cfg e c payloads rest buf w Hcut (proj2 Hs)) in *.
  assert (forall p, p ∈ payloads -> keeps (@serving DB c) (λ _, True)
    (client_frame (client_registry cfg (kick_manager e)) e c (2 + length p)%nat p)) as Hf.
  { intros p Hp. apply keeps_client_frame; [done|]. by eapply (proj1 (Forall_forall _ _)) in Hsz. }
  destruct (partial rest) eqn:Ep.
  - pose proof (keeps_run_frames c _ payloads (mret ANone) Hf ltac:(by apply keeps_ret) w Hs) as Hk.
    pose proof (ends_no_panic _ _ _ _ Hk) as Hn. rewrite Hn. split; [|done].
    eapply sound_shape; [exact Hsh| |done]. unfold ends in Hk.
    destruct (run_frames _ _ _ w) as [[a|err|] w']; [by destruct Hk as [[? _] _]|by destruct Hk|done].
  - split; [|intros _; right; exists payloads, rest; split; [done|by rewrite orb_false_l in Hps]].
    eapply sound_shape; [exact Hsh| |done].
    eapply (stays_run_frames (serving c)); [intros p Hp; by apply keeps_stays, Hf|apply stays_panic|done].
Qed.

Lemma weathers_gs_traffic e g buf w :
  env_ok e -> sound w -> weathers (gs_OnTraffic cfg e g buf) w (crashing (IGsTraffic g buf) w).
Proof.
  intros He Hw. split; [eapply sound_apart; [apply apart_gs_OnTraffic|done]|]. intros Hp.
  destruct (gs_heap w !! g) as [gsc|] eqn:Hg; [|by left]. right.
  destruct (cut_exists buf) as (payloads & rest & Hcut). pose proof Hcut as (_ & Hsz & Hps).
  exists payloads, rest. split; [done|].
  rewrite (gs_OnTraffic_frames cfg e g payloads rest buf w Hcut) in Hp by by exists gsc.
  apply gs_frames_panic in Hp as [?|[w' Hp]]; [by right| |done|by exists gsc|done]. left.
  destruct (partial rest); [done|by rewrite orb_false_l in Hps].
Qed.

Lemma sound_tasks f w :
  sound w -> Forall (λ t, pc_ok t.2 /\ is_Some (heap w !! t.1)) (f (tasks w)) -> sound (upd_tasks f w).
Proof. intros [[H1 _] H2 H3 H4 H5] Hf. by split. Qed.

Lemma weathers_login e n w P : env_ok e -> sound w -> weathers (login_task cfg e n) w P.
Proof.
  intros He Hw. apply weathers_ends. unfold login_task. apply ends_bind, ends_get.
  destruct (tasks w !! n) as [[c pc]|] eqn:Et; [|by apply ends_ret].
  destruct (Forall_lookup_1 _ _ _ _ (proj2 (sound_server w Hw)) Et) as [Hpc Hc]. cbn [fst snd] in *.
  pose proof (keeps_login_step cfg (kick_manager e) c e (proj1 He) pc Hpc w) as Hk.
  specialize (Hk ltac:(split; [apply Hw|done])). apply ends_bind.
  pose proof (shape_login_step cfg e c pc w) as Hsh. unfold ends in *.
  destruct (login_step cfg (kick_manager e) e c pc w) as [[pc'|err|] w']; cbn [snd] in Hsh; [| |done].
  - destruct Hk as [[Hs' Hc'] Hpc']. cbn. apply sound_tasks; [by eapply sound_shape|].
    apply Forall_insert; [apply Hs'|done].
  - destruct Hk. by eapply sound_shape.
Qed.

Lemma weathers_exec e i w :
  env_ok e -> enabled i w = true -> sound w -> weathers (exec cfg e i) w (crashing i w).
Proof.
  intros He Hen Hw. destruct i as [c ip entropy|c buf|c| |n|g ip|g buf|g| |i|i]; cbn [exec enabled] in *.
  - apply weathers_unit, weathers_ends, sound_OnOpen; [apply He|by apply bool_decide_eq_true in Hen|done].
  - by apply weathers_unit, weathers_traffic.
  - apply weathers_steady; [done|apply steady_OnClose].
  - apply weathers_steady; [done|apply steady_OnTick].
  - by apply weathers_login.
  - apply weathers_unit. split; [by apply sound_gs_OnOpen|done].
  - by apply weathers_unit, weathers_gs_traffic.
  - apply weathers_steady; [done|apply steady_gs_OnClose].
  - apply weathers_steady; [done|apply steady_gs_OnTick].
  - apply weathers_steady; [done|]. apply keeps_apart; [exact (@sound_apart DB)|apart_leaf].
  - apply weathers_steady; [done|]. apply keeps_apart; [exact (@sound_apart DB)|apart_leaf].
Qed.

Lemma new_world_sound (s : Startup) (d : DB) keys pool : Forall key_ok pool -> pools_ok keys -> sound (new_world s d keys pool).
Proof.
  intros Hp Hk. split; cbn [new_world rsaPool keyPools clients gs_clients]; try done; try (intros ? Hin; by apply elem_of_nil in Hin).
Qed.

Lemma run_sound ins w w' : Forall (λ t, env_ok t.1) ins -> sound w -> run cfg ins w = Some w' -> sound w'.
Proof.
  intros He. revert w. induction He as [|[e i] ins He _ IH]; intros w Hw; cbn [run]; [by intros [= <-]|].
  destruct (enabled i w) eqn:Hen; [|done]. pose proof (weathers_exec e i w He Hen Hw) as [Hw1 _].
  destruct (exec cfg e i w) as [o w1]. destruct (is_panic o); [done|]. by apply IH.
Qed.

(** The keys [InitRSAPool] makes. *)
Lemma scrambled_length n m : 0 <= n -> fillAndScrambleModulus n = Val m -> length m = RSAModulusSize.
Proof.
  intros Hn. unfold fillAndScrambleModulus. destruct (FillBytes RSAModulusSize n) as [l|err|] eqn:E; [|done..].
  apply SetBytes_FillBytes in E as [_ <-]; [|done]. intros [= <-].
  repeat (match goal with |- length (for_range ?k ?body ?s) = _ =>
    etrans; [apply (for_range_ind (λ _ s', length s' = length s)); [done|];
      intros ? ? _ Hl; unfold xor_at, swap_at; by rewrite ?length_insert|] end). done.
Qed.

Lemma generate_keys_ok gen i n pool :
  (forall n k, gen n = Some k -> rsa_ok k) -> generate_keys gen i n = Val pool -> Forall key_ok pool.
Proof.
  intros Hg. revert i pool. induction n as [|n IH]; intros i pool; cbn [generate_keys]; [by intros [= <-]|].
  destruct (gen i) as [k|] eqn:Ek; [|done]. specialize (Hg i k Ek) as Hk.
  destruct (fillAndScrambleModulus (N k)) as [m|err|] eqn:Em; [|done..].
  destruct (generate_keys gen (i + 1) n) as [rest|err|] eqn:Er; [|done..]. intros [= <-].
  constructor; [|by eapply IH]. split; [exact Hk|].
  eapply scrambled_length; [|exact Em]. destruct (rsa_primes_pos k Hk). rewrite (ok_N k Hk). lia.
Qed.

(** What [main] does before it starts the listeners; [gen] is [rsa.GenerateKey] and
    [entropy] what [rand.Read] delivers. *)
Definition boot (s : Startup) (d : DB) (gen : nat -> option PrivateKey) (entropy : option (list byte))
    : outcome (World DB) :=
  match InitRSAPool gen 32 with
  | Val pool =>
    match GenerateLoginBlowFishKeys entropy zero_pools with
    | Val keys => Val (new_world s d keys pool)
    | Fail err => Fail err
    | Panic => Panic
    end
  | Fail err => Fail err
  | Panic => Panic
  end.

Lemma boot_sound s d gen entropy w :
  (forall n k, gen n = Some k -> rsa_ok k) -> length entropy = 320%nat ->
  boot s d gen (Some entropy) = Val w -> sound w.
Proof.
  intros Hgen He. unfold boot. destruct (InitRSAPool gen 32) as [pool|err|] eqn:Ep; [|done..].
  change (generate_keys gen 0 (Z.to_nat 32) = Val pool) in Ep. intros [= <-].
  apply new_world_sound; [by eapply generate_keys_ok|]. destruct zero_pools_ok as [HL HG].
  split; [|exact HG]. apply (login_pool entropy _ HL He).
Qed.

Lemma boot_empty s d gen entropy w : boot s d gen entropy = Val w -> gs_heap w = ∅.
Proof.
  unfold boot. destruct (InitRSAPool gen 32); [|done..]. destruct (GenerateLoginBlowFishKeys _ _); [|done..].
  by intros [= <-].
Qed.

End Runs.

#[local] Existing Instance plain_bcrypt.
#[local] Existing Instance table_store.

