(* ===== verification/Pool.v ===== *)
(** The pool of packet writers (pkg/network/packet_writer.go) under the goroutines
    that use it: [SendAsync] and [SendAndCloseAsync] (internal/client/client.go),
    [Send] of a game server (gs_client.go) and [OnOpen] (client_listener.go).  The
    other files take a send for one step with an arbitrary writer from the pool;
    here a send is its statements, the backing arrays are in a shared memory, and
    any goroutine may run between two statements of another. *)
From stdpp Require Import base gmap list numbers strings.
From coqutil Require Import Byte Word.LittleEndianList.
From Stdlib Require Import Lia ZArith.
From S2P Require Import Prelude.
From S2P Require Import PacketWriter.
From S2P Require Import PacketCodec.
From S2P Require Import Blowfish.
From S2P Require Import Crypt.
From S2P Require Import Rsa.
From S2P Require Import GsHandlers.
From S2P Require Import Connections.
From S2P Require Import ClientHandlers.
From S2P Require Import Listeners.
From S2P Require Import Safety.
Local Open Scope Z_scope.

(** * Memory

    A slice is the address of its backing array and its length. *)
Abbreviation Loc := positive.
Record goslice := mkSlice { s_arr : Loc; s_len : nat }.
Abbreviation memory := (gmap Loc (list byte)).

(** The writer whose buffer is the slice, and the bytes of the slice. *)
Definition load (mem : memory) (s : goslice) : PacketWriter :=
  {| warr := default [] (mem !! s_arr s); wlen := s_len s |}.
Definition contents (mem : memory) (s : goslice) : list byte := Bytes (load mem s).

(** The buffer becomes [w]: in place if the array has not been replaced by a larger
    one, else in a new array, and what has been written into the old one before it
    was given up is [scratch]. *)
Definition write_back (scratch : list byte) (w : PacketWriter) (s : goslice) (mem : memory) : goslice * memory :=
  if (wcap w =? wcap (load mem s))%nat
  then ({| s_arr := s_arr s; s_len := wlen w |}, <[s_arr s := warr w]> mem)
  else let l := fresh (dom mem) in
       ({| s_arr := l; s_len := wlen w |}, <[l := warr w]> (<[s_arr s := scratch]> mem)).

(** * The goroutines *)

(** What becomes of a packet that is built: [out := append(nil, w.Bytes()...)] and
    [AsyncWrite(out)]; [Write(w.Bytes())]; or [return w.Bytes()], for gnet to write. *)
Inductive delivery := Copied | Written | Returned.

(** A send: the calls on the writer after [GetPacketWriter], and the delivery. *)
Record job := mkJob { build : list (PacketWriter -> outcome PacketWriter); how : delivery }.

Definition of_option {A} (o : option A) : outcome A := match o with Some a => Val a | None => Panic end.

Section Jobs.
Context (e : Env).
Definition write_ops (fields : list field) : list (PacketWriter -> outcome PacketWriter) :=
  (λ f w, Val (write_field (e_grow e) f w)) <$> fields.

(** [SendAsync], [SendAndCloseAsync], [Send] and [OnOpen]. *)
Definition send_job (cr : Crypt.Crypt) (opcode : byte) (fields : list field) : job :=
  {| build := write_ops (FByte opcode :: fields) ++
       [λ w, of_option (snd <$> Encrypt (e_xor e) cr w); PrependLength];
     how := Copied |}.
Definition gs_job (opcode : byte) (fields : list field) : job :=
  {| build := write_ops (FByte opcode :: fields) ++ [PrependLength]; how := Written |}.
Definition open_job (sessionID : Z) (modulus secretKey : list byte) : job :=
  {| build := write_ops (init_fields sessionID modulus secretKey) ++
       [λ w, of_option (EncryptStatic (e_xor e) w); PrependLength];
     how := Returned |}.
End Jobs.

Definition run_calls (ops : list (PacketWriter -> outcome PacketWriter)) (w : PacketWriter) : outcome PacketWriter :=
  foldl (λ o op, match o with Val w => op w | o => o end) (Val w) ops.

(** The packet of a job nobody interferes with, with this writer from the pool. *)
Definition alone (grow : nat -> nat -> nat) (j : job) (pooled : PacketWriter) : outcome PacketWriter :=
  run_calls (build j) (GetPacketWriter grow pooled).

(** Where a goroutine is: before [GetPacketWriter]; with a writer, and the calls it
    has still to make on it; at its deferred [PutPacketWriter]; in gnet, which holds
    the slice [OnOpen] returned; done. *)
Inductive thread :=
| Idle (j : job)
| Building (j : job) (s : goslice) (todo : list (PacketWriter -> outcome PacketWriter))
| Releasing (j : job) (s : goslice)
| InGnet (j : job) (s : goslice)
| Ended (j : job).

Definition job_of (th : thread) : job :=
  match th with Idle j | Building j _ _ | Releasing j _ | InGnet j _ | Ended j => j end.

(** The arrays, the writers in the pool, the goroutines, and the packets gnet was
    given to write, each with its goroutine. *)
Record pool_state := mkPool {
  mem : memory; idle : list Loc; threads : list thread; written : list (nat * list byte) }.

Definition empty_pool : pool_state := {| mem := ∅; idle := []; threads := []; written := [] |}.

Inductive action :=
| Spawn (j : job)
| Step (t : nat) (choice : nat) (scratch : list byte)
| Clear (i : nat).

Section Pool.
Context (grow : nat -> nat -> nat).

(** [packetWriterPool.Get()]: any writer of the pool, or a new one. *)
Definition pool_Get (choice : nat) (p : pool_state) : goslice * pool_state :=
  match idle p !! choice with
  | Some l => ({| s_arr := l; s_len := 0 |},
               {| mem := mem p; idle := delete choice (idle p); threads := threads p; written := written p |})
  | None => let l := fresh (dom (mem p)) in
            ({| s_arr := l; s_len := 0 |},
             {| mem := <[l := warr NewPacketWriter]> (mem p); idle := idle p; threads := threads p;
                written := written p |})
  end.

(** [PutPacketWriter]; a writer without a buffer has an array of its own, of no
    bytes. *)
Definition pool_Put (s : goslice) (p : pool_state) : pool_state :=
  let w := PutPacketWriter (load (mem p) s) in
  let '(s', m) := write_back (default [] (mem p !! s_arr s)) w s (mem p) in
  {| mem := m; idle := s_arr s' :: idle p; threads := threads p; written := written p |}.

Definition set_thread (t : nat) (th : thread) (p : pool_state) : pool_state :=
  {| mem := mem p; idle := idle p; threads := <[t := th]> (threads p); written := written p |}.
Definition set_mem (m : memory) (p : pool_state) : pool_state :=
  {| mem := m; idle := idle p; threads := threads p; written := written p |}.
Definition write (t : nat) (bytes : list byte) (p : pool_state) : pool_state :=
  {| mem := mem p; idle := idle p; threads := threads p; written := written p ++ [(t, bytes)] |}.

(** The next statement of a goroutine; a panic ends the process. *)
Definition advance (t choice : nat) (scratch : list byte) (th : thread) (p : pool_state) : option pool_state :=
  match th with
  | Idle j =>
    let '(s, p) := pool_Get choice p in
    let '(s', m) := write_back scratch (GetPacketWriter grow (load (mem p) s)) s (mem p) in
    Some (set_thread t (Building j s' (build j)) (set_mem m p))
  | Building j s (op :: todo) =>
    match op (load (mem p) s) with
    | Val w => let '(s', m) := write_back scratch w s (mem p) in Some (set_thread t (Building j s' todo) (set_mem m p))
    | _ => None
    end
  | Building j s [] =>
    Some (set_thread t (Releasing j s)
            (match how j with Returned => p | _ => write t (contents (mem p) s) p end))
  | Releasing j s =>
    Some (set_thread t (match how j with Returned => InGnet j s | _ => Ended j end) (pool_Put s p))
  | InGnet j s => Some (set_thread t (Ended j) (write t (contents (mem p) s) p))
  | Ended j => None
  end.

(** Any goroutine may start, any may take its next step, and the garbage collector
    may take a writer out of the pool. *)
Definition pool_step (a : action) (p : pool_state) : option pool_state :=
  match a with
  | Spawn j => Some {| mem := mem p; idle := idle p; threads := threads p ++ [Idle j]; written := written p |}
  | Step t choice scratch => threads p !! t ≫= λ th, advance t choice scratch th p
  | Clear i => Some {| mem := mem p; idle := delete i (idle p); threads := threads p; written := written p |}
  end.
Definition pool_run (acts : list action) (p : pool_state) : option pool_state :=
  foldl (λ o a, o ≫= pool_step a) (Some p) acts.

(** * Who owns an array *)

Definition owns (th : thread) : list Loc :=
  match th with Building _ s _ | Releasing _ s => [s_arr s] | _ => [] end.
Definition owned (p : pool_state) : list Loc := idle p ++ (threads p ≫= owns).

(** A goroutine with a writer has in it what it has built so far, and nothing else. *)
Definition undisturbed (m : memory) (th : thread) : Prop :=
  match th with
  | Building j s todo =>
    exists pooled done, build j = done ++ todo /\ run_calls done (GetPacketWriter grow pooled) = Val (load m s)
  | InGnet j _ => how j = Returned
  | _ => True
  end.

(** A packet that was copied or written out by its goroutine is one the goroutine
    builds alone. *)
Definition own_packet (j : job) (bytes : list byte) : Prop :=
  how j <> Returned -> exists pooled w, alone grow j pooled = Val w /\ bytes = Bytes w.
Definition written_ok (p : pool_state) (x : nat * list byte) : Prop :=
  exists th, threads p !! x.1 = Some th /\ own_packet (job_of th) x.2.

Record isolated (p : pool_state) : Prop := {
  pool_NoDup : NoDup (owned p);
  pool_live l : l ∈ owned p -> l ∈ dom (mem p);
  pool_undisturbed : Forall (undisturbed (mem p)) (threads p);
  pool_written : Forall (written_ok p) (written p) }.

Lemma write_back_spec scratch w s m :
  let '(s', m') := write_back scratch w s m in
  load m' s' = w /\ (s_arr s' = s_arr s \/ s_arr s' ∉ dom m) /\ s_arr s' ∈ dom m' /\ dom m ⊆ dom m' /\
  forall l, l ∈ dom m -> l <> s_arr s -> m' !! l = m !! l.
Proof.
  unfold write_back. destruct (_ =? _)%nat.
  - unfold load. cbn. split_and!; [by rewrite lookup_insert_eq; destruct w|by left|set_solver|set_solver|].
    intros l _ Hne. by rewrite lookup_insert_ne.
  - pose proof (is_fresh (dom m)) as Hf. set (l := fresh (dom m)) in *. unfold load. cbn.
    split_and!; [by rewrite lookup_insert_eq; destruct w|by right|set_solver|set_solver|].
    intros l' Hl' Hne. rewrite !lookup_insert_ne; [done|done|]. by intros ->.
Qed.

(** What a goroutine's statement may do with the arrays. *)
Definition statement (p : pool_state) (t : nat) (th th' : thread) (p' : pool_state) : Prop :=
  threads p' = <[t := th']> (threads p) /\ job_of th' = job_of th /\
  NoDup (idle p' ++ owns th') /\
  (forall l, l ∈ idle p' ++ owns th' -> l ∈ dom (mem p') /\ (l ∈ idle p ++ owns th \/ l ∉ dom (mem p))) /\
  dom (mem p) ⊆ dom (mem p') /\
  (forall l, l ∈ dom (mem p) -> l ∉ idle p ++ owns th -> mem p' !! l = mem p !! l) /\
  undisturbed (mem p') th' /\
  exists new, written p' = written p ++ new /\ Forall (λ x, x.1 = t /\ own_packet (job_of th) x.2) new.

Lemma owned_split p t th : threads p !! t = Some th ->
  owned p ≡ₚ (idle p ++ owns th) ++ (delete t (threads p) ≫= owns).
Proof.
  intros Ht. unfold owned. rewrite <- app_assoc. apply Permutation_app_head. change (owns th ++ (delete t (threads p) ≫= owns))
    with ((th :: delete t (threads p)) ≫= owns). by apply bind_Permutation, delete_Permutation.
Qed.

Lemma delete_insert_thread {A} (t : nat) (x : A) (l : list A) : delete t (<[t := x]> l) = delete t l.
Proof. revert t. induction l as [|y l IH]; intros [|t]; cbn; [done..|]. f_equal. apply IH. Qed.

Lemma elem_of_delete {A} (t t2 : nat) (x : A) (l : list A) : t <> t2 -> l !! t2 = Some x -> x ∈ delete t l.
Proof.
  revert t t2. induction l as [|y l IH]; intros [|t] [|t2] Hne; cbn; try done.
  - apply list_elem_of_lookup_2.
  - intros [= ->]. by left.
  - intros Hx. right. by apply (IH t t2); [congruence|].
Qed.

Lemma undisturbed_frame m m' th :
  (forall l, l ∈ owns th -> m' !! l = m !! l) -> undisturbed m th -> undisturbed m' th.
Proof.
  intros Hm. destruct th as [j|j s todo|j s|j s|j]; cbn; try done. intros (pooled & dn & Hb & Hr).
  exists pooled, dn. split; [done|]. rewrite Hr. unfold load. by rewrite Hm by by left.
Qed.

Lemma statement_ok p t th th' p' :
  isolated p -> threads p !! t = Some th -> statement p t th th' p' -> isolated p'.
Proof.
  intros [HN HL HU HW] Ht (Et & Ej & HN' & Hnew & Hdom & Hframe & Hth' & new & Ew & Hn).
  pose proof (owned_split p t th Ht) as Ho.
  assert (Ht' : threads p' !! t = Some th') by (rewrite Et; apply list_lookup_insert_eq; by eapply lookup_lt_Some).
  pose proof (owned_split p' t th' Ht') as Ho'. rewrite Et, delete_insert_thread in Ho'.
  set (R := delete t (threads p) ≫= owns) in *. rewrite Ho in HN. apply NoDup_app in HN as (_ & Hdis & HNR).
  assert (HR : forall l, l ∈ R -> l ∈ dom (mem p) /\ l ∉ idle p ++ owns th).
  { intros l Hl. split; [apply HL; rewrite Ho; apply elem_of_app; by right|]. intros Hin. by apply (Hdis l). }
  split.
  - rewrite Ho'. apply NoDup_app. split_and!; [done| |done]. intros l Hl HlR. destruct (HR l HlR) as [Hd Hni].
    destruct (Hnew l Hl) as [_ [?|?]]; done.
  - intros l. rewrite Ho', elem_of_app. intros [Hl|Hl]; [by apply Hnew|]. apply Hdom. by apply HR.
  - rewrite Et. apply Forall_lookup. intros t2 th2 Ht2. destruct (decide (t = t2)) as [<-|Hne].
    + rewrite list_lookup_insert_eq in Ht2 by (by eapply lookup_lt_Some). by injection Ht2 as <-.
    + rewrite list_lookup_insert_ne in Ht2 by done.
      eapply undisturbed_frame; [|by eapply Forall_lookup_1]. intros l Hl.
      assert (l ∈ R) as HlR; [|by apply Hframe; apply HR].
      unfold R. apply list_elem_of_bind. exists th2. split; [done|].
      by eapply elem_of_delete.
  - rewrite Ew. apply Forall_app. split.
    + eapply Forall_impl; [exact HW|]. intros [t2 bs] (th2 & Hx & Hp). cbn [fst snd] in *.
      destruct (decide (t = t2)) as [<-|Hne].
      * exists th'. split; [done|]. rewrite Ej. rewrite Ht in Hx. by injection Hx as <-.
      * exists th2. split; [|exact Hp]. cbn [fst]. rewrite Et. rewrite list_lookup_insert_ne; [exact Hx|exact Hne].
    + eapply Forall_impl; [exact Hn|]. intros [t2 bs] [E Hp]. cbn [fst] in E. subst t2.
      exists th'. by rewrite Ej.
Qed.

(** A statement that exchanges the array of one writer, kept by the pool or by the
    goroutine, for what [write_back] makes of it. *)
Lemma statement_store p t th th' p' scratch w (s : goslice) (m : memory) (rest : list Loc) :
  isolated p -> threads p !! t = Some th ->
  (((idle p ++ owns th) ≡ₚ (s_arr s :: rest)) /\ m = mem p \/
   ((idle p ++ owns th) ≡ₚ rest) /\ (s_arr s ∉ dom (mem p)) /\ (exists v, m = <[s_arr s := v]> (mem p))) ->
  ((idle p' ++ owns th') ≡ₚ (s_arr (write_back scratch w s m).1 :: rest)) -> mem p' = (write_back scratch w s m).2 ->
  threads p' = <[t := th']> (threads p) -> job_of th' = job_of th -> written p' = written p ->
  (load (mem p') (write_back scratch w s m).1 = w -> undisturbed (mem p') th') ->
  statement p t th th' p'.
Proof.
  intros [HN HL HU _] Ht Hold Hnew Em Et Ej Ew Hth'. pose proof (write_back_spec scratch w s m) as Hs.
  destruct (write_back scratch w s m) as [s' m']. cbn [fst snd] in *. destruct Hs as (Hload & Harr & Hin & Hdom & Hkeep).
  rewrite (owned_split p t th Ht) in HN. apply NoDup_app in HN as (HN & _ & _).
  assert (Hlive : forall l, l ∈ idle p ++ owns th -> l ∈ dom (mem p)).
  { intros l Hl. apply HL. rewrite (owned_split p t th Ht). apply elem_of_app. by left. }
  assert (Hm : dom (mem p) ⊆ dom m /\ (forall l, l ∈ dom (mem p) -> l <> s_arr s \/ m = mem p -> m !! l = mem p !! l)).
  { destruct Hold as [[_ ->]|(_ & Hf & v & ->)]; [done|].
    split; [rewrite dom_insert; apply union_subseteq_r|]. intros l Hl _.
    rewrite lookup_insert_ne; [done|]. intros E. by rewrite E in Hf. }
  destruct Hm as [Hm1 Hm2].
  assert (Hrest : NoDup rest /\ (forall l, l ∈ rest -> l ∈ dom (mem p)) /\ s_arr s ∉ rest).
  { destruct Hold as [[Hp _]|(Hp & Hf & _)]; rewrite Hp in HN; setoid_rewrite Hp in Hlive.
    - apply NoDup_cons in HN as [? ?]. split_and!; [done| |done]. intros l Hl. apply Hlive. by right.
    - split_and!; [done|done|]. auto. }
  destruct Hrest as (HNr & Hlr & Hsr).
  assert (Hsub : forall l, l ∈ rest -> l ∈ idle p ++ owns th).
  { intros l Hl. destruct Hold as [[Hp _]|(Hp & _)]; rewrite Hp; [by right|done]. }
  unfold statement. rewrite Et, Ej, Ew, Em. split_and!; [done|done| | | | | |].
  - rewrite Hnew. apply NoDup_cons. split; [|done]. destruct Harr as [->|Hf]; [done|]. intros Hx. apply Hf, Hm1. auto.
  - intros l. rewrite Hnew, elem_of_cons. intros [->|Hl].
    + split; [done|]. destruct Harr as [->|Hf]; [|right; auto].
      destruct Hold as [[Hp _]|(_ & Hf & _)]; [left; rewrite Hp; by left|by right].
    + split; [apply Hdom, Hm1; auto|left; auto].
  - by etransitivity.
  - intros l Hl Hno. assert (Hne : l <> s_arr s \/ m = mem p).
    { destruct Hold as [[Hp ->]|(_ & Hf & _)]; [by right|left; by intros ->]. }
    rewrite Hkeep; [by apply Hm2|auto|]. intros ->. destruct Hold as [[Hp _]|(_ & Hf & _)]; [|done].
    apply Hno. rewrite Hp. by left.
  - rewrite <- Em. apply Hth'. by rewrite Em.
  - exists []. by rewrite app_nil_r.
Qed.

(** A statement that leaves the arrays alone. *)
Lemma statement_write p t th th' p' new :
  isolated p -> threads p !! t = Some th ->
  mem p' = mem p -> idle p' = idle p -> owns th' = owns th ->
  threads p' = <[t := th']> (threads p) -> job_of th' = job_of th -> undisturbed (mem p) th' ->
  written p' = written p ++ new -> Forall (λ x, x.1 = t /\ own_packet (job_of th) x.2) new ->
  statement p t th th' p'.
Proof.
  intros [HN HL _ _] Ht Em Ei Eo Et Ej Hth' Ew Hn. pose proof (owned_split p t th Ht) as Ho.
  rewrite Ho in HN. apply NoDup_app in HN as (HN & _ & _).
  unfold statement. rewrite Em, Ei, Eo. split_and!; [done|done|done| |done|done|done|by exists new].
  intros l Hl. split; [|by left]. apply HL. rewrite Ho. apply elem_of_app. by left.
Qed.

Lemma advance_statement t choice scratch th p p' :
  isolated p -> threads p !! t = Some th -> advance t choice scratch th p = Some p' ->
  exists th', statement p t th th' p'.
Proof.
  intros Hok Ht Ha. pose proof (Forall_lookup_1 _ _ _ _ (pool_undisturbed p Hok) Ht) as Hund.
  destruct th as [j|j s [|op todo]|j s|j s|j]; cbn [advance] in Ha; [| | | | |done].
  - unfold pool_Get in Ha. destruct (idle p !! choice) as [l|] eqn:El.
    + cbn [mem set_mem] in Ha. set (w0 := GetPacketWriter grow (load _ _)) in Ha.
      destruct (write_back _ _ _ _) as [s' m] eqn:Es in Ha. injection Ha as <-. exists (Building j s' (build j)).
      eapply (statement_store p t (Idle j) _ _ scratch w0 {| s_arr := l; s_len := 0 |} (mem p) (delete choice (idle p)));
        rewrite ?Es; try done.
      * left. split; [|done]. cbn. rewrite app_nil_r. by apply delete_Permutation.
      * cbn. by rewrite Permutation_app_comm.
      * cbn. intros Hl. eexists _, []. split; [done|]. by rewrite Hl.
    + cbn [mem set_mem] in Ha. set (w0 := GetPacketWriter grow (load _ _)) in Ha.
      destruct (write_back _ _ _ _) as [s' m] eqn:Es in Ha. injection Ha as <-. exists (Building j s' (build j)).
      eapply (statement_store p t (Idle j) _ _ scratch w0 {| s_arr := fresh (dom (mem p)); s_len := 0 |}
        (<[fresh (dom (mem p)) := warr NewPacketWriter]> (mem p)) (idle p)); rewrite ?Es; try done.
      * right. split; [by rewrite app_nil_r|]. split; [apply is_fresh|by eexists].
      * cbn. by rewrite Permutation_app_comm.
      * cbn. intros Hl. eexists _, []. split; [done|]. by rewrite Hl.
  - injection Ha as <-. exists (Releasing j s). destruct Hund as (pooled & dn & Hb & Hr).
    rewrite app_nil_r in Hb.
    assert (own_packet j (contents (mem p) s)) as Hp.
    { intros _. exists pooled, (load (mem p) s). split; [|done]. unfold alone. by rewrite Hb. }
    destruct (how j) eqn:Eh;
      [eapply (statement_write _ _ _ _ _ [(t, contents (mem p) s)])|eapply (statement_write _ _ _ _ _ [(t, contents (mem p) s)])
      |eapply (statement_write _ _ _ _ _ [])]; try done; try (by repeat constructor); by rewrite app_nil_r.
  - destruct (op (load (mem p) s)) as [w|err|] eqn:Eo; [|done..].
    destruct (write_back _ _ _ _) as [s' m] eqn:Es in Ha. injection Ha as <-. exists (Building j s' todo).
    eapply (statement_store p t (Building j s (op :: todo)) _ _ scratch w s (mem p) (idle p)); rewrite ?Es; try done.
    + left. split; [|done]. by rewrite Permutation_app_comm.
    + cbn. by rewrite Permutation_app_comm.
    + cbn. intros Hl. destruct Hund as (pooled & dn & Hb & Hr). exists pooled, (dn ++ [op]).
      split; [by rewrite Hb, <- app_assoc|]. unfold run_calls in *. rewrite foldl_app, Hr. cbn. by rewrite Eo, Hl.
  - injection Ha as <-. exists (match how j with Returned => InGnet j s | _ => Ended j end). unfold pool_Put.
    destruct (write_back _ _ _ _) as [s' m] eqn:Es.
    eapply (statement_store p t (Releasing j s) _ _ (default [] (mem p !! s_arr s)) (PutPacketWriter (load (mem p) s))
      s (mem p) (idle p)); rewrite ?Es; try done.
    + left. split; [|done]. by rewrite Permutation_app_comm.
    + cbn. by destruct (how j); rewrite app_nil_r.
    + by destruct (how j).
    + intros _. by destruct (how j) eqn:Eh.
  - injection Ha as <-. exists (Ended j).
    eapply (statement_write _ _ _ _ _ [(t, contents (mem p) s)]); try done. repeat constructor. by intros Hn.
Qed.

Lemma isolated_step a p p' : isolated p -> pool_step a p = Some p' -> isolated p'.
Proof.
  intros Hok. destruct a as [j|t choice scratch|i]; cbn [pool_step].
  - destruct Hok as [HN HL HU HW]. intros [= <-].
    assert (Eo : owned {| mem := mem p; idle := idle p; threads := threads p ++ [Idle j]; written := written p |} = owned p).
    { unfold owned. cbn. rewrite bind_app. cbn. by rewrite app_nil_r. }
    split; rewrite ?Eo; try done; cbn.
    + apply Forall_app. split; [done|]. by repeat constructor.
    + eapply Forall_impl; [exact HW|]. intros x (th & Hx & Hp). exists th. split; [|done].
      by apply lookup_app_l_Some.
  - destruct (threads p !! t) as [th|] eqn:Ht; [|done]. cbn. intros Ha.
    destruct (advance_statement t choice scratch th p p' Hok Ht Ha) as [th' Hm]. by eapply statement_ok.
  - destruct Hok as [HN HL HU HW]. intros [= <-]. 
    assert (Hs : delete i (idle p) ++ (threads p ≫= owns) `sublist_of` owned p).
    { apply sublist_app; [apply sublist_delete|done]. }
    split; cbn; [by eapply sublist_NoDup| |done|done].
    intros l Hl. apply HL. by eapply elem_of_sublist.
Qed.

Lemma isolated_empty : isolated empty_pool.
Proof. split; [constructor|by intros l ?%elem_of_nil|constructor|constructor]. Qed.

Lemma isolated_run acts p p' : isolated p -> pool_run acts p = Some p' -> isolated p'.
Proof.
  unfold pool_run. revert p. induction acts as [|a acts IH]; intros p Hok; cbn; [by intros [= <-]|].
  destruct (pool_step a p) as [p1|] eqn:Ea; [|].
  - apply IH. by eapply isolated_step.
  - intros Hr. exfalso. clear -Hr. induction acts as [|a acts IH]; [done|auto].
Qed.
End Pool.

(** * What is delivered *)

Lemma run_calls_app ops1 ops2 w :
  run_calls (ops1 ++ ops2) w = match run_calls ops1 w with Val w1 => run_calls ops2 w1 | o => o end.
Proof.
  unfold run_calls. rewrite foldl_app. destruct (foldl _ (Val w) ops1) as [w1|err|]; [done| |];
    (induction ops2 as [|op ops2 IH]; [done|exact IH]).
Qed.

Lemma run_write_ops e fs w :
  run_calls (write_ops e fs) w = Val (foldl (λ w f, write_field (e_grow e) f w) w fs).
Proof. unfold run_calls, write_ops. revert w. induction fs as [|f fs IH]; intros w; [done|]. cbn. apply IH. Qed.

(** The environment of a send that gets this writer from the pool. *)
Definition with_pool (pooled : PacketWriter) (e : Env) : Env :=
  {| e_now := e_now e; e_grow := e_grow e; e_pool := λ _, pooled; e_buf := e_buf e; e_xor := e_xor e;
     e_write := e_write e; e_close := e_close e; e_order := e_order e; e_salt := e_salt e |}.

Lemma send_alone e cr opcode fields pooled w :
  alone (e_grow e) (send_job e cr opcode fields) pooled = Val w ->
  exists cr', encrypt_packet (with_pool pooled e) cr (FByte opcode :: fields) = Val (cr', Bytes w).
Proof.
  unfold alone, encrypt_packet. cbn [build send_job e_grow e_pool e_xor with_pool].
  rewrite run_calls_app, run_write_ops. set (w0 := foldl _ _ _). unfold run_calls. cbn [foldl].
  destruct (Encrypt _ _ _) as [[cr' w1]|]; [|done]. cbn. intros ->. by exists cr'.
Qed.

Lemma gs_alone e opcode fields pooled :
  alone (e_grow e) (gs_job e opcode fields) pooled = build_packet (e_grow e) pooled (FByte opcode :: fields).
Proof. unfold alone, build_packet. cbn [build gs_job]. by rewrite run_calls_app, run_write_ops. Qed.

(** C10: the pool keeps the writers of concurrent sends apart: however the goroutines
    of the server are interleaved, statement by statement, and whatever the garbage
    collector takes out of the pool, no two of them, nor a goroutine and the pool, ever
    have the same backing array; so every packet that reaches the network from
    [SendAsync], [SendAndCloseAsync] or a game server's [Send] is the one that the
    send, taken as a single step with some writer from the pool, builds. *)
Theorem pool_isolates e acts p :
  pool_run (e_grow e) acts empty_pool = Some p ->
  NoDup (owned p) /\
  forall t data th, (t, data) ∈ written p -> threads p !! t = Some th ->
    (forall cr opcode fields, job_of th = send_job e cr opcode fields ->
       exists pooled cr', encrypt_packet (with_pool pooled e) cr (FByte opcode :: fields) = Val (cr', data)) /\
    (forall opcode fields, job_of th = gs_job e opcode fields ->
       exists pooled w, build_packet (e_grow e) pooled (FByte opcode :: fields) = Val w /\ data = Bytes w).
Proof.
  intros Hr. destruct (isolated_run _ acts _ p (isolated_empty _) Hr) as [HN _ _ HW]. split; [done|].
  intros t data th Hin Ht. eapply Forall_forall in HW as (th' & Ht' & Hp); [|exact Hin]. cbn [fst snd] in *.
  rewrite Ht in Ht'. injection Ht' as <-.
  split; [intros cr opcode fields Ej|intros opcode fields Ej]; rewrite Ej in Hp; destruct Hp as (pooled & w & E & ->); try done.
  - exists pooled. by apply send_alone.
  - exists pooled, w. by rewrite <- gs_alone.
Qed.

(** * Building in place

    Statements on a writer that leave it in its array. *)
Fixpoint in_place (ops : list (PacketWriter -> outcome PacketWriter)) (w w' : PacketWriter) : Prop :=
  match ops with
  | [] => w = w'
  | op :: ops => exists w1, op w = Val w1 /\ wcap w1 = wcap w /\ in_place ops w1 w'
  end.

Lemma in_place_app ops1 ops2 w w1 w' : in_place ops1 w w1 -> in_place ops2 w1 w' -> in_place (ops1 ++ ops2) w w'.
Proof.
  revert w. induction ops1 as [|op ops1 IH]; intros w; cbn; [by intros ->|].
  intros (w2 & E & Hc & Hs) Hs2. exists w2. auto.
Qed.

Lemma in_place_run ops w w' : in_place ops w w' -> run_calls ops w = Val w'.
Proof.
  unfold run_calls. revert w. induction ops as [|op ops IH]; intros w; cbn; [by intros ->|].
  intros (w1 & E & _ & Hs). rewrite E. by apply IH.
Qed.

Lemma in_place_wcap ops w w' : in_place ops w w' -> wcap w' = wcap w.
Proof.
  revert w. induction ops as [|op ops IH]; intros w; cbn; [by intros ->|].
  intros (w1 & _ & Hc & Hs). rewrite <- Hc. by apply IH.
Qed.

(** The fields of a fixed size. *)
Definition sized (f : field) : Prop := match f with FString _ => False | _ => True end.

Lemma append_in_place grow bs w :
  (wlen w + length bs <= wcap w)%nat -> wcap (append grow bs w) = wcap w /\ wlen (append grow bs w) = (wlen w + length bs)%nat.
Proof.
  intros Hl. unfold append. destruct (Nat.leb_spec (wlen w + length bs) (wcap w)); [|lia].
  unfold wcap in *. cbn. by rewrite length_splice by lia.
Qed.

Lemma write_uint_in_place grow k v w :
  (wlen w + k <= wcap w)%nat ->
  wcap (write_uint grow k v w) = wcap w /\ wlen (write_uint grow k v w) = (wlen w + k)%nat.
Proof.
  intros Hl. assert (length (zeros k) = k) as Hk by apply length_replicate.
  destruct (append_in_place grow (zeros k) w) as [Hc Hw]; [by rewrite Hk|]. rewrite Hk in Hw. unfold write_uint, put_uint, wcap in *. cbn.
  rewrite length_splice by (rewrite length_le_split; lia). by rewrite Hc, Hw.
Qed.

Lemma write_field_in_place grow f w :
  sized f -> (wlen w + length (field_bytes f) <= wcap w)%nat ->
  wcap (write_field grow f w) = wcap w /\ wlen (write_field grow f w) = (wlen w + length (field_bytes f))%nat.
Proof.
  intros Hf. destruct f; cbn [write_field field_bytes]; rewrite ?length_le_split; intros Hl; try done;
    (by apply append_in_place) || (by apply write_uint_in_place).
Qed.

Lemma write_ops_in_place e fs w :
  Forall sized fs -> (wlen w + length (fs ≫= field_bytes) <= wcap w)%nat ->
  let w' := foldl (λ w f, write_field (e_grow e) f w) w fs in in_place (write_ops e fs) w w' /\ wcap w' = wcap w.
Proof.
  revert w. induction fs as [|f fs IH]; intros w Hf Hl; [done|]. apply Forall_cons in Hf as [Hf1 Hf].
  cbn [mbind list_bind] in Hl. rewrite length_app in Hl.
  destruct (write_field_in_place (e_grow e) f w Hf1) as [Hc Hw]; [lia|].
  destruct (IH (write_field (e_grow e) f w)) as [Hs Hc']; [done|rewrite Hc, Hw; unfold mbind in *; lia|].
  cbn. split; [|by rewrite Hc']. by exists (write_field (e_grow e) f w).
Qed.

Lemma Get_in_place grow pooled : (2 <= wcap pooled)%nat -> wcap (GetPacketWriter grow pooled) = wcap pooled.
Proof.
  intros Hl. unfold GetPacketWriter, Reserve. destruct (Nat.ltb_spec (wcap (reset pooled) - wlen (reset pooled)) 2);
    [unfold wcap in *; cbn in *; lia|].
  apply (append_in_place grow [Byte.x00; Byte.x00] (reset pooled)). unfold wcap in *. cbn in *. lia.
Qed.

Lemma PrependLength_in_place w w' : PrependLength w = Val w' -> wcap w' = wcap w /\ wlen w' = wlen w.
Proof.
  unfold PrependLength. destruct (_ >? _); [done|]. destruct (Nat.ltb_spec (wcap w) 2); [done|]. intros [= <-].
  unfold put_uint, wcap in *. cbn [warr wlen]. rewrite length_splice by (rewrite length_le_split; lia). done.
Qed.

Lemma EncryptStatic_in_place x w w' :
  writer_ok w -> (2 <= wlen w)%nat -> (wlen w + grown_by 16 w <= wcap w)%nat ->
  Z.of_nat (wlen w) + 24 < 2 ^ 32 -> is_u32 x ->
  EncryptStatic x w = Some w' -> wcap w' = wcap w /\ wlen w' = (wlen w + grown_by 16 w)%nat.
Proof.
  intros Hw H2 Hfit Hb Hx. rewrite EncryptStatic_Encrypt, Encrypt_grown by done. cbn [updatedKey negb cipher]. cbn zeta.
  destruct (grown_body 16 w Hw H2) as (st & _ & _ & _ & Hal & Hl & Ho & _).
  destruct (grown_spec 16 w Hw) as (st' & _ & _ & _ & _ & Hfits). destruct (Hfits Hfit) as [Ha _].
  pose proof (padding_lt (wlen w - 2 + 16)) as Hpad. unfold grown_by in Hl, Hfit.
  assert (length (drop 2 (Bytes (grown 16 w))) = (wlen (grown 16 w) - 2)%nat) as Hld
    by (rewrite length_drop, length_Bytes; done).
  destruct (encXorPass_aligned (drop 2 (Bytes (grown 16 w))) x) as (data & Hd & Hdl & _);
    [rewrite Hld; done|lia|lia|done|].
  rewrite u32_small by (unfold is_u32; lia). rewrite Hd.
  cbn [mbind option_bind fmap option_fmap option_map].
  destruct (CipherRange_inverse staticCipher data 0 (Z.of_nat (length (drop 2 (Bytes (grown 16 w))))) staticCipher_ok)
    as (data' & E & Hdl' & _); [unfold is_i64; lia..|lia|].
  rewrite E. cbn [mbind option_bind fmap option_fmap option_map snd]. intros [= <-].
  unfold wcap, store_data in *. cbn [warr wlen]. rewrite Ha. split; [|done].
  apply length_splice. rewrite Hdl', Hdl, Hld, Hl. lia.
Qed.

Lemma static_packet_pool e pooled fs w :
  is_u32 (e_xor e) -> Z.of_nat (packet_size fs) <= 65500 ->
  w = foldl (λ w f, write_field (e_grow e) f w) (GetPacketWriter (e_grow e) pooled) fs ->
  exists w1 w2 plain, EncryptStatic (e_xor e) w = Some w1 /\ PrependLength w1 = Val w2 /\
    peer_reads static_crypt (Bytes w2) = Some plain /\ take (length (fs ≫= field_bytes)) plain = fs ≫= field_bytes.
Proof. intros Hx Hsz ->. exact (static_packet (with_pool pooled e) fs Hx Hsz). Qed.

(** The calls on the writer of an Init packet: a new writer has room for all of them. *)
Lemma open_in_place e sid modulus secret pooled :
  is_u32 (e_xor e) -> length modulus = RSAModulusSize -> length secret = 16%nat -> wcap pooled = defaultWriterCap ->
  let w := GetPacketWriter (e_grow e) pooled in
  exists w', in_place (build (open_job e sid modulus secret)) w w' /\ wcap w = defaultWriterCap /\
    wlen w' = 194%nat /\
    carries static_crypt (Bytes w') ServerInit (tail (init_fields sid modulus secret)).
Proof.
  intros Hx Hm Hs Hp w. assert (wcap w = defaultWriterCap) as Hc.
  { unfold w. rewrite Get_in_place; [done|]. rewrite Hp. unfold defaultWriterCap. lia. }
  set (fs := init_fields sid modulus secret).
  pose proof (init_packet_size sid modulus secret Hm Hs) as Hsz. fold fs in Hsz.
  destruct (fields_writer (e_grow e) pooled fs) as (Hok & Hlen & _).
  fold w in Hok, Hlen.
  destruct (write_ops_in_place e fs w) as [Hst Hc1].
  { unfold fs, init_fields. repeat constructor. }
  { rewrite Hc. unfold packet_size in Hsz. unfold w. pose proof (GetPacketWriter_spec (e_grow e) pooled) as [Hb Ho].
    rewrite <- (length_Bytes _ Ho), Hb. cbn [length]. unfold defaultWriterCap. lia. }
  destruct (static_packet_pool e pooled fs _ Hx ltac:(lia) eq_refl) as (w1 & w2 & plain & E1 & E2 & Hplain & Ht).
  fold w in E1. remember (foldl _ w fs) as w0 eqn:Ew0. clear Ew0. rewrite Hsz in Hlen.
  assert (grown_by 16 w0 = 22%nat) as Hg by (unfold grown_by; by rewrite Hlen).
  destruct (EncryptStatic_in_place (e_xor e) w0 w1) as [Hc2 Hl2]; try done; try (rewrite ?Hg, ?Hc1, ?Hc, Hlen; unfold defaultWriterCap; lia).
  destruct (PrependLength_in_place w1 w2 E2) as [Hc3 Hl3].
  exists w2. split_and!; [|done|rewrite Hl3, Hl2, Hg; lia|by exists plain].
  cbn [build open_job]. fold fs. eapply in_place_app; [exact Hst|]. cbn [in_place]. exists w1. rewrite E1.
  split_and!; [done|done|]. exists w2. by rewrite E2.
Qed.

Section Schedule.
Context (grow : nat -> nat -> nat).

Lemma pool_run_app acts1 acts2 p :
  pool_run grow (acts1 ++ acts2) p = pool_run grow acts1 p ≫= pool_run grow acts2.
Proof.
  unfold pool_run. rewrite foldl_app. destruct (foldl _ _ acts1) as [p1|]; [done|]. cbn.
  induction acts2 as [|a acts2 IH]; [done|exact IH].
Qed.
Lemma pool_run_cons a acts p : pool_run grow (a :: acts) p = pool_step grow a p ≫= pool_run grow acts.
Proof. change (a :: acts) with ([a] ++ acts). by rewrite pool_run_app. Qed.

Lemma write_back_in_place scratch w s m :
  wcap w = wcap (load m s) -> write_back scratch w s m = ({| s_arr := s_arr s; s_len := wlen w |}, <[s_arr s := warr w]> m).
Proof. intros E. unfold write_back. by rewrite E, Nat.eqb_refl. Qed.

Lemma load_insert (m : memory) l w : load (<[l := warr w]> m) {| s_arr := l; s_len := wlen w |} = w.
Proof. unfold load. cbn. rewrite lookup_insert_eq. by destruct w. Qed.

(** A goroutine that is let run builds its packet in the array it has. *)
Lemma building_run ops p t j s w' :
  threads p !! t = Some (Building j s ops) -> is_Some (mem p !! s_arr s) -> in_place ops (load (mem p) s) w' ->
  pool_run grow (replicate (length ops) (Step t 0 [])) p
    = Some (set_thread t (Building j {| s_arr := s_arr s; s_len := wlen w' |} [])
             (set_mem (<[s_arr s := warr w']> (mem p)) p)).
Proof.
  revert p s. induction ops as [|op ops IH]; intros p s Ht [a Ha]; cbn [in_place length replicate].
  - intros <-. unfold load. rewrite Ha. cbn. unfold set_thread, set_mem. destruct p; cbn in *.
    rewrite insert_id by done. rewrite list_insert_id by (by destruct s). done.
  - intros (w1 & E & Hc & Hs). rewrite pool_run_cons. cbn [pool_step]. rewrite Ht. cbn [mbind option_bind advance].
    rewrite E, write_back_in_place by done. cbn [mbind option_bind].
    rewrite (IH _ {| s_arr := s_arr s; s_len := wlen w1 |}); cbn [mem threads set_thread set_mem s_arr].
    + unfold set_thread, set_mem. cbn. by rewrite insert_insert_eq, list_insert_insert_eq.
    + apply list_lookup_insert_eq. by eapply lookup_lt_Some.
    + by rewrite lookup_insert_eq.
    + by rewrite load_insert.
Qed.

(** From [GetPacketWriter] to the packet. *)
Lemma send_run p t j s p1 w' :
  threads p !! t = Some (Idle j) -> pool_Get 0 p = (s, p1) ->
  let w := load (mem p1) s in
  wcap (GetPacketWriter grow w) = wcap w -> in_place (build j) (GetPacketWriter grow w) w' ->
  pool_run grow (replicate (S (length (build j))) (Step t 0 [])) p
    = Some (set_thread t (Building j {| s_arr := s_arr s; s_len := wlen w' |} [])
             (set_mem (<[s_arr s := warr w']> (mem p1)) p1)).
Proof.
  intros Ht Hg w Hc Hs. cbn [replicate]. rewrite pool_run_cons. cbn [pool_step]. rewrite Ht.
  cbn [mbind option_bind advance]. rewrite Hg. fold w. rewrite write_back_in_place by done. cbn [mbind option_bind].
  assert (threads p1 = threads p) as Et.
  { unfold pool_Get in Hg. destruct (idle p !! 0%nat); by injection Hg as _ <-. }
  rewrite (building_run (build j) _ t j {| s_arr := s_arr s; s_len := wlen (GetPacketWriter grow w) |} w');
    cbn [mem threads set_thread set_mem s_arr].
  - unfold set_thread, set_mem. cbn. by rewrite insert_insert_eq, list_insert_insert_eq.
  - rewrite Et. apply list_lookup_insert_eq. by eapply lookup_lt_Some.
  - by rewrite lookup_insert_eq.
  - by rewrite load_insert.
Qed.

(** The schedule: the first goroutine gives its writer back, the second gets it, and
    gnet writes what the first has returned. *)
Definition overwriting (j1 j2 : job) : list action :=
  [Spawn j1; Spawn j2] ++ replicate (S (length (build j1))) (Step 0 0 []) ++ [Step 0 0 []; Step 0 0 []] ++
  replicate (S (length (build j2))) (Step 1 0 []) ++ [Step 0 0 []; Step 1 0 []; Step 1 0 []; Step 1 0 []].

Lemma first_send l ths j th w1 :
  l = fresh (dom (∅ : memory)) -> ths = [Idle j; th] ->
  wcap (GetPacketWriter grow NewPacketWriter) = defaultWriterCap ->
  in_place (build j) (GetPacketWriter grow NewPacketWriter) w1 ->
  pool_run grow (replicate (S (length (build j))) (Step 0 0 [])) (mkPool ∅ [] ths [])
    = Some (mkPool (<[l := warr w1]> ∅) [] [Building j {| s_arr := l; s_len := wlen w1 |} []; th] []).
Proof.
  intros -> -> Hc Hs. set (l := fresh (dom (∅ : memory))).
  pose proof (load_insert ∅ l NewPacketWriter) as Hl. change (wlen NewPacketWriter) with 0%nat in Hl.
  rewrite (send_run _ 0 j {| s_arr := l; s_len := 0 |} (mkPool (<[l := warr NewPacketWriter]> ∅) [] [Idle j; th] []) w1);
    cbn [mem s_arr]; [|reflexivity|reflexivity|rewrite Hl; exact Hc|rewrite Hl; exact Hs].
  unfold set_thread, set_mem. cbn [mem idle threads written]. by rewrite insert_insert_eq.
Qed.

Lemma pool_Put_kept l w p :
  mem p = <[l := warr w]> ∅ -> wcap w = defaultWriterCap -> pool_Put {| s_arr := l; s_len := wlen w |} p
    = {| mem := <[l := warr w]> ∅; idle := l :: idle p; threads := threads p; written := written p |}.
Proof.
  intros Hm Hc. unfold pool_Put. rewrite Hm, load_insert.
  assert (PutPacketWriter w = reset w) as Ep by (unfold PutPacketWriter; by rewrite Hc).
  rewrite Ep, write_back_in_place by (by rewrite load_insert). cbn. by rewrite insert_insert_eq.
Qed.

(** The second goroutine's send, while gnet has the first one's slice. *)
Lemma second_send l j1 j2 s w1 w2 :
  wcap (GetPacketWriter grow (reset w1)) = wcap w1 -> in_place (build j2) (GetPacketWriter grow (reset w1)) w2 ->
  pool_run grow (replicate (S (length (build j2))) (Step 1 0 []))
      (mkPool (<[l := warr w1]> ∅) [l] [InGnet j1 s; Idle j2] [])
    = Some (mkPool (<[l := warr w2]> ∅) [] [InGnet j1 s; Building j2 {| s_arr := l; s_len := wlen w2 |} []] []).
Proof.
  intros Hc Hs. assert (load (<[l := warr w1]> ∅) {| s_arr := l; s_len := 0 |} = reset w1) as Hl.
  { unfold load. cbn. by rewrite lookup_insert_eq. }
  rewrite (send_run _ 1 j2 {| s_arr := l; s_len := 0 |} (mkPool (<[l := warr w1]> ∅) [] [InGnet j1 s; Idle j2] []) w2);
    cbn [mem s_arr]; [|reflexivity|reflexivity|rewrite Hl; exact Hc|rewrite Hl; exact Hs].
  unfold set_thread, set_mem. cbn [mem idle threads written]. by rewrite insert_insert_eq.
Qed.

Local Ltac stmts :=
  unfold set_thread, write;
  cbn [pool_step threads lookup list_lookup mbind option_bind advance write set_thread mem idle written insert list_insert app].
Local Ltac stmt := rewrite ?pool_run_cons; try change (pool_run grow [] ?p) with (Some p); stmts.

Lemma overwriting_run j1 j2 w1 w2 :
  how j1 = Returned -> how j2 = Returned ->
  wcap (GetPacketWriter grow NewPacketWriter) = defaultWriterCap ->
  in_place (build j1) (GetPacketWriter grow NewPacketWriter) w1 -> wcap w1 = defaultWriterCap ->
  wcap (GetPacketWriter grow (reset w1)) = wcap w1 ->
  in_place (build j2) (GetPacketWriter grow (reset w1)) w2 -> wcap w2 = defaultWriterCap -> wlen w2 = wlen w1 ->
  exists p, pool_run grow (overwriting j1 j2) empty_pool = Some p /\
    threads p = [Ended j1; Ended j2] /\ written p = [(0%nat, Bytes w2); (1%nat, Bytes w2)].
Proof.
  intros Hj1 Hj2 Hg1 Hs1 Hc1 Hg2 Hs2 Hc2 Hl. unfold overwriting. set (l := fresh (dom (∅ : memory))).
  rewrite pool_run_app. change (pool_run grow [Spawn j1; Spawn j2] empty_pool) with (Some (mkPool ∅ [] [Idle j1; Idle j2] [])).
  cbn [mbind option_bind]. rewrite pool_run_app, (first_send l _ j1 (Idle j2) w1) by done. cbn [mbind option_bind].
  rewrite pool_run_app. stmt. rewrite Hj1. stmt. rewrite Hj1, (pool_Put_kept l w1) by done. stmt.
  stmt. rewrite pool_run_app, (second_send l j1 j2 _ w1 w2) by done. stmts.
  stmt. rewrite <- Hl. unfold contents. rewrite load_insert. stmt. rewrite Hj2. stmt. rewrite Hj2, (pool_Put_kept l w2) by done. stmt.
  unfold contents. rewrite load_insert. eexists. split; [reflexivity|]. done.
Qed.
End Schedule.

(** C29: an Init packet may reach a client with another connection's keys in it:
    [OnOpen] returns the bytes of a pooled writer that its deferred [PutPacketWriter]
    has already given back when gnet writes them; if a second connection is opened on
    another event loop in between, the first client is sent, as its whole Init packet,
    the session id, the RSA modulus and the cipher key of the second. *)
Theorem init_packet_overwritten e1 e2 sid1 modulus1 secret1 sid2 modulus2 secret2 :
  e_grow e2 = e_grow e1 -> is_u32 (e_xor e1) -> is_u32 (e_xor e2) ->
  length modulus1 = RSAModulusSize -> length secret1 = 16%nat ->
  length modulus2 = RSAModulusSize -> length secret2 = 16%nat ->
  let j1 := open_job e1 sid1 modulus1 secret1 in
  let j2 := open_job e2 sid2 modulus2 secret2 in
  exists p data,
    pool_run (e_grow e1) (overwriting j1 j2) empty_pool = Some p /\
    threads p = [Ended j1; Ended j2] /\ written p = [(0%nat, data); (1%nat, data)] /\
    carries static_crypt data ServerInit (tail (init_fields sid2 modulus2 secret2)).
Proof.
  intros Hg Hx1 Hx2 Hm1 Hs1 Hm2 Hs2 j1 j2.
  destruct (open_in_place e1 sid1 modulus1 secret1 NewPacketWriter) as (w1 & Hb1 & Hc1 & Hl1 & _); try done.
  pose proof (in_place_wcap _ _ _ Hb1) as Hw1. rewrite Hc1 in Hw1.
  destruct (open_in_place e2 sid2 modulus2 secret2 (reset w1)) as (w2 & Hb2 & Hc2 & Hl2 & Hcar); try done.
  pose proof (in_place_wcap _ _ _ Hb2) as Hw2. rewrite Hc2 in Hw2. rewrite Hg in *.
  destruct (overwriting_run (e_grow e1) j1 j2 w1 w2) as (p & Hr & Ht & Hw);
    [reflexivity|reflexivity|exact Hc1|exact Hb1|exact Hw1|congruence|exact Hb2|exact Hw2|congruence|].
  exists p, (Bytes w2). split_and!; [exact Hr|exact Ht|exact Hw|exact Hcar].
Qed.

(** ** Witnesses *)

Definition init_job_1 : job := open_job sample_env 1 (replicate 128 Byte.x01) (replicate 16 Byte.x0a).
Definition init_job_2 : job := open_job sample_env 2 (replicate 128 Byte.x02) (replicate 16 Byte.x0b).

Lemma init_packet_overwritten_witness :
  exists p data,
    pool_run (e_grow sample_env) (overwriting init_job_1 init_job_2) empty_pool = Some p /\
    threads p = [Ended init_job_1; Ended init_job_2] /\ written p = [(0%nat, data); (1%nat, data)] /\
    carries static_crypt data ServerInit
      (tail (init_fields 2 (replicate 128 Byte.x02) (replicate 16 Byte.x0b))).
Proof.
  apply (init_packet_overwritten sample_env sample_env 1 (replicate 128 Byte.x01) (replicate 16 Byte.x0a)
    2 (replicate 128 Byte.x02) (replicate 16 Byte.x0b)); try reflexivity; split; done.
Defined.

(** A send to a client and one to a game server, interleaved statement by statement;
    the garbage collector empties the pool in between. *)
Definition sample_jobs : list job :=
  [send_job sample_env (NewCrypt (go_str "k")) Byte.x03 [FUint32 7; FString (go_str "a")];
   gs_job sample_env Byte.x02 [FUint16 9]].
Definition sample_schedule : list action :=
  (Spawn <$> sample_jobs) ++ flat_map (λ _, [Step 0 0 []; Step 1 0 []]) (seq 0 4) ++ [Clear 0; Step 1 0 []] ++
  replicate 4 (Step 0 0 []).

Lemma pool_isolates_witness :
  exists p, pool_run (e_grow sample_env) sample_schedule empty_pool = Some p /\
    length (written p) = 2%nat /\ NoDup (owned p).
Proof.
  assert ((λ p, length (written p)) <$> pool_run (e_grow sample_env) sample_schedule empty_pool = Some 2%nat) as H
    by (vm_compute; reflexivity).
  apply fmap_Some in H as (p & E & H). exists p. split_and!; [exact E|by symmetry|].
  exact (proj1 (pool_isolates sample_env sample_schedule p E)).
Defined.
