(* ===== verification/Gauge.v ===== *)
(** The gauge [l2auth_active_connections] of [internal/metrics] along a run: what
    it counts, and where it and the table of the clients part. *)
From stdpp Require Import base gmap list numbers strings.
From coqutil Require Import Byte.
From Stdlib Require Import Lia ZArith.
From S2P Require Import Prelude.
From S2P Require Import Effects.
From S2P Require Import GoStd.
From S2P Require Import Keys.
From S2P Require Import Rsa.
From S2P Require Import RateLimiter.
From S2P Require Import BanManager.
From S2P Require Import Authenticator.
From S2P Require Import Metrics.
From S2P Require Import Connections.
From S2P Require Import ClientHandlers.
From S2P Require Import Listeners.
From S2P Require Import System.
From S2P Require Import Safety.
Import BlowfishKeys.
Import SessionKeys.
Local Open Scope Z_scope.

(** By how much the gauge exceeds the number of connections in the table. *)
Definition excess {DB} (w : World DB) : Z :=
  reading ActiveConnections (meters w) - Z.of_nat (length (clients w)).

(** The step takes a client off the table that nobody will count as gone: a
    login's kick that finds the account on a connection. *)
Definition drops {DB} (i : input) (w : World DB) : bool :=
  match i with
  | ILogin n =>
    match tasks w !! n ≫= λ t, kicks t.2 with
    | Some u => existsb (λ c, match heap w !! c with
                              | Some cl => bool_decide (AccountName cl = u) | None => false end) (clients w)
    | None => false
    end
  | _ => false
  end.

Section Gauge.
Context {DB : Type} `{Bcrypt} `{AccountStore DB} (cfg : Config).
Implicit Type w : World DB.

(** The clients dropped without being counted in a run. *)
Fixpoint dropped (ins : list (Env * input)) (w : World DB) : nat :=
  match ins with
  | [] => 0
  | (e, i) :: ins => (if drops i w then 1 else 0) + dropped ins (exec cfg e i w).2
  end.

(** A key is in the table once. *)
Definition table_ok w : Prop := NoDup (clients w).

Lemma remove_key_notin c l : c ∉ l -> remove_key c l = l.
Proof.
  intros Hc. unfold remove_key. induction l as [|c' l IH]; [done|]. apply not_elem_of_cons in Hc as [Hne Hc].
  rewrite filter_cons_True by done. by rewrite IH.
Qed.

Lemma remove_key_length c l : NoDup l -> c ∈ l -> length l = S (length (remove_key c l)).
Proof.
  intros Hd. induction Hd as [|c' l Hn Hd IH]; [by intros ?%elem_of_nil|]. intros Hc. unfold remove_key in *.
  destruct (decide (c' = c)) as [->|Hne].
  - rewrite filter_cons_False by auto. change (filter (λ c', c' <> c) l) with (remove_key c l).
    by rewrite remove_key_notin.
  - apply elem_of_cons in Hc as [->|Hc]; [done|]. rewrite filter_cons_True by done. cbn [length]. by rewrite <- IH.
Qed.

Lemma remove_key_NoDup c l : NoDup l -> NoDup (remove_key c l).
Proof. apply NoDup_filter. Qed.

Lemma excess_routine w w' : routine w w' -> excess w' = excess w /\ clients w' = clients w.
Proof. intros (_ & Hc & Hm). unfold excess. by rewrite Hc, Hm. Qed.
Lemma excess_same w w' :
  clients w' = clients w -> meters w' = meters w -> excess w' = excess w /\ clients w' = clients w.
Proof. intros Hc Hm. unfold excess. by rewrite Hc, Hm. Qed.

(** The entries the loops walk over. *)
Lemma entries_keys e w : env_ok e ->
  (table_ok w -> NoDup (client_entries e w).*1) /\ (forall c, c ∈ (client_entries e w).*1 -> c ∈ clients w).
Proof.
  intros (_ & _ & Ho). unfold client_entries.
  assert (Hs : forall l : list Conn, (omap (λ c, (c,.) <$> heap w !! c) l).*1 `sublist_of` l).
  { induction l as [|c l IH]; [done|]. cbn. destruct (heap w !! c); cbn; by constructor. }
  split.
  - intros Hd. eapply sublist_NoDup; [|apply Hs]. by rewrite Ho.
  - intros c Hc. rewrite <- (Ho (clients w)). eapply elem_of_sublist; [exact Hc|apply Hs].
Qed.

Lemma entries_found e w u : env_ok e ->
  existsb (λ '(_, cl), bool_decide (AccountName cl = u)) (client_entries e w) =
  existsb (λ c, match heap w !! c with Some cl => bool_decide (AccountName cl = u) | None => false end) (clients w).
Proof.
  intros (_ & _ & Ho).
  set (f := λ c, match heap w !! c with Some cl => bool_decide (AccountName cl = u) | None => false end).
  assert (existsb f (clients w) = existsb f (e_order e (clients w))) as ->.
  { apply eq_iff_eq_true. rewrite !existsb_exists. setoid_rewrite <- list_elem_of_In. by setoid_rewrite Ho. }
  unfold client_entries. induction (e_order e (clients w)) as [|c l IH]; [done|].
  cbn [existsb omap list_omap]. unfold f at 1. destruct (heap w !! c) as [cl|]; cbn; by rewrite IH.
Qed.

(** A statement that takes the connection [c] off the table. *)
Lemma remove_spec c w : table_ok w -> c ∈ clients w ->
  table_ok (upd_clients (remove_key c) w) /\ excess (upd_clients (remove_key c) w) = excess w + 1.
Proof.
  intros Hd Hc. split; [by apply remove_key_NoDup|]. unfold excess. cbn [meters clients upd_clients].
  pose proof (remove_key_length c (clients w) Hd Hc). unfold table_ok in *. lia.
Qed.

Lemma dec_spec w : excess (upd_meters (λ log, log ++ [Dec ActiveConnections]) w) = excess w - 1.
Proof. unfold excess. cbn [meters clients upd_meters]. rewrite reading_app.
  change (reading ActiveConnections [Dec ActiveConnections]) with (-1). lia.
Qed.

(** The two statements of a timeout. *)
Lemma expire_spec c w : table_ok w -> c ∈ clients w ->
  let w' := upd_meters (λ log, log ++ [Dec ActiveConnections]) (upd_clients (remove_key c)
              (upd_net (λ evs, evs ++ [Close c]) w)) in
  table_ok w' /\ excess w' = excess w /\ clients w' = remove_key c (clients w).
Proof.
  intros Hw Hc w'. destruct (remove_spec c (upd_net (λ evs, evs ++ [Close c]) w) Hw Hc) as [H1 H2].
  split_and!; [exact H1| |done]. unfold w'. rewrite dec_spec, H2. unfold excess. cbn. lia.
Qed.

Lemma OnTick_counts e w : env_ok e -> table_ok w ->
  table_ok (OnTick cfg e w).2 /\ excess (OnTick cfg e w).2 = excess w.
Proof.
  intros He Hw. destruct (entries_keys e w He) as [Hd Hin]. specialize (Hd Hw).
  unfold OnTick. unfold mbind at 1, M_bind at 1, get. cbv zeta. generalize (UnixNano (e_now e)). intros now.
  generalize 0%nat as i. revert w Hw Hin Hd.
  assert (forall l w i, table_ok w -> (forall c, c ∈ l.*1 -> c ∈ clients w) -> NoDup l.*1 ->
    let w' := (for_each (λ _ '(c, cl), if i64 (now - LastActivityNanos cl) >? client_timeout cfg
      then _ ← emit (Close c); _ ← modify (upd_clients (remove_key c)); tally (Dec ActiveConnections)
      else mret tt) i l w).2 in table_ok w' /\ excess w' = excess w) as Hl; [|intros; by apply Hl].
  induction l as [|[c cl] l IH]; intros w i Hw Hin Hd; [done|].
  cbn [for_each]. apply NoDup_cons in Hd as [Hn Hd]. destruct (_ >? _).
  - destruct (expire_spec c w Hw (Hin c (list_elem_of_here _ _))) as (H1 & H2 & H3).
    unfold mbind, M_bind, emit, tally, modify. cbv beta iota. rewrite <- H2. apply IH; [done| |done].
    intros c' Hc'. rewrite H3. apply list_elem_of_filter. split; [by intros ->|]. apply Hin. by right.
  - apply IH; [done| |done]. intros c' Hc'. apply Hin. by right.
Qed.

Lemma kick_counts e u w : env_ok e -> table_ok w ->
  table_ok (ls_KickAccount e u w).2 /\
  excess (ls_KickAccount e u w).2 = excess w +
    (if existsb (λ c, match heap w !! c with Some cl => bool_decide (AccountName cl = u) | None => false end) (clients w)
     then 1 else 0).
Proof.
  intros He Hw. rewrite <- (entries_found e w u He). destruct (entries_keys e w He) as [_ Hin].
  change (ls_KickAccount e u w) with (kick_loop u (client_entries e w) w). revert Hin.
  induction (client_entries e w) as [|[c cl] l IH]; intros Hin; cbn [kick_loop existsb]; [split; [done|]; cbn; lia|].
  destruct (bool_decide _); cbn [orb]; [|apply IH; intros c' Hc'; apply Hin; by right].
  destruct (remove_spec c (upd_net (λ evs, evs ++ [Close c]) w) Hw (Hin c (list_elem_of_here _ _))) as [H1 H2].
  split; [exact H1|]. exact H2.
Qed.

Lemma OnClose_counts c w : sound w -> table_ok w ->
  table_ok (OnClose c w).2 /\ excess (OnClose c w).2 = excess w.
Proof.
  intros Hs Hw. unfold OnClose. rewrite (M_bind_val get _ w w w eq_refl).
  case_bool_decide as Hc; cbn [negb]; [|by split].
  destruct (remove_spec c w Hw Hc) as [H1 H2]. destruct (sound_clients w Hs c Hc) as [cl Hcl].
  rewrite (M_bind_val (modify _) _ w tt _ eq_refl). set (w1 := upd_clients (remove_key c) w) in *.
  rewrite (M_bind_val (client c) _ w1 cl w1) by (unfold client; cbn [heap w1 upd_clients]; by rewrite Hcl). cbv zeta.
  match goal with |- context [(?m ≫= λ _, tally (Dec ActiveConnections)) w1] =>
    assert (exists w2, m w1 = (Val tt, w2) /\ clients w2 = clients w1 /\ meters w2 = meters w1) as (w2 & E & Hc2 & Hm2)
  end.
  { repeat case_match; by eexists. }
  rewrite (M_bind_val _ _ _ _ _ E). unfold tally, modify. cbn [snd]. destruct (excess_same w1 w2 Hc2 Hm2) as [He _].
  split; [unfold table_ok; cbn; by rewrite Hc2|]. rewrite dec_spec. lia.
Qed.

Lemma OnOpen_counts e c ip entropy w :
  env_ok e -> sound w -> table_ok w -> heap w !! c = None ->
  table_ok (OnOpen cfg e c ip entropy w).2 /\ excess (OnOpen cfg e c ip entropy w).2 = excess w.
Proof.
  intros He Hs Hw Hc.
  destruct (OnOpen_spec cfg e c ip entropy w (proj1 He) (sound_rsa w Hs) (sound_keys w Hs)) as (out & action & w' & -> & Ho).
  unfold open_spec in Ho. destruct (Allow _ _ _), (IsBanned _ _ _ _) as [banned bm]. destruct Ho as (_ & _ & _ & Ho).
  assert (c ∉ clients w) as Hnew by (intros Hin; destruct (sound_clients w Hs c Hin); congruence).
  assert (clients w' = clients w /\ meters w' = meters w \/
    clients w' = insert_key c (clients w) /\ meters w' = meters w ++ [Inc ActiveConnections; Inc ConnectionTotal])
    as [[Hc' Hm]|[Hc' Hm]].
  { destruct (_ && _); [|left; tauto]. destruct (GenerateSessionKey _); [left; tauto|].
    destruct (rsaPool w); [left; tauto|]. destruct Ho as (data & _ & _ & sk & _ & _ & Hc' & Hm & _). by right. }
  - destruct (excess_same w w' Hc' Hm) as [E _]. cbn [snd]. split; [unfold table_ok; by rewrite Hc'|done].
  - unfold insert_key in Hc'. rewrite remove_key_notin in Hc' by done. cbn [snd]. split.
    + unfold table_ok. rewrite Hc'. by constructor.
    + unfold excess. rewrite Hc', Hm, reading_app. cbn [length].
      change (reading ActiveConnections [Inc ActiveConnections; Inc ConnectionTotal]) with 1. lia.
Qed.

(** A statement of a login. *)
Lemma login_counts e n w : env_ok e -> table_ok w ->
  table_ok (login_task cfg e n w).2 /\
  excess (login_task cfg e n w).2 = excess w + (if drops (ILogin n) w then 1 else 0).
Proof.
  intros He Hw. unfold login_task. rewrite (M_bind_val get _ w w w eq_refl). cbn [drops].
  destruct (tasks w !! n) as [[c pc]|]; cbn [mbind option_bind snd]; [|split; [done|cbn; lia]].
  set (m := login_step _ _ _ _ _).
  assert (((pc0 ← m; modify (upd_tasks <[n := (c, pc0)]>)) w).2 = match m w with
    | (Val pc0, w') => upd_tasks <[n := (c, pc0)]> w' | (_, w') => w' end) as ->.
  { unfold mbind, M_bind. by destruct (m w) as [[]]. }
  enough (table_ok (m w).2 /\ excess (m w).2 = excess w + (if match kicks pc with Some u => existsb (λ c,
    match heap w !! c with Some cl => bool_decide (AccountName cl = u) | None => false end) (clients w) | None => false end
    then 1 else 0)) as Hm by (destruct (m w) as [[]]; exact Hm).
  destruct (kicks pc) as [u|] eqn:Hk.
  - destruct pc; try done. cbn [kicks] in Hk. destruct (serverID =? 0) eqn:Ez; [|done]. injection Hk as ->.
    destruct (kick_counts e u w He Hw) as [H1 H2]. unfold m. cbn [login_step]. rewrite Ez.
    change (KickAccount (kick_manager e) u) with (ls_KickAccount (DB := DB) e u).
    unfold mbind, M_bind. by destruct (ls_KickAccount e u w) as [[]].
  - destruct (excess_routine w (m w).2) as [E Hc]; [by apply routine_login_step|].
    split; [unfold table_ok; by rewrite Hc|lia].
Qed.

(** Code of the other listener. *)
Definition same_table w w' : Prop := clients w' = clients w /\ meters w' = meters w.
#[local] Instance same_table_preorder : PreOrder same_table.
Proof. split; [done|]. intros w1 w2 w3 [A1 A2] [B1 B2]. split; congruence. Qed.

Ltac same_steps :=
  repeat first
    [ apply frame_bind; [apply _| |intros ?]
    | apply frame_ret; apply _ | apply frame_get; apply _
    | apply frame_modify; by intros ?
    | apply frame_for_each; [apply _|]; intros ? [? ?]
    | intros ?; unfold gs_client; match goal with |- _ ?w (match ?x with _ => _ end).2 => by destruct x end
    | match goal with |- frame _ (match ?x with _ => _ end) => destruct x end ].

Lemma same_gs_OnClose g : frame same_table (gs_OnClose g).
Proof. unfold gs_OnClose. same_steps. Qed.
Lemma same_gs_OnTick e : frame same_table (gs_OnTick cfg e).
Proof. unfold gs_OnTick, emit. same_steps. Qed.

(** Every input changes the table and the gauge alike, but for a kick. *)
Lemma exec_counts e i w :
  env_ok e -> sound w -> table_ok w -> enabled i w = true ->
  table_ok (exec cfg e i w).2 /\ excess (exec cfg e i w).2 = excess w + (if drops i w then 1 else 0).
Proof.
  intros He Hs Hw Hi.
  assert (Hsame : forall w', excess w' = excess w /\ clients w' = clients w -> table_ok w' /\ excess w' = excess w).
  { intros w' [E Hc]. split; [unfold table_ok; by rewrite Hc|done]. }
  assert (Hframe : forall {A} (m : M (World DB) A), frame same_table m -> table_ok (m w).2 /\ excess (m w).2 = excess w).
  { intros A m Hm. destruct (Hm w). by apply Hsame, excess_same. }
  assert (Hunit : forall {A} (m : M (World DB) A), ((_ ← m; mret tt) w).2 = (m w).2).
  { intros A m. unfold mbind, M_bind. by destruct (m w) as [[]]. }
  destruct i as [c ip ent|c buf|c| |n|g ip|g buf|g| |i|i]; cbn [exec] in *; rewrite ?Hunit;
    [..|by apply login_counts| | | | | |]; cbn [drops]; rewrite ?Z.add_0_r.
  - apply OnOpen_counts; [done..|]. by apply bool_decide_eq_true in Hi.
  - apply Hsame, excess_routine, routine_OnTraffic.
  - by apply OnClose_counts.
  - by apply OnTick_counts.
  - by apply Hsame, excess_same.
  - destruct (aside_gs_OnTraffic cfg e g buf w) as (_ & ? & ?). by apply Hsame, excess_same.
  - apply Hframe, same_gs_OnClose.
  - apply Hframe, same_gs_OnTick.
  - by apply Hsame, excess_same.
  - by apply Hsame, excess_same.
Qed.

Lemma gauge_run ins w w' :
  Forall (λ t, env_ok t.1) ins -> sound w -> table_ok w -> run cfg ins w = Some w' ->
  table_ok w' /\ excess w' = excess w + Z.of_nat (dropped ins w).
Proof.
  intros Hins. revert w. induction Hins as [|[e i] ins He _ IH]; intros w Hs Hw Hrun.
  { injection Hrun as <-. split; [done|]. cbn. lia. }
  pose proof (run_sound cfg [(e, i)] w) as Hs1. cbn [run dropped] in *.
  destruct (enabled i w) eqn:Hi; [|done]. destruct (exec_counts e i w He Hs Hw Hi) as [Hw1 E1].
  destruct (exec cfg e i w) as [o w1]. cbn [snd] in *. destruct (is_panic o) eqn:Hp; [done|].
  destruct (IH w1) as [Hw2 E2]; [|done|done|]; [eapply Hs1; [constructor; [exact He|constructor]|done|done]|].
  split; [done|]. rewrite E2, E1. destruct (drops i w); lia.
Qed.

(** C32: what the gauge of active connections shows: from the start of the server
    and through any run it is the number of connections in the clients' table plus
    the number of clients that kicks have taken off it so far.  So it is right as
    long as nobody is kicked; every kick of an account that is connected leaves it
    one too high, and nothing brings it down again. *)
Theorem gauge_drifts s d gen entropy w0 ins w :
  (forall n k, gen n = Some k -> rsa_ok k) -> length entropy = 320%nat ->
  boot s d gen (Some entropy) = Val w0 ->
  Forall (λ t, env_ok t.1) ins -> run cfg ins w0 = Some w ->
  reading ActiveConnections (meters w) = Z.of_nat (length (clients w)) + Z.of_nat (dropped ins w0).
Proof.
  intros Hgen He Hb Hins Hrun. pose proof (boot_sound _ _ _ _ _ Hgen He Hb) as Hs.
  assert (clients w0 = [] /\ meters w0 = []) as [Hc Hm].
  { unfold boot in Hb. destruct (InitRSAPool gen 32); [|done..]. destruct (GenerateLoginBlowFishKeys _ _); [|done..].
    by injection Hb as <-. }
  destruct (gauge_run ins w0 w Hins Hs) as [_ E]; [|exact Hrun|].
  { unfold table_ok. rewrite Hc. constructor. }
  unfold excess in E. rewrite Hc, Hm in E. cbn in E. lia.
Qed.
End Gauge.

#[local] Existing Instance plain_bcrypt.
#[local] Existing Instance table_store.

Lemma gauge_drifts_witness :
  exists w0 w, boot sample_startup empty_table (λ _, Some (Private small_key)) (Some (replicate 320 Byte.x07)) = Val w0 /\
    run sample_config [(sample_env, IGsOpen 9%positive (go_str "10.0.0.9"))] w0 = Some w /\
    reading ActiveConnections (meters w) = Z.of_nat (length (clients w)) + 0.
Proof.
  destruct (boot sample_startup empty_table (λ _, Some (Private small_key)) (Some (replicate 320 Byte.x07)))
    as [w0|err|] eqn:Eb; [|vm_compute in Eb; discriminate..].
  assert (run sample_config [(sample_env, IGsOpen 9%positive (go_str "10.0.0.9"))] w0
    = Some (gs_OnOpen sample_env 9%positive (go_str "10.0.0.9") w0).2) as Hr.
  { cbn [run enabled]. assert (gs_heap w0 = ∅) as -> by (by apply boot_empty in Eb). reflexivity. }
  exists w0, (gs_OnOpen sample_env 9%positive (go_str "10.0.0.9") w0).2. split; [reflexivity|]. split; [exact Hr|].
  apply (gauge_drifts sample_config sample_startup empty_table (λ _, Some (Private small_key)) (replicate 320 Byte.x07)
    w0 [(sample_env, IGsOpen 9%positive (go_str "10.0.0.9"))] _).
  - intros n k [= <-]. exact small_key_ok.
  - reflexivity.
  - exact Eb.
  - constructor; [exact sample_env_ok|constructor].
  - exact Hr.
Defined.

(** One kick: the account of the only connection is kicked by a login on another;
    the table is empty, the gauge is not. *)
Definition kicked_client : Client := set_Account (go_str "bob") sample_client.
Definition kick_world : World table :=
  upd_meters (λ _, [Inc ActiveConnections; Inc ConnectionTotal])
    (upd_tasks (λ _, [(2%positive, LKickAt 0 (go_str "bob") {| Authenticator.ID := 1; Name := go_str "bob";
        Pwd := []; AccessLevel := 0; LastServer := 0; Banned := false |})])
      (upd_clients (λ _, [1%positive]) (upd_heap (λ _, {[1%positive := kicked_client]})
        (new_world sample_startup empty_table BlowfishKeys.zero_pools [small_key])))).

Lemma kick_is_not_counted :
  let w := (exec sample_config sample_env (ILogin 0) kick_world).2 in
  clients w = [] /\ reading ActiveConnections (meters w) = 1.
Proof. vm_compute. by split. Qed.
