(* ===== verification/Journey.v ===== *)
(** The way of a player through the server, from the first connection to the game
    server that lets him in: each of the steps of the protocol, taken when it is
    due, does what the client waits for, and so does the whole of them. *)
From stdpp Require Import base gmap list numbers strings.
From coqutil Require Import Byte Word.LittleEndianList.
From Stdlib Require Import Lia ZArith.
From S2P Require Import Prelude.
From S2P Require Import Effects.
From S2P Require Import Unicode.
From S2P Require Import PacketReader.
From S2P Require Import PacketWriter.
From S2P Require Import PacketCodec.
From S2P Require Import Blowfish.
From S2P Require Import Crypt.
From S2P Require Import Keys.
From S2P Require Import Rsa.
From S2P Require Import GoStd.
From S2P Require Import Sharding.
From S2P Require Import SessionStore.
From S2P Require Import SessionRegistry.
From S2P Require Import RateLimiter.
From S2P Require Import ServerList.
From S2P Require Import BanManager.
From S2P Require Import GsHandlers.
From S2P Require Import Authenticator.
From S2P Require Import Credentials.
From S2P Require Import Connections.
From S2P Require Import ClientHandlers.
From S2P Require Import Listeners.
From S2P Require Import System.
From S2P Require Import Goroutines.
From S2P Require Import Safety.
Import BlowfishKeys.
Import SessionKeys.
Local Open Scope Z_scope.

(** * What the client sends *)

(** A frame whose body is [plain], of whole blocks, under the session's cipher. *)
Definition sealed (cr : Crypt.Crypt) (plain frame : list byte) : Prop :=
  exists data, CipherRange (cipher cr) plain 0 (Z.of_nat (length plain)) = Some data /\ frame = wire data /\
    (length plain mod 8 = 0)%nat /\ plain <> [] /\ Z.of_nat (length plain) + 2 <= 65535.

Lemma sealed_opens cr plain frame :
  crypt_ok cr -> sealed cr plain frame ->
  exists data, frame = wire data /\ length data = length plain /\ Z.of_nat (length data) + 2 <= 65535 /\
    Decrypt cr data (Z.of_nat (length data)) = Some (true, plain).
Proof.
  intros Hc (data & E & -> & Hm & Hne & Hl).
  destruct (CipherRange_inverse (cipher cr) plain 0 (Z.of_nat (length plain)) Hc)
    as (data' & E' & Hlen & _ & Hd); [unfold is_i64; lia..|].
  rewrite E in E'. injection E' as <-. exists data. rewrite Hlen. split_and!; [done|done|done|].
  unfold Decrypt. rewrite Z.rem_mod_nonneg by lia. change 8 with (Z.of_nat 8). rewrite <- Nat2Z.inj_mod, Hm.
  cbn [Z.of_nat]. destruct (Z.leb_spec (Z.of_nat (length plain)) 0).
  - destruct plain; [done|cbn in *; lia].
  - cbn. by rewrite Hd.
Qed.

(** Any text of whole blocks can be sent. *)
Lemma can_seal cr plain :
  crypt_ok cr -> (length plain mod 8 = 0)%nat -> plain <> [] -> Z.of_nat (length plain) + 2 <= 65535 ->
  exists frame, sealed cr plain frame.
Proof.
  intros Hc Hm Hne Hl. destruct (CipherRange_inverse (cipher cr) plain 0 (Z.of_nat (length plain)) Hc)
    as (data & E & _); [unfold is_i64; lia..|]. exists (wire data), data. by split_and!.
Qed.

(** A reader at the beginning of a packet body. *)
Definition reading (body : list byte) : PacketReader := {| rbuf := body; pos := 0 |}.

Lemma at_reading bs tail : Z.of_nat (length (bs ++ tail)) <= MaxPayload -> at_bytes bs tail (reading (bs ++ tail)).
Proof.
  intros Hl. split; [|done]. unfold reader_ok, rlen, reading, MaxPacketSize, MaxPayload in *. cbn [pos rbuf]. lia.
Qed.

(** What a step changes besides: the rest of the state is as it was, a game server
    that is there stays. *)
Definition services {DB} (w w' : World DB) : Prop :=
  db w' = db w /\ sessions w' = sessions w /\ handoffs w' = handoffs w /\ sem w' = sem w /\
  forall g, is_Some (gs_heap w !! g) -> is_Some (gs_heap w' !! g).

#[local] Instance services_preorder {DB} : PreOrder (@services DB).
Proof.
  split; [intros w; by split_and!|]. intros w1 w2 w3 (A1 & A2 & A3 & A4 & A5) (B1 & B2 & B3 & B4 & B5).
  split_and!; [congruence..|auto].
Qed.

Section Journey.
Context {DB : Type} `{Bcrypt} `{AccountStore DB} (cfg : Config).
Implicit Type w : World DB.

(** After a frame that was handled. *)
Definition handled (e : Env) (c : Conn) (size : nat) w : World DB :=
  upd_net (λ evs, evs ++ [Discard c size]) (upd_heap (alter (set_lastActivity (UnixNano (e_now e))) c) w).

(** A frame the handler of which succeeds. *)
Lemma client_traffic e c cl opcode body frame w w' r' :
  heap w !! c = Some cl -> crypt_ok (cl_Crypt cl) -> sealed (cl_Crypt cl) (opcode :: body) frame ->
  Handle (registry_of cfg e) e c opcode (reading body, w) = (Val tt, (r', w')) ->
  exec cfg e (ITraffic c frame) w = (Val tt, handled e c (length frame) w').
Proof.
  intros Hcl Hcr Hs Hh. destruct (sealed_opens _ _ _ Hcr Hs) as (data & -> & Hlen & Hl & Hd).
  cbn [exec]. unfold mbind at 1, M_bind at 1. unfold registry_of in *.
  rewrite (OnTraffic_frames cfg e c [data] [] (wire data) w);
    [|split_and!; [cbn; by rewrite !app_nil_r|by constructor|done]|by exists cl].
  cbn [run_frames]. unfold client_frame, mbind, M_bind, client. rewrite Hcl, Hd.
  cbn [length] in Hlen. rewrite GetPacketReader_body by (unfold MaxPayload; lia).
  unfold try. unfold reading in Hh. rewrite Hh.
  unfold wire. rewrite length_app, length_le_split. reflexivity.
Qed.

(** ** Steps of a handler *)

Lemma on_fst_val {A B} (m : M PacketReader A) (k : A -> M (PacketReader * World DB) B) a r r' w :
  m r = (Val a, r') -> (on_fst m ≫= k) (r, w) = k a (r', w).
Proof. intros E. apply M_bind_val. unfold on_fst. by rewrite E. Qed.
Lemma on_snd_val {A B} (m : M (World DB) A) (k : A -> M (PacketReader * World DB) B) a r w w' :
  m w = (Val a, w') -> (on_snd m ≫= k) (r, w) = k a (r, w').
Proof. intros E. apply M_bind_val. unfold on_snd. by rewrite E. Qed.
Lemma on_snd_client {B} (k : Client -> M (PacketReader * World DB) B) c cl r w :
  heap w !! c = Some cl -> (on_snd (client c) ≫= k) (r, w) = k cl (r, w).
Proof. intros Hcl. apply on_snd_val. unfold client. by rewrite Hcl. Qed.

(** Two integers, three integers at the beginning of a body. *)
Lemma read_int v tail r :
  is_i32 v -> at_bytes (le_split 4 v) tail r -> exists r', ReadInt32 r = (Val v, r') /\ at_bytes [] tail r'.
Proof. intros Hv Ha. eexists. by apply ReadInt32_at. Qed.

Lemma services_calm w w' : calm w w' -> services w w'.
Proof.
  intros (K1&K2&K3&K4&K5&K6&K7&K8&K9&K10&K11&K12&K13&Km&K14&K15&K16&K17). split_and!; try done.
  intros g [gsc Hg]. specialize (K17 g). rewrite Hg in K17. destruct (gs_heap w' !! g); [by eexists|done].
Qed.

(** The answer to a client, and its object after the packet. *)
Definition told w w' c data : Prop := exists evs, net w' = net w ++ evs /\ AsyncWrite c data false ∈ evs.
Definition after_send (cl : Client) : Client := set_Crypt (mark_updated (cl_Crypt cl)) cl.

Context (e : Env) (Hx : is_u32 (e_xor e)) (Hw : e_write e = None) (c : Conn).

Lemma send_told cl op fields w :
  heap w !! c = Some cl -> crypt_ok (cl_Crypt cl) -> Z.of_nat (packet_size (FByte op :: fields)) <= 65500 ->
  exists data, SendAsync e c op fields w = (Val None, upd_net (λ evs, evs ++ [AsyncWrite c data false])
      (upd_heap (<[c := after_send cl]>) w)) /\
    carries (cl_Crypt cl) data op fields.
Proof.
  intros Hcl Hcr Hsz. destruct (send_packet_spec e w c cl op fields false Hcl Hcr Hx Hsz)
    as (data & plain & _ & _ & Hp & Ht & E).
  exists data. split; [|by exists plain]. unfold SendAsync. rewrite E, Hw. unfold upd_heap, upd_net. cbn. do 2 f_equal.
  rewrite <- (insert_id (heap w) c cl Hcl) at 1. by rewrite alter_insert_eq.
Qed.

(** [handled], on a client that is known. *)
Lemma handled_spec cl size w :
  heap w !! c = Some cl ->
  let w' := handled e c size w in
  heap w' = <[c := set_lastActivity (UnixNano (e_now e)) cl]> (heap w) /\ net w' = net w ++ [Discard c size] /\
  tasks w' = tasks w /\ services w w'.
Proof.
  intros Hcl w'. split_and!; try done. cbn. rewrite <- (insert_id (heap w) c cl Hcl) at 1. by rewrite alter_insert_eq.
Qed.

(** The first packet: the game guard. *)
Lemma traffic_AuthGG cl pad frame w :
  heap w !! c = Some cl -> crypt_ok (cl_Crypt cl) -> is_i32 (cl_SessionID cl) ->
  sealed (cl_Crypt cl) (ClientAuthGG :: le_split 4 (cl_SessionID cl) ++ pad) frame ->
  exists w' data, exec cfg e (ITraffic c frame) w = (Val tt, w') /\ services w w' /\ tasks w' = tasks w /\
    told w w' c data /\ carries (cl_Crypt cl) data ServerAuthGG [FInt32 (cl_SessionID cl)] /\
    heap w' = <[c := set_lastActivity (UnixNano (e_now e)) (after_send (set_State StateAuthedGG cl))]> (heap w).
Proof.
  intros Hcl Hcr Hid Hs. pose proof Hs as (_ & _ & _ & _ & _ & Hl). cbn [length] in Hl.
  destruct (read_int (cl_SessionID cl) pad (reading (le_split 4 (cl_SessionID cl) ++ pad)) Hid) as (r' & Er & _).
  { apply at_reading. unfold MaxPayload. lia. }
  set (w1 := upd_heap <[c := set_State StateAuthedGG cl]> w).
  destruct (send_told (set_State StateAuthedGG cl) ServerAuthGG [FInt32 (cl_SessionID cl)] w1) as (data & Es & Hd);
    [apply lookup_insert_eq|done|vm_compute; discriminate|].
  set (w2 := upd_net _ _) in Es.
  assert (Hw2 : heap w2 !! c = Some (after_send (set_State StateAuthedGG cl))) by apply lookup_insert_eq.
  destruct (handled_spec _ (length frame) w2 Hw2) as (Hh & Hn & Ht & Hsv).
  exists (handled e c (length frame) w2), data. split_and!.
  - eapply client_traffic; [done|done|exact Hs|].
    unfold registry_of. rewrite Handle_registered. cbn [bool_decide]. unfold AuthGG.
    change (bool_decide (ClientAuthGG = ClientAuthGG)) with true. cbn iota.
    rewrite (on_fst_val _ _ _ _ _ _ Er), (on_snd_client _ _ _ _ _ Hcl), Z.eqb_refl. cbn [negb].
    erewrite on_snd_val; [|unfold upd_client, modify; reflexivity].
    assert (upd_heap (alter (set_State StateAuthedGG) c) w = w1) as ->.
    { unfold w1, upd_heap. f_equal. rewrite <- (insert_id (heap w) c cl Hcl) at 1. by rewrite alter_insert_eq. }
    cbn [cl_SessionID]. erewrite on_snd_val; [|exact Es]. reflexivity.
  - exact Hsv.
  - exact Ht.
  - eexists. split; [rewrite Hn; cbn; by rewrite <- app_assoc|]. by left.
  - exact Hd.
  - rewrite Hh. cbn. by rewrite !insert_insert_eq.
Qed.

(** The second packet: the credentials, in one block or two. *)
Definition blocks_ok (block1 : list byte) (block2 : option (list byte)) (pad : list byte) : Prop :=
  length block1 = 128%nat /\
  match block2 with Some b => length b = 128%nat | None => (length pad < 128)%nat end.
Definition login_body (block1 : list byte) (block2 : option (list byte)) (pad : list byte) : list byte :=
  block1 ++ default [] block2 ++ pad.

Lemma read_blocks block1 block2 pad :
  blocks_ok block1 block2 pad -> Z.of_nat (length (login_body block1 block2 pad)) <= MaxPayload ->
  exists r', readLoginBlocks (reading (login_body block1 block2 pad)) = (Val (block1, block2), r').
Proof.
  intros [H1 H2] Hl. unfold login_body in *. set (r := reading _).
  assert (Ha : at_bytes block1 (default [] block2 ++ pad) r) by by apply at_reading.
  pose proof (at_bytes_len _ _ _ Ha) as Hlen. pose proof (at_bytes_advance _ _ _ Ha) as Ha1.
  pose proof (ReadBytes_val r 128 (proj1 Ha) ltac:(lia)) as E1. rewrite H1 in Ha1.
  assert (take (Z.to_nat 128) (rest r) = block1) as Ht.
  { rewrite (proj2 Ha). change (Z.to_nat 128) with 128%nat. rewrite <- H1. apply take_app_length. }
  rewrite Ht in E1. change (Z.of_nat 128) with 128 in Ha1. set (r1 := set_pos _ r) in *.
  unfold readLoginBlocks. erewrite M_bind_val by exact E1. erewrite M_bind_val by reflexivity.
  pose proof (length_rest r1 (proj1 Ha1)) as Hr1. rewrite (proj2 Ha1) in Hr1. cbn [app] in Hr1.
  destruct block2 as [b|]; cbn [from_option] in *; unfold id in *.
  - rewrite length_app in Hr1. destruct (Z.geb_spec (ReadableBytes r1) 128); [|lia].
    pose proof (ReadBytes_val r1 128 (proj1 Ha1) ltac:(lia)) as E2. erewrite M_bind_val by exact E2.
    rewrite (proj2 Ha1). cbn [app]. change (Z.to_nat 128) with 128%nat.
    rewrite <- H2, take_app_length. by eexists.
  - cbn [app] in Hr1. destruct (Z.geb_spec (ReadableBytes r1) 128); [lia|]. by eexists.
Qed.

Lemma traffic_login cl block1 block2 pad frame w :
  heap w !! c = Some cl -> crypt_ok (cl_Crypt cl) -> cl_State cl = StateAuthedGG -> blocks_ok block1 block2 pad ->
  sealed (cl_Crypt cl) (ClientLogin :: login_body block1 block2 pad) frame ->
  exists w', exec cfg e (ITraffic c frame) w = (Val tt, w') /\ services w w' /\
    tasks w' = tasks w ++ [(c, LWait block1 block2)] /\ (exists evs, net w' = net w ++ evs) /\
    heap w' = <[c := set_lastActivity (UnixNano (e_now e)) cl]> (heap w).
Proof.
  intros Hcl Hcr Hst Hb Hs. pose proof Hs as (_ & _ & _ & _ & _ & Hl). cbn [length] in Hl.
  destruct (read_blocks block1 block2 pad Hb) as (r' & Er); [unfold MaxPayload; lia|].
  set (w1 := upd_tasks (λ ts, ts ++ [(c, LWait block1 block2)]) w).
  destruct (handled_spec cl (length frame) w1 Hcl) as (Hh & Hn & Ht & Hsv).
  exists (handled e c (length frame) w1). split_and!.
  - eapply client_traffic; [done|done|exact Hs|].
    unfold registry_of. rewrite Handle_registered.
    change (bool_decide (ClientLogin = ClientAuthGG)) with false.
    change (bool_decide (ClientLogin = ClientLogin)) with true. cbn iota. unfold HandleLogin.
    rewrite (on_snd_client _ _ _ _ _ Hcl), bool_decide_true by done. cbn [negb].
    erewrite M_bind_val; [|unfold try, on_fst; rewrite Er; reflexivity]. reflexivity.
  - exact Hsv.
  - exact Ht.
  - by eexists.
  - exact Hh.
Qed.

(** The login itself. *)
Lemma shape_run_login k pc : frame (@shape DB) (run_login cfg (kick_manager e) k e c pc).
Proof.
  revert pc. induction k as [|k IH]; intros pc; cbn [run_login]; [apply frame_ret; apply _|].
  apply frame_bind; [apply _|apply shape_login_step|apply IH].
Qed.

Lemma login_runs cl block1 block2 u p row D n w rest :
  heap w !! c = Some cl -> crypt_ok (cl_Crypt cl) -> rsa_ok (Private (cl_ScrambledKey cl)) ->
  tasks w !! n = Some (c, LWait block1 block2) -> (sem w < workers cfg)%nat ->
  decodeCredentials (to_lower cfg) (cl_ScrambledKey cl) block1 block2 = Val (u, p) ->
  Authenticate (ParseAddr cfg) (auth cfg) (e_salt e) u p (cl_RemoteIP cl) (db w) = (inr row, D) ->
  Get u (sessions w) = None ->
  exists w' data, run cfg (replicate 13 (e, ILogin n) ++ rest) w = run cfg rest w' /\
    told w w' c data /\ carries (cl_Crypt cl) data ServerLoginOK (login_ok_fields (cl_SessionKey cl)) /\
    heap w' = <[c := after_send (logged_in u row cl)]> (heap w) /\ handoffs w' = handoffs w /\
    forall g, is_Some (gs_heap w !! g) -> is_Some (gs_heap w' !! g).
Proof.
  intros Hcl Hcr Hk Ht Hsem Hd Ha Hg.
  destruct (processLogin_spec cfg (kick_manager e) e c cl Hcr Hx Hw block1 block2 w Hcl Hk Hsem)
    as (w1 & E & _ & _ & Hho & _ & Hspec).
  unfold login_spec in Hspec. rewrite Hd, Ha in Hspec. destruct Hspec as (_ & _ & Hspec).
  unfold TryRegister in Hspec. unfold Get in Hg. rewrite Hg in Hspec.
  destruct Hspec as (_ & _ & Hh & kicks & data & Hn & Hkick & Hdata). rewrite (Hkick eq_refl) in Hn.
  exists (upd_tasks <[n := (c, LDone)]> w1), data. split_and!.
  - by eapply goroutine_runs.
  - exists [AsyncWrite c data false]. split; [exact Hn|by left].
  - exact Hdata.
  - exact Hh.
  - exact Hho.
  - intros g Hgs. pose proof (shape_run_login 13 (LWait block1 block2) w) as Hsh.
    unfold processLogin in E. rewrite E in Hsh. cbn [snd] in Hsh. by apply Hsh.
Qed.

(** The list of servers. *)
Definition key_bytes (k : SessionKey) : list byte := le_split 4 (LoginOkID1 k) ++ le_split 4 (LoginOkID2 k).

Lemma traffic_ServerList cl pad frame w :
  heap w !! c = Some cl -> crypt_ok (cl_Crypt cl) -> name_ok (cl_Account cl) -> SessionKeys.key_ok (cl_SessionKey cl) ->
  cl_State cl = StateAuthedLogin ->
  sealed (cl_Crypt cl) (ClientServerList :: key_bytes (cl_SessionKey cl) ++ pad) frame ->
  let '(counts, has) := GetCharCounts (cl_Account cl) (serverList w) in
  exists w' data, exec cfg e (ITraffic c frame) w = (Val tt, w') /\ services w w' /\ told w w' c data /\
    carries (cl_Crypt cl) data ServerServerList
      (list_fields cfg (GetServers (serverList w)) (cl_LastServer cl) counts has) /\
    heap w' = <[c := set_lastActivity (UnixNano (e_now e)) (after_send (set_State StateServerList cl))]> (heap w).
Proof.
  intros Hcl Hcr Hname (Hk1 & Hk2 & _) Hst Hs. pose proof Hs as (_ & _ & _ & _ & _ & Hl). cbn [length] in Hl.
  destruct (GetCharCounts (cl_Account cl) (serverList w)) as [counts has] eqn:Ec.
  unfold key_bytes in *. rewrite <- app_assoc in *. set (k := cl_SessionKey cl) in *.
  destruct (read_int (LoginOkID1 k) (le_split 4 (LoginOkID2 k) ++ pad) _ Hk1
    (at_reading (le_split 4 (LoginOkID1 k)) (le_split 4 (LoginOkID2 k) ++ pad) ltac:(unfold MaxPayload; lia))) as (r1 & Er1 & Ha1).
  destruct (read_int (LoginOkID2 k) pad r1 Hk2 Ha1) as (r2 & Er2 & _).
  set (w1 := upd_heap <[c := set_State StateServerList cl]> w).
  assert (exists w2, (if negb has then RequestCharacters (kick_manager e) (cl_Account cl) (cl_AccountID cl) else mret tt) w1
    = (Val tt, w2) /\ calm w1 w2) as (w2 & Ereq & Hcalm).
  { destruct has; cbn [negb]; [by exists w1|]. by apply request_characters. }
  assert (Hw2 : heap w2 = heap w1) by apply Hcalm.
  destruct (send_told (set_State StateServerList cl) ServerServerList
    (list_fields cfg (GetServers (serverList w)) (cl_LastServer cl) counts has) w2) as (data & Es & Hd);
    [rewrite Hw2; apply lookup_insert_eq|done|apply list_fields_size, GetServers_Count|].
  set (w3 := upd_net _ _) in Es.
  assert (Hw3 : heap w3 !! c = Some (after_send (set_State StateServerList cl))) by apply lookup_insert_eq.
  destruct (handled_spec _ (length frame) w3 Hw3) as (Hh & Hn & _ & Hsv).
  exists (handled e c (length frame) w3), data. split_and!.
  - eapply client_traffic; [done|done|exact Hs|].
    unfold registry_of. rewrite Handle_registered.
    change (bool_decide (ClientServerList = ClientAuthGG)) with false.
    change (bool_decide (ClientServerList = ClientLogin)) with false.
    change (bool_decide (ClientServerList = ClientServerList)) with true. cbn iota. unfold HandleServerList.
    rewrite (on_snd_client _ _ _ _ _ Hcl), bool_decide_true by done. cbn [negb].
    rewrite (on_fst_val _ _ _ _ _ _ Er1), (on_fst_val _ _ _ _ _ _ Er2). fold k.
    rewrite (proj2 (CheckLoginPair_iff k _ _)) by done. cbn [negb].
    erewrite on_snd_val; [|unfold upd_client, modify; reflexivity].
    assert (upd_heap (alter (set_State StateServerList) c) w = w1) as ->.
    { unfold w1, upd_heap. f_equal. rewrite <- (insert_id (heap w) c cl Hcl) at 1. by rewrite alter_insert_eq. }
    erewrite on_snd_val; [|reflexivity]. cbv zeta. change (serverList w1) with (serverList w). rewrite Ec.
    erewrite M_bind_val.
    2: { instantiate (1 := (r2, w2)). instantiate (1 := tt). destruct has; cbn [negb] in *.
         - injection Ereq as <-. reflexivity.
         - unfold on_snd. by rewrite Ereq. }
    erewrite on_snd_val; [|exact Es]. reflexivity.
  - transitivity w2; [etransitivity; [|by apply services_calm]; done|exact Hsv].
  - destruct Hcalm as (_&_&_&_&_&_&_&_&_&_&_&_&_&_&[kicks Hk]&_). eexists. split.
    + rewrite Hn. cbn [net w3 upd_net upd_heap]. rewrite Hk. cbn [net w1 upd_heap]. by rewrite <- !app_assoc.
    + set_solver.
  - exact Hd.
  - rewrite Hh. cbn [heap w3 upd_net upd_heap]. rewrite Hw2. cbn [heap w1 upd_heap]. by rewrite !insert_insert_eq.
Qed.

(** The choice of a server: the hand-off is made. *)
Definition handoff (cl : Client) (serverID : Z) : Session :=
  {| ExpiresAt := Add (e_now e) (handoffTTL cfg); Key := cl_SessionKey cl; SessionStore.ServerID := serverID;
     AccountID := cl_AccountID cl; Account := cl_Account cl |}.

Lemma traffic_GameServerLogin cl serverID pad frame w :
  heap w !! c = Some cl -> crypt_ok (cl_Crypt cl) -> SessionKeys.key_ok (cl_SessionKey cl) ->
  cl_State cl = StateServerList -> 0 <= serverID < MaxSupportedServers ->
  sealed (cl_Crypt cl) (ClientGameServerLogin :: key_bytes (cl_SessionKey cl) ++ le_split 4 serverID ++ pad) frame ->
  exists w' data, exec cfg e (ITraffic c frame) w = (Val tt, w') /\ told w w' c data /\
    carries (cl_Crypt cl) data ServerPlayOK
      [FInt32 (PlayOkID1 (cl_SessionKey cl)); FInt32 (PlayOkID2 (cl_SessionKey cl))] /\
    handoffs w' = Put (LoginOkID1 (cl_SessionKey cl)) (handoff cl serverID) (handoffs w) /\
    forall g, is_Some (gs_heap w !! g) -> is_Some (gs_heap w' !! g).
Proof.
  intros Hcl Hcr (Hk1 & Hk2 & _) Hst Hsrv Hs. pose proof Hs as (_ & _ & _ & _ & _ & Hl). cbn [length] in Hl.
  unfold key_bytes in *. rewrite <- app_assoc in *. set (k := cl_SessionKey cl) in *.
  destruct (read_int (LoginOkID1 k) (le_split 4 (LoginOkID2 k) ++ le_split 4 serverID ++ pad) _ Hk1
    (at_reading (le_split 4 (LoginOkID1 k)) (le_split 4 (LoginOkID2 k) ++ le_split 4 serverID ++ pad)
      ltac:(unfold MaxPayload; lia))) as (r1 & Er1 & Ha1).
  destruct (read_int (LoginOkID2 k) (le_split 4 serverID ++ pad) r1 Hk2 Ha1) as (r2 & Er2 & Ha2).
  destruct (read_int serverID pad r2) as (r3 & Er3 & _); [unfold is_i32, MaxSupportedServers in *; lia|exact Ha2|].
  set (cl1 := if cl_LastServer cl =? serverID then cl else set_LastServer serverID cl).
  set (D := if cl_LastServer cl =? serverID then db w else UpdateLastServer (cl_Account cl) serverID (db w)).
  set (w1 := upd_handoffs (Put (LoginOkID1 k) (handoff cl serverID))
               (upd_db (λ _, D) (upd_heap (<[c := cl1]>) w))).
  destruct (send_told cl1 ServerPlayOK [FInt32 (PlayOkID1 k); FInt32 (PlayOkID2 k)] w1) as (data & Es & Hd);
    [apply lookup_insert_eq|unfold cl1; by destruct (_ =? _)|vm_compute; discriminate|].
  set (w2 := upd_net _ _) in Es.
  assert (Hw2 : heap w2 !! c = Some (after_send cl1)) by apply lookup_insert_eq.
  exists (handled e c (length frame) w2), data. split_and!.
  - eapply client_traffic; [done|done|exact Hs|].
    unfold registry_of. rewrite Handle_registered.
    change (bool_decide (ClientGameServerLogin = ClientAuthGG)) with false.
    change (bool_decide (ClientGameServerLogin = ClientLogin)) with false.
    change (bool_decide (ClientGameServerLogin = ClientServerList)) with false.
    change (bool_decide (ClientGameServerLogin = ClientGameServerLogin)) with true. cbn iota. unfold GameServerLogin.
    rewrite (on_snd_client _ _ _ _ _ Hcl), bool_decide_true by done. cbn [negb].
    rewrite (on_fst_val _ _ _ _ _ _ Er1), (on_fst_val _ _ _ _ _ _ Er2), (on_fst_val _ _ _ _ _ _ Er3). fold k.
    destruct (Z.ltb_spec serverID 0); [lia|]. destruct (Z.geb_spec serverID MaxSupportedServers); [lia|].
    cbn [orb]. rewrite (proj2 (CheckLoginPair_iff k _ _)) by done. cbn [negb].
    erewrite M_bind_val.
    2: { instantiate (1 := (r3, upd_db (λ _, D) (upd_heap (<[c := cl1]>) w))). instantiate (1 := tt).
         unfold D, cl1. destruct (cl_LastServer cl =? serverID); cbn [negb].
         - unfold mret, M_ret. do 2 f_equal. unfold upd_db, upd_heap. cbn. rewrite insert_id by done. by destruct w.
         - unfold mbind, M_bind, on_snd, upd_client, modify, upd_db, upd_heap. cbn. do 4 f_equal.
           rewrite <- (insert_id (heap w) c cl Hcl) at 1. apply alter_insert_eq. }
    cbv zeta. erewrite on_snd_val; [|unfold modify; reflexivity]. fold (handoff cl serverID). fold w1.
    erewrite on_snd_val; [|exact Es]. reflexivity.
  - eexists. split; [cbn; by rewrite <- app_assoc|]. by left.
  - unfold cl1 in Hd. by destruct (_ =? _).
  - done.
  - done.
Qed.
End Journey.

(** * The whole way *)

Lemma lxor_i32 a b : is_i32 a -> is_i32 b -> is_i32 (Z.lxor a b).
Proof.
  assert (Hs : forall z, is_i32 z <-> Z.shiftr z 31 = 0 \/ Z.shiftr z 31 = -1).
  { intros z. unfold is_i32. rewrite Z.shiftr_div_pow2 by lia.
    pose proof (Z.div_mod z (2 ^ 31) ltac:(lia)). pose proof (Z.mod_pos_bound z (2 ^ 31) ltac:(lia)). lia. }
  rewrite !Hs, Z.shiftr_lxor. by intros [->| ->] [->| ->]; [left|right|right|left].
Qed.

(** What the client of a player sends, with whatever fills up the blocks. *)
Record visit := mkVisit {
  v_pad1 : list byte; v_pad2 : list byte; v_pad3 : list byte; v_pad4 : list byte;
  v_block1 : list byte; v_block2 : option (list byte); v_server : Z;
  v_guard : list byte; v_login : list byte; v_list : list byte; v_choice : list byte }.

Definition well_played (cr : Crypt.Crypt) (sid : Z) (key : SessionKey) (v : visit) : Prop :=
  sealed cr (ClientAuthGG :: le_split 4 sid ++ v_pad1 v) (v_guard v) /\
  blocks_ok (v_block1 v) (v_block2 v) (v_pad2 v) /\
  sealed cr (ClientLogin :: login_body (v_block1 v) (v_block2 v) (v_pad2 v)) (v_login v) /\
  sealed cr (ClientServerList :: key_bytes key ++ v_pad3 v) (v_list v) /\
  0 <= v_server v < MaxSupportedServers /\
  sealed cr (ClientGameServerLogin :: key_bytes key ++ le_split 4 (v_server v) ++ v_pad4 v) (v_choice v).

Definition positive_answer (account : gostring) (l1 id : Z) : list byte :=
  let answer := validate_answer account l1 (Some id) in
  le_split 2 (Z.of_nat (packet_size answer)) ++ (answer ≫= field_bytes).

(** The output only grows. *)
Definition more {DB} (w w' : World DB) : Prop := exists evs, net w' = net w ++ evs.
#[local] Instance more_preorder {DB} : PreOrder (@more DB).
Proof.
  split; [intros w; exists []; by rewrite app_nil_r|].
  intros w1 w2 w3 [l1 E1] [l2 E2]. exists (l1 ++ l2). by rewrite E2, E1, app_assoc.
Qed.
Lemma told_more {DB} (w w' : World DB) c data : told w w' c data -> more w w'.
Proof. intros (evs & E & _). by exists evs. Qed.
Lemma told_within {DB} (w w1 w2 w3 : World DB) c data :
  more w w1 -> told w1 w2 c data -> more w2 w3 -> told w w3 c data.
Proof.
  intros [l1 E1] (l2 & E2 & Hin) [l3 E3]. exists (l1 ++ l2 ++ l3). rewrite E3, E2, E1, <- !app_assoc.
  split; [done|]. apply elem_of_app. right. apply elem_of_app. by left.
Qed.

Section Way.
Context {DB : Type} `{Bcrypt} `{AccountStore DB} (cfg : Config).
Implicit Type w : World DB.

Lemma run_one e i ins w w1 :
  enabled i w = true -> exec cfg e i w = (Val tt, w1) -> run cfg ((e, i) :: ins) w = run cfg ins w1.
Proof. intros Hi E. cbn [run]. by rewrite Hi, E. Qed.

Lemma session_key_eta k : k = mkSessionKey (LoginOkID1 k) (LoginOkID2 k) (PlayOkID1 k) (PlayOkID2 k).
Proof. by destruct k. Qed.

(** The hand-off of a choice, found in time by the game server. *)
Lemma handoff_found e e' cl srv st account l2 p1 p2 :
  shards_ok st -> cl_SessionKey cl = mkSessionKey (LoginOkID1 (cl_SessionKey cl)) l2 p1 p2 ->
  EqualFold (simple_fold cfg) (cl_Account cl) account = true -> e_now e' <= e_now e + handoffTTL cfg ->
  let l1 := LoginOkID1 (cl_SessionKey cl) in
  verdict (simple_fold cfg) (ValidateAndDelete (e_now e') l1 (Put l1 (handoff cfg e cl srv) st)).1 account l1 l2 p1 p2
  = Some (cl_AccountID cl).
Proof.
  intros Hsh Hk Hf Ht l1. unfold ValidateAndDelete, Put. rewrite sh_get_put, decide_True by done.
  unfold After, handoff, Add. cbn [ExpiresAt]. destruct (Z.ltb_spec (e_now e + handoffTTL cfg) (e_now e')); [lia|].
  cbn [fst verdict Account AccountID Key]. by rewrite Hf, bool_decide_true.
Qed.

(** From the packet that opens a session to the login. *)
Lemma way_in c cl w e2 e3 e4 v u p row D rest :
  let n := length (tasks w) in
  let key := cl_SessionKey cl in
  Forall (λ e, is_u32 (e_xor e) /\ e_write e = None) [e2; e3; e4] ->
  heap w !! c = Some cl -> crypt_ok (cl_Crypt cl) -> is_i32 (cl_SessionID cl) ->
  rsa_ok (Private (cl_ScrambledKey cl)) -> (sem w < workers cfg)%nat ->
  sealed (cl_Crypt cl) (ClientAuthGG :: le_split 4 (cl_SessionID cl) ++ v_pad1 v) (v_guard v) ->
  blocks_ok (v_block1 v) (v_block2 v) (v_pad2 v) ->
  sealed (cl_Crypt cl) (ClientLogin :: login_body (v_block1 v) (v_block2 v) (v_pad2 v)) (v_login v) ->
  decodeCredentials (to_lower cfg) (cl_ScrambledKey cl) (v_block1 v) (v_block2 v) = Val (u, p) ->
  Authenticate (ParseAddr cfg) (auth cfg) (e_salt e4) u p (cl_RemoteIP cl) (db w) = (inr row, D) ->
  Get u (sessions w) = None ->
  exists w' cl' guard ok,
    run cfg ([(e2, ITraffic c (v_guard v)); (e3, ITraffic c (v_login v))] ++ replicate 13 (e4, ILogin n) ++ rest) w
      = run cfg rest w' /\
    told w w' c guard /\ carries (cl_Crypt cl) guard ServerAuthGG [FInt32 (cl_SessionID cl)] /\
    told w w' c ok /\ carries (mark_updated (cl_Crypt cl)) ok ServerLoginOK (login_ok_fields key) /\
    heap w' !! c = Some cl' /\ cl_Crypt cl' = mark_updated (cl_Crypt cl) /\ cl_SessionKey cl' = key /\
    cl_Account cl' = u /\ cl_AccountID cl' = Authenticator.ID row /\ cl_State cl' = StateAuthedLogin /\
    handoffs w' = handoffs w /\ forall g, is_Some (gs_heap w !! g) -> is_Some (gs_heap w' !! g).
Proof.
  intros n key Henv Hcl Hcr Hsid Hrsa Hsem Hv1 Hv2 Hv3 Hdec Hauth Hfree.
  rewrite !Forall_cons in Henv. destruct Henv as ([X2 W2] & [X3 W3] & [X4 W4] & _).
  destruct (traffic_AuthGG cfg e2 X2 W2 c cl (v_pad1 v) (v_guard v) w)
    as (w1 & guard & E1 & S1 & T1 & N1 & C1 & H1); [done..|].
  set (cl1 := set_lastActivity _ _) in H1.
  assert (Hcl1 : heap w1 !! c = Some cl1) by (rewrite H1; apply lookup_insert_eq).
  destruct (traffic_login cfg e3 c cl1 (v_block1 v) (v_block2 v) (v_pad2 v) (v_login v) w1)
    as (w2 & E2 & S2 & T2 & N2 & H2); [done..|].
  set (cl2 := set_lastActivity _ _) in H2.
  assert (Hcl2 : heap w2 !! c = Some cl2) by (rewrite H2; apply lookup_insert_eq).
  assert (services w w2) as (Sdb & Sse & Sho & Ssem & Sgs) by by etransitivity.
  destruct (login_runs cfg e4 X4 W4 c cl2 (v_block1 v) (v_block2 v) u p row D n w2 rest)
    as (w3 & ok & E3 & N3 & C3 & H3 & Ho3 & G3);
    [done|done|done|rewrite T2, T1; by apply list_lookup_middle|by rewrite Ssem|done|by rewrite Sdb|by rewrite Sse|].
  assert (M2 : more w w2) by (etransitivity; [by eapply told_more|exact N2]).
  exists w3, (after_send (logged_in u row cl2)), guard, ok. split_and!; try done.
  - cbn [app]. rewrite (run_one e2 (ITraffic c (v_guard v)) _ _ _ eq_refl E1).
    by rewrite (run_one e3 (ITraffic c (v_login v)) _ _ _ eq_refl E2), E3.
  - eapply told_within; [reflexivity|exact N1|]. etransitivity; [exact N2|by eapply told_more].
  - by eapply told_within.
  - rewrite H3. apply lookup_insert_eq.
  - by rewrite Ho3.
  - auto.
Qed.

(** From there to the game server. *)
Lemma way_out c g cl w e5 e6 e7 v account :
  let key := cl_SessionKey cl in
  let request := byte.of_Z PlayerAuthRequest ::
    (validate_request account (LoginOkID1 key) (LoginOkID2 key) (PlayOkID1 key) (PlayOkID2 key) ≫= field_bytes) in
  Forall (λ e, is_u32 (e_xor e) /\ e_write e = None) [e5; e6; e7] -> (1024 <= length (e_buf e7))%nat ->
  heap w !! c = Some cl -> crypt_ok (cl_Crypt cl) -> name_ok (cl_Account cl) -> SessionKeys.key_ok key ->
  cl_State cl = StateAuthedLogin -> shards_ok (handoffs w) -> is_Some (gs_heap w !! g) ->
  sealed (cl_Crypt cl) (ClientServerList :: key_bytes key ++ v_pad3 v) (v_list v) ->
  0 <= v_server v < MaxSupportedServers ->
  sealed (cl_Crypt cl) (ClientGameServerLogin :: key_bytes key ++ le_split 4 (v_server v) ++ v_pad4 v) (v_choice v) ->
  EqualFold (simple_fold cfg) (cl_Account cl) account = true -> field_ok (FString account) ->
  Z.of_nat (length request) + 2 <= 65535 -> e_now e7 <= e_now e6 + handoffTTL cfg ->
  exists w' servers play,
    run cfg [(e5, ITraffic c (v_list v)); (e6, ITraffic c (v_choice v)); (e7, IGsTraffic g (wire request))] w = Some w' /\
    told w w' c servers /\ (exists fields, carries (cl_Crypt cl) servers ServerServerList fields) /\
    told w w' c play /\ carries (mark_updated (cl_Crypt cl)) play ServerPlayOK
      [FInt32 (PlayOkID1 key); FInt32 (PlayOkID2 key)] /\
    exists evs, net w' = net w ++ evs /\
      Write g (positive_answer account (LoginOkID1 key) (cl_AccountID cl)) ∈ evs.
Proof.
  intros key request Henv Hbuf Hcl Hcr Hname Hkok Hst Hsh Hg Hv4 Hv5 Hv6 Hfold Hacc Hlen Httl.
  rewrite !Forall_cons in Henv. destruct Henv as ([X5 W5] & [X6 W6] & [X7 W7] & _).
  pose proof (traffic_ServerList cfg e5 X5 W5 c cl (v_pad3 v) (v_list v) w Hcl Hcr Hname Hkok Hst Hv4) as L4.
  destruct (GetCharCounts _ _) as [counts has]. destruct L4 as (w4 & servers & E4 & S4 & N4 & C4 & H4).
  set (cl4 := set_lastActivity _ _) in H4.
  assert (Hcl4 : heap w4 !! c = Some cl4) by (rewrite H4; apply lookup_insert_eq).
  destruct (traffic_GameServerLogin cfg e6 X6 W6 c cl4 (v_server v) (v_pad4 v) (v_choice v) w4)
    as (w5 & play & E5 & N5 & C5 & H5 & G5); [done..|].
  destruct (validate_traffic cfg e7 g account (LoginOkID1 key) (LoginOkID2 key) (PlayOkID1 key) (PlayOkID2 key) w5)
    as (w6 & E6 & N6); [by apply G5, S4|done|done| |done|].
  { destruct Hkok as (? & ? & ? & ?). unfold validate_request.
    repeat (apply Forall_cons; split; [done|]). by apply Forall_nil. }
  assert (Hv : verdict (simple_fold cfg) (ValidateAndDelete (e_now e7) (LoginOkID1 key) (handoffs w5)).1 account
    (LoginOkID1 key) (LoginOkID2 key) (PlayOkID1 key) (PlayOkID2 key) = Some (cl_AccountID cl)).
  { rewrite H5. apply (handoff_found e6 e7 cl4); [by destruct S4 as (_ & _ & -> & _)|exact (session_key_eta key)|done|done]. }
  rewrite Hv in N6. assert (M56 : more w5 w6) by (eexists; exact N6).
  exists w6, servers, play. split_and!.
  - rewrite (run_one e5 (ITraffic c (v_list v)) _ _ _ eq_refl E4).
    rewrite (run_one e6 (ITraffic c (v_choice v)) _ _ _ eq_refl E5).
    by rewrite (run_one e7 (IGsTraffic g (wire request)) _ _ _ eq_refl E6).
  - eapply told_within; [reflexivity|exact N4|]. etransitivity; [by eapply told_more|exact M56].
  - by eexists.
  - eapply told_within; [by eapply told_more|exact N5|exact M56].
  - exact C5.
  - assert (more w w5) as [evs5 E] by (etransitivity; [by eapply told_more|by eapply told_more]).
    rewrite E, <- app_assoc in N6. eexists. split; [exact N6|]. apply elem_of_app. right. by left.
Qed.

(** What the opening of a connection gives. *)
Lemma opened_client e c ip entropy key w :
  let addr := default InvalidAddr (ParseAddr cfg ip) in
  is_u32 (e_xor e) -> sound w -> rsaPool w <> [] ->
  (Allow (UnixNano (e_now e)) addr (limiter w)).1 = true -> (IsBanned (e_now e) (e_now e) addr (bans w)).1 = false ->
  GenerateSessionKey entropy = inr key ->
  exists out sk w1, let sid := next_session e w in let secret := GetRandomBlowFishKey sid (keyPools w) in
    OnOpen cfg e c ip entropy w = (Val (Some out, ANone), w1) /\ sk ∈ rsaPool w /\
    carries static_crypt out ServerInit (tail (init_fields sid (Modulus sk) secret)) /\
    heap w1 !! c = Some (new_client e ip addr secret sk key sid) /\
    tasks w1 = tasks w /\ handoffs w1 = handoffs w /\ sessions w1 = sessions w /\ db w1 = db w /\
    net w1 = net w /\ sem w1 = sem w /\ gs_heap w1 = gs_heap w.
Proof.
  intros addr Hx Hw Hpool Ha Hb Hk.
  destruct (OnOpen_spec cfg e c ip entropy w Hx (sound_rsa w Hw) (sound_keys w Hw)) as (out & action & w1 & E & Ho).
  unfold open_spec in Ho. fold addr in Ho. destruct (Allow _ _ _) as [allowed lim]. destruct (IsBanned _ _ _ _) as [banned bm].
  cbn [fst] in Ha, Hb. subst allowed banned. rewrite Hk in Ho. cbn [negb andb] in Ho.
  destruct (rsaPool w) as [|k0 ks] eqn:Ep; [done|].
  destruct Ho as (_ & _ & (Ht & Hh & Hs & Hd & Hn & Hsem & _ & _ & Hg & _) & data & -> & -> & sk & Hsk & Hheap & _ & _ & Hc).
  exists data, sk, w1. rewrite Ep in Hsk. split_and!; try done. rewrite Hheap. apply lookup_insert_eq.
Qed.

End Way.

(** * A visit *)

#[local] Existing Instance plain_bcrypt.
#[local] Existing Instance table_store.

Definition visited : World table :=
  (gs_OnOpen sample_env 9%positive (go_str "10.0.0.9") (new_world sample_startup empty_table zero_pools [padded_key])).2.
Definition visit_key : SessionKey := mkSessionKey 0x07070707 0x07070707 0x07070707 0x07070707.

(** The credentials of "a", encrypted with the key of the pool. *)
Definition visit_blocks : list byte * option (list byte) :=
  (System.sample_block 97, Some (replicate 128 Byte.x00)).

Lemma can_visit cr sid : crypt_ok cr ->
  exists v, well_played cr sid visit_key v /\ v_block1 v = visit_blocks.1 /\ v_block2 v = visit_blocks.2.
Proof.
  intros Hc. set (z n := replicate n Byte.x00).
  destruct (can_seal cr (ClientAuthGG :: le_split 4 sid ++ z 3%nat) Hc) as (f1 & H1);
    [reflexivity|done|vm_compute; discriminate|].
  destruct (can_seal cr (ClientLogin :: login_body visit_blocks.1 visit_blocks.2 (z 7%nat)) Hc) as (f2 & H2);
    [reflexivity|done|vm_compute; discriminate|].
  destruct (can_seal cr (ClientServerList :: key_bytes visit_key ++ z 7%nat) Hc) as (f3 & H3);
    [reflexivity|done|vm_compute; discriminate|].
  destruct (can_seal cr (ClientGameServerLogin :: key_bytes visit_key ++ le_split 4 2 ++ z 3%nat) Hc) as (f4 & H4);
    [reflexivity|done|vm_compute; discriminate|].
  exists {| v_pad1 := z 3%nat; v_pad2 := z 7%nat; v_pad3 := z 7%nat; v_pad4 := z 3%nat;
            v_block1 := visit_blocks.1; v_block2 := visit_blocks.2; v_server := 2;
            v_guard := f1; v_login := f2; v_list := f3; v_choice := f4 |}.
  split; [|done]. unfold well_played. by split_and!.
Qed.

