(* ===== verification/Main.v ===== *)
(** [cmd/main.go]: from the settings to a server that is ready, and what a run
    from there keeps true. *)
From stdpp Require Import base gmap list numbers strings.
From coqutil Require Import Byte.
From Stdlib Require Import Lia ZArith.
From S2P Require Import Prelude.
From S2P Require Import Effects.
From S2P Require Import Settings.
From S2P Require Import Database.
From S2P Require Import Keys.
From S2P Require Import Rsa.
From S2P Require Import GoStd.
From S2P Require Import Sharding.
From S2P Require Import RateLimiter.
From S2P Require Import BanManager.
From S2P Require Import Authenticator.
From S2P Require Import Queries.
From S2P Require Import BanStore.
From S2P Require Import Credentials.
From S2P Require Import Connections.
From S2P Require Import ClientHandlers.
From S2P Require Import Listeners.
From S2P Require Import System.
From S2P Require Import Safety.
Import BlowfishKeys.
Import SessionKeys.
Local Open Scope Z_scope.

Section Main.
Context `{Bcrypt} `{Postgres}.
#[local] Existing Instance queries_store.

(** The driver, and the database behind a pool as the queries find it. *)
Context {R Pool : Type}.
Context (ParseConfig : gostring -> error + PoolConfig R) (NewWithConfig : PoolConfig R -> error + Pool)
        (Ping : Pool -> option error) (behind : Pool -> Queries.database).

(** What the machine provides: the number of processors, [rsa.GenerateKey],
    [rand.Read], and tables of the standard library. *)
Context (NumCPU : nat) (gen : nat -> option PrivateKey) (entropy : option (list byte)).
Context (ParseAddr : gostring -> option Addr) (to_lower simple_fold : Z -> Z).

(** The workers of [NewLoginController] (internal/packet/client/login.go). *)
Definition NewLoginController : nat := let workers := (NumCPU * 2)%nat in if (workers <? 8)%nat then 8%nat else workers.

(** What is handed to the constructors. *)
Definition wire (cfg : Settings.Config) : Config :=
  {| workers := NewLoginController;
     auth := NewAuthenticator (Settings.AutoCreateAcc (Settings.account cfg));
     handoffTTL := 30 * Second; client_timeout := 30 * Second; gs_timeout := 30 * Second;
     Connections.ParseAddr := ParseAddr; Connections.to_lower := to_lower; Connections.simple_fold := simple_fold |}.

(** The query of [NewBanManager]. *)
Definition load_bans (db : Queries.database) : error + list (Addr * Time) :=
  match Queries.GetActiveIPBans db with
  | inl err => inl err
  | inr bans => inr ((λ b, (Ip b, ExpiryDate b)) <$> bans)
  end.

Inductive started :=
| Exits (err : error)
| Serves (cfg : Config) (w : World Queries.database)
| Crashes.

(** [main] up to [gnet.Run]; [log.Fatal] exits. *)
Definition main (env : environ) : started :=
  let '(cfg, _) := New env in
  let cfgDB := Settings.database cfg in
  match Database.answer (OpenPool ParseConfig NewWithConfig Ping (Settings.Host cfgDB) (Settings.Port cfgDB)
    (Settings.User cfgDB) (Settings.Pwd cfgDB) (Settings.Name cfgDB) (Settings.SSLMode cfgDB) (go_str "l2auth")
    (Settings.MaxConn cfgDB) (Settings.MaxConnIdleTime cfgDB) (Settings.IdleConn cfgDB)
    (Settings.MaxLifeTime cfgDB)) with
  | inl err => Exits err
  | inr dbPool =>
    let queries := behind dbPool in
    match boot {| Connections.AttemptsLoginCount := Settings.AttemptsLoginCount (Settings.account cfg);
                  Connections.LoginRateLimit := Settings.LoginRateLimit cfg;
                  Connections.GetActiveIPBans := load_bans queries |} queries gen entropy with
    | Val w => Serves (wire cfg) w
    | Fail _ | Panic => Crashes
    end
  end.

Lemma main_Serves env cfg w :
  main env = Serves cfg w ->
  exists pool keys rsa, cfg = wire (New env).1 /\ InitRSAPool gen 32 = Val rsa /\
    w = new_world {| Connections.AttemptsLoginCount := Settings.AttemptsLoginCount (Settings.account (New env).1);
                     Connections.LoginRateLimit := Settings.LoginRateLimit (New env).1;
                     Connections.GetActiveIPBans := load_bans (behind pool) |} (behind pool) keys rsa /\
    boot {| Connections.AttemptsLoginCount := Settings.AttemptsLoginCount (Settings.account (New env).1);
            Connections.LoginRateLimit := Settings.LoginRateLimit (New env).1;
            Connections.GetActiveIPBans := load_bans (behind pool) |} (behind pool) gen entropy = Val w.
Proof.
  unfold main. destruct (New env) as [c bad]. cbn [fst]. destruct (Database.answer _) as [err|pool]; [done|].
  destruct (boot _ _ _ _) as [w'|err|] eqn:Eb; [|done..]. intros [= <- <-]. exists pool.
  pose proof Eb as Eb'. unfold boot in Eb'. destruct (InitRSAPool gen 32) as [rsa|err|]; [|done..].
  destruct (GenerateLoginBlowFishKeys _ _) as [keys|err|]; [|done..].
  exists keys, rsa. by injection Eb' as <-.
Qed.

(** C11: a server that starts is in order and stays so: [main] has taken every
    limit from the settings, holds exactly the bans that are active in the table,
    and through any run from there every client's object, key pool and table stays
    in order, with no input that could make it panic but a header that announces
    less than a header's own length. *)
Theorem main_runs_on env cfg w0 ins w e i seed :
  (forall n k, gen n = Some k -> rsa_ok k) -> entropy = Some seed -> length seed = 320%nat ->
  main env = Serves cfg w0 ->
  Forall (λ t, env_ok t.1) ins -> env_ok e -> run cfg ins w0 = Some w -> enabled i w = true ->
  (workers cfg >= 8)%nat /\
  limit (limiter w0) = i32 (Settings.LoginRateLimit (New env).1) /\
  maxAttempts (bans w0) = Settings.AttemptsLoginCount (Settings.account (New env).1) /\
  (outage (db w0) = None -> forall ip until, ipBans (bans w0) !! ip = Some until <->
     exists c reason, ip_banned (db w0) !! ip = Some (c, reason) /\ clock (db w0) < timestamptz c /\ until = scan c) /\
  sound w /\ (is_panic (exec cfg e i w).1 = true -> crashing i w).
Proof.
  intros Hgen He Hlen Hmain Hins Hen Hrun Hi. apply main_Serves in Hmain as (pool & keys & rsa & -> & _ & Hw & Hb).
  split_and!.
  - cbn. unfold NewLoginController. destruct (Nat.ltb_spec (NumCPU * 2) 8); lia.
  - by subst w0.
  - by subst w0.
  - intros Ho ip until. subst w0. cbn [bans db new_world Connections.GetActiveIPBans] in *.
    unfold load_bans. destruct (Queries.GetActiveIPBans (behind pool)) as [err|l] eqn:Eg.
    + unfold Queries.GetActiveIPBans in Eg. unfold refusal in Eg. rewrite Ho in Eg. done.
    + apply (loads_lookup (behind pool)). exists l. by split.
  - subst entropy. eapply run_sound; [exact Hins| |exact Hrun]. by eapply boot_sound.
  - subst entropy. apply weathers_exec; [done|done|]. eapply run_sound; [exact Hins| |exact Hrun]. by eapply boot_sound.
Qed.

Lemma unset_int env key : Getenv env (go_str key) = [] -> (mustAtoi env key).1 = 0.
Proof. unfold mustAtoi. by intros ->. Qed.

Lemma New_limits env :
  Settings.LoginRateLimit (New env).1 = (mustAtoi env "LOGIN_RATE_LIMIT").1 /\
  Settings.AttemptsLoginCount (Settings.account (New env).1) = (mustAtoi env "ATTEMPTS_LOGIN_COUNT").1.
Proof.
  unfold New, getDatabaseSettings, getAccountSettings. cbv [mbind logged_bind mret logged_ret].
  by destruct (mustAtoi env "LOGIN_RATE_LIMIT"), (mustAtoi env "DB_MAX_CONN"), (mustAtoi env "DB_IDLE_CONN"),
    (mustAtoi env "DB_MAX_LIFETIME"), (mustAtoi env "DB_MAX_CONN_IDLE_TIME"),
    (mustAtoi env "ATTEMPTS_LOGIN_COUNT"), (mustBool env "AUTO_CREATE_ACCOUNT").
Qed.

(** A limit that is not set does not mean "no limit": without
    [LOGIN_RATE_LIMIT] the server starts, and closes every connection as it is
    opened; without [ATTEMPTS_LOGIN_COUNT] it bans an address at its first failed
    login, for five minutes. *)
Theorem unset_limits env cfg w0 :
  main env = Serves cfg w0 ->
  (Getenv env (go_str "LOGIN_RATE_LIMIT") = [] ->
     forall e c ip ent, OnOpen cfg e c ip ent w0 = (Val (None, AClose), w0)) /\
  (Getenv env (go_str "ATTEMPTS_LOGIN_COUNT") = [] ->
     forall ip now t, IsLoopback ip = false -> t <= now + 300 * Second ->
       (IsBanned t t ip (RecordFailure now ip (bans w0))).1 = true).
Proof.
  intros Hmain. apply main_Serves in Hmain as (pool & keys & rsa & -> & _ & Hw & _).
  destruct (New_limits env) as [Hlim Hatt]. split.
  - intros Hunset e c ip ent. rewrite Hlim, (unset_int _ _ Hunset) in Hw. subst w0.
    unfold OnOpen. cbv zeta. unfold mbind, M_bind, get, modify. cbn [limiter new_world Connections.LoginRateLimit].
    assert (HA : forall now a, Allow now a (NewRateLimiter 0 (30 * Second)) = (false, NewRateLimiter 0 (30 * Second))).
    { intros now a. unfold Allow. cbn [shards NewRateLimiter window limit]. rewrite sh_get_empty.
      cbv zeta. cbn [default windowStart zero_entry]. destruct (i64 (now - 0) >=? 30 * Second); reflexivity. }
    rewrite HA. reflexivity.
  - intros Hunset ip now t Hl Ht. rewrite Hatt, (unset_int _ _ Hunset) in Hw. subst w0.
    apply banned_iff; [done|]. cbn [bans new_world Connections.AttemptsLoginCount].
    exists (Add now (300 * Second)). split; [|unfold Add; lia]. unfold RecordFailure. rewrite Hl.
    cbn [attempts maxAttempts banDuration NewBanManager]. rewrite lookup_empty. cbn [default].
    change (i64 (0 + 1) >=? 0) with true. cbn [ipBans]. by rewrite lookup_insert_eq.
Qed.
End Main.

(** * An instance *)
Section Example.
#[local] Existing Instance plain_bcrypt.
#[local] Existing Instance plain_postgres.
#[local] Existing Instance queries_store.

(** A driver that accepts everything, a pool that is the database. *)
Definition sample_parse (_ : gostring) : error + PoolConfig unit :=
  inr {| MaxConns := 4; MinConns := 0; MaxConnLifetime := 0; Database.MaxConnIdleTime := 0;
         HealthCheckPeriod := 0; CacheStatement := true; RuntimeParams := ∅; rest := tt |}.
Definition sample_tables : Queries.database :=
  {| accounts := [ann]; account_id_seq := 3; ip_banned := {[IPv4 7 := (50, [])]}; clock := 0; outage := None |}.

Definition sample_main (env : environ) : started :=
  main sample_parse (λ _, inr sample_tables) (λ _, None) id 4 (λ _, Some (Private small_key))
    (Some (replicate 320 Byte.x07)) (λ _, Some (IPv4 9)) id id env.
Definition sample_settings : environ :=
  [(go_str "LOGIN_RATE_LIMIT", go_str "10"); (go_str "ATTEMPTS_LOGIN_COUNT", go_str "5")].

Lemma sample_main_Serves env : exists cfg w, sample_main env = Serves cfg w /\ gs_heap w = ∅.
Proof.
  unfold sample_main, main. destruct (New env) as [cfg bad]. cbn [Database.answer OpenPool sample_parse].
  destruct (boot _ _ _ _) as [w|err|] eqn:Eb.
  - eexists _, _. split; [reflexivity|]. by apply boot_empty in Eb.
  - unfold boot in Eb. destruct (InitRSAPool _ _) as [rsa|err'|] eqn:Er; [done| |done]. vm_compute in Er. discriminate.
  - unfold boot in Eb. destruct (InitRSAPool _ _) as [rsa|err'|] eqn:Er; [done|done|]. vm_compute in Er. discriminate.
Qed.

Lemma main_runs_on_witness :
  exists cfg w0 w, sample_main sample_settings = Serves cfg w0 /\
    run cfg [(sample_env, IGsOpen 9%positive (go_str "10.0.0.9"))] w0 = Some w /\
    limit (limiter w0) = i32 (Settings.LoginRateLimit (New sample_settings).1) /\ sound w.
Proof.
  destruct (sample_main_Serves sample_settings) as (cfg & w0 & Em & Hg).
  assert (run cfg [(sample_env, IGsOpen 9%positive (go_str "10.0.0.9"))] w0
    = Some (gs_OnOpen sample_env 9%positive (go_str "10.0.0.9") w0).2) as Hr.
  { cbn [run enabled]. rewrite Hg. reflexivity. }
  exists cfg, w0, (gs_OnOpen sample_env 9%positive (go_str "10.0.0.9") w0).2. split; [exact Em|]. split; [exact Hr|].
  unfold sample_main in Em.
  assert (Forall (λ t, env_ok t.1) [(sample_env, IGsOpen 9%positive (go_str "10.0.0.9"))]) as Hok
    by (constructor; [exact sample_env_ok|constructor]).
  assert (forall (n : nat) k, Some (Private small_key) = Some k -> rsa_ok k) as Hk
    by (intros n k [= <-]; exact small_key_ok).
  destruct (main_runs_on sample_parse (λ _, inr sample_tables) (λ _, None) id 4 (λ _, Some (Private small_key))
    (Some (replicate 320 Byte.x07)) (λ _, Some (IPv4 9)) id id sample_settings cfg w0
    [(sample_env, IGsOpen 9%positive (go_str "10.0.0.9"))] _ sample_env ITick (replicate 320 Byte.x07)
    Hk eq_refl eq_refl Em Hok sample_env_ok Hr eq_refl) as (_ & Hl & _ & _ & Hs & _).
  split; [exact Hl|exact Hs].
Defined.

Lemma unset_limits_witness :
  exists cfg w0, sample_main [] = Serves cfg w0 /\
    (forall e c ip ent, OnOpen cfg e c ip ent w0 = (Val (None, AClose), w0)) /\
    (IsBanned 7 7 (IPv4 9) (RecordFailure 5 (IPv4 9) (bans w0))).1 = true.
Proof.
  destruct (sample_main_Serves []) as (cfg & w0 & Em & _). exists cfg, w0. split; [exact Em|].
  unfold sample_main in Em.
  destruct (unset_limits sample_parse (λ _, inr sample_tables) (λ _, None) id 4 (λ _, Some (Private small_key))
    (Some (replicate 320 Byte.x07)) (λ _, Some (IPv4 9)) id id [] cfg w0 Em) as [H1 H2].
  split; [exact (H1 eq_refl)|]. apply (H2 eq_refl); [reflexivity|unfold Second; lia].
Defined.
End Example.
