(* ===== verification/Lifecycle.v ===== *)
(** The life of the server process: the listeners' [OnBoot] and [OnShutdown]
    (internal/listener), the end of [main] (cmd/main.go), from the signal to the exit,
    and what the cancelled context does to the queries of the ban manager
    (internal/service/ban_manager.go).  Everything else the server does goes on in
    between, as in System.v. *)
From stdpp Require Import base gmap list numbers strings.
From coqutil Require Import Byte.
From Stdlib Require Import Lia ZArith.
From S2P Require Import Prelude.
From S2P Require Import Effects.
From S2P Require Import Keys.
From S2P Require Import Rsa.
From S2P Require Import GoStd.
From S2P Require Import BanManager.
From S2P Require Import Authenticator.
From S2P Require Import Metrics.
From S2P Require Import Queries.
From S2P Require Import BanStore.
From S2P Require Import Connections.
From S2P Require Import ClientHandlers.
From S2P Require Import Listeners.
From S2P Require Import System.
From S2P Require Import Safety.
Local Open Scope Z_scope.

(** * What the code does to the database and to the bans

    Nothing but the authenticator's queries and the ban manager's methods: relations
    they respect are respected by every callback, goroutine and collector. *)
Section StoreFrames.
Context {DB : Type} `{Bcrypt} `{AccountStore DB} (cfg : Config) (e : Env).
Context (R : DB -> DB -> Prop) `{!PreOrder R}.
Context (R_authenticate : forall u p ip d, R d (Authenticate (ParseAddr cfg) (auth cfg) (e_salt e) u p ip d).2).
Context (R_last_server : forall u srv d, R d (UpdateLastServer u srv d)).
Context (J : BanManager -> BanManager -> Prop) `{!PreOrder J} (J_step : forall m o, J m (BanManager.step m o)).

Definition stored (w w' : World DB) : Prop := R (db w) (db w') /\ J (bans w) (bans w').
#[local] Instance stored_preorder : PreOrder stored.
Proof. unfold stored. split; [intros w; split; reflexivity|]. intros w1 w2 w3 [A1 A2] [B1 B2]. split; by etrans. Qed.
Definition packet_stored (p q : PacketReader.PacketReader * World DB) : Prop := stored p.2 q.2.
#[local] Instance packet_stored_preorder : PreOrder packet_stored.
Proof. unfold packet_stored. split; [intros p; reflexivity|]. intros p q r A B. by etrans. Qed.

Local Ltac store_steps :=
  repeat first
    [ apply frame_bind; [apply _| |intros ?]
    | apply frame_ret; apply _ | apply frame_fail; apply _ | apply frame_panic; apply _
    | apply frame_get; apply _ | apply frame_ret_err; apply _
    | apply frame_try
    | apply frame_modify; intros ?; split; cbn;
        first [reflexivity | apply R_last_server | exact (J_step _ (OFailure _ _)) | exact (J_step _ (OReset _))]
    | apply frame_on_fst; intros ? ? ?; unfold packet_stored; reflexivity
    | apply (frame_on_snd stored)
    | apply frame_for_each; [apply _|]; intros ? [? ?]
    | intros ?; unfold client, gs_client; match goal with |- stored ?w (match ?x with _ => _ end).2 => by destruct x end
    | progress cbv zeta
    | match goal with |- frame _ (match ?x with _ => _ end) => destruct x end ].

Lemma stored_gs_Send i g op fields : frame stored (gs_Send e i g op fields).
Proof. unfold gs_Send, emit, gs_Touch. store_steps. Qed.
Lemma stored_KickAccount u : frame stored (ls_KickAccount e u).
Proof.
  unfold ls_KickAccount. store_steps. induction (client_entries _ _) as [|[c cl] l IH]; cbn [kick_loop]; unfold emit;
    store_steps; done.
Qed.
Lemma stored_gs_KickAccount u id : frame stored (gs_KickAccount e u id).
Proof.
  unfold gs_KickAccount. apply frame_bind; [apply _|store_steps|]. intros w.
  induction (gs_entries _ _) as [|[g gsc] l IH]; cbn [gs_kick_loop]; [store_steps|].
  destruct (_ =? _); [|done]. apply frame_bind; [apply _|apply stored_gs_Send|]. intros err. store_steps.
Qed.

Lemma stored_Handle c opcode : frame packet_stored (Handle (registry_of cfg e) e c opcode).
Proof.
  unfold registry_of. rewrite Handle_registered. repeat case_bool_decide; [| | | |apply frame_fail, _];
    unfold AuthGG, HandleLogin, HandleServerList, GameServerLogin, sendLoginFail, SendAndCloseAsync, SendAsync,
      send_packet, upd_client, close_conn, emit, RequestCharacters, kick_manager; cbn [OnRequestChars];
    unfold gs_RequestCharacters, gs_Send, emit, gs_Touch; store_steps.
Qed.

Lemma stored_OnTraffic c buf : frame stored (OnTraffic (registry_of cfg e) e c buf).
Proof.
  unfold OnTraffic. apply frame_bind; [apply _|store_steps|]. intros cl. apply frame_frame_loop; [apply _|].
  intros n payload. unfold client_frame. apply frame_bind; [apply _|store_steps|]. intros cl'.
  destruct (Crypt.Decrypt _ _ _) as [[[] data]|]; [|store_steps..].
  destruct data as [|opcode body]; [store_steps|]. destruct (PacketReader.GetPacketReader body) as [reader|err|]; [|store_steps..].
  apply frame_bind; [apply _| |intros []; unfold Touch, upd_client, emit; store_steps].
  apply frame_try. intros w. pose proof (stored_Handle c opcode (reader, w)) as Hh.
  by destruct (Handle _ _ _ _ _) as [o [r' w']].
Qed.

Lemma stored_gs_OnTraffic g buf : frame stored (gs_OnTraffic cfg e g buf).
Proof.
  unfold gs_OnTraffic. apply frame_bind; [apply _|store_steps|]. intros gsc. apply frame_frame_loop; [apply _|].
  intros n payload. unfold gs_frame. destruct payload as [|opcode body]; [store_steps|].
  destruct (PacketReader.GetPacketReader body) as [reader|err|]; [|store_steps..].
  apply frame_bind; [apply _| |intros []; unfold gs_Touch, emit; store_steps].
  apply frame_try. intros w. unfold gs_handle. destruct (gs_heap w !! g) as [gsc'|]; [|cbn; reflexivity].
  destruct (GsHandlers.Handle _ _ _ _ _ _ _) as [o s]. split; cbn; reflexivity.
Qed.

Lemma stored_login_step c pc : frame stored (login_step cfg (kick_manager e) e c pc).
Proof.
  destruct pc; cbn [login_step]; unfold SetAccount, SendAsync, SendAndCloseAsync, send_packet, upd_client, emit, tally,
    KickAccount, KickFromGame, kick_manager; cbn [OnKickLS OnKickGS]; try solve [store_steps].
  - apply frame_bind; [apply _|store_steps|]. intros cl. destruct (Credentials.decodeCredentials _ _ _ _) as [[u p]|err|];
      [|store_steps..]. intros w. unfold mbind, M_bind, get. cbv beta iota.
    pose proof (R_authenticate u p (cl_RemoteIP cl) (db w)) as Hr. destruct (Authenticate _ _ _ _ _ _ _) as [answer d].
    split; [exact Hr|]. cbn. reflexivity.
  - apply frame_bind; [apply _| |intros ?; store_steps].
    destruct (serverID =? 0); [apply stored_KickAccount|apply stored_gs_KickAccount].
Qed.

Lemma stored_OnOpen c ip entropy : frame stored (OnOpen cfg e c ip entropy).
Proof.
  intros w. unfold OnOpen. cbv zeta. rewrite (M_bind_val get _ w w w eq_refl). destruct (RateLimiter.Allow _ _ _) as [allowed lim].
  rewrite (M_bind_val (modify _) _ w tt (upd_limiter (λ _, lim) w) eq_refl). set (w1 := upd_limiter _ w).
  assert (stored w w1) as H1 by (split; cbn; reflexivity).
  destruct allowed; cbn [negb]; [|exact H1]. rewrite (M_bind_val get _ w1 w1 w1 eq_refl).
  pose proof (J_step (bans w1) (OIsBanned (e_now e) (e_now e) (default InvalidAddr (ParseAddr cfg ip)))) as Hb.
  cbn [BanManager.step] in Hb. destruct (IsBanned _ _ _ _) as [banned bm]. cbn [snd] in Hb.
  rewrite (M_bind_val (modify _) _ w1 tt (upd_bans (λ _, bm) w1) eq_refl). set (w2 := upd_bans _ w1).
  assert (stored w w2) as H2 by (etrans; [exact H1|]; split; [cbn; reflexivity|exact Hb]).
  destruct banned; [exact H2|]. etrans; [exact H2|].
  match goal with |- stored _ (?m w2).2 => enough (frame stored m) as Hf by apply Hf end.
  unfold generateSessionID, tally. store_steps.
Qed.

Lemma stored_exec i : frame stored (exec cfg e i).
Proof.
  destruct i as [c ip entropy|c buf|c| |n|g ip|g buf|g| |i|i]; cbn [exec].
  - apply frame_bind; [apply _| |intros ?; store_steps]. apply stored_OnOpen.
  - apply frame_bind; [apply _|apply stored_OnTraffic|intros ?; store_steps].
  - unfold OnClose, tally. store_steps.
  - unfold OnTick, emit, tally. store_steps.
  - unfold login_task. apply frame_bind; [apply _|store_steps|]. intros w. destruct (tasks w !! n) as [[c pc]|]; [|store_steps].
    apply frame_bind; [apply _|apply stored_login_step|intros ?; store_steps].
  - unfold gs_OnOpen. store_steps.
  - apply frame_bind; [apply _|apply stored_gs_OnTraffic|intros ?; store_steps].
  - unfold gs_OnClose. store_steps.
  - unfold gs_OnTick, emit. store_steps.
  - store_steps.
  - store_steps.
Qed.
End StoreFrames.

(** * The process *)

(** A listener as gnet and [main] see it: [Engine] is set, the event loops run, [main]
    has asked for a stop, [stopCh] is closed. *)
Record listener := mkListener { Engine : bool; live : bool; asked : bool; stopCh : bool }.
(** As [NewClientListener] and [NewGameServerListener] leave it. *)
Definition new_listener : listener := {| Engine := false; live := false; asked := false; stopCh := false |}.
Definition OnBoot (l : listener) : listener :=
  {| Engine := true; live := true; asked := asked l; stopCh := stopCh l |}.
(** Closing a closed channel panics. *)
Definition OnShutdown (l : listener) : option listener :=
  if stopCh l then None else Some {| Engine := Engine l; live := live l; asked := asked l; stopCh := true |}.

Inductive port := ClientPort | GsPort.
#[export] Instance port_eq_dec : EqDecision port.
Proof. solve_decision. Defined.

(** Where [main] is: before [<-sigChan]; after [cancel()]; in a call of [Engine.Stop];
    after it; after [dbPool.Close()], or [log.Fatal]. *)
Inductive place := Waiting | Cancelled | Stopping (pt : port) | Stopped (pt : port) | Exited.

#[export] Instance place_eq_dec : EqDecision place.
Proof. solve_decision. Defined.

(** The goroutines of the ban manager that have run are [ran], by their place in the
    journal [spawned]. *)
Record process := mkProcess {
  server : World database; client_listener : listener; gs_listener : listener;
  ran : list nat; ctx_done : bool; main_at : place }.

Definition started_process (w : World database) : process :=
  {| server := w; client_listener := new_listener; gs_listener := new_listener; ran := []; ctx_done := false;
     main_at := Waiting |}.

Definition listener_of (pt : port) (p : process) : listener :=
  match pt with ClientPort => client_listener p | GsPort => gs_listener p end.
Definition set_listener (pt : port) (l : listener) (p : process) : process :=
  {| server := server p; client_listener := match pt with ClientPort => l | GsPort => client_listener p end;
     gs_listener := match pt with ClientPort => gs_listener p | GsPort => l end;
     ran := ran p; ctx_done := ctx_done p; main_at := main_at p |}.
Definition set_server (w : World database) (p : process) : process :=
  {| server := w; client_listener := client_listener p; gs_listener := gs_listener p; ran := ran p;
     ctx_done := ctx_done p; main_at := main_at p |}.
Definition set_main (m : place) (p : process) : process :=
  {| server := server p; client_listener := client_listener p; gs_listener := gs_listener p; ran := ran p;
     ctx_done := ctx_done p; main_at := m |}.

(** The port whose event loops run the code; the goroutines run without. *)
Definition port_of (i : input) : option port :=
  match i with
  | IOpen _ _ _ | ITraffic _ _ | IClose _ | ITick => Some ClientPort
  | IGsOpen _ _ | IGsTraffic _ _ | IGsClose _ | IGsTick => Some GsPort
  | ILogin _ | IHandoffGc _ | ILimiterGc _ => None
  end.

(** What the next statement of [main] does; [answer] is what [Engine.Stop] returns: nil
    only when the event loops have ended, an error (which is logged) at its deadline. *)
Definition err_closed_pool : error := "closed pool"%string.
Definition close_pool (d : database) : database :=
  {| accounts := accounts d; account_id_seq := account_id_seq d; ip_banned := ip_banned d; clock := clock d;
     outage := Some err_closed_pool |}.

(** [if listener.Engine != nil { listener.Engine.Stop(shutdownCtx) }], up to the call. *)
Definition stop_listener (pt : port) (p : process) : process :=
  let l := listener_of pt p in
  if Engine l
  then set_main (Stopping pt)
         (set_listener pt {| Engine := true; live := live l; asked := true; stopCh := stopCh l |} p)
  else set_main (Stopped pt) p.

Definition main_step (answer : option error) (p : process) : option process :=
  match main_at p with
  | Waiting =>
    Some {| server := server p; client_listener := client_listener p; gs_listener := gs_listener p; ran := ran p;
            ctx_done := true; main_at := Cancelled |}
  | Cancelled => Some (stop_listener ClientPort p)
  | Stopping pt =>
    match answer with
    | None => if live (listener_of pt p) then None else Some (set_main (Stopped pt) p)
    | Some _ => Some (set_main (Stopped pt) p)
    end
  | Stopped ClientPort => Some (stop_listener GsPort p)
  | Stopped GsPort => Some (set_main Exited (set_server (upd_db close_pool (server p)) p))
  | Exited => None
  end.

(** [log.Fatal] when [gnet.Run] returns an error: the process exits where it is. *)
Definition listen_fails (p : process) : process := set_main Exited p.

Section Process.
Context `{Bcrypt} `{Postgres} (cfg : Config).
#[local] Existing Instance queries_store.

(** The [n]-th goroutine of the ban manager runs its query; the context it derives from
    [m.ctx] is done once [cancel] has been called, and the query is not executed. *)
Definition store_ban (n : nat) (p : process) : option process :=
  match spawned (bans (server p)) !! n with
  | Some c =>
    if bool_decide (n ∈ ran p) then None else
    Some {| server := if ctx_done p then server p else upd_db (λ d, exec_call d c) (server p);
            client_listener := client_listener p; gs_listener := gs_listener p; ran := n :: ran p;
            ctx_done := ctx_done p; main_at := main_at p |}
  | None => None
  end.

Inductive event :=
| EBoot (pt : port)              (* gnet calls [OnBoot] *)
| EDown (pt : port)              (* gnet ends the event loops and calls [OnShutdown] *)
| EListenFails (pt : port)       (* [gnet.Run] returns an error *)
| EServe (e : Env) (i : input)
| EStore (n : nat)
| EMain (answer : option error).

(** [None] when the event cannot happen, or when it crashes the process. *)
Definition process_step (ev : event) (p : process) : option process :=
  if bool_decide (main_at p = Exited) then None else
  match ev with
  | EBoot pt => if Engine (listener_of pt p) then None else Some (set_listener pt (OnBoot (listener_of pt p)) p)
  | EDown pt =>
    let l := listener_of pt p in
    if live l && asked l then
      l ← OnShutdown l;
      Some (set_listener pt {| Engine := Engine l; live := false; asked := asked l; stopCh := stopCh l |} p)
    else None
  | EListenFails pt => Some (listen_fails p)
  | EServe e i =>
    if match port_of i with Some pt => live (listener_of pt p) | None => true end && enabled i (server p) then
      let '(o, w) := exec cfg e i (server p) in
      if is_panic o then None else Some (set_server w p)
    else None
  | EStore n => store_ban n p
  | EMain answer => main_step answer p
  end.

Definition process_run (evs : list event) (p : process) : option process :=
  foldl (λ o ev, o ≫= process_step ev) (Some p) evs.

Lemma process_run_cons ev evs p : process_run (ev :: evs) p = process_step ev p ≫= process_run evs.
Proof.
  unfold process_run. cbn. destruct (process_step ev p) as [p1|]; [done|]. cbn.
  induction evs as [|ev' evs IH]; [done|exact IH].
Qed.

(** ** The shutdown *)

(** The statements [main] has still to make after the signal. *)
Definition statements_left (m : place) : nat :=
  match m with
  | Waiting => 6 | Cancelled => 5 | Stopping ClientPort => 4 | Stopped ClientPort => 3
  | Stopping GsPort => 2 | Stopped GsPort => 1 | Exited => 0
  end.

Lemma main_step_left answer p p' :
  main_step answer p = Some p' -> (statements_left (main_at p') < statements_left (main_at p))%nat.
Proof.
  unfold main_step, stop_listener.
  destruct (main_at p) as [| |[]|[]|]; try done; repeat case_match; intros [= <-]; cbn; lia.
Qed.

Lemma process_step_left ev p p' :
  process_step ev p = Some p' -> (statements_left (main_at p') <= statements_left (main_at p))%nat.
Proof.
  unfold process_step. case_bool_decide; [done|]. destruct ev as [pt|pt|pt|e i|n|answer].
  - case_match; [done|]. intros [= <-]. destruct pt; cbn; lia.
  - case_match; [|done]. unfold OnShutdown. case_match; [done|]. cbn. intros [= <-]. destruct pt; cbn; lia.
  - intros [= <-]. cbn. lia.
  - destruct (_ && _); [|done]. destruct (exec _ _ _ _) as [o w]. destruct (is_panic o); [done|]. intros [= <-]. cbn. lia.
  - unfold store_ban. case_match; [|done]. case_match; [done|]. intros [= <-]. cbn. lia.
  - intros Hm. apply main_step_left in Hm. lia.
Qed.

Lemma main_step_enabled p err :
  main_at p <> Exited -> exists p', process_step (EMain (Some err)) p = Some p'.
Proof.
  intros Hm. unfold process_step. rewrite bool_decide_false by done. unfold main_step.
  destruct (main_at p) as [| | |[]|]; try done; eauto.
Qed.

(** The statements of [main] among the events. *)
Definition main_events (evs : list event) : nat :=
  length (omap (λ ev, match ev with EMain a => Some a | _ => None end) evs).

Lemma main_events_cons ev evs :
  main_events (ev :: evs) = ((match ev with EMain _ => 1 | _ => 0 end) + main_events evs)%nat.
Proof. unfold main_events. by destruct ev. Qed.

Lemma run_left evs p p' :
  process_run evs p = Some p' -> (main_events evs + statements_left (main_at p') <= statements_left (main_at p))%nat.
Proof.
  revert p. induction evs as [|ev evs IH]; intros p; [intros [= ->]; cbn; lia|].
  rewrite process_run_cons, main_events_cons. destruct (process_step ev p) as [p1|] eqn:E; [|done]. cbn. intros Hr.
  apply IH in Hr. pose proof (process_step_left ev p p1 E) as Hle. destruct ev; try lia.
  unfold process_step in E. destruct (bool_decide _); [done|]. apply main_step_left in E. lia.
Qed.

(** A shutdown comes to its end: in any run of the process [main] makes at most six
    statements, from the signal to the exit, nothing that happens in between takes it
    back, and as long as it has not exited its next statement can be made even if the
    listener it is stopping never stops: [Engine.Stop] then gives up at its deadline,
    the error is logged, and [main] goes on. *)
Theorem shutdown_terminates evs p p' :
  process_run evs p = Some p' ->
  (main_events evs + statements_left (main_at p') <= statements_left (main_at p) <= 6)%nat /\
  (main_at p' = Exited \/
   forall deadline, exists p2, process_step (EMain (Some deadline)) p' = Some p2 /\
     (statements_left (main_at p2) < statements_left (main_at p'))%nat).
Proof.
  intros Hr. split.
  - split; [by apply run_left|]. destruct (main_at p) as [| |[]|[]|]; cbn; lia.
  - destruct (decide (main_at p' = Exited)) as [|He]; [by left|]. right. intros err.
    destruct (main_step_enabled p' err He) as [p2 Hp2]. exists p2. split; [done|].
    unfold process_step in Hp2. rewrite bool_decide_false in Hp2 by done. by apply main_step_left in Hp2.
Qed.

(** ** Bans *)

(** What a query of the authenticator leaves alone. *)
Definition bans_kept (d d' : database) : Prop := ip_banned d' = ip_banned d /\ outage d' = outage d.
#[local] Instance bans_kept_preorder : PreOrder bans_kept.
Proof. unfold bans_kept. split; [by intros d|]. intros d1 d2 d3 [] []. split; congruence. Qed.

Lemma bans_kept_authenticate a salt u p ip d : bans_kept d (Authenticate (ParseAddr cfg) a salt u p ip d).2.
Proof.
  unfold Authenticate, createAccount. cbn [Authenticator.FindAccount Authenticator.RegisterAccount
    Authenticator.UpdateAccountLastIPByName queries_store].
  destruct (Queries.FindAccount u d) as [acc| |err]; [| |done].
  - destruct (negb _); [done|]. destruct (_ || _); [done|]. cbn [snd]. unfold Queries.UpdateAccountLastIPByName.
    by destruct (refusal _ _).
  - destruct (autoCreate a); [|done]. destruct (GenerateFromPassword _ _) as [err|hash]; [done|].
    destruct (Queries.RegisterAccount u hash _ d) as [[err|id] d'] eqn:Er.
    + by apply RegisterAccount_inl in Er as [->| ->].
    + by apply RegisterAccount_inr in Er as (_ & _ & _ & _ & ->).
Qed.

Lemma bans_kept_last_server u srv d : bans_kept d (UpdateLastServer u srv d).
Proof.
  unfold UpdateLastServer. cbn [Authenticator.UpdateAccountLastServer queries_store].
  unfold Queries.UpdateAccountLastServer. by destruct (refusal _ _).
Qed.

(** What a run of the manager's methods adds to the bans, it adds to the journal. *)
Definition journaled (m m' : BanManager) : Prop :=
  exists cs, spawned m' = spawned m ++ cs /\ Forall usual cs /\ ipBans m' = foldl mem_call (ipBans m) cs.
#[local] Instance journaled_preorder : PreOrder journaled.
Proof.
  split.
  - intros m. exists []. by rewrite app_nil_r.
  - intros m1 m2 m3 (cs & A1 & A2 & A3) (cs' & B1 & B2 & B3). exists (cs ++ cs').
    rewrite B1, A1, <- app_assoc, foldl_app, <- A3. split_and!; [done|by apply Forall_app|done].
Qed.

Lemma exec_bans e i w :
  bans_kept (db w) (db (exec cfg e i w).2) /\ journaled (bans w) (bans (exec cfg e i w).2).
Proof.
  apply (stored_exec cfg e bans_kept (λ u p ip d, bans_kept_authenticate _ _ u p ip d) bans_kept_last_server
    journaled step_journal i w).
Qed.

Lemma process_run_snoc evs ev p : process_run (evs ++ [ev]) p = process_run evs p ≫= process_step ev.
Proof. unfold process_run. by rewrite foldl_app. Qed.

(** A context that is done stays so. *)
Lemma ctx_stays_done ev p p' : process_step ev p = Some p' -> ctx_done p = true -> ctx_done p' = true.
Proof.
  unfold process_step. destruct (bool_decide _); [done|]. destruct ev as [pt|pt|pt|e i|n|answer].
  - case_match; [done|]. by intros [= <-].
  - destruct (_ && _); [|done]. destruct (OnShutdown _); [|done]. by intros [= <-].
  - by intros [= <-].
  - destruct (_ && _); [|done]. destruct (exec _ _ _ _) as [o w]. destruct (is_panic o); [done|]. by intros [= <-].
  - unfold store_ban. case_match; [|done]. case_match; [done|]. by intros [= <-].
  - unfold main_step, stop_listener. destruct (main_at p) as [| |[]|[]|]; try done; repeat case_match; by intros [= <-].
Qed.

(** From the signal on the table of the bans is as it is. *)
Lemma bans_frozen ev p p' :
  process_step ev p = Some p' -> ctx_done p = true -> ip_banned (db (server p')) = ip_banned (db (server p)).
Proof.
  intros Hs Hc. revert Hs. unfold process_step. destruct (bool_decide _); [done|]. destruct ev as [pt|pt|pt|e i|n|answer].
  - case_match; [done|]. by intros [= <-].
  - destruct (_ && _); [|done]. destruct (OnShutdown _); [|done]. by intros [= <-].
  - by intros [= <-].
  - destruct (_ && _); [|done]. pose proof (exec_bans e i (server p)) as [[Hb _] _].
    destruct (exec _ _ _ _) as [o w]. destruct (is_panic o); [done|]. by intros [= <-].
  - unfold store_ban. rewrite Hc. case_match; [|done]. case_match; [done|]. by intros [= <-].
  - unfold main_step, stop_listener. destruct (main_at p) as [| |[]|[]|]; try done; repeat case_match; by intros [= <-].
Qed.

Lemma run_frozen evs p p' :
  process_run evs p = Some p' -> ctx_done p = true -> ip_banned (db (server p')) = ip_banned (db (server p)).
Proof.
  revert p. induction evs as [|ev evs IH]; intros p; [by intros [= ->]|]. rewrite process_run_cons. intros Hr Hc.
  destruct (process_step ev p) as [p1|] eqn:E; [|done]. cbn in Hr. rewrite <- (bans_frozen ev p p1 E Hc).
  apply IH; [done|]. by eapply ctx_stays_done.
Qed.

(** The tables as the pool of the next start finds them. *)
Definition reopen (now : Time) (d : database) : database :=
  {| accounts := accounts d; account_id_seq := account_id_seq d; ip_banned := ip_banned d; clock := now;
     outage := None |}.

(** The goroutines of the ban manager that run in the course of the events. *)
Definition stores (evs : list event) : list nat := omap (λ ev, match ev with EStore n => Some n | _ => None end) evs.

Section Restart.
Context (scan_column : forall t, scan (column t) <= t < scan (column t) + 1000).
Context (in_utc : forall c, timestamptz c = scan c).
Context (reason_accepted : Queries.refused (go_str "Too many login attempts") = None).
Context (ip : Addr) (inet_ip : forall ip', inet ip' = Some ip <-> ip' = ip).

(** The first [k] goroutines of the journal have run, and the tables are where the bans
    in memory were then. *)
Definition in_step (t0 : Time) (b0 : gmap Addr Time) (k : nat) (p : process) : Prop :=
  let cs := spawned (bans (server p)) in
  (k <= length cs)%nat /\ Forall usual cs /\ ipBans (bans (server p)) = foldl mem_call b0 cs /\
  outage (db (server p)) = None /\ kept ip t0 (foldl mem_call b0 (take k cs)) (db (server p)) /\
  (main_at p = Waiting \/ main_at p = Exited).

Lemma in_step_step t0 b0 k ev p p' :
  process_step ev p = Some p' -> ctx_done p' = false -> in_step t0 b0 k p ->
  (forall n, ev = EStore n -> n = k) ->
  in_step t0 b0 (match ev with EStore _ => S k | _ => k end) p'.
Proof.
  intros Hs Hc (Hk & Hu & Hb & Ho & Hkept & Hm) Hn. revert Hs. unfold process_step. destruct (bool_decide _); [done|].
  destruct ev as [pt|pt|pt|e i|n|answer].
  - case_match; [done|]. by intros [= <-].
  - destruct (_ && _); [|done]. destruct (OnShutdown _); [|done]. by intros [= <-].
  - intros [= <-]. split_and!; try done. by right.
  - destruct (_ && _); [|done]. pose proof (exec_bans e i (server p)) as [[Hd1 Hd2] (cs & Hs1 & Hs2 & Hs3)].
    destruct (exec _ _ _ _) as [o w]. destruct (is_panic o); [done|]. intros [= <-]. cbn [snd server set_server] in *.
    unfold in_step. cbn [server set_server]. rewrite Hs1, Hs3, Hd2, Hb, foldl_app, take_app_le by done.
    split_and!; [rewrite length_app; lia|by apply Forall_app|done|done| |done]. unfold kept in *. by rewrite Hd1.
  - specialize (Hn n eq_refl). subst n. unfold store_ban.
    destruct (spawned (bans (server p)) !! k) as [c|] eqn:Ec; [|done]. case_match; [done|]. intros [= <-]. cbn [ctx_done] in Hc.
    unfold in_step. cbn [server]. rewrite Hc. cbn [bans upd_db db].
    destruct (call_kept scan_column reason_accepted ip inet_ip t0 _ _ c Ho (Forall_lookup_1 _ _ _ _ Hu Ec) Hkept) as [Hk1 Ho1].
    split_and!; [by eapply lookup_lt_Some|done|done|done| |done]. by rewrite (take_S_r _ _ _ Ec), foldl_app.
  - unfold main_step. destruct Hm as [-> | ->]; [|done]. by intros [= <-].
Qed.

Lemma run_in_step t0 evs k p p' :
  process_run evs p = Some p' -> ctx_done p' = false -> in_step t0 (ipBans (bans (server p))) 0 p ->
  stores evs = seq 0 k -> in_step t0 (ipBans (bans (server p))) k p'.
Proof.
  intros Hr Hc Hp. revert k p' Hr Hc. induction evs as [|ev evs IH] using rev_ind; intros k p' Hr Hc Hk.
  { injection Hr as <-. by destruct k. }
  rewrite process_run_snoc in Hr. destruct (process_run evs p) as [p1|] eqn:E; [|done]. cbn in Hr.
  assert (Hc1 : ctx_done p1 = false).
  { destruct (ctx_done p1) eqn:Hc1; [|done]. by rewrite (ctx_stays_done ev p1 p' Hr Hc1) in Hc. }
  unfold stores in Hk. rewrite omap_app in Hk.
  destruct ev as [pt|pt|pt|e i|n|answer]; cbn [omap list_omap] in Hk; rewrite ?app_nil_r in Hk;
    try (by apply (in_step_step t0 _ k _ p1 p' Hr Hc); [apply IH|]).
  destruct k as [|k]; [by destruct (omap _ evs)|]. rewrite seq_S in Hk. apply app_inj_2 in Hk as [Hk Hn]; [|done].
  injection Hn as ->. apply (in_step_step t0 _ k (EStore k) p1 p' Hr Hc); [by apply IH|]. intros n. congruence.
Qed.

End Restart.

(** The statement of a login that records a failure. *)
Lemma exec_failed e k w c cl err :
  tasks w !! k = Some (c, LFailed err) -> heap w !! c = Some cl ->
  exists w', exec cfg e (ILogin k) w = (Val tt, w') /\
    bans w' = RecordFailure (e_now e) (cl_RemoteAddr cl) (bans w) /\ db w' = db w.
Proof.
  intros Ht Hcl. cbn [exec]. unfold login_task. rewrite (M_bind_val get _ _ _ _ eq_refl), Ht. cbn [login_step].
  eexists. unfold mbind, M_bind, client. rewrite Hcl. split; [reflexivity|]. done.
Qed.

(** C30: a ban that is imposed while the server shuts down is forgotten: [main] cancels
    the context of the ban manager before it stops the listeners; a login that fails
    after that still bans the address in memory, but whatever happens until the process
    exits, the ban is not stored, and the next start of the server lets the address in. *)
Theorem ban_lost_at_shutdown p e k c cl err :
  let ip := cl_RemoteAddr cl in
  let m := bans (server p) in
  ctx_done p = true -> main_at p <> Exited ->
  tasks (server p) !! k = Some (c, LFailed err) -> heap (server p) !! c = Some cl ->
  IsLoopback ip = false -> 0 <= default 0 (attempts m !! ip) < 2 ^ 63 - 1 ->
  maxAttempts m <= default 0 (attempts m !! ip) + 1 -> ip_banned (db (server p)) !! ip = None ->
  exists p1, process_step (EServe e (ILogin k)) p = Some p1 /\
    (forall t, t <= e_now e + banDuration m -> (IsBanned t t ip (bans (server p1))).1 = true) /\
    forall evs p' t1 rows n dur t, process_run evs p1 = Some p' ->
      loads (reopen t1 (db (server p'))) rows -> (IsBanned t t ip (NewBanManager (inr rows) n dur)).1 = false.
Proof.
  intros ip m Hc Hm Ht Hcl Hl Ha Hmax Hno. unfold process_step. rewrite bool_decide_false by done.
  cbn [port_of enabled andb]. destruct (exec_failed e k (server p) c cl err Ht Hcl) as (w & Ew & Hbm & Hd).
  rewrite Ew. cbn [is_panic]. eexists. split; [reflexivity|]. split.
  - intros t Htt. cbn [server set_server]. rewrite Hbm. apply banned_iff; [done|].
    exists (Add (e_now e) (banDuration m)). split; [|unfold Add; lia]. fold ip. unfold RecordFailure. rewrite Hl. fold m.
    rewrite i64_small by (unfold is_i64; lia).
    destruct (Z.geb_spec (default 0 (attempts m !! ip) + 1) (maxAttempts m)); [|lia]. cbn [ipBans]. by rewrite lookup_insert_eq.
  - intros evs p' t1 rows n dur t Hr Hrows. apply run_frozen in Hr; [|done]. cbn [server set_server] in Hr.
    apply not_true_iff_false. rewrite banned_iff by done. intros (u & Hu & _).
    apply (loads_lookup _ _ _ _ _ _ Hrows) in Hu as (col & reason & Hcol & _). cbn [ip_banned reopen] in Hcol.
    rewrite Hr, Hd in Hcol. congruence.
Qed.
End Process.

(** * An instance *)
Section Example.
#[local] Existing Instance plain_bcrypt.
#[local] Existing Instance plain_postgres.
#[local] Existing Instance queries_store.

(** A server on empty tables that bans at the first failure, and a login of a client
    that has just failed. *)
Definition strict_startup : Startup :=
  {| AttemptsLoginCount := 1; LoginRateLimit := 10; GetActiveIPBans := inr [] |}.
Definition failing_server : World database :=
  upd_tasks (λ _, [(1%positive, LFailed ErrInvalidPassword)])
    (upd_heap (λ _, {[1%positive := sample_client]}) (new_world strict_startup (schema 0) BlowfishKeys.zero_pools [small_key])).

Lemma failing_loads : loads (db failing_server) [].
Proof. exists []. by split. Qed.

(** It bans the address, and the goroutine stores the ban. *)
Definition banning : list event := [EBoot ClientPort; EServe sample_env (ILogin 0); EStore 0].
Definition first_ban : db_call :=
  BanManager.AddIPBan (IPv4 0x0a000001) (unix_epoch + 1300 * Second) (go_str "Too many login attempts").

Lemma banning_run : exists p, process_run sample_config banning (started_process failing_server) = Some p /\
  ctx_done p = false /\ spawned (bans (server p)) = [first_ban] /\ db (server p) = exec_call (schema 0) first_ban.
Proof.
  destruct (exec_failed sample_config sample_env 0 failing_server 1%positive sample_client ErrInvalidPassword)
    as (w & Ew & Hb & Hd); [reflexivity|reflexivity|].
  assert (spawned (bans w) = [first_ban]) as Hs by (rewrite Hb; vm_compute; reflexivity).
  set (p1 := set_listener ClientPort (OnBoot new_listener) (started_process failing_server)).
  assert (process_run sample_config banning (started_process failing_server)
    = process_step sample_config (EStore 0) (set_server w p1)) as ->.
  { unfold banning. rewrite process_run_cons.
    change (process_step sample_config (EBoot ClientPort) (started_process failing_server)) with (Some p1).
    cbn [mbind option_bind]. rewrite process_run_cons. unfold process_step at 1.
    change (server p1) with failing_server. rewrite Ew. cbn [is_panic].
    rewrite bool_decide_false by discriminate. cbn [port_of listener_of p1 set_listener client_listener OnBoot live enabled andb].
    cbn [mbind option_bind]. rewrite process_run_cons. by destruct (process_step _ _ _). }
  unfold process_step. rewrite bool_decide_false by discriminate. unfold store_ban. cbn [server set_server].
  rewrite Hs. cbn [lookup list_lookup ran set_server p1 set_listener started_process]. rewrite bool_decide_false by set_solver.
  eexists. split; [reflexivity|]. cbn [ctx_done set_server p1 set_listener started_process server bans db upd_db]. rewrite Hd. by split_and!.
Qed.


Lemma ban_lost_at_shutdown_witness :
  exists p p1, process_step sample_config (EMain None) (started_process failing_server) = Some p /\
    process_step sample_config (EServe sample_env (ILogin 0)) p = Some p1 /\
    (forall t, t <= e_now sample_env + 300 * Second -> (IsBanned t t (IPv4 0x0a000001) (bans (server p1))).1 = true) /\
    forall evs p' t1 rows n dur t, process_run sample_config evs p1 = Some p' ->
      loads (reopen t1 (db (server p'))) rows ->
      (IsBanned t t (IPv4 0x0a000001) (NewBanManager (inr rows) n dur)).1 = false.
Proof.
  eexists. destruct (ban_lost_at_shutdown sample_config
    {| server := failing_server; client_listener := new_listener; gs_listener := new_listener; ran := [];
       ctx_done := true; main_at := Cancelled |} sample_env 0 1%positive sample_client ErrInvalidPassword)
    as (p1 & H1 & H2 & H3); try reflexivity; try done.
  exists p1. split; [reflexivity|]. split; [exact H1|]. split; [exact H2|exact H3].
Defined.

(** Both listeners run when the signal comes; the client listener does not stop in time. *)
Definition shutdown : list event :=
  [EBoot ClientPort; EBoot GsPort; EMain None; EMain None; EMain (Some "context deadline exceeded"%string);
   EMain None; EDown GsPort; EMain None; EMain None].

Lemma shutdown_terminates_witness :
  exists p, process_run sample_config shutdown (started_process failing_server) = Some p /\ main_at p = Exited /\
    (main_events shutdown + statements_left (main_at p)
       <= statements_left (main_at (started_process failing_server)) <= 6)%nat.
Proof.
  assert (exists p, process_run sample_config shutdown (started_process failing_server) = Some p /\ main_at p = Exited)
    as (p & E & Hm) by (eexists; split; reflexivity).
  exists p. split; [exact E|]. split; [exact Hm|].
  exact (proj1 (shutdown_terminates sample_config shutdown (started_process failing_server) p E)).
Defined.
End Example.
